(* ===== verification/_CoqProject ===== *)
-Q . S2P
Prelude.v
Text.v
Types.v
Logging.v
Api.v
Bucket.v
StorageBackend.v
Storage.v
Decision.v
StorageUpdates.v
InMemoryStorageBackend.v
StorageTheorems.v
Md5.v
StorageSerialization.v
FileSystem.v
Persistence.v
CrashSafety.v
PersistenceTheorems.v
BinaryQueue.v
Serialization.v
Frame.v
Messages.v
ProtocolClient.v
ProtocolAdmin.v
ProtocolAgent.v
Protocols.v
Typing.v
SocketManager.v
SocketInit.v
SocketClient.v
ConnectionTheorems.v
SocketInitTheorems.v
ClientTheorems.v
EntriesQueue.v
Monitor.v
PluginManager.v
CapacityCache.v
CacheTheorems.v
ClientLogic.v
ClientLogicTheorems.v
StaleDecisions.v
SequenceContainer.v
AsyncLogic.v
AsyncTheorems.v
AsyncDemo.v
ClientHandles.v
Agents.v
PendingChecks.v
PluginLibraries.v
Service.v
ServiceLemmas.v
ServiceDemo.v
ServiceSafety.v
ServiceTheorems.v
ServiceErrors.v
PluginLibrariesTheorems.v
PolicyChange.v
FileLock.v
OfflineLogic.v
OnlineLogic.v
AdminLogic.v
AdminTheorems.v
AdminCrashSafety.v
AgentLogic.v
AgentTheorems.v
AgentRegistration.v
MonitorLibrary.v
MonitorTheorems.v
MonitorDemo.v
CyadOptions.v
CyadParser.v
CyadLogic.v
CyadTheorems.v
Chsgen.v
ChsgenTheorems.v
ServiceMain.v
ServiceMainTheorems.v
Creds.v
CredsTheorems.v
Deployment.v
