(* ===== verification/Prelude.v ===== *)
(** * Cynara: verification development

    Cynara decides whether a client (an application of a user) holds a privilege.  A
    service keeps a database of policies and answers requests over local sockets;
    libraries for clients, administrators, agents and monitors talk to it.

    ** The parts and where they are modelled

    Policies and their store
    - [Types]: keys, results, policies, limits ([src/src/common/types]).
    - [Bucket]: [PolicyBucket]: a hash map from glued keys; [filtered] looks a request up
      under its eight variants.  [HashOrder] (in [Prelude]) is an arbitrary iteration order of
      the hash maps; every theorem holds for all of them.
    - [StorageBackend]: the interface of a back end as a class, its contract
      ([StorageBackendLaws]) in terms of an abstract store ([view], a map from bucket ids
      to a default and a set of rules).
    - [Storage]: [Storage.cpp] over the interface; [Decision] and [StorageUpdates] refine it to
      the abstract store; [InMemoryStorageBackend] implements the interface and proves the
      contract; [StorageTheorems] has the theorems.

    The database on disk
    - [Md5] ([external/md5.c]), [StorageSerialization] (the text of index and bucket files),
      [Persistence] ([Integrity], [ChecksumValidator], [load] and [save] of
      [InMemoryStorageBackend.cpp]) on [FileSystem], a model of a directory with inodes, hard
      links, [fsync], faults of system calls, writes that are lost and power failures.
      [CrashSafety] follows [save] through all interruptions; [PersistenceTheorems] has the theorems.

    Messages
    - [BinaryQueue] ([common/containers]), [Serialization], [Frame] ([common/protocol]),
      [Messages] (the request and response classes as constructors), [ProtocolClient],
      [ProtocolAdmin], [ProtocolAgent] (also the monitor and signal protocols), [Protocols] (the
      five protocols as one interface, and streams of messages), [Typing].

    Connections
    - [SocketManager]: the service's end ([service/sockets]); [SocketClient]: the client's end
      ([common/sockets]); [ConnectionTheorems] and [ClientTheorems].

    - [SocketInit]: the listening sockets, sockets handed over by systemd and the main loop
      around [select], over a class of system calls ([SocketSystem]); [SocketInitTheorems].

    The service
    - [EntriesQueue], [Monitor] ([service/monitor]), [PluginManager] ([common/plugin]), [Agents]
      ([service/agent], [service/request]), [Service] ([service/logic/Logic.cpp]: one
      definition per handler, [Logic_execute] for the dispatch of [RequestTaker]).  The state of
      a running service is a pair of the [SocketManager] and the [Service] record, because
      handlers queue responses on the connections and a change of the policies closes
      connections.  [PendingChecks], [ServiceLemmas], [ServiceDemo] (a small service for
      the witnesses), [ServiceSafety] (the requests of clients and agents end without
      undefined behaviour), [ServiceTheorems], [ServiceErrors], [PolicyChange].
    - [PluginLibraries]: the directory of plugins, their libraries, and the pointers that keep the
      plugins alive until the service has ended; [PluginLibrariesTheorems].
    - [ServiceMain]: its process ([service/main]): the command line, the daemon, the order in
      which rights are given up, and the life of the object [Cynara]: [init], [run] with the
      handlers of [Service], [finalize].  [ServiceMainTheorems].

    The client library
    - [Api] (error codes, the exception barrier), [CapacityCache] ([client-common/cache]),
      [ClientLogic] ([client/logic], [client/api]), [CacheTheorems], [ClientLogicTheorems],
      [StaleDecisions].
    - [ClientHandles]: the configuration and the handles of this library and the asynchronous one.

    The asynchronous client library ([client-async])
    - [SequenceContainer] (the numbers of pending checks), [AsyncLogic] (pending checks, the
      socket, the client's callbacks, which may call the library again), [AsyncTheorems],
      [AsyncDemo].

    The administration library and its tool
    - [FileLock] ([common/lock]), [OfflineLogic] and [OnlineLogic] ([admin/logic]: with and
      without the service; the first uses [Storage] and [Persistence] as the service does, the
      second the client's end of a socket), [AdminLogic] (which of the two, and
      [admin/api]), [AdminTheorems], [AdminCrashSafety].
    - [CyadOptions], [CyadParser] ([cyad/CommandlineParser]), [CyadLogic] (the commands, over
      [BaseAdminApiWrapper], an interface that [AdminLogic] implements), [CyadTheorems].
    - [Chsgen]: the generator of check sums ([chsgen]); [ChsgenTheorems] compares what it prints
      with what [Persistence] accepts.

    Credentials of clients
    - [Creds]: the libraries of [helpers] that name a client, a user and a session;
      [CredsTheorems].

    The agent library ([agent])
    - [AgentLogic], [AgentTheorems], [AgentRegistration].

    The monitor library ([monitor])
    - [MonitorLibrary]: the calls of several threads on one object as sequences of steps.  A
      critical section is one step, and so is an operation on the socket; threads that race
      inside the socket object are not modelled.  [MonitorTheorems], [MonitorDemo].

    Logs and texts
    - [Logging]: the level of the log, the lines of the audit journal, the messages of the
      exceptions and back traces ([common/log], [common/exceptions]).

    All of it at work
    - [Deployment]: the client library on a system in which the service runs.  Its system calls
      are turns of the service's main loop: what the client sends is what the service reads,
      what the service writes is what the client receives, a closed connection is a hang-up,
      connecting is accepting.  Who runs when and moves how many bytes is an arbitrary list of
      turns.

    ** How the code is represented

    A function without side effects is an [outcome]: [Ret], [Throw] of an exception, or
    [OutOfFuel].  A method is an [SE S]: state in, outcome and state out, where what an
    exception leaves behind is part of the result.  [UndefinedBehaviour] is the
    "exception" of what C++ leaves undefined (a null pointer called through, an index out of
    range, an iterator used after its element is gone): no handler of the model catches it.
    Integers are [Z] with their width written out ([wrap_unsigned], [to_signed]); bytes and
    strings are [string].  Hash maps are [gmap] with a [HashOrder]; [std::map] iterates in key
    order; iterators into lists are node numbers.  System calls, plugins and the file
    system's faults are arguments: a function, a class ([Host], [ClientPlugins]) or a script of
    results, and the theorems hold for all of them.

    ** Fuel

    Recursion that is not structural takes fuel, and for each there is a theorem that enough
    of it gives a result: the recursion over links ([check_returns]: the number of
    buckets on acyclic stores), the worklist of [erasePolicies] ([erasePolicies_returns]),
    the reading loop of a connection ([handleRead_returns]: one round per byte, and the
    recursion over links of the requests read), the waiting of
    a client ([responses_delivered]: one round per piece of the answer).  The libraries take
    three bounds on what the system makes them repeat: [fuel] for the pieces one read finds,
    [rounds] for the wake-ups without a whole response, [tries] for the reconnections;
    [agent_requests_delivered], [agent_registers] and [monitor_entries_delivered] say how much
    is enough for an arrival in given pieces.  Calls from callbacks of callbacks are bounded by a
    depth in [requests_called_back_once], which holds for every depth.  The threads of the
    monitor need no fuel: a run is a sequence of steps, and [monitor_calls_end] says that it
    is finite.  The options of a command line are as many as [fuel] in
    [set_policy_command], [group_after_user] and [chsgen_checksums_accepted]; in
    [dbus_libraries_agree] the same holds of the entries of a reply.  The main loop of the
    service ends when it is told to: [sigterm_stops] needs one of its [rounds].  In
    [check_end_to_end] and [revocation_reaches_client] the client's bounds are the number of
    turns and the length of the request, and the turns are fair: enough of each kind to carry
    the request and the response even byte by byte.  Where the code
    does not terminate there is a theorem that no fuel is enough ([self_link_diverges]).

    ** What the theorems show

    - The whole: [check_end_to_end] (what a client is told is what the service's storage decides,
      however the bytes travel), [revocation_reaches_client] (after a change of the policies no
      old answer is given).
    - Decisions: [check_decides], [check_returns], [decision_type_unique], [filtered_covers];
      [self_link_diverges] for the hypothesis of the second.
    - Updates: [updates_keep_store_ok], [insertPolicies_atomic], [deletePolicies_effect],
      [deleteBucket_effect], [erasePolicies_effect], [erasePolicies_returns].
    - The disk: [save_crash_safe], [load_crash_safe], [save_returns], [bucket_file_roundtrip],
      [index_file_roundtrip], [md5_one_shot]; what breaks it: [full_disk_loses_database],
      [save_after_failed_save_unsafe], [unescaped_separator].
    - Messages and connections: [requests_delivered], [responses_delivered],
      [decoded_messages_well_typed], [accepted_connection_fresh];
      [stale_response_after_reconnect].
    - The service: [check_answered] (from the bytes of a request to the bytes of the response,
      for checks that the storage decides), [handleRead_returns] (any bytes of a client or an agent
      are handled),
      [pending_checks_tracked] (an invariant of all reachable states), [agent_answers],
      [policies_changed_disconnects], [monitor_queue_contents]; its errors:
      [set_policies_outcomes], [unknown_policy_type], [corrupted_database],
      [agent_of_two_types].
    - The process of the service: [sockets_protected] (the access rights of the sockets, with
      and without systemd),
      [sigterm_stops] (the signal ends the main loop); its error: [group_after_user].
    - Plugins: [first_plugin_serves] (what a directory makes of the table),
      [plugins_outlive_use] (each is destroyed once, after its use and before its library is closed).
    - The client library: [cache_is_lru], [check_from_cache_or_service]; its errors:
      [unknown_type_breaks_client], [monitored_result], [stale_decision_cached].
    - The asynchronous client library: [requests_called_back_once] (for all nestings of calls
      and callbacks), [sequence_container_refines]; its error: [answer_lost_by_monitor].
    - The administration library: [offline_matches_service] (the same outcome with and without
      the service), [offline_update_crash_safe], [set_policies_arguments].
    - The tool: [set_policy_command] (from a command line to what the library is asked),
      [listing_bulk_roundtrip], [type_number_wraps].
    - The generator of check sums: [chsgen_checksums_accepted]; its error:
      [default_checksum_refused].
    - Logs: [log_levels], [audit_lines], [sliced_line]; the error of the back traces:
      [backtrace_needs].
    - Credentials: [default_method_configured], [dbus_libraries_agree].
    - The agent library: [agent_requests_delivered], [agent_registers]; its errors:
      [cut_message_breaks_registration], [connection_in_progress_never_registers].
    - The monitor library: [monitor_threads_agree] (in every interleaving),
      [monitor_calls_end], [monitor_entries_delivered]; its errors: [flush_overtakes_request],
      [finish_deletes_under_get].

    ** Not modelled

    - Which lines the other components log, sending a line to the journal or to syslog, and the notice
      to systemd that the service is ready: output in which the program decides nothing.
    - In [Deployment]: other clients that interleave with the one considered (the theorems on the
      service's handlers hold for any state of the other connections), and checks that wait for an
      agent; these are the subject of [pending_checks_tracked] and [agent_answers].
    - Errors while an open file is read.  Writes that fail are modelled, but not what is left
      of the database then: [save_crash_safe] and [offline_update_crash_safe] are about the
      other runs.
    - That the requests of administrators and monitors end ([handleRead_returns] covers the
      others): an administrator can link buckets in a cycle ([self_link_diverges]), and the
      queue behind the monitors forgets where it begins ([monitor_queue_contents]).
    - [getopt_long], [crypt], [dlopen], [libdbus], GLib and the functions of the system are
      arguments.  The exit status of the tool is the number before the system cuts it to 8 bits.
    - Memory: allocation does not fail in the model ([std::bad_alloc]), and lengths are not
      bounded by memory.  Moving and sharing of objects is modelled where it can be observed. *)
From Stdlib Require Export Ascii.
From stdpp Require Export base gmap strings list sorting fin_maps.

Declare Scope cynara_scope.
Delimit Scope cynara_scope with cynara.

(** [str] normalises string concatenations; [cynara] collects the facts about
    well-formed data that automation applies. *)
Create Rewrite HintDb str.
Create HintDb cynara.

(** Proves a decidable proposition without free variables by evaluating its decision. *)
Ltac decide_by_compute := apply (bool_decide_unpack _); vm_compute; exact I.

(** ** Exceptions

    The exception classes of [common/exceptions] that the modelled code throws or
    catches.  The payloads are the ones a handler or a message can observe. *)

(** [InvalidProtocolException::ExceptionType] *)
Inductive ProtocolExceptionType :=
| InvalidSignature
| WrongOpCode
| IdentifierTooLong
| OtherProtocolError.

Inductive exn :=
| BucketNotExistsException (bucketId : string)
| InvalidBucketIdException (bucketId : string)
| DefaultBucketDeletionException
| DefaultBucketSetNoneException
| UnknownPolicyTypeException (policyType : Z)
| BucketRecordCorruptedException (line : string) (lineNumber : nat)
| ChecksumRecordCorruptedException (line : string) (lineNumber : nat)
| BucketDeserializationException (bucketId : string)
| BucketSerializationException (bucketId : string)
| CannotCreateFileException (filename : string)
| FileNotFoundException (filename : string)
| DatabaseCorruptedException
| UnexpectedErrorException (errno : Z)
| FileLockAcquiringException (errno : Z)
| PluginErrorException
| NotImplementedException
| NoMemoryException
| AccessDeniedException
| InitException
| ContextErrorException
| OutOfDataException (limit requested : nat)
| InvalidProtocolException (t : ProtocolExceptionType)
| PolicyParsingException
| AdminLibraryInitializationFailedException (errorCode : Z)
| LogicError
| RuntimeError (what : string)
(** Not an exception: the code has no defined behaviour here. *)
| UndefinedBehaviour.

#[global] Instance ProtocolExceptionType_eq_dec : EqDecision ProtocolExceptionType.
Proof. solve_decision. Defined.
#[global] Instance exn_eq_dec : EqDecision exn.
Proof. solve_decision. Defined.

(** The classes that derive from [DatabaseException]: what a
    [catch (const DatabaseException &)] handler receives. *)
Definition isDatabaseException (e : exn) : bool :=
  match e with
  | BucketRecordCorruptedException _ _ | ChecksumRecordCorruptedException _ _
  | BucketDeserializationException _ | BucketSerializationException _
  | CannotCreateFileException _ | FileNotFoundException _ => true
  | _ => false
  end.

(** ** Results and the state-and-exception monad

    A C++ function that returns or throws is an [outcome]; a method that mutates its
    object is an [SE S A]: the state is threaded through, and a throw keeps the state
    reached so far (C++ does not roll back).  Loops and recursions that need not end take
    fuel; [OutOfFuel] says the fuel did not suffice, and no handler catches it. *)
Inductive outcome (A : Type) :=
| Ret (a : A)
| Throw (e : exn)
| OutOfFuel.
Arguments Ret {A} a.
Arguments Throw {A} e.
Arguments OutOfFuel {A}.

#[global] Instance outcome_ret : MRet outcome := λ A a, Ret a.
#[global] Instance outcome_bind : MBind outcome := λ A B f m,
  match m with Ret a => f a | Throw e => Throw e | OutOfFuel => OutOfFuel end.
#[global] Instance outcome_fmap : FMap outcome := λ A B f m,
  match m with Ret a => Ret (f a) | Throw e => Throw e | OutOfFuel => OutOfFuel end.
#[global] Instance outcome_eq_dec `{EqDecision A} : EqDecision (outcome A).
Proof. solve_decision. Defined.

Definition SE (S A : Type) : Type := S → outcome A * S.

#[global] Instance SE_ret S : MRet (SE S) := λ A a s, (Ret a, s).
#[global] Instance SE_bind S : MBind (SE S) := λ A B f m s,
  match m s with
  | (Ret a, s') => f a s'
  | (Throw e, s') => (Throw e, s')
  | (OutOfFuel, s') => (OutOfFuel, s')
  end.

Definition throw {S A} (e : exn) : SE S A := λ s, (Throw e, s).
Definition get {S} : SE S S := λ s, (Ret s, s).
Definition put {S} (s : S) : SE S unit := λ _, (Ret tt, s).
Definition modify {S} (f : S → S) : SE S unit := λ s, (Ret tt, f s).
Definition gets {S A} (f : S → A) : SE S A := λ s, (Ret (f s), s).
(** A call of a method that only reads its object. *)
Definition reads {S A} (f : S → outcome A) : SE S A := λ s, (f s, s).

(** [try { m } catch (e) { h e }], the handler choosing by the exception. *)
Definition tryCatch {S A} (m : SE S A) (h : exn → SE S A) : SE S A := λ s,
  match m s with
  | (Throw e, s') => h e s'
  | r => r
  end.

(** A range-based [for] whose body may throw. *)
Fixpoint forEach {S A} (l : list A) (body : A → SE S unit) : SE S unit :=
  match l with
  | [] => mret tt
  | x :: l' => body x ≫= λ _, forEach l' body
  end.

Lemma SE_bind_eq {S A B} (m : SE S A) (f : A → SE S B) s :
  (m ≫= f) s = match m s with
               | (Ret a, s') => f a s'
               | (Throw e, s') => (Throw e, s')
               | (OutOfFuel, s') => (OutOfFuel, s')
               end.
Proof. done. Qed.

Lemma SE_bind_Ret {S A B} (m : SE S A) (f : A → SE S B) s a s' :
  m s = (Ret a, s') → (m ≫= f) s = f a s'.
Proof. intros H. by rewrite SE_bind_eq, H. Qed.

Lemma SE_bind_Throw {S A B} (m : SE S A) (f : A → SE S B) s e s' :
  m s = (Throw e, s') → (m ≫= f) s = (Throw e, s').
Proof. intros H. by rewrite SE_bind_eq, H. Qed.

Lemma forEach_app {S A} (l1 l2 : list A) (body : A → SE S unit) s :
  forEach (l1 ++ l2) body s = (forEach l1 body ≫= λ _, forEach l2 body) s.
Proof.
  revert s. induction l1 as [|x l1 IH]; intros s; [done|].
  cbn [app forEach]. rewrite !SE_bind_eq.
  destruct (body x s) as [[[]|e|] s']; [by rewrite IH|done|done].
Qed.

(** A loop whose body preserves an invariant preserves it, however it ends. *)
Lemma forEach_invariant {S A} (P : S → Prop) (l : list A) (body : A → SE S unit) s :
  (∀ x s, x ∈ l → P s → P (body x s).2) → P s → P (forEach l body s).2.
Proof.
  revert s. induction l as [|x l IH]; intros s Hb Hs; [done|].
  cbn [forEach]. rewrite SE_bind_eq.
  assert (P (body x s).2) as Hx by (apply Hb; [set_solver|done]).
  destruct (body x s) as [[[]|e|] s']; simpl in *; [|done|done].
  apply IH; [|done]. intros y t Hy. apply Hb. set_solver.
Qed.

(** A loop whose body returns on every element is a left fold. *)
Lemma forEach_fold {S A} (f : A → S → S) (l : list A) (body : A → SE S unit) s :
  (∀ x s, x ∈ l → body x s = (Ret tt, f x s)) →
  forEach l body s = (Ret tt, foldl (λ s x, f x s) s l).
Proof.
  revert s. induction l as [|x l IH]; intros s Hb; [done|].
  cbn [forEach foldl]. rewrite SE_bind_eq, Hb by set_solver.
  apply IH. intros y t Hy. apply Hb. set_solver.
Qed.

(** ** Operations that preserve a property

    [keeps I m]: the operation [m] preserves [I], however it ends. *)

Definition keeps {St A} (I : St → Prop) (m : SE St A) : Prop := ∀ st, I st → I (m st).2.

Section keeps.
Context {St : Type} (I : St → Prop).

Lemma keeps_ret {A} (a : A) : keeps I (mret a).
Proof. intros st Hst. exact Hst. Qed.
Lemma keeps_throw {A} e : keeps I (throw (A:=A) e).
Proof. intros st Hst. exact Hst. Qed.
Lemma keeps_get : keeps I get.
Proof. intros st Hst. exact Hst. Qed.
Lemma keeps_gets {A} (f : St → A) : keeps I (gets f).
Proof. intros st Hst. exact Hst. Qed.
Lemma keeps_reads {A} (f : St → outcome A) : keeps I (reads f).
Proof. intros st Hst. exact Hst. Qed.
Lemma keeps_fuel {A} : keeps I (λ st, (OutOfFuel (A:=A), st)).
Proof. intros st Hst. exact Hst. Qed.
Lemma keeps_modify (f : St → St) : (∀ st, I st → I (f st)) → keeps I (modify f).
Proof. intros Hf st Hst. by apply Hf. Qed.
Lemma keeps_bind {A B} (m : SE St A) (k : A → SE St B) :
  keeps I m → (∀ a, keeps I (k a)) → keeps I (m ≫= k).
Proof.
  intros Hm Hk st Hst. rewrite SE_bind_eq. specialize (Hm st Hst). destruct (m st) as [[a|e|] st']; try done.
  by apply Hk.
Qed.
Lemma keeps_tryCatch {A} (m : SE St A) h : keeps I m → (∀ e, keeps I (h e)) → keeps I (tryCatch m h).
Proof.
  intros Hm Hh st Hst. unfold tryCatch. specialize (Hm st Hst). destruct (m st) as [[a|e|] st']; try done.
  by apply Hh.
Qed.
Lemma keeps_forEach {X} (l : list X) (f : X → SE St unit) : (∀ x, keeps I (f x)) → keeps I (forEach l f).
Proof.
  intros Hf. induction l as [|x l IH]; cbn [forEach]; [apply keeps_ret|]. apply keeps_bind; [apply Hf|]. intros _. apply IH.
Qed.
Lemma keeps_if {A} (b : bool) (m m' : SE St A) : keeps I m → keeps I m' → keeps I (if b then m else m').
Proof. by destruct b. Qed.
(** An operation chosen by the state. *)
Lemma keeps_state {A} (f : St → SE St A) : (∀ st, keeps I (f st)) → keeps I (λ st, f st st).
Proof. intros Hf st Hst. by apply Hf. Qed.
End keeps.

Create HintDb keeps.
#[export] Hint Resolve keeps_ret keeps_throw keeps_get keeps_gets keeps_reads keeps_fuel : keeps.

(** Follows the structure of an operation. *)
Ltac keep :=
  repeat first
    [ progress eauto with keeps
    | match goal with
      | |- keeps _ (mbind _ _) => apply keeps_bind; [|intros]
      | |- keeps _ (if _ then _ else _) => first [apply keeps_if|case_match]
      | |- keeps _ (tryCatch _ _) => apply keeps_tryCatch; [|intros]
      | |- keeps _ (forEach _ _) => apply keeps_forEach; intros
      | |- keeps _ (match _ with _ => _ end) => case_match
      end ].

(** ** Operations that end without undefined behaviour

    [safe I Q m]: from a state with [I] the operation [m] returns a value with [Q] or throws
    a proper exception, and preserves [I]. *)

Definition proper {A} (Q : A → Prop) (r : outcome A) : Prop :=
  match r with Ret a => Q a | Throw e => e ≠ UndefinedBehaviour | OutOfFuel => False end.
Definition safe {St A} (I : St → Prop) (Q : A → Prop) (m : SE St A) : Prop :=
  ∀ st, I st → I (m st).2 ∧ proper Q (m st).1.
Definition any {A} (a : A) : Prop := True.

Section safe.
Context {St : Type} (I : St → Prop).

Lemma safe_ret {A} (Q : A → Prop) a : Q a → safe I Q (mret a).
Proof. by intros Hq st Hst. Qed.
Lemma safe_throw {A} (Q : A → Prop) e : e ≠ UndefinedBehaviour → safe I Q (throw (A:=A) e).
Proof. by intros He st Hst. Qed.
Lemma safe_gets {A} (Q : A → Prop) (f : St → A) : (∀ st, I st → Q (f st)) → safe I Q (gets f).
Proof. intros Hf st Hst. split; [done|by apply Hf]. Qed.
Lemma safe_reads {A} (Q : A → Prop) (f : St → outcome A) : (∀ st, I st → proper Q (f st)) → safe I Q (reads f).
Proof. intros Hf st Hst. split; [done|by apply Hf]. Qed.
Lemma safe_modify (f : St → St) : (∀ st, I st → I (f st)) → safe I any (modify f).
Proof. intros Hf st Hst. split; [by apply Hf|done]. Qed.
Lemma safe_bind {A B} (Q : A → Prop) (R : B → Prop) (m : SE St A) (k : A → SE St B) :
  safe I Q m → (∀ a, Q a → safe I R (k a)) → safe I R (m ≫= k).
Proof.
  intros Hm Hk st Hst. rewrite SE_bind_eq. destruct (Hm st Hst) as [Hst' Hq].
  destruct (m st) as [[a|e|] st']; [by apply Hk|done..].
Qed.
Lemma safe_mono {A} (Q R : A → Prop) (m : SE St A) : safe I Q m → (∀ a, Q a → R a) → safe I R m.
Proof.
  intros Hm HR st Hst. destruct (Hm st Hst) as [Hst' Hq]. split; [done|]. destruct (m st) as [[a|e|] st']; cbn in *; auto.
Qed.
Lemma safe_forEach {X} (l : list X) (f : X → SE St unit) : (∀ x, x ∈ l → safe I any (f x)) → safe I any (forEach l f).
Proof.
  induction l as [|x l IH]; intros Hf; cbn [forEach]; [by apply safe_ret|].
  eapply safe_bind; [apply Hf; by left|]. intros _ _. apply IH. intros y Hy. apply Hf. by right.
Qed.
Lemma safe_if {A} (Q : A → Prop) (b : bool) (m m' : SE St A) : safe I Q m → safe I Q m' → safe I Q (if b then m else m').
Proof. by destruct b. Qed.
End safe.

(** ** Iteration order

    [std::unordered_map] iterates in an order the standard leaves open.  Code that walks
    such a map is modelled against any order: [miter m] is some enumeration of [m]. *)
Class HashOrder := {
  miter : ∀ {V : Type}, gmap string V → list (string * V);
  miter_perm : ∀ {V : Type} (m : gmap string V), miter m ≡ₚ map_to_list m;
}.

(** One possible order, used to evaluate the model on concrete inputs. *)
#[global] Instance trie_order : HashOrder := {
  miter V m := map_to_list m;
  miter_perm V m := reflexivity _;
}.

Section hash_order.
Context `{HO : HashOrder}.

Lemma elem_of_miter {V} (m : gmap string V) k v : (k, v) ∈ miter m ↔ m !! k = Some v.
Proof. rewrite (miter_perm m). apply elem_of_map_to_list. Qed.

Lemma NoDup_fst_miter {V} (m : gmap string V) : NoDup (miter m).*1.
Proof. rewrite (miter_perm m). apply NoDup_fst_map_to_list. Qed.

Lemma miter_empty {V} : miter (∅ : gmap string V) = [].
Proof. apply Permutation_nil_r. rewrite (miter_perm ∅). by rewrite map_to_list_empty. Qed.
End hash_order.

(** [std::map] iterates in ascending key order. *)
Definition key_le {K V} (le : relation K) : relation (K * V) := λ p q, le p.1 q.1.
#[global] Instance key_le_dec {K V} (le : relation K) `{!RelDecision le} :
  RelDecision (key_le (V:=V) le).
Proof. intros p q. unfold key_le. apply _. Defined.

Definition stdmap_iter {K V} `{Countable K} (le : relation K) `{!RelDecision le}
    (m : gmap K V) : list (K * V) :=
  merge_sort (key_le le) (map_to_list m).

Lemma stdmap_iter_perm {K V} `{Countable K} (le : relation K) `{!RelDecision le} (m : gmap K V) :
  stdmap_iter le m ≡ₚ map_to_list m.
Proof. apply merge_sort_Permutation. Qed.

Lemma elem_of_stdmap_iter {K V} `{Countable K} (le : relation K) `{!RelDecision le}
    (m : gmap K V) k v :
  (k, v) ∈ stdmap_iter le m ↔ m !! k = Some v.
Proof. rewrite stdmap_iter_perm. apply elem_of_map_to_list. Qed.
