(* ===== verification/Text.v ===== *)
(** * The string and number formatting library the code relies on

    [std::string] searches and slices, [std::getline], the decimal and hexadecimal
    [ostream] inserters and [std::stoi(.., 16)], with the lemmas that make them
    compose.  Strings are byte strings ([String.string] over 8-bit [ascii]). *)
From S2P Require Import Prelude.

(** ** Slices *)

Fixpoint sdrop (n : nat) (s : string) : string :=
  match n, s with
  | S n', String _ s' => sdrop n' s'
  | _, _ => s
  end.

Fixpoint stake (n : nat) (s : string) : string :=
  match n, s with
  | S n', String c s' => String c (stake n' s')
  | _, _ => ""
  end.

(** [s.substr(pos, n)] for [pos <= s.size()] *)
Definition substr (pos n : nat) (s : string) : string := stake n (sdrop pos s).

Lemma str_app_nil_l (a : string) : "" +:+ a = a.
Proof. done. Qed.
Lemma str_app_cons c (a b : string) : String c a +:+ b = String c (a +:+ b).
Proof. done. Qed.
Lemma str_app_assoc (a b c : string) : (a +:+ b) +:+ c = a +:+ b +:+ c.
Proof. induction a as [|x a IH]; [done|]. by rewrite !str_app_cons, IH. Qed.
Lemma str_app_nil_r (a : string) : a +:+ "" = a.
Proof. induction a as [|x a IH]; [done|]. by rewrite str_app_cons, IH. Qed.
Lemma str_length_app (a b : string) :
  String.length (a +:+ b) = String.length a + String.length b.
Proof. induction a as [|x a IH]; [done|]. rewrite str_app_cons. cbn. by rewrite IH. Qed.
Lemma str_length_nil (a : string) : String.length a = 0 → a = "".
Proof. by destruct a. Qed.

#[export] Hint Rewrite str_app_assoc str_app_nil_r str_app_nil_l str_app_cons : str.

Lemma sdrop_app a b : sdrop (String.length a) (a +:+ b) = b.
Proof. induction a as [|x a IH]; [by destruct b|]. by rewrite str_app_cons. Qed.
Lemma sdrop_0 s : sdrop 0 s = s.
Proof. by destruct s. Qed.
Lemma sdrop_all s : sdrop (String.length s) s = "".
Proof. by induction s. Qed.
Lemma sdrop_sdrop n m s : sdrop n (sdrop m s) = sdrop (m + n) s.
Proof.
  revert s. induction m as [|m IH]; intros s; [by rewrite sdrop_0|].
  destruct s; [by destruct n|]. cbn. apply IH.
Qed.
Lemma stake_app a b : stake (String.length a) (a +:+ b) = a.
Proof. induction a as [|x a IH]; [by destruct b|]. rewrite str_app_cons. cbn. by rewrite IH. Qed.
Lemma stake_all s : stake (String.length s) s = s.
Proof. rewrite <-(str_app_nil_r s) at 2. apply stake_app. Qed.
Lemma str_length_stake n s : String.length (stake n s) = n `min` String.length s.
Proof. revert s. induction n; intros []; cbn; auto. Qed.
Lemma stake_sdrop n s : stake n s +:+ sdrop n s = s.
Proof. revert s. induction n; intros []; cbn; rewrite ?str_app_cons; f_equal; auto. Qed.

Lemma str_app_inj_length a b c d :
  String.length a = String.length c → a +:+ b = c +:+ d → a = c ∧ b = d.
Proof.
  revert c. induction a as [|x a IH]; intros [|y c]; try done.
  rewrite !str_app_cons. intros [= Hl] [= -> Heq]. by destruct (IH c Hl Heq) as [-> ->].
Qed.

Lemma str_app_inj_r a b c : a +:+ c = b +:+ c → a = b.
Proof.
  intros H. apply (str_app_inj_length a c b c); [|done].
  apply (f_equal String.length) in H. rewrite !str_length_app in H. lia.
Qed.

(** ** Searching for a character *)

Fixpoint find_char (c : ascii) (s : string) : option nat :=
  match s with
  | "" => None
  | String d s' => if decide (d = c) then Some 0 else S <$> find_char c s'
  end.

(** [s.find(c, from)]; [None] is [std::string::npos]. *)
Definition find_from (c : ascii) (s : string) (from : nat) : option nat :=
  Nat.add from <$> find_char c (sdrop from s).

(** A string without the character [c]. *)
Definition lacks (c : ascii) (s : string) : Prop := find_char c s = None.

Lemma lacks_nil c : lacks c "".
Proof. done. Qed.
Lemma lacks_cons c d s : lacks c (String d s) ↔ d ≠ c ∧ lacks c s.
Proof.
  unfold lacks. cbn. case_decide; [naive_solver|].
  rewrite fmap_None. tauto.
Qed.
Lemma lacks_app c a b : lacks c (a +:+ b) ↔ lacks c a ∧ lacks c b.
Proof.
  induction a as [|x a IH]; [rewrite str_app_nil_l; split; [by split|tauto]|].
  rewrite str_app_cons, !lacks_cons, IH. tauto.
Qed.

Lemma find_char_app c a b : lacks c a → find_char c (a +:+ String c b) = Some (String.length a).
Proof.
  induction a as [|x a IH]; rewrite ?lacks_cons, ?str_app_cons, ?str_app_nil_l.
  - intros _. cbn. by rewrite decide_True.
  - intros [? ?]. cbn. by rewrite decide_False, IH.
Qed.

Lemma find_from_app c p a b :
  lacks c a →
  find_from c (p +:+ a +:+ String c b) (String.length p) =
    Some (String.length p + String.length a).
Proof. intros H. unfold find_from. by rewrite sdrop_app, find_char_app. Qed.

Lemma find_from_lacks c p a : lacks c a → find_from c (p +:+ a) (String.length p) = None.
Proof. intros H. unfold find_from. by rewrite sdrop_app, H. Qed.

(** Splitting at a separator is unambiguous when the left parts lack it. *)
Lemma lacks_split_inj c a b a' b' :
  lacks c a → lacks c a' → a +:+ String c b = a' +:+ String c b' → a = a' ∧ b = b'.
Proof.
  intros Ha Ha' Heq. apply str_app_inj_length in Heq.
  - destruct Heq as [-> [= ->]]. done.
  - pose proof (find_char_app c a b Ha) as H1.
    rewrite Heq, (find_char_app c a' b' Ha') in H1. congruence.
Qed.

(** ** [std::getline] *)

(** The lines successive calls of [std::getline(is, line, sep)] deliver before the
    stream fails: a final line without separator counts when it is not empty. *)
Fixpoint getlines_aux (sep : ascii) (cur : string) (s : string) : list string :=
  match s with
  | "" => match cur with "" => [] | _ => [cur] end
  | String c s' =>
      if decide (c = sep) then cur :: getlines_aux sep "" s'
      else getlines_aux sep (cur +:+ String c "") s'
  end.
Definition getlines (sep : ascii) (s : string) : list string := getlines_aux sep "" s.

Lemma getlines_aux_app sep cur l s :
  lacks sep l → getlines_aux sep cur (l +:+ String sep s) = (cur +:+ l) :: getlines sep s.
Proof.
  revert cur. induction l as [|x l IH]; intros cur Hl.
  - rewrite str_app_nil_l. cbn. by rewrite decide_True, str_app_nil_r.
  - apply lacks_cons in Hl as [Hne Hl]. rewrite str_app_cons. cbn. rewrite decide_False by done.
    by rewrite IH, str_app_assoc.
Qed.

Lemma getlines_app sep l s :
  lacks sep l → getlines sep (l +:+ String sep s) = l :: getlines sep s.
Proof. intros Hl. unfold getlines at 1. by rewrite getlines_aux_app. Qed.

Lemma getlines_nil sep : getlines sep "" = [].
Proof. done. Qed.

(** ** Printing and reading numbers *)

Definition digit_char (d : N) : ascii :=
  ascii_of_N (if (d <? 10)%N then 48 + d else 55 + d).

Fixpoint print_go (b : N) (fuel : nat) (n : N) (acc : string) : string :=
  match fuel with
  | 0 => acc
  | S fuel' =>
      let acc' := String (digit_char (n mod b)) acc in
      if (n / b =? 0)%N then acc' else print_go b fuel' (n / b) acc'
  end.
(** [os << n] in base [b] with [std::uppercase]; the fuel is the number of bits. *)
Definition print_base (b n : N) : string := print_go b (S (N.to_nat (N.size n))) n "".

(** [std::to_string], [ostream << size_t] *)
Definition to_string (n : nat) : string := print_base 10 (N.of_nat n).

Definition char_digit (c : ascii) : option N :=
  let n := N_of_ascii c in
  if ((48 <=? n) && (n <=? 57))%N then Some (n - 48)%N
  else if ((65 <=? n) && (n <=? 70))%N then Some (n - 55)%N
  else if ((97 <=? n) && (n <=? 102))%N then Some (n - 87)%N
  else None.

(** The digits of base [b] at the front of [s]: their value and their number. *)
Fixpoint read_digits (b : N) (s : string) (acc : N) (cnt : nat) : N * nat :=
  match s with
  | "" => (acc, cnt)
  | String c s' =>
      match char_digit c with
      | Some d => if (d <? b)%N then read_digits b s' (acc * b + d) (S cnt) else (acc, cnt)
      | None => (acc, cnt)
      end
  end.

(** [s] does not continue a base-[b] number. *)
Definition no_digit_ahead (b : N) (s : string) : Prop :=
  match s with
  | "" => True
  | String c _ => match char_digit c with Some d => (b <= d)%N | None => True end
  end.

Lemma char_digit_digit_char d : (d < 16)%N → char_digit (digit_char d) = Some d.
Proof.
  intros Hd. assert (d ∈ (N.of_nat <$> seq 0 16)) as Hin.
  { apply list_elem_of_fmap. exists (N.to_nat d). rewrite N2Nat.id.
    split; [done|]. apply elem_of_seq. lia. }
  cbn in Hin. by repeat (apply elem_of_cons in Hin as [->|Hin]; [done|]);
    apply elem_of_nil in Hin.
Qed.

Lemma read_digits_step b d s acc cnt :
  (b ≤ 16)%N → (d < b)%N →
  read_digits b (String (digit_char d) s) acc cnt = read_digits b s (acc * b + d)%N (S cnt).
Proof.
  intros Hb Hd. cbn. rewrite char_digit_digit_char by lia.
  by rewrite (proj2 (N.ltb_lt d b) Hd).
Qed.

Lemma read_digits_stop b s acc cnt :
  no_digit_ahead b s → read_digits b s acc cnt = (acc, cnt).
Proof.
  destruct s as [|c s]; cbn; [done|]. destruct (char_digit c) as [d|]; [|done].
  intros Hd. by rewrite (proj2 (N.ltb_ge d b) Hd).
Qed.

Section printing.
Variable b : N.
Hypothesis Hb : (2 ≤ b ≤ 16)%N.

(** [print_go] puts the digits of [n] in front of the accumulator. *)
Lemma print_go_spec fuel n acc :
  (n < 2 ^ N.of_nat fuel)%N →
  ∃ ds, print_go b fuel n acc = ds +:+ acc ∧
    (fuel ≠ 0 → ds ≠ "") ∧
    ∀ s a k, read_digits b (ds +:+ s) a k =
      read_digits b s (a * b ^ N.of_nat (String.length ds) + n)%N (k + String.length ds).
Proof using Hb.
  revert n acc. induction fuel as [|fuel IH]; intros n acc Hn.
  { exists "". split_and!; [done|done|]. intros s a k.
    rewrite str_app_nil_l. cbn. f_equal; [|lia]. cbn in Hn. lia. }
  cbn [print_go]. pose proof (N.div_mod n b ltac:(lia)) as Hdm.
  pose proof (N.mod_lt n b ltac:(lia)) as Hm.
  destruct (N.eqb_spec (n / b) 0) as [Hz|Hz].
  - exists (String (digit_char (n mod b)) ""). split_and!; [done|done|].
    intros s a k. rewrite str_app_cons, read_digits_step, str_app_nil_l by lia.
    cbn [String.length]. f_equal; [|lia]. change (N.of_nat 1) with 1%N. nia.
  - rewrite Nat2N.inj_succ, N.pow_succ_r' in Hn.
    assert (n / b < 2 ^ N.of_nat fuel)%N as Hlt.
    { apply N.Div0.div_lt_upper_bound; nia. }
    destruct (IH (n / b)%N (String (digit_char (n mod b)) acc) Hlt) as (ds & -> & _ & Hrd).
    exists (ds +:+ String (digit_char (n mod b)) ""). split_and!.
    + by autorewrite with str.
    + by destruct ds.
    + intros s a k. rewrite str_app_assoc, str_app_cons, str_app_nil_l, Hrd.
      rewrite read_digits_step, str_length_app by lia. cbn [String.length]. f_equal; [|lia].
      rewrite Nat2N.inj_add, N.pow_add_r. change (N.of_nat 1) with 1%N. nia.
Qed.

Lemma print_fuel n : (n < 2 ^ N.of_nat (S (N.to_nat (N.size n))))%N.
Proof using Hb.
  pose proof (N.size_gt n). rewrite Nat2N.inj_succ, N.pow_succ_r', N2Nat.id. lia.
Qed.

Lemma read_print n s :
  no_digit_ahead b s →
  read_digits b (print_base b n +:+ s) 0 0 = (n, String.length (print_base b n)).
Proof using Hb.
  intros Hs. unfold print_base.
  destruct (print_go_spec (S (N.to_nat (N.size n))) n "") as (ds & -> & _ & Hrd).
  { by apply print_fuel. }
  rewrite str_app_nil_r, Hrd, read_digits_stop by done. f_equal; lia.
Qed.

Lemma print_base_nonempty n : print_base b n ≠ "".
Proof using Hb.
  unfold print_base. destruct (print_go_spec (S (N.to_nat (N.size n))) n "") as (ds & -> & Hne & _).
  { by apply print_fuel. }
  rewrite str_app_nil_r. by apply Hne.
Qed.

Lemma print_base_inj n m : print_base b n = print_base b m → n = m.
Proof using Hb.
  intros Heq. pose proof (read_print n "" I) as H1. pose proof (read_print m "" I) as H2.
  rewrite Heq in H1. congruence.
Qed.

Lemma print_go_lacks c fuel n acc :
  char_digit c = None → lacks c acc → lacks c (print_go b fuel n acc).
Proof using Hb.
  intros Hc. revert n acc. induction fuel as [|fuel IH]; intros n acc Hacc; [done|].
  cbn [print_go]. assert (lacks c (String (digit_char (n mod b)) acc)).
  { apply lacks_cons. split; [|done]. intros <-.
    rewrite char_digit_digit_char in Hc; [done|].
    pose proof (N.mod_lt n b ltac:(lia)). lia. }
  destruct (n / b =? 0)%N; auto.
Qed.

(** Digits contain no separator character. *)
Lemma print_base_lacks c n : char_digit c = None → lacks c (print_base b n).
Proof using Hb. intros. by apply print_go_lacks. Qed.
End printing.

Lemma to_string_inj n m : to_string n = to_string m → n = m.
Proof. intros H%print_base_inj; lia. Qed.

Lemma to_string_lacks c n : char_digit c = None → lacks c (to_string n).
Proof. apply print_base_lacks. lia. Qed.

#[export] Hint Resolve lacks_nil to_string_lacks : cynara.

(** ** [std::stoi(s, &idx, 16)]

    [strtol] skips white space, takes a sign and a [0x] that digits follow; [std::stoi]
    throws when there is no digit or the value does not fit a 32-bit [int].  The result is
    the value and the number of characters consumed. *)
Definition isspace (c : ascii) : bool :=
  let n := N_of_ascii c in (n =? 32)%N || ((9 <=? n) && (n <=? 13))%N.

Fixpoint skip_spaces (s : string) : nat :=
  match s with
  | String c s' => if isspace c then S (skip_spaces s') else 0
  | "" => 0
  end.

Definition read_sign (s : string) : bool * nat :=
  match s with
  | String "-" _ => (true, 1)
  | String "+" _ => (false, 1)
  | _ => (false, 0)
  end.

Definition is_hex_digit (c : ascii) : bool :=
  match char_digit c with Some d => (d <? 16)%N | None => false end.

Definition hex_prefix (s : string) : nat :=
  match s with
  | String "0" (String x (String d _)) =>
      if (bool_decide (x = "x"%char) || bool_decide (x = "X"%char)) && is_hex_digit d then 2 else 0
  | _ => 0
  end.

Definition stoi16 (s : string) : option (Z * nat) :=
  let ws := skip_spaces s in
  let s1 := sdrop ws s in
  let '(neg, sg) := read_sign s1 in
  let s2 := sdrop sg s1 in
  let p := hex_prefix s2 in
  let '(v, cnt) := read_digits 16 (sdrop p s2) 0 0 in
  let z := if neg then (- Z.of_N v)%Z else Z.of_N v in
  if (cnt =? 0) || (z <? - 2 ^ 31)%Z || (2 ^ 31 <=? z)%Z then None
  else Some (z, ws + sg + p + cnt).

Definition hex_head (s : string) : Prop := ∃ c s', s = String c s' ∧ is_hex_digit c = true.

Lemma is_hex_digit_char d : (d < 16)%N → is_hex_digit (digit_char d) = true.
Proof.
  intros Hd. unfold is_hex_digit. rewrite char_digit_digit_char by done. by apply N.ltb_lt.
Qed.

Lemma print_go_head fuel n acc : hex_head acc ∨ fuel ≠ 0 → hex_head (print_go 16 fuel n acc).
Proof.
  revert n acc. induction fuel as [|fuel IH]; intros n acc H; [by destruct H|].
  cbn [print_go]. set (acc' := String _ _).
  assert (hex_head acc') as Hacc.
  { eexists _, _. split; [reflexivity|]. by apply is_hex_digit_char, N.mod_lt. }
  destruct (n / 16 =? 0)%N; [done|]. apply IH. by left.
Qed.

Lemma is_hex_digit_not_space c : is_hex_digit c = true → isspace c = false.
Proof. by destruct c as [[] [] [] [] [] [] [] []]. Qed.

(** [std::stoi] reads back a printed hexadecimal number and stops after it. *)
Lemma stoi16_print n s :
  (n < 2 ^ 31)%N → no_digit_ahead 16 s →
  stoi16 ("0x" +:+ print_base 16 n +:+ s) =
    Some (Z.of_N n, String.length ("0x" +:+ print_base 16 n)).
Proof.
  intros Hn Hs. destruct (print_go_head (S (N.to_nat (N.size n))) n "") as (c & s' & Hp & Hc).
  { by right. }
  unfold stoi16.
  assert (hex_prefix ("0x" +:+ print_base 16 n +:+ s) = 2) as Hpre.
  { unfold print_base. rewrite Hp. autorewrite with str. cbn. by rewrite Hc. }
  assert (skip_spaces ("0x" +:+ print_base 16 n +:+ s) = 0) as -> by done.
  rewrite sdrop_0.
  assert (read_sign ("0x" +:+ print_base 16 n +:+ s) = (false, 0)) as -> by done.
  rewrite sdrop_0, Hpre.
  assert (sdrop 2 ("0x" +:+ print_base 16 n +:+ s) = print_base 16 n +:+ s) as ->.
  { by rewrite (sdrop_app "0x"). }
  rewrite read_print by (lia || done). rewrite str_length_app.
  pose proof (print_base_nonempty 16 ltac:(lia) n) as Hne.
  destruct (String.length (print_base 16 n)) as [|k] eqn:El.
  { by apply str_length_nil in El. }
  cbn [Nat.eqb orb]. destruct (Z.ltb_spec (Z.of_N n) (- 2 ^ 31)); [lia|].
  destruct (Z.leb_spec (2 ^ 31) (Z.of_N n)); [lia|]. done.
Qed.

(** ** What C functions see and print *)

(** The bytes a [const char *] interface sees. *)
Fixpoint c_str (s : string) : string :=
  match s with
  | "" => ""
  | String c s' => if decide (c = "000"%char) then "" else String c (c_str s')
  end.

Lemma c_str_id s : lacks "000" s → c_str s = s.
Proof.
  induction s as [|c s IH]; [done|]. intros [Hc Hs]%lacks_cons. cbn.
  by rewrite decide_False, IH.
Qed.

Lemma c_str_lacks s : lacks "000" (c_str s).
Proof.
  induction s as [|c s IH]; [done|]. cbn. case_decide; [done|]. by apply lacks_cons.
Qed.

(** [std::to_string(int)] *)
Definition int_to_string (z : Z) : string :=
  if (z <? 0)%Z then "-" +:+ print_base 10 (Z.to_N (- z)) else print_base 10 (Z.to_N z).

(** [std::endl] *)
Definition endl : string := String "010" "".
