(* ===== verification/Types.v ===== *)
(** * Policies, keys and results ([common/types])

    [PolicyType], [PolicyResult], [PolicyKeyFeature], [PolicyKey], [Policy],
    [PolicyDescription], the glued map keys of [PolicyKeyHelpers] and the length checks of
    [string_validation.h].  Main results: [glueKey] is injective although features may
    contain the separator, and [keyVariants] enumerates exactly the keys of the rules
    that cover a request. *)
From S2P Require Import Prelude Text.

(** ** Policy types ([PolicyType.h], [cynara-policy-types.h]) *)

(** [typedef std::uint16_t PolicyType]; a value [t] satisfies [is_u16 t]. *)
Abbreviation PolicyType := Z (only parsing).
Definition is_u16 (t : Z) : Prop := (0 ≤ t < 2 ^ 16)%Z.
#[global] Instance is_u16_dec t : Decision (is_u16 t).
Proof. unfold is_u16. apply _. Defined.

Module PredefinedPolicyType.
Definition DENY : PolicyType := 0%Z.
Definition NONE : PolicyType := 1%Z.
Definition BUCKET : PolicyType := 65534%Z.
Definition ALLOW : PolicyType := 65535%Z.
End PredefinedPolicyType.
Export PredefinedPolicyType.

Abbreviation PolicyBucketId := string (only parsing).
Definition defaultPolicyBucketId : PolicyBucketId := "".

(** ** [PolicyResult] *)

Abbreviation PolicyMetadata := string (only parsing).

Record PolicyResult := mkPolicyResult {
  policyType : PolicyType;
  metadata : PolicyMetadata;
}.
Add Printing Constructor PolicyResult.

#[global] Instance PolicyResult_eq_dec : EqDecision PolicyResult.
Proof. solve_decision. Defined.

(** [PolicyResult()] and the implicit conversion [PolicyResult(policyType)] *)
Definition PolicyResult_default : PolicyResult := mkPolicyResult DENY "".
Definition PolicyResult_of (t : PolicyType) : PolicyResult := mkPolicyResult t "".

(** [operator<] compares the types only. *)
Definition PolicyResult_lt (r1 r2 : PolicyResult) : bool :=
  (policyType r1 <? policyType r2)%Z.
(** [operator==(const PolicyResult &)] *)
Definition PolicyResult_eqb (r1 r2 : PolicyResult) : bool := bool_decide (r1 = r2).
(** [operator==(const PolicyType &)] *)
Definition PolicyResult_is (r : PolicyResult) (t : PolicyType) : bool :=
  (policyType r =? t)%Z && bool_decide (metadata r = "").

Lemma PolicyResult_is_spec r t : PolicyResult_is r t = true ↔ r = PolicyResult_of t.
Proof.
  unfold PolicyResult_is, PolicyResult_of. destruct r as [ty md]; cbn.
  rewrite andb_true_iff, Z.eqb_eq, bool_decide_eq_true. split; [intros [-> ->]|intros [=]]; done.
Qed.

(** ** [PolicyKeyFeature]

    [m_isAny] caches [value == anyValue()]; the only constructor sets it and nothing
    changes it afterwards, so it is computed here. *)

Definition wildcardValue : string := "*".
Definition anyValue : string := "#".

Record PolicyKeyFeature := mkPolicyKeyFeature { value : string }.

#[global] Instance PolicyKeyFeature_eq_dec : EqDecision PolicyKeyFeature.
Proof. solve_decision. Defined.

Definition createWildcard : PolicyKeyFeature := mkPolicyKeyFeature wildcardValue.
Definition createAny : PolicyKeyFeature := mkPolicyKeyFeature anyValue.

Definition isAny (f : PolicyKeyFeature) : bool := bool_decide (value f = anyValue).
Definition valuesMatch (f1 f2 : PolicyKeyFeature) : bool :=
  bool_decide (value f1 = value f2).
Definition matchFilter_feature (f filter : PolicyKeyFeature) : bool :=
  isAny filter || valuesMatch f filter.

Lemma valuesMatch_eq f1 f2 : valuesMatch f1 f2 = true ↔ f1 = f2.
Proof. destruct f1, f2. unfold valuesMatch. rewrite bool_decide_eq_true. cbn. naive_solver. Qed.

(** ** [PolicyKey] *)

Record PolicyKey := mkPolicyKey {
  client : PolicyKeyFeature;
  user : PolicyKeyFeature;
  privilege : PolicyKeyFeature;
}.
Add Printing Constructor PolicyKey.

#[global] Instance PolicyKey_eq_dec : EqDecision PolicyKey.
Proof. solve_decision. Defined.

#[global] Instance PolicyKeyFeature_countable : Countable PolicyKeyFeature.
Proof. refine (inj_countable' value mkPolicyKeyFeature _). by intros []. Defined.
#[global] Instance PolicyKey_countable : Countable PolicyKey.
Proof.
  refine (inj_countable' (λ k, (client k, user k, privilege k))
    (λ '(c, u, p), mkPolicyKey c u p) _). by intros [].
Defined.

(** [PolicyKey(const ValueType &, const ValueType &, const ValueType &)] *)
Definition PolicyKey_of (c u p : string) : PolicyKey :=
  mkPolicyKey (mkPolicyKeyFeature c) (mkPolicyKeyFeature u) (mkPolicyKeyFeature p).

Definition PolicyKey_eqb (k1 k2 : PolicyKey) : bool :=
  valuesMatch (client k1) (client k2) && valuesMatch (user k1) (user k2)
  && valuesMatch (privilege k1) (privilege k2).

Definition matchFilter (k filter : PolicyKey) : bool :=
  matchFilter_feature (client k) (client filter)
  && matchFilter_feature (user k) (user filter)
  && matchFilter_feature (privilege k) (privilege filter).

Lemma PolicyKey_eqb_eq k1 k2 : PolicyKey_eqb k1 k2 = true ↔ k1 = k2.
Proof.
  destruct k1, k2. unfold PolicyKey_eqb. cbn.
  rewrite !andb_true_iff, !valuesMatch_eq. split; [intros [[-> ->] ->]|intros [=]]; done.
Qed.

(** ** [Policy], [PolicyDescription]

    Policies are shared through [std::shared_ptr<Policy>] but have no mutator, so a
    value stands for the pointer. *)

Record Policy := mkPolicy { key : PolicyKey; result : PolicyResult }.
Add Printing Constructor Policy.

#[global] Instance Policy_eq_dec : EqDecision Policy.
Proof. solve_decision. Defined.

Definition simpleWithKey (k : PolicyKey) (t : PolicyType) : Policy :=
  mkPolicy k (PolicyResult_of t).
Definition bucketWithKey (k : PolicyKey) (id : PolicyBucketId) : Policy :=
  mkPolicy k (mkPolicyResult BUCKET id).

Record PolicyDescription := mkPolicyDescription { type : PolicyType; name : string }.
Definition predefinedPolicyDescr : list PolicyDescription :=
  [mkPolicyDescription ALLOW "Allow"; mkPolicyDescription DENY "Deny"].
(** [operator<] orders descriptions by type: maps keyed by descriptions are keyed by type. *)
Definition PolicyDescription_lt (l r : PolicyDescription) : bool := (type l <? type r)%Z.

(** ** [PolicyKeyHelpers] *)

Definition glueKey3 (c u p : PolicyKeyFeature) : string :=
  let sep := ";" in
  let c := value c in
  let u := value u in
  let p := value p in
  c +:+ sep +:+ u +:+ sep +:+ p +:+ sep +:+ to_string (String.length c)
    +:+ sep +:+ to_string (String.length u) +:+ sep +:+ to_string (String.length p).

Definition glueKey (k : PolicyKey) : string := glueKey3 (client k) (user k) (privilege k).

Definition keyVariants (k : PolicyKey) : list string :=
  let client := client k in
  let user := user k in
  let privilege := privilege k in
  let w := createWildcard in
  [ glueKey3 client user privilege;
    glueKey3 w user privilege;
    glueKey3 client w privilege;
    glueKey3 client user w;
    glueKey3 w w privilege;
    glueKey3 w user w;
    glueKey3 client w w;
    glueKey3 w w w ].

(** Splitting at the last separator is unambiguous when the right parts lack it. *)
Lemma lacks_rsplit_inj c a b a' b' :
  lacks c b → lacks c b' → a +:+ String c b = a' +:+ String c b' → a = a' ∧ b = b'.
Proof.
  intros Hb Hb'. revert a'. induction a as [|x a IH]; intros [|y a'];
    rewrite ?str_app_cons, ?str_app_nil_l; intros [=]; subst.
  - done.
  - apply lacks_app in Hb as [_ Hb]. by apply lacks_cons in Hb as [? _].
  - apply lacks_app in Hb' as [_ Hb']. by apply lacks_cons in Hb' as [? _].
  - destruct (IH a') as [-> ->]; done.
Qed.

Lemma glueKey3_inj c u p c' u' p' :
  glueKey3 c u p = glueKey3 c' u' p' → c = c' ∧ u = u' ∧ p = p'.
Proof.
  destruct c as [c], u as [u], p as [p], c' as [c'], u' as [u'], p' as [p'].
  unfold glueKey3; cbn [value]. cbn zeta. rewrite <-!str_app_assoc.
  assert (∀ a b : string, (a +:+ ";") +:+ b = a +:+ String ";" b) as Hs.
  { intros a b. by rewrite str_app_assoc. }
  rewrite !Hs. intros H.
  apply lacks_rsplit_inj in H as [H Hp%to_string_inj]; [|auto with cynara..].
  apply lacks_rsplit_inj in H as [H Hu%to_string_inj]; [|auto with cynara..].
  apply lacks_rsplit_inj in H as [H Hc%to_string_inj]; [|auto with cynara..].
  rewrite !str_app_assoc in H.
  apply str_app_inj_length in H as [-> H]; [|done].
  apply str_app_inj_length in H as [[= ->] [= ->]]; [done|by cbn; f_equal].
Qed.

(** Two keys share a map slot only if they are equal, even when a feature contains the
    separator or digits. *)
Lemma glueKey_inj k1 k2 : glueKey k1 = glueKey k2 → k1 = k2.
Proof. destruct k1, k2. unfold glueKey; cbn. by intros (-> & -> & ->)%glueKey3_inj. Qed.

(** ** Rules that cover a request *)

(** A rule's feature covers a request's feature when it is equal or the wildcard. *)
Definition feature_covers (rule req : PolicyKeyFeature) : Prop :=
  rule = req ∨ rule = createWildcard.
Definition covers (rule req : PolicyKey) : Prop :=
  feature_covers (client rule) (client req) ∧
  feature_covers (user rule) (user req) ∧
  feature_covers (privilege rule) (privilege req).

#[global] Instance covers_dec rule req : Decision (covers rule req).
Proof. unfold covers, feature_covers. apply _. Defined.

(** The eight glued keys [keyVariants] looks up are exactly the glued keys of the
    rules that cover the request. *)
Lemma elem_of_keyVariants rule req :
  glueKey rule ∈ keyVariants req ↔ covers rule req.
Proof.
  unfold covers, feature_covers, glueKey, keyVariants. cbn zeta. split.
  - rewrite !elem_of_cons, elem_of_nil.
    intros H. repeat destruct H as [H|H]; try done;
      apply glueKey3_inj in H as (-> & -> & ->); auto.
  - intros ([->| ->] & [->| ->] & [->| ->]); set_solver.
Qed.

(** ** [string_validation.h], [cynara-limits.h] *)

Definition CYNARA_MAX_ID_LENGTH : nat := 4096.
Definition CYNARA_MAX_VECTOR_SIZE : nat := 4096.

(** A [const char *] argument: [None] is the null pointer. *)
Definition isStringValid (s : option string) : bool :=
  match s with None => false | Some s => String.length s <=? CYNARA_MAX_ID_LENGTH end.
Definition isExtraStringValid (s : option string) : bool :=
  match s with None => true | Some s => String.length s <=? CYNARA_MAX_ID_LENGTH end.
