(* ===== verification/Logging.v ===== *)
(** * Logs and texts of errors ([common/log], [common/exceptions])

    The level of the log, the lines of the audit journal, the messages of the exceptions, and
    the back traces that exceptions carry in debug builds.  Elsewhere the exceptions are values
    ([exn] in Prelude.v); here is what they say. *)
From S2P Require Import Prelude Text Types.

(** ** The log ([log.cpp], [log.h]) *)

(** Of [<syslog.h>]. *)
Definition LOG_EMERG : Z := 0.
Definition LOG_ALERT : Z := 1.
Definition LOG_CRIT : Z := 2.
Definition LOG_ERR : Z := 3.
Definition LOG_WARNING : Z := 4.
Definition LOG_NOTICE : Z := 5.
Definition LOG_INFO : Z := 6.
Definition LOG_DEBUG : Z := 7.

(** [!strncmp(name, strlog, strlen(name))] *)
Definition starts_with (name strlog : string) : bool := String.eqb (stake (String.length name) strlog) name.

Definition strlog2intlog (strlog : string) : Z :=
  if starts_with "LOG_EMERG" strlog then LOG_EMERG
  else if starts_with "LOG_ALERT" strlog then LOG_ALERT
  else if starts_with "LOG_CRIT" strlog then LOG_CRIT
  else if starts_with "LOG_ERR" strlog then LOG_ERR
  else if starts_with "LOG_WARNING" strlog then LOG_WARNING
  else if starts_with "LOG_NOTICE" strlog then LOG_NOTICE
  else if starts_with "LOG_INFO" strlog then LOG_INFO
  else if starts_with "LOG_DEBUG" strlog then LOG_DEBUG
  else LOG_ERR.

(** The level at the start of a process, [debug] being the build type. *)
Definition log_level (debug : bool) : Z := if debug then LOG_DEBUG else LOG_ERR.
(** [env] is the variable [CYNARA_LOG_LEVEL]. *)
Definition init_log (env : option string) (level : Z) : Z :=
  match env with Some env_val => strlog2intlog env_val | None => level end.

(** The macro [__LOG] with a text and nothing else: what is written, with its priority. *)
Definition LOG (level : Z) (text : string) (current : Z) : option (Z * string) :=
  if (level <=? current)%Z then Some (level, c_str text) else None.

(** ** The audit journal ([AuditLog.cpp]) *)

Inductive AuditLevel := AL_NONE | AL_DENY | AL_ALLOW | AL_OTHER | AL_ALL.
#[global] Instance AuditLevel_eq_dec : EqDecision AuditLevel.
Proof. solve_decision. Defined.

Definition stringToLevel (name : string) : AuditLevel :=
  if bool_decide (name = "NONE") then AL_NONE
  else if bool_decide (name = "DENY") then AL_DENY
  else if bool_decide (name = "ALLOW") then AL_ALLOW
  else if bool_decide (name = "OTHER") then AL_OTHER
  else if bool_decide (name = "ALL") then AL_ALL
  else AL_NONE.

(** The constructor; [env] is the variable [CYNARA_AUDIT_LEVEL]. *)
Definition AuditLog_new (env : option string) : AuditLevel :=
  match env with Some env_val => stringToLevel env_val | None => AL_DENY end.

Definition policyResultToString (r : PolicyResult) : string :=
  if (policyType r =? DENY)%Z then "DENY" else if (policyType r =? ALLOW)%Z then "ALLOW" else "OTHER".

(** Whether [AuditLog::log] writes a line. *)
Definition audited (level : AuditLevel) (policyType : PolicyType) : bool :=
  match level with
  | AL_NONE => false
  | AL_ALL => true
  | AL_DENY => (policyType =? DENY)%Z
  | AL_ALLOW => (policyType =? ALLOW)%Z
  | AL_OTHER => negb (policyType =? ALLOW)%Z && negb (policyType =? DENY)%Z
  end.

(** [MESSAGE=%s;%s;%s => %s], as the journal of systemd gets it. *)
Definition audit_line (key : PolicyKey) (r : PolicyResult) : string :=
  "MESSAGE=" +:+ c_str (value (client key)) +:+ ";" +:+ c_str (value (user key)) +:+ ";" +:+
  c_str (value (privilege key)) +:+ " => " +:+ policyResultToString r.

(** ** The messages of the exceptions *)

Section messages.
Context (strerror : Z → string).

Definition slicedLine (line : string) : string := stake 50 line +:+ (if 50 <? String.length line then "..." else "").
Definition formattedLineNumber (filename : string) (lineNumber : nat) : string :=
  (if bool_decide (filename = "") then " " else ":") +:+ to_string lineNumber.
Definition formattedMetadata (filename : string) (lineNumber : nat) : string :=
  (if bool_decide (filename = "") then "line" else filename) +:+
  (if lineNumber =? 0 then "" else formattedLineNumber filename lineNumber).
(** [RecordCorruptedException::setMessage] *)
Definition setMessage (subtype filename : string) (lineNumber : nat) (line : string) : string :=
  (if bool_decide (subtype = "") then "Record" else subtype +:+ " record") +:+ " corrupted at " +:+
  formattedMetadata filename lineNumber +:+ ": <" +:+ slicedLine line +:+ ">".

Definition BucketNotExistsException_message : string := "BucketNotExistsException".
Definition DefaultBucketDeletionException_message : string := "DefaultBucketDeletionException".
Definition DefaultBucketSetNoneException_message : string := "DefaultBucketSetNoneException".
Definition UnknownPolicyTypeException_message : string := "UnknownPolicyTypeException".
Definition DatabaseCorruptedException_message : string := "DatabaseCorruptedException".
Definition NotImplementedException_message : string := "NotImplementedException".
Definition InitException_message : string := "InitException".
Definition ContextErrorException_message : string := "ContextErrorException".
Definition InvalidBucketIdException_message (bucket : string) : string := "Bucket ID " +:+ bucket +:+ " contains forbidden characters".
Definition BucketRecordCorruptedException_message (line : string) (lineNumber : nat) : string := setMessage "Bucket" "" lineNumber line.
Definition ChecksumRecordCorruptedException_message (line : string) (lineNumber : nat) : string := setMessage "Checksum" "" lineNumber line.
Definition BucketDeserializationException_message (bucket : string) : string := "Could not deserialize bucket " +:+ bucket.
Definition BucketSerializationException_message (bucket : string) : string := "Could not serialize bucket " +:+ bucket.
Definition CannotCreateFileException_message (file : string) : string := "File " +:+ file +:+ " cannot be created".
Definition FileNotFoundException_message (file : string) : string := "File " +:+ file +:+ " not found or corrupted badly".
Definition InvalidProtocolException_message (t : ProtocolExceptionType) : string :=
  match t with
  | InvalidSignature => "No valid signature found"
  | WrongOpCode => "Wrong request code"
  | IdentifierTooLong => "Identifier too long"
  | OtherProtocolError => "Unknown problem"
  end.
Definition OutOfDataException_message (dataRange accessTry : nat) : string :=
  "trying access [" +:+ to_string accessTry +:+ "] which exceeds data range [" +:+ to_string dataRange +:+ "]".
Definition FileLockAcquiringException_message (errno : Z) : string :=
  "File lock acquiring error [" +:+ int_to_string errno +:+ "] <" +:+ strerror errno +:+ ">".
Definition UnexpectedErrorException_message (errorCode : Z) (errorMsg : string) : string :=
  "UnexpectedErrorException with errorCode =[" +:+ int_to_string errorCode +:+ "] and message <" +:+ errorMsg +:+ ">".
Definition PluginErrorException_message (key : PolicyKey) : string :=
  "Plugin couldn't get result for user <" +:+ value (user key) +:+ ">, client <" +:+ value (client key) +:+
  ">, privilege <" +:+ value (privilege key) +:+ ">".
Definition NoMemoryException_message (errorMsg : string) : string := "NoMemoryException with message <" +:+ errorMsg +:+ ">".
Definition AccessDeniedException_message (where_ : string) : string := "Access denied from: " +:+ where_.
Definition NullPointerException_message (varName : string) : string := "unexpected null value in variable <" +:+ varName +:+ ">".

(** The message of an exception whose arguments the model keeps. *)
Definition message (e : exn) : option string :=
  match e with
  | BucketNotExistsException _ => Some BucketNotExistsException_message
  | InvalidBucketIdException bucket => Some (InvalidBucketIdException_message bucket)
  | DefaultBucketDeletionException => Some DefaultBucketDeletionException_message
  | DefaultBucketSetNoneException => Some DefaultBucketSetNoneException_message
  | UnknownPolicyTypeException _ => Some UnknownPolicyTypeException_message
  | BucketRecordCorruptedException line lineNumber => Some (BucketRecordCorruptedException_message line lineNumber)
  | ChecksumRecordCorruptedException line lineNumber => Some (ChecksumRecordCorruptedException_message line lineNumber)
  | BucketDeserializationException bucket => Some (BucketDeserializationException_message bucket)
  | BucketSerializationException bucket => Some (BucketSerializationException_message bucket)
  | CannotCreateFileException file => Some (CannotCreateFileException_message file)
  | FileNotFoundException file => Some (FileNotFoundException_message file)
  | DatabaseCorruptedException => Some DatabaseCorruptedException_message
  | FileLockAcquiringException errno => Some (FileLockAcquiringException_message errno)
  | NotImplementedException => Some NotImplementedException_message
  | InitException => Some InitException_message
  | ContextErrorException => Some ContextErrorException_message
  | OutOfDataException dataRange accessTry => Some (OutOfDataException_message dataRange accessTry)
  | InvalidProtocolException t => Some (InvalidProtocolException_message t)
  | _ => None
  end.

(** [Exception::what]: the text is built at the first call and kept, unless it is empty. *)
Definition what (m_message m_backtrace m_whatMessage : string) : string * string :=
  let m_whatMessage := if bool_decide (m_whatMessage = "") then m_message +:+ " From: " +:+ m_backtrace else m_whatMessage in
  (c_str m_whatMessage, m_whatMessage).
End messages.

(** ** Back traces ([Backtrace.cpp])

    The libraries for debug information and for unwinding are arguments. *)

Record Frame := mkFrame {
  ip : Z;
  (** [None]: [unw_get_proc_name] fails and leaves its buffer as it is *)
  proc_name : option string;
}.

Section backtrace.
Context {Dwfl Module_ Line : Type}.
Context (dwfl_begin : option Dwfl) (dwfl_linux_proc_report : Dwfl → Z) (dwfl_addrmodule : Dwfl → Z → option Module_)
  (dwfl_module_getsrc : Module_ → Z → option Line) (dwfl_lineinfo : Line → option string * Z)
  (dwfl_line_comp_dir : Line → option string) (cxa_demangle : string → option string).

(** [Backtrace::init] *)
Definition Backtrace_init : option Dwfl :=
  match dwfl_begin with
  | None => None
  | Some m_dwfl => if (dwfl_linux_proc_report m_dwfl =? 0)%Z then Some m_dwfl else None
  end.

Definition absolute (src : string) : bool := match src with String c _ => bool_decide (c = "/"%char) | "" => false end.

(** A null pointer for a string in an output stream is undefined. *)
Definition getSourceInfo (m_dwfl : option Dwfl) (address : Z) : outcome (string * Z) :=
  match m_dwfl with
  | None => Ret ("??", 0%Z)
  | Some dwfl =>
      match dwfl_addrmodule dwfl address with
      | None => Ret ("??", 0%Z)
      | Some module =>
          match dwfl_module_getsrc module address with
          | None => Ret ("??", 0%Z)
          | Some line =>
              match dwfl_lineinfo line with
              | (None, lineNumber) => Ret ("??", lineNumber)
              | (Some src, lineNumber) =>
                  if absolute src then Ret (src, lineNumber)
                  else
                    match dwfl_line_comp_dir line with
                    | Some compilationDirectory => Ret (compilationDirectory +:+ "/" +:+ src, lineNumber)
                    | None => Throw UndefinedBehaviour
                    end
              end
          end
      end
  end.

(** The frames that remain; [buffer] is what [proc_name] holds, [None] as long as nothing was written
    to it. *)
Fixpoint print_frames (m_dwfl : option Dwfl) (buffer : option string) (frames : list Frame) : outcome string :=
  match frames with
  | [] => Ret ""
  | frame :: frames =>
      let buffer := match proc_name frame with Some name => Some name | None => buffer end in
      match buffer with
      | None => Throw UndefinedBehaviour
      | Some name =>
          info ← getSourceInfo m_dwfl (ip frame);
          rest ← print_frames m_dwfl buffer frames;
          Ret (default name (cxa_demangle name) +:+ ", " +:+ info.1 +:+ ":" +:+ int_to_string info.2 +:+ endl +:+ rest)
      end
  end.

(** [stack] starts at this function; its frame and its caller's are left out. *)
Definition buildBacktrace (m_dwfl : option Dwfl) (stack : list Frame) : outcome string :=
  print_frames m_dwfl None (drop 2 stack).
Definition getBacktrace (stack : list Frame) : outcome string := buildBacktrace Backtrace_init stack.
End backtrace.

(** ** Theorems *)

Lemma lacks_split_inj_l c a b a' b' : lacks c a → lacks c a' → a +:+ String c b = a' +:+ String c b' → a = a' ∧ b = b'.
Proof.
  revert a'. induction a as [|x a IH]; intros [|y a'] Ha Ha'; rewrite ?str_app_nil_l, ?str_app_cons; intros E.
  - by injection E.
  - injection E as <- ->. by apply lacks_cons in Ha' as [? _].
  - injection E as -> <-. by apply lacks_cons in Ha as [? _].
  - injection E as <- E. apply lacks_cons in Ha as [_ Ha]. apply lacks_cons in Ha' as [_ Ha']. by destruct (IH a' Ha Ha' E) as [-> ->].
Qed.

(** The levels by their names; what starts with one is one, so [LOG_ERROR] is [LOG_ERR]. *)
Definition log_names : list (string * Z) :=
  [("LOG_EMERG", LOG_EMERG); ("LOG_ALERT", LOG_ALERT); ("LOG_CRIT", LOG_CRIT); ("LOG_ERR", LOG_ERR);
   ("LOG_WARNING", LOG_WARNING); ("LOG_NOTICE", LOG_NOTICE); ("LOG_INFO", LOG_INFO); ("LOG_DEBUG", LOG_DEBUG)].

(** The level of the log: every level can be chosen by its name, whatever follows the name, and
    anything else means that errors are logged; a higher level logs whatever a lower one does. *)
Theorem log_levels :
  (∀ name level rest, (name, level) ∈ log_names → strlog2intlog (name +:+ rest) = level) ∧
  (∀ strlog, (∀ name level, (name, level) ∈ log_names → starts_with name strlog = false) → strlog2intlog strlog = LOG_ERR) ∧
  (∀ strlog, (LOG_EMERG ≤ strlog2intlog strlog ≤ LOG_DEBUG)%Z) ∧
  (∀ level text low high line, (low ≤ high)%Z → LOG level text low = Some line → LOG level text high = Some line).
Proof.
  split_and!.
  - intros name level rest Hin. unfold log_names in Hin. repeat (apply elem_of_cons in Hin as [[= -> ->]|Hin]; [by rewrite !str_app_cons, str_app_nil_l; vm_compute|]).
    by apply elem_of_nil in Hin.
  - intros strlog Hno. unfold strlog2intlog. by rewrite
      (Hno "LOG_EMERG" LOG_EMERG), (Hno "LOG_ALERT" LOG_ALERT), (Hno "LOG_CRIT" LOG_CRIT), (Hno "LOG_ERR" LOG_ERR),
      (Hno "LOG_WARNING" LOG_WARNING), (Hno "LOG_NOTICE" LOG_NOTICE), (Hno "LOG_INFO" LOG_INFO), (Hno "LOG_DEBUG" LOG_DEBUG)
      by (unfold log_names; rewrite !elem_of_cons; tauto).
  - intros strlog. unfold strlog2intlog, LOG_EMERG, LOG_ALERT, LOG_CRIT, LOG_ERR, LOG_WARNING, LOG_NOTICE, LOG_INFO, LOG_DEBUG.
    repeat case_match; lia.
  - intros level text low high line Hle. unfold LOG. destruct (Z.leb_spec level low), (Z.leb_spec level high); (done || lia).
Qed.

(** A key whose audit lines can be read back. *)
Definition plain_field (s : string) : Prop := lacks "000" s ∧ lacks ";" s ∧ lacks " " s.
Definition plain_key (key : PolicyKey) : Prop :=
  plain_field (value (client key)) ∧ plain_field (value (user key)) ∧ plain_field (value (privilege key)).

(** The lines of the audit journal: an unset variable audits denials, an unknown value nothing;
    every decision is audited by [ALL] and by exactly one of [DENY], [ALLOW] and [OTHER]; and the
    line of a key without separators tells the key and the kind of the decision. *)
Theorem audit_lines :
  AuditLog_new None = AL_DENY ∧
  (∀ env, env ∉ ["NONE"; "DENY"; "ALLOW"; "OTHER"; "ALL"] → ∀ t, audited (AuditLog_new (Some env)) t = false) ∧
  (∀ t, audited AL_ALL t = true ∧ ∃ level, audited level t = true ∧ level ∈ [AL_DENY; AL_ALLOW; AL_OTHER] ∧
     ∀ level', level' ∈ [AL_DENY; AL_ALLOW; AL_OTHER] → audited level' t = true → level' = level) ∧
  (∀ key key' r r', plain_key key → plain_key key' → audit_line key r = audit_line key' r' →
     key = key' ∧ policyResultToString r = policyResultToString r').
Proof.
  split_and!; [done| | |].
  - intros env Hno t. cbn. unfold stringToLevel. rewrite !bool_decide_eq_false_2; [done|..]; intros ->; apply Hno; set_solver.
  - intros t. split; [done|]. unfold audited.
    destruct (Z.eqb_spec t DENY) as [->|Hd]; [|destruct (Z.eqb_spec t ALLOW) as [->|Ha]].
    + exists AL_DENY. split_and!; [done|set_solver|]. intros level' Hin. repeat (apply elem_of_cons in Hin as [->|Hin]; [done|]). by apply elem_of_nil in Hin.
    + exists AL_ALLOW. split_and!; [done|set_solver|]. intros level' Hin. repeat (apply elem_of_cons in Hin as [->|Hin]; [done|]). by apply elem_of_nil in Hin.
    + exists AL_OTHER. split_and!; [done|set_solver|]. intros level' Hin. repeat (apply elem_of_cons in Hin as [->|Hin]; [done|]). by apply elem_of_nil in Hin.
  - intros [[c] [u] [p]] [[c'] [u'] [p']] r r' ((Hc & Hc2 & _) & (Hu & Hu2 & _) & (Hp & _ & Hp3)) ((Hc' & Hc2' & _) & (Hu' & Hu2' & _) & (Hp' & _ & Hp3')).
    unfold audit_line. cbn [value client user privilege] in *. rewrite !c_str_id by done. intros E.
    injection E as E. apply lacks_split_inj_l in E as [-> E]; [|done..]. apply lacks_split_inj_l in E as [-> E]; [|done..].
    apply lacks_split_inj_l in E as [-> E]; [|done..]. by injection E as ->.
Qed.

(** A separator within a name makes the line of another key. *)
Example audit_line_ambiguous :
  audit_line (PolicyKey_of "app" "1000;x" "camera") (PolicyResult_of DENY) =
  audit_line (PolicyKey_of "app;1000" "x" "camera") (PolicyResult_of DENY).
Proof. reflexivity. Qed.

(** A message about a corrupted record quotes at most 50 bytes of it, and the whole of a shorter one. *)
Theorem sliced_line line :
  String.length (slicedLine line) ≤ 53 ∧ (String.length line ≤ 50 → slicedLine line = line) ∧
  (50 < String.length line → ∃ rest, line = stake 50 line +:+ rest ∧ rest ≠ "" ∧ slicedLine line = stake 50 line +:+ "...").
Proof.
  unfold slicedLine. destruct (Nat.ltb_spec 50 (String.length line)) as [Hlt|Hge].
  - split; [rewrite str_length_app, str_length_stake; change (String.length "...") with 3; lia|]. split; [lia|]. intros _. exists (sdrop 50 line).
    split; [by rewrite stake_sdrop|]. split; [|done]. intros Hd.
    pose proof (f_equal String.length (stake_sdrop 50 line)) as Hl. rewrite Hd, str_app_nil_r, str_length_stake in Hl. lia.
  - rewrite str_app_nil_r. split; [rewrite str_length_stake; lia|]. split; [|lia]. intros _.
    assert (String.length (sdrop 50 line) = 0) as Hz.
    { pose proof (f_equal String.length (stake_sdrop 50 line)) as Hl. rewrite str_length_app, str_length_stake in Hl. lia. }
    apply str_length_nil in Hz. rewrite <-(stake_sdrop 50 line) at 2. by rewrite Hz, str_app_nil_r.
Qed.

(** A back trace needs all that the libraries can leave out: without debug information every
    frame with a name has its line; but a source file with a relative name and no directory of its
    compilation makes the trace undefined, as does a first frame without a name. *)
Theorem backtrace_needs {Dwfl Module_ Line : Type} report addrmodule getsrc lineinfo comp_dir demangle (dwfl : Dwfl)
    (module : Module_) (line : Line) address src lineNumber :
  addrmodule dwfl address = Some module → getsrc module address = Some line → lineinfo line = (Some src, lineNumber) →
  (absolute src = true →
     getSourceInfo addrmodule getsrc lineinfo comp_dir (Some dwfl) address = Ret (src, lineNumber)) ∧
  (absolute src = false → comp_dir line = None →
     getSourceInfo addrmodule getsrc lineinfo comp_dir (Some dwfl) address = Throw UndefinedBehaviour) ∧
  (∀ f0 f1 rest names, proc_name <$> rest = Some <$> names →
     getBacktrace None report addrmodule getsrc lineinfo comp_dir demangle (f0 :: f1 :: rest) =
       Ret (foldr (λ name s, default name (demangle name) +:+ ", ??:0" +:+ endl +:+ s) "" names)) ∧
  (∀ f0 f1 address rest,
     getBacktrace None report addrmodule getsrc lineinfo comp_dir demangle (f0 :: f1 :: mkFrame address None :: rest) =
       Throw UndefinedBehaviour).
Proof.
  intros Hm Hl Hs. unfold getSourceInfo. rewrite Hm, Hl, Hs. split_and!.
  - by intros ->.
  - by intros -> ->.
  - intros f0 f1 rest names. unfold getBacktrace, Backtrace_init, buildBacktrace. rewrite !skipn_cons, drop_0. generalize (@None string).
    revert names. induction rest as [|frame rest IH]; intros [|name names] buffer; try done.
    cbn [fmap list_fmap]. intros [= Hn Hr]. cbn [print_frames foldr]. rewrite Hn. cbn [getSourceInfo]. cbn.
    by rewrite (IH names (Some name) Hr).
  - done.
Qed.

Lemma backtrace_needs_witness :
  getSourceInfo (λ _ _, Some tt) (λ _ _, Some tt) (λ _, (Some "main.cpp", 7%Z)) (λ _, None) (Some tt) 4096 = Throw UndefinedBehaviour ∧
  getBacktrace (Line:=unit) None (λ _ : unit, 0%Z) (λ _ _, Some tt) (λ _ _, Some tt) (λ _, (Some "main.cpp", 7%Z)) (λ _, None) (λ _, None)
    [mkFrame 1 None; mkFrame 2 None; mkFrame 3 (Some "run")] = Ret ("run, ??:0" +:+ endl).
Proof.
  destruct (backtrace_needs (Line:=unit) (λ _ : unit, 0%Z) (λ _ _, Some tt) (λ _ _, Some tt) (λ _, (Some "main.cpp", 7%Z)) (λ _, None) (λ _, None) tt tt tt 4096
    "main.cpp" 7 eq_refl eq_refl eq_refl) as (_ & Hrel & Hall & _).
  split; [by apply Hrel|]. exact (Hall (mkFrame 1 None) (mkFrame 2 None) [mkFrame 3 (Some "run")] ["run"] eq_refl).
Defined.
