(* ===== verification/Api.v ===== *)
(** * What the library interfaces share ([include/cynara-error.h], [TryCatch.h])

    A [const char *] argument is an [option string]: [None] is the null pointer, and the
    string ends before the first NUL; [isStringValid] is in [Types]. *)
From S2P Require Import Prelude Text Types.

Definition CYNARA_API_INTERRUPTED : Z := 4.
Definition CYNARA_API_ACCESS_NOT_RESOLVED : Z := 3.
Definition CYNARA_API_ACCESS_ALLOWED : Z := 2.
Definition CYNARA_API_ACCESS_DENIED : Z := 1.
Definition CYNARA_API_SUCCESS : Z := 0.
Definition CYNARA_API_CACHE_MISS : Z := -1.
Definition CYNARA_API_MAX_PENDING_REQUESTS : Z := -2.
Definition CYNARA_API_OUT_OF_MEMORY : Z := -3.
Definition CYNARA_API_INVALID_PARAM : Z := -4.
Definition CYNARA_API_SERVICE_NOT_AVAILABLE : Z := -5.
Definition CYNARA_API_METHOD_NOT_SUPPORTED : Z := -6.
Definition CYNARA_API_OPERATION_NOT_ALLOWED : Z := -7.
Definition CYNARA_API_OPERATION_FAILED : Z := -8.
Definition CYNARA_API_BUCKET_NOT_FOUND : Z := -9.
Definition CYNARA_API_UNKNOWN_ERROR : Z := -10.
Definition CYNARA_API_CONFIGURATION_ERROR : Z := -11.
Definition CYNARA_API_INVALID_COMMANDLINE_PARAM : Z := -12.
Definition CYNARA_API_BUFFER_TOO_SHORT : Z := -13.
Definition CYNARA_API_DATABASE_CORRUPTED : Z := -14.
Definition CYNARA_API_PERMISSION_DENIED : Z := -15.

(** The code for an exception; what is undefined stays so. *)
Definition exception_code (e : exn) : option Z :=
  match e with
  | NoMemoryException => Some CYNARA_API_OUT_OF_MEMORY
  | InvalidProtocolException _ => Some CYNARA_API_INVALID_PARAM
  | AccessDeniedException => Some CYNARA_API_PERMISSION_DENIED
  | UndefinedBehaviour => None
  | _ => Some CYNARA_API_UNKNOWN_ERROR
  end.

(** [Cynara::tryCatch] *)
Definition api_tryCatch {S} (func : SE S Z) : SE S Z :=
  tryCatch func (λ e, match exception_code e with Some code => mret code | None => throw e end).

(** [tryCatch] around a function with output arguments. *)
Definition api_tryCatchValue {S A} (func : SE S (Z + A)) : SE S (Z + A) :=
  tryCatch func (λ e, match exception_code e with Some code => mret (inl code) | None => throw e end).

(** However the function ends, other than by undefined behaviour, the caller gets a code. *)
Lemma api_tryCatch_returns {S} (func : SE S Z) s :
  (func s).1 ≠ OutOfFuel → (func s).1 ≠ Throw UndefinedBehaviour → ∃ code, (api_tryCatch func s).1 = Ret code.
Proof.
  unfold api_tryCatch, tryCatch. destruct (func s) as [[a|e|] s']; [by exists a| |done].
  cbn [fst]. intros _ Hne. destruct (exception_code e) as [code|] eqn:He; [by exists code|].
  by destruct e.
Qed.
