(* ===== verification/Bucket.v ===== *)
(** * Policy buckets ([common/types/PolicyBucket])

    A bucket is a map from glued keys to policies with a default result.  The invariant
    [bucket_wf] says every policy sits at its own glued key and the id is valid; every
    operation preserves it, and on well-formed buckets each operation is described on
    [PolicyKey]s instead of glued strings. *)
From S2P Require Import Prelude Text Types.

(** [typedef std::unordered_map<std::string, PolicyPtr> PolicyMap] *)
Abbreviation PolicyMap := (gmap string Policy).

Section PolicyBucket.
Context `{HO : HashOrder}.

Record PolicyBucket := mkPolicyBucket {
  m_policyCollection : gmap string Policy;
  m_defaultPolicy : PolicyResult;
  m_id : PolicyBucketId;
}.

(** ** Identifiers *)

Definition m_idSeparators : string := "-_".

(** [strchr(m_idSeparators, c) != nullptr]: [strchr] also finds the terminating NUL. *)
Definition isIdSeparator (c : ascii) : bool :=
  bool_decide (find_char c m_idSeparators ≠ None) || bool_decide (c = "000"%char).

(** [std::isalnum] in the "C" locale *)
Definition isalnum (c : ascii) : bool :=
  let n := N_of_ascii c in
  ((48 <=? n) && (n <=? 57) || (65 <=? n) && (n <=? 90) || (97 <=? n) && (n <=? 122))%N.

Definition isCharInvalid (c : ascii) : bool := negb (isalnum c || isIdSeparator c).

Definition idValid (id : PolicyBucketId) : bool :=
  negb (existsb isCharInvalid (String.list_ascii_of_string id)).

Definition idValidator (id : PolicyBucketId) : outcome unit :=
  if idValid id then Ret tt else Throw (InvalidBucketIdException id).

(** ** Construction *)

Definition makePolicyMap (policies : list Policy) : PolicyMap :=
  foldl (λ m p, <[glueKey (key p) := p]> m) ∅ policies.

(** [PolicyBucket(id, defaultPolicy)] *)
Definition PolicyBucket_new (id : PolicyBucketId) (defaultPolicy : PolicyResult) :
    outcome PolicyBucket :=
  _ ← idValidator id;
  Ret (mkPolicyBucket ∅ defaultPolicy id).

(** [PolicyBucket(id, defaultPolicy, policies)] *)
Definition PolicyBucket_with (id : PolicyBucketId) (defaultPolicy : PolicyResult)
    (policies : list Policy) : outcome PolicyBucket :=
  _ ← idValidator id;
  Ret (mkPolicyBucket (makePolicyMap policies) defaultPolicy id).

(** ** Operations *)

Definition setDefaultPolicy (r : PolicyResult) (b : PolicyBucket) : PolicyBucket :=
  mkPolicyBucket (m_policyCollection b) r (m_id b).
Definition setCollection (m : PolicyMap) (b : PolicyBucket) : PolicyBucket :=
  mkPolicyBucket m (m_defaultPolicy b) (m_id b).

Definition filtered (b : PolicyBucket) (k : PolicyKey) : outcome PolicyBucket :=
  result ← PolicyBucket_new (m_id b +:+ "_filtered") (PolicyResult_of DENY);
  let policies := m_policyCollection b in
  let variants := keyVariants k in
  let coll := foldl (λ acc variant,
    match policies !! variant with
    | Some p => <[variant := p]> acc
    | None => acc
    end) (m_policyCollection result) variants in
  Ret (setDefaultPolicy (m_defaultPolicy b) (setCollection coll result)).

Definition insertPolicy_bucket (p : Policy) (b : PolicyBucket) : PolicyBucket :=
  setCollection (<[glueKey (key p) := p]> (m_policyCollection b)) b.

Definition deletePolicy_bucket (k : PolicyKey) (b : PolicyBucket) : PolicyBucket :=
  setCollection (delete (glueKey k) (m_policyCollection b)) b.

(** [deletePolicy(predicate)]: the loop over the map erases the policies that match. *)
Definition deletePolicyIf (predicate : Policy → bool) (b : PolicyBucket) : PolicyBucket :=
  let policies := m_policyCollection b in
  setCollection (foldl (λ m (kp : string * Policy),
    if predicate kp.2 then delete kp.1 m else m) policies (miter policies)) b.

Definition listPolicies_bucket (filter_ : PolicyKey) (b : PolicyBucket) : list Policy :=
  List.filter (λ p, matchFilter (key p) filter_) (miter (m_policyCollection b)).*2.

Definition getSubBuckets (b : PolicyBucket) : gset PolicyBucketId :=
  foldl (λ (buckets : gset string) p,
    if (policyType (result p) =? BUCKET)%Z then buckets ∪ {[metadata (result p)]}
    else buckets) ∅ (miter (m_policyCollection b)).*2.

(** The policies a [for (const auto policy : bucket)] loop visits. *)
Definition bucket_policies (b : PolicyBucket) : list Policy :=
  (miter (m_policyCollection b)).*2.

(** ** Well-formed buckets *)

Definition map_wf (m : gmap string Policy) : Prop :=
  map_Forall (λ k p, k = glueKey (key p)) m.
Definition bucket_wf (b : PolicyBucket) : Prop :=
  map_wf (m_policyCollection b) ∧ idValid (m_id b) = true.

#[global] Instance bucket_wf_dec b : Decision (bucket_wf b).
Proof. unfold bucket_wf, map_wf. apply _. Defined.

(** The rules of a bucket, keyed by policy key: what the glued map stands for. *)
Definition rules_of_map (m : gmap string Policy) : gmap PolicyKey PolicyResult :=
  list_to_map ((λ kp, (key kp.2, result kp.2)) <$> map_to_list m).
Definition rules (b : PolicyBucket) : gmap PolicyKey PolicyResult :=
  rules_of_map (m_policyCollection b).

Lemma map_wf_lookup m k p : map_wf m → m !! k = Some p → k = glueKey (key p).
Proof. intros Hwf. apply (Hwf k p). Qed.

Lemma rules_of_map_Some m k r :
  map_wf m → rules_of_map m !! k = Some r ↔ m !! glueKey k = Some (mkPolicy k r).
Proof.
  intros Hwf. unfold rules_of_map. rewrite <-elem_of_list_to_map.
  - rewrite list_elem_of_fmap. split.
    + intros ([g [k' r']] & [= -> ->] & Hin%elem_of_map_to_list); cbn in *.
      by rewrite (map_wf_lookup m g _ Hwf Hin) in Hin.
    + intros H%elem_of_map_to_list. by exists (glueKey k, mkPolicy k r).
  - rewrite <-list_fmap_compose. apply NoDup_fmap_2_strong; [|apply NoDup_map_to_list].
    intros [g [k1 r1]] [g' [k2 r2]] H1%elem_of_map_to_list H2%elem_of_map_to_list; cbn in *.
    intros <-. pose proof (map_wf_lookup m _ _ Hwf H1) as E1.
    pose proof (map_wf_lookup m _ _ Hwf H2) as E2. cbn in E1, E2. subst. congruence.
Qed.

Lemma rules_Some b k r :
  bucket_wf b → rules b !! k = Some r ↔ m_policyCollection b !! glueKey k = Some (mkPolicy k r).
Proof. intros [Hwf _]. by apply rules_of_map_Some. Qed.

(** A map equality on rules is an equality of lookups of glued keys. *)
Lemma rules_of_map_eq m (R : gmap PolicyKey PolicyResult) :
  map_wf m → (∀ k r, m !! glueKey k = Some (mkPolicy k r) ↔ R !! k = Some r) →
  rules_of_map m = R.
Proof.
  intros Hwf H. apply map_eq. intros k. apply option_eq. intros r.
  rewrite rules_of_map_Some by done. apply H.
Qed.

Lemma map_wf_empty : map_wf ∅.
Proof. apply map_Forall_empty. Qed.
Lemma map_wf_insert m p : map_wf m → map_wf (<[glueKey (key p) := p]> m).
Proof. intros. by apply map_Forall_insert_2. Qed.
Lemma map_wf_delete m k : map_wf m → map_wf (delete k m).
Proof. apply map_Forall_delete. Qed.
Lemma map_wf_subseteq m m' : m' ⊆ m → map_wf m → map_wf m'.
Proof. intros Hsub Hwf k p Hk. apply Hwf. by eapply lookup_weaken. Qed.

Lemma makePolicyMap_wf ps : map_wf (makePolicyMap ps).
Proof.
  unfold makePolicyMap. cut (∀ m, map_wf m →
    map_wf (foldl (λ m p, <[glueKey (key p) := p]> m) m ps)); [eauto using map_wf_empty|].
  induction ps as [|p ps IH]; intros m Hm; [done|]. apply IH. by apply map_wf_insert.
Qed.

(** Erasing the matching policies one by one is the filtered map, whatever the order. *)
Lemma deletePolicyIf_filter predicate b :
  m_policyCollection (deletePolicyIf predicate b) =
    filter (λ kp, predicate kp.2 = false) (m_policyCollection b).
Proof.
  unfold deletePolicyIf, setCollection; cbn.
  set (m := m_policyCollection b).
  assert (∀ (l : list (string * Policy)) (acc : gmap string Policy) i x,
    foldl (λ m (kp : string * Policy), if predicate kp.2 then delete kp.1 m else m) acc l
      !! i = Some x ↔ acc !! i = Some x ∧ ∀ p, (i, p) ∈ l → predicate p = false) as Hloop.
  { induction l as [|[k p] l IH]; intros acc i x; cbn [foldl fst snd].
    - split; [intros H; split; [done|intros p []%elem_of_nil]|by intros []].
    - rewrite IH. destruct (predicate p) eqn:E.
      + rewrite lookup_delete_Some. split.
        * intros [[Hne Hi] Hn]. split; [done|].
          intros q [[= -> ->]|Hin]%elem_of_cons; [done|by apply Hn].
        * intros [Hi Hn]. split; [split; [|done]|intros q Hin; apply Hn; by right].
          intros ->. specialize (Hn p ltac:(by left)). congruence.
      + split; intros [Hi Hn]; (split; [done|]); intros q Hin; [|apply Hn; by right].
        apply elem_of_cons in Hin as [[= -> ->]|Hin]; [done|by apply Hn]. }
  apply map_eq. intros i. apply option_eq. intros x.
  rewrite Hloop, map_lookup_filter_Some. cbn. split; intros [Hi Hn]; (split; [done|]).
  - apply Hn. by apply elem_of_miter.
  - intros p Hin%elem_of_miter. by simplify_map_eq.
Qed.

Lemma deletePolicyIf_lookup predicate b k p :
  m_policyCollection (deletePolicyIf predicate b) !! k = Some p ↔
    m_policyCollection b !! k = Some p ∧ predicate p = false.
Proof. by rewrite deletePolicyIf_filter, map_lookup_filter_Some. Qed.

(** ** Every operation preserves well-formedness *)

Lemma idValid_app a b : idValid (a +:+ b) = idValid a && idValid b.
Proof.
  unfold idValid. induction a as [|c a IH]; [by rewrite str_app_nil_l|].
  rewrite str_app_cons. cbn. rewrite !negb_orb, IH. by rewrite andb_assoc.
Qed.

Lemma PolicyBucket_new_wf id r b : PolicyBucket_new id r = Ret b → bucket_wf b.
Proof.
  unfold PolicyBucket_new, idValidator. destruct (idValid id) eqn:E; intros [= <-].
  split; [apply map_wf_empty|done].
Qed.
Lemma insertPolicy_bucket_wf p b : bucket_wf b → bucket_wf (insertPolicy_bucket p b).
Proof. intros [? ?]. split; [by apply map_wf_insert|done]. Qed.
Lemma deletePolicy_bucket_wf k b : bucket_wf b → bucket_wf (deletePolicy_bucket k b).
Proof. intros [? ?]. split; [by apply map_wf_delete|done]. Qed.
Lemma deletePolicyIf_wf f b : bucket_wf b → bucket_wf (deletePolicyIf f b).
Proof.
  intros [? ?]. split; [|done]. rewrite deletePolicyIf_filter.
  eapply map_wf_subseteq; [apply map_filter_subseteq|done].
Qed.
Lemma setDefaultPolicy_wf r b : bucket_wf b → bucket_wf (setDefaultPolicy r b).
Proof. done. Qed.

(** ** The operations on rules *)

Lemma rules_new id r b :
  PolicyBucket_new id r = Ret b → rules b = ∅ ∧ m_defaultPolicy b = r.
Proof.
  unfold PolicyBucket_new, idValidator. destruct (idValid id); intros [= <-].
  split; [|done]. unfold rules, rules_of_map. cbn. by rewrite map_to_list_empty.
Qed.

Lemma rules_insert p b :
  bucket_wf b → rules (insertPolicy_bucket p b) = <[key p := result p]> (rules b).
Proof.
  intros [Hwf Hid]. apply rules_of_map_eq; [by apply map_wf_insert|]. cbn. intros k r.
  destruct p as [pk pr]; cbn. rewrite !lookup_insert_Some.
  unfold rules. rewrite rules_of_map_Some by done. split.
  - intros [[->%glueKey_inj [= ->]]|[Hne H]]; [by left|]. right. split; [congruence|done].
  - intros [[-> ->]|[Hne H]]; [by left|]. right. split; [|done]. by intros ->%glueKey_inj.
Qed.

Lemma rules_delete k b :
  bucket_wf b → rules (deletePolicy_bucket k b) = delete k (rules b).
Proof.
  intros [Hwf Hid]. apply rules_of_map_eq; [by apply map_wf_delete|]. cbn. intros k' r.
  rewrite !lookup_delete_Some. unfold rules. rewrite rules_of_map_Some by done.
  split; intros [Hne H]; (split; [|done]).
  - congruence.
  - by intros ->%glueKey_inj.
Qed.

Lemma rules_deleteIf f b :
  bucket_wf b →
  rules (deletePolicyIf f b) =
    filter (λ kr, f (mkPolicy kr.1 kr.2) = false) (rules b).
Proof.
  intros Hb. pose proof (deletePolicyIf_wf f b Hb) as [Hwf' _]. destruct Hb as [Hwf Hid].
  apply rules_of_map_eq; [done|]. intros k r.
  rewrite deletePolicyIf_lookup, map_lookup_filter_Some. cbn.
  unfold rules. by rewrite rules_of_map_Some.
Qed.

(** [filtered] keeps the rules that cover the key, and the default. *)
Lemma filtered_collection (m : gmap string Policy) vs (acc : gmap string Policy) i x :
  acc ⊆ m →
  foldl (λ acc variant,
    match m !! variant with Some p => <[variant := p]> acc | None => acc end) acc vs
    !! i = Some x ↔ m !! i = Some x ∧ (i ∈ vs ∨ acc !! i = Some x).
Proof.
  revert acc. induction vs as [|v vs IH]; intros acc Hsub; cbn [foldl].
  - split; [|set_solver]. intros H. split; [by eapply lookup_weaken|by right].
  - destruct (m !! v) as [p|] eqn:E.
    + rewrite IH by (by apply insert_subseteq_l). rewrite lookup_insert_Some, elem_of_cons.
      split; intros [Hm H]; (split; [done|]); [set_solver|].
      destruct (decide (v = i)) as [->|]; [|set_solver].
      right. left. split; congruence.
    + rewrite IH, elem_of_cons by done. split; intros [Hm H]; (split; [done|]); [set_solver|].
      destruct H as [[->|H]|H]; [congruence|set_solver..].
Qed.

Lemma filtered_spec b k :
  bucket_wf b →
  ∃ b', filtered b k = Ret b' ∧ bucket_wf b' ∧ m_defaultPolicy b' = m_defaultPolicy b ∧
    rules b' = filter (λ kr, covers kr.1 k) (rules b).
Proof.
  intros [Hwf Hid]. unfold filtered, PolicyBucket_new, idValidator.
  rewrite idValid_app, Hid. cbn. eexists. split; [done|]. cbn.
  assert (∀ i x, foldl (λ acc variant, match m_policyCollection b !! variant with
      | Some p => <[variant := p]> acc | None => acc end)
      (∅ : gmap string Policy) (keyVariants k) !! i = Some x ↔
      m_policyCollection b !! i = Some x ∧ i ∈ keyVariants k) as Hl.
  { intros i x. rewrite filtered_collection by apply map_empty_subseteq.
    rewrite lookup_empty. naive_solver. }
  assert (map_wf (foldl (λ acc variant, match m_policyCollection b !! variant with
      | Some p => <[variant := p]> acc | None => acc end)
      (∅ : gmap string Policy) (keyVariants k))) as Hwf'.
  { intros i x [Hi _]%Hl. by apply Hwf. }
  split_and!; [split; cbn|done|]; [done|by rewrite idValid_app, Hid|].
  apply rules_of_map_eq; [done|]. cbn. intros k' r.
  rewrite Hl, map_lookup_filter_Some. cbn. rewrite elem_of_keyVariants.
  unfold rules. by rewrite rules_of_map_Some.
Qed.

(** The loop over a bucket visits each rule once. *)
Lemma elem_of_bucket_policies b p :
  bucket_wf b → p ∈ bucket_policies b ↔ rules b !! key p = Some (result p).
Proof.
  intros Hb. rewrite rules_Some by done. destruct Hb as [Hwf _].
  unfold bucket_policies. rewrite list_elem_of_fmap. split.
  - intros ([g q] & -> & Hin%elem_of_miter); cbn. rewrite (map_wf_lookup _ _ _ Hwf Hin) in Hin.
    by destruct q.
  - intros H. exists (glueKey (key p), p). rewrite elem_of_miter. by destruct p.
Qed.

Lemma elem_of_listPolicies_bucket b f p :
  bucket_wf b →
  p ∈ listPolicies_bucket f b ↔
    rules b !! key p = Some (result p) ∧ matchFilter (key p) f = true.
Proof.
  intros Hb. rewrite <-elem_of_bucket_policies by done. unfold listPolicies_bucket.
  rewrite !list_elem_of_In, List.filter_In. done.
Qed.

Lemma NoDup_keys_bucket_policies b : bucket_wf b → NoDup (key <$> bucket_policies b).
Proof.
  intros [Hwf _]. unfold bucket_policies. rewrite <-list_fmap_compose.
  apply NoDup_fmap_2_strong.
  - intros [g p] [g' p'] H%elem_of_miter H'%elem_of_miter; cbn. intros Hk.
    pose proof (map_wf_lookup _ _ _ Hwf H) as ->. pose proof (map_wf_lookup _ _ _ Hwf H') as ->.
    rewrite Hk in *. congruence.
  - eapply NoDup_fmap_1, NoDup_fst_miter.
Qed.

Lemma elem_of_getSubBuckets b id :
  bucket_wf b →
  id ∈ getSubBuckets b ↔
    ∃ k r, rules b !! k = Some r ∧ policyType r = BUCKET ∧ metadata r = id.
Proof.
  intros Hb. unfold getSubBuckets. change ((miter (m_policyCollection b)).*2) with
    (bucket_policies b).
  assert (∀ l (acc : gset string), id ∈ foldl (λ buckets p,
      if (policyType (result p) =? BUCKET)%Z then buckets ∪ {[metadata (result p)]}
      else buckets) acc l ↔
    id ∈ acc ∨ ∃ p, p ∈ l ∧ policyType (result p) = BUCKET ∧ metadata (result p) = id) as Hl.
  { induction l as [|q l IH]; intros acc; cbn [foldl].
    - set_solver.
    - rewrite IH. setoid_rewrite elem_of_cons.
      destruct (Z.eqb_spec (policyType (result q)) BUCKET); set_solver. }
  rewrite Hl. setoid_rewrite elem_of_bucket_policies; [|done]. split.
  - intros [[]%elem_of_empty|([pk pr] & ? & ? & ?)]. eauto.
  - intros (k & r & ? & ? & ?). right. by exists (mkPolicy k r).
Qed.

End PolicyBucket.
