(* ===== verification/StorageBackend.v ===== *)
(** * The storage back end: interface and abstract store ([storage/StorageBackend.h])

    [Storage] works on a [StorageBackend &].  The class [StorageBackend] is that
    interface; [StorageBackendLaws] is the contract: a view of the back end as an abstract
    store, which maps bucket ids to a default and a map from policy keys to results, and
    what every operation does to the view.  [Storage.v] is proved against the contract,
    [InMemoryStorageBackend.v] discharges it. *)
From S2P Require Import Prelude Text Types Bucket.

(** ** The abstract store *)

Record ABucket := mkABucket {
  a_default : PolicyResult;
  a_rules : gmap PolicyKey PolicyResult;
}.
Add Printing Constructor ABucket.

Abbreviation AStore := (gmap PolicyBucketId ABucket).

Definition a_map_rules (f : gmap PolicyKey PolicyResult → gmap PolicyKey PolicyResult)
    (ab : ABucket) : ABucket := mkABucket (a_default ab) (f (a_rules ab)).
Definition a_set_default (r : PolicyResult) (ab : ABucket) : ABucket :=
  mkABucket r (a_rules ab).

(** [r] is a link to the bucket [id]. *)
Definition links_to (r : PolicyResult) (id : PolicyBucketId) : Prop :=
  policyType r = BUCKET ∧ metadata r = id.
#[global] Instance links_to_dec r id : Decision (links_to r id).
Proof. unfold links_to. apply _. Defined.

Definition a_unlink (id : PolicyBucketId) : ABucket → ABucket :=
  a_map_rules (filter (λ kr, ¬ links_to kr.2 id)).
Definition a_erase (f : PolicyKey) : ABucket → ABucket :=
  a_map_rules (filter (λ kr, matchFilter kr.1 f = false)).

(** Bucket [id] of the store has a rule that links to [id']. *)
Definition a_link (st : AStore) (id id' : PolicyBucketId) : Prop :=
  ∃ ab k r, st !! id = Some ab ∧ a_rules ab !! k = Some r ∧ links_to r id'.

(** Every link points to a bucket of the store. *)
Definition closed (st : AStore) : Prop := ∀ id id', a_link st id id' → is_Some (st !! id').
(** Links go down in rank: the bucket graph has no cycle. *)
Definition ranked (rank : PolicyBucketId → nat) (st : AStore) : Prop :=
  ∀ id id', a_link st id id' → rank id' < rank id.

Lemma a_links_forall (P : PolicyBucketId → PolicyBucketId → Prop) (st : AStore) :
  (∀ id id', a_link st id id' → P id id') ↔
  map_Forall (λ id ab, map_Forall (λ _ r, policyType r = BUCKET → P id (metadata r))
    (a_rules ab)) st.
Proof.
  split.
  - intros HP id ab Hid k r Hr Hb. apply HP. by exists ab, k, r.
  - intros HP id id' (ab & k & r & Hid & Hr & Hb & <-). by apply (HP id ab Hid k r Hr).
Qed.

#[global] Instance closed_dec st : Decision (closed st).
Proof.
  unfold closed.
  destruct (decide (map_Forall (λ _ ab, map_Forall (λ _ r, policyType r = BUCKET →
    is_Some (st !! metadata r)) (a_rules ab)) st)) as [H|H];
  [left|right; intros Hr; apply H]; by apply (a_links_forall (λ _ id', is_Some (st !! id'))).
Defined.
#[global] Instance ranked_dec rank st : Decision (ranked rank st).
Proof.
  unfold ranked.
  destruct (decide (map_Forall (λ id ab, map_Forall (λ _ r, policyType r = BUCKET →
    rank (metadata r) < rank id) (a_rules ab)) st)) as [H|H];
  [left|right; intros Hr; apply H]; by apply (a_links_forall (λ id id', rank id' < rank id)).
Defined.

(** [id'] is reached from [id] by following links. *)
Definition a_reach (st : AStore) : relation PolicyBucketId := rtc (a_link st).

(** ** The interface *)

Class StorageBackend (B : Type) := {
  searchBucket : B → PolicyBucketId → PolicyKey → outcome PolicyBucket;
  insertPolicy : PolicyBucketId → Policy → SE B unit;
  createBucket : PolicyBucketId → PolicyResult → SE B unit;
  updateBucket : PolicyBucketId → PolicyResult → SE B unit;
  deleteBucket_backend : PolicyBucketId → SE B unit;
  hasBucket : B → PolicyBucketId → bool;
  deletePolicy : PolicyBucketId → PolicyKey → SE B unit;
  deleteLinking : PolicyBucketId → SE B unit;
  listPolicies_backend : B → PolicyBucketId → PolicyKey → outcome (list Policy);
  erasePolicies_backend : nat → PolicyBucketId → bool → PolicyKey → SE B unit;
}.

(** An operation on one bucket: it throws when the bucket is missing and leaves the back
    end alone, else it changes the view of that bucket by [f]. *)
Definition on_bucket {B} (view : B → AStore) (inv : B → Prop) (b : B)
    (id : PolicyBucketId) (f : ABucket → ABucket) (res : outcome unit * B) : Prop :=
  match view b !! id with
  | None => res = (Throw (BucketNotExistsException id), b)
  | Some ab => res.1 = Ret tt ∧ inv res.2 ∧ view res.2 = <[id := f ab]> (view b)
  end.

(** [st'] is [st] with the rules that match [f] erased from the buckets of [scope]. *)
Definition erased_in (scope : gset PolicyBucketId) (f : PolicyKey) (st st' : AStore) : Prop :=
  ∀ id, st' !! id = if decide (id ∈ scope) then a_erase f <$> st !! id else st !! id.

(** Bucket [id'] is in the scope of an erasure from [id]: it is the start bucket or,
    recursively, reached from it. *)
Definition in_scope (recursive : bool) (st : AStore) (id id' : PolicyBucketId) : Prop :=
  if recursive then a_reach st id id' else id' = id.

(** The rules that match [f] are erased from exactly the buckets in scope. *)
Definition erased (recursive : bool) (id : PolicyBucketId) (f : PolicyKey)
    (st st' : AStore) : Prop :=
  ∃ scope : gset PolicyBucketId,
    (∀ id', id' ∈ scope ↔ in_scope recursive st id id') ∧ erased_in scope f st st'.

Class StorageBackendLaws (B : Type) `{StorageBackend B} := {
  view : B → AStore;
  inv : B → Prop;
  search_law b id k : inv b →
    match view b !! id with
    | None => searchBucket b id k = Throw (BucketNotExistsException id)
    | Some ab => ∃ bk, searchBucket b id k = Ret bk ∧ bucket_wf bk ∧
        m_defaultPolicy bk = a_default ab ∧
        rules bk = filter (λ kr, covers kr.1 k) (a_rules ab)
    end;
  insert_law b id p : inv b →
    on_bucket view inv b id (a_map_rules (<[key p := result p]>)) (insertPolicy id p b);
  update_law b id r : inv b →
    on_bucket view inv b id (a_set_default r) (updateBucket id r b);
  deletePolicy_law b id k : inv b →
    on_bucket view inv b id (a_map_rules (delete k)) (deletePolicy id k b);
  create_law b id r : inv b → view b !! id = None →
    if idValid id
    then (createBucket id r b).1 = Ret tt ∧ inv (createBucket id r b).2 ∧
         view (createBucket id r b).2 = <[id := mkABucket r ∅]> (view b)
    else createBucket id r b = (Throw (InvalidBucketIdException id), b);
  delete_law b id : inv b →
    match view b !! id with
    | None => deleteBucket_backend id b = (Throw (BucketNotExistsException id), b)
    | Some _ => (deleteBucket_backend id b).1 = Ret tt ∧ inv (deleteBucket_backend id b).2 ∧
        view (deleteBucket_backend id b).2 = delete id (view b)
    end;
  has_law b id : inv b → hasBucket b id = bool_decide (is_Some (view b !! id));
  unlink_law b id : inv b →
    (deleteLinking id b).1 = Ret tt ∧ inv (deleteLinking id b).2 ∧
    view (deleteLinking id b).2 = a_unlink id <$> view b;
  list_law b id f : inv b →
    match view b !! id with
    | None => listPolicies_backend b id f = Throw (BucketNotExistsException id)
    | Some ab => ∃ l, listPolicies_backend b id f = Ret l ∧ NoDup l ∧
        ∀ p, p ∈ l ↔ a_rules ab !! key p = Some (result p) ∧ matchFilter (key p) f = true
    end;
  (** However erasing ends, it has only erased matching rules of buckets in scope; when it
      returns, all of them. *)
  erase_partial b fuel id recursive f : inv b →
    inv (erasePolicies_backend fuel id recursive f b).2 ∧
    ∃ scope : gset PolicyBucketId,
      (∀ id', id' ∈ scope → in_scope recursive (view b) id id') ∧
      erased_in scope f (view b) (view (erasePolicies_backend fuel id recursive f b).2);
  erase_law b fuel id recursive f : inv b →
    (erasePolicies_backend fuel id recursive f b).1 = Ret tt →
    erased recursive id f (view b) (view (erasePolicies_backend fuel id recursive f b).2);
  erase_missing b fuel id recursive f : inv b → view b !! id = None →
    erasePolicies_backend (S fuel) id recursive f b = (Throw (BucketNotExistsException id), b);
  (** On a store whose links are acyclic and not dangling, the worklist runs dry. *)
  erase_total b id recursive f rank : inv b → closed (view b) → ranked rank (view b) →
    is_Some (view b !! id) →
    ∃ n, ∀ fuel, n ≤ fuel → (erasePolicies_backend fuel id recursive f b).1 = Ret tt;
}.
