(* ===== verification/Storage.v ===== *)
(** * Storage: access decisions and policy updates ([storage/Storage])

    [Storage] on any back end that satisfies [StorageBackendLaws].  [decides] is the
    abstract decision procedure on the view of the back end: deny rules first, else the
    least of the rules' results and the decisions of the linked buckets, else the
    default. *)
From S2P Require Import Prelude Text Types Bucket StorageBackend.

Section Storage.
Context `{HO : HashOrder} {B : Type} `{SB : StorageBackend B}.

(** ** Definitions *)

(** The lambda [proposeMinimal] on its captured variables [hasMinimal] and [minimal]. *)
Definition proposeMinimal (hasMinimal : bool) (minimal candidate : PolicyResult) : PolicyResult :=
  if negb hasMinimal then candidate
  else if PolicyResult_lt candidate minimal then candidate else minimal.

Section minimal_loop.
Variable rec : PolicyBucket → outcome PolicyResult.
Variables (st : B) (k : PolicyKey) (recursive : bool).

(** The loop of [minimalPolicy] over the policies of the bucket; [rec] is the recursive
    call. *)
Fixpoint minimalLoop (ps : list Policy) (hasMinimal : bool) (minimal : PolicyResult) :
    outcome PolicyResult :=
  match ps with
  | [] => Ret minimal
  | policy :: ps' =>
      let policyResult := result policy in
      if (policyType policyResult =? DENY)%Z then Ret policyResult
      else if (policyType policyResult =? BUCKET)%Z then
        if recursive then
          bucketResults ← searchBucket st (metadata policyResult) k;
          minimumOfBucket ← rec bucketResults;
          if negb (PolicyResult_is minimumOfBucket NONE)
          then minimalLoop ps' true (proposeMinimal hasMinimal minimal minimumOfBucket)
          else minimalLoop ps' hasMinimal minimal
        else minimalLoop ps' hasMinimal minimal
      else minimalLoop ps' true (proposeMinimal hasMinimal minimal policyResult)
  end.
End minimal_loop.

Fixpoint minimalPolicy (fuel : nat) (st : B) (bucket : PolicyBucket) (k : PolicyKey)
    (recursive : bool) : outcome PolicyResult :=
  match fuel with
  | 0 => OutOfFuel
  | S fuel' =>
      minimalLoop (λ b, minimalPolicy fuel' st b k true) st k recursive
        (bucket_policies bucket) false (m_defaultPolicy bucket)
  end.

Definition checkPolicy (fuel : nat) (st : B) (k : PolicyKey) (startBucketId : PolicyBucketId)
    (recursive : bool) : outcome PolicyResult :=
  policies ← searchBucket st startBucketId k;
  minimalPolicy fuel st policies k recursive.

(** The lambda [pointedBucketExists]. *)
Definition pointedBucketExists (policy : Policy) : SE B unit :=
  if (policyType (result policy) =? BUCKET)%Z then
    m_backend ← get;
    if negb (hasBucket m_backend (metadata (result policy)))
    then throw (BucketNotExistsException (metadata (result policy)))
    else mret tt
  else mret tt.

(** The argument is a [std::map]: its entries in key order. *)
Definition insertPolicies (policiesByBucketId : list (PolicyBucketId * list Policy)) :
    SE B unit :=
  _ ← forEach policiesByBucketId (λ group,
    m_backend ← get;
    if negb (hasBucket m_backend group.1) then throw (BucketNotExistsException group.1)
    else forEach group.2 pointedBucketExists);
  forEach policiesByBucketId (λ group, forEach group.2 (insertPolicy group.1)).

Definition deletePolicies (keysByBucketId : list (PolicyBucketId * list PolicyKey)) :
    SE B unit :=
  forEach keysByBucketId (λ bucket, forEach bucket.2 (deletePolicy bucket.1)).

Definition addOrUpdateBucket (bucketId : PolicyBucketId) (defaultBucketPolicy : PolicyResult) :
    SE B unit :=
  if bool_decide (bucketId = defaultPolicyBucketId) && PolicyResult_is defaultBucketPolicy NONE
  then throw DefaultBucketSetNoneException
  else
    m_backend ← get;
    if hasBucket m_backend bucketId
    then updateBucket bucketId defaultBucketPolicy
    else createBucket bucketId defaultBucketPolicy.

Definition deleteBucket (bucketId : PolicyBucketId) : SE B unit :=
  if bool_decide (bucketId = defaultPolicyBucketId) then throw DefaultBucketDeletionException
  else
    _ ← deleteLinking bucketId;
    deleteBucket_backend bucketId.

Definition listPolicies (st : B) (bucketId : PolicyBucketId) (f : PolicyKey) :
    outcome (list Policy) :=
  listPolicies_backend st bucketId f.

Definition erasePolicies (fuel : nat) (bucketId : PolicyBucketId) (recursive : bool)
    (f : PolicyKey) : SE B unit :=
  erasePolicies_backend fuel bucketId recursive f.

End Storage.
