(* ===== verification/Decision.v ===== *)
(** * Access decisions: [Storage::checkPolicy] against its specification

    The abstract decision procedure [decides] on the store, and the theorems that relate
    [checkPolicy] to it: soundness, totality on acyclic stores without dangling links, and
    independence of the decided type from the iteration order and from the back end. *)
From S2P Require Import Prelude Text Types Bucket StorageBackend Storage.

(** ** The specification *)

(** [r] is a least element of [cands] by policy type, or [dflt] when there is none. *)
Definition least (cands : PolicyResult → Prop) (dflt r : PolicyResult) : Prop :=
  (cands r ∧ ∀ c, cands c → (policyType r ≤ policyType c)%Z) ∨
  ((∀ c, ¬ cands c) ∧ r = dflt).

(** Rule [rk] with result [r] of the bucket covers the request [k]. *)
Definition applies (ab : ABucket) (k rk : PolicyKey) (r : PolicyResult) : Prop :=
  a_rules ab !! rk = Some r ∧ covers rk k.

(** The results a bucket chooses from: those of its applicable plain rules and, when links
    are followed, the decisions [sub] of the linked buckets other than a bare [NONE]. *)
Definition candidate (ab : ABucket) (k : PolicyKey) (recursive : bool)
    (sub : PolicyKey → PolicyResult) (c : PolicyResult) : Prop :=
  ∃ rk r, applies ab k rk r ∧
    ((policyType r ≠ BUCKET ∧ c = r) ∨
     (recursive = true ∧ policyType r = BUCKET ∧ c = sub rk ∧ c ≠ PolicyResult_of NONE)).

Inductive decides (st : AStore) (k : PolicyKey) : bool → PolicyBucketId → PolicyResult → Prop :=
| decides_deny recursive id ab rk r :
    st !! id = Some ab → applies ab k rk r → policyType r = DENY →
    decides st k recursive id r
| decides_least recursive id ab sub r :
    st !! id = Some ab →
    (∀ rk r', applies ab k rk r' → policyType r' ≠ DENY) →
    (recursive = true → ∀ rk r', applies ab k rk r' → policyType r' = BUCKET →
       decides st k true (metadata r') (sub rk)) →
    least (candidate ab k recursive sub) (a_default ab) r →
    decides st k recursive id r.

Section Decision.
Context `{HO : HashOrder} {B : Type} `{SB : StorageBackend B} `{SL : !StorageBackendLaws B}.

(** ** The loop *)

(** Folding [proposeMinimal] over the candidates yields a least one. *)
Lemma proposeMinimal_fold cs m :
  least (λ c, c ∈ cs) m (foldl (λ '(h, m) c, (true, proposeMinimal h m c)) (false, m) cs).2.
Proof.
  assert (∀ cs m, let r := (foldl (λ '(h, m) c, (true, proposeMinimal h m c)) (true, m) cs).2 in
    r ∈ m :: cs ∧ ∀ c, c ∈ m :: cs → (policyType r ≤ policyType c)%Z) as Htrue.
  { clear. induction cs as [|c cs IH]; intros m; cbn [foldl].
    - split; [set_solver|]. intros c ->%list_elem_of_singleton. done.
    - destruct (IH (proposeMinimal true m c)) as [Hin Hle].
      unfold proposeMinimal, PolicyResult_lt in *; cbn [negb] in *.
      destruct (Z.ltb_spec (policyType c) (policyType m)) as [Hlt|Hge].
      + split; [set_solver|]. intros c' [->|Hc']%elem_of_cons; [|by apply Hle].
        specialize (Hle c ltac:(set_solver)). lia.
      + split; [set_solver|]. intros c' [->|[->|Hc']%elem_of_cons]%elem_of_cons.
        * apply Hle. set_solver.
        * specialize (Hle m ltac:(set_solver)). lia.
        * apply Hle. set_solver. }
  destruct cs as [|c cs]; cbn [foldl].
  - right. split; [set_solver|done].
  - left. destruct (Htrue cs c) as [Hin Hle]. done.
Qed.

(** What the recursive call gives for the bucket a policy links to. *)
Definition subResult (rec : PolicyBucket → outcome PolicyResult) (st : B) (k : PolicyKey)
    (p : Policy) : outcome PolicyResult :=
  bucketResults ← searchBucket st (metadata (result p)) k; rec bucketResults.

(** The candidates the policies [ps] contribute, given the sub-results. *)
Definition loop_candidates (sub : Policy → PolicyResult) (recursive : bool) (p : Policy) :
    list PolicyResult :=
  if (policyType (result p) =? BUCKET)%Z then
    if recursive then
      if PolicyResult_is (sub p) NONE then [] else [sub p]
    else []
  else [result p].

Lemma minimalLoop_deny rec st k recursive ps h m r :
  minimalLoop rec st k recursive ps h m = Ret r →
  (∃ p, p ∈ ps ∧ policyType (result p) = DENY ∧ r = result p) ∨
  (∀ p, p ∈ ps → policyType (result p) ≠ DENY).
Proof.
  revert h m. induction ps as [|p ps IH]; intros h m; cbn [minimalLoop].
  { right. set_solver. }
  destruct (Z.eqb_spec (policyType (result p)) DENY) as [E|E].
  { intros [= <-]. left. exists p. set_solver. }
  assert (∀ h m, minimalLoop rec st k recursive ps h m = Ret r →
    (∃ q, q ∈ p :: ps ∧ policyType (result q) = DENY ∧ r = result q) ∨
    (∀ q, q ∈ p :: ps → policyType (result q) ≠ DENY)) as Hnext.
  { intros h' m' H. destruct (IH _ _ H) as [(q & ? & ? & ?)|Hq]; [left|right]; set_solver. }
  destruct (policyType (result p) =? BUCKET)%Z; [|apply Hnext].
  destruct recursive; [|apply Hnext].
  destruct (searchBucket st (metadata (result p)) k) as [bk|e|]; cbn; [|done..].
  destruct (rec bk) as [mb|e|]; cbn; [|done..].
  destruct (PolicyResult_is mb NONE); apply Hnext.
Qed.

Lemma minimalLoop_least rec st k recursive sub ps h m :
  (∀ p, p ∈ ps → policyType (result p) ≠ DENY) →
  (recursive = true → ∀ p, p ∈ ps → policyType (result p) = BUCKET →
     subResult rec st k p = Ret (sub p)) →
  minimalLoop rec st k recursive ps h m =
    Ret (foldl (λ '(h, m) c, (true, proposeMinimal h m c)) (h, m)
           (ps ≫= loop_candidates sub recursive)).2.
Proof.
  intros Hnd Hsub. revert h m Hnd Hsub. induction ps as [|p ps IH]; intros h m Hnd Hsub; [done|].
  assert (∀ h m, minimalLoop rec st k recursive ps h m =
    Ret (foldl (λ '(h, m) c, (true, proposeMinimal h m c)) (h, m)
           (ps ≫= loop_candidates sub recursive)).2) as Hnext.
  { intros h' m'. apply IH; [|intros Hr q Hq]; set_solver. }
  cbn [minimalLoop]. rewrite bind_cons. unfold loop_candidates at 1.
  destruct (Z.eqb_spec (policyType (result p)) DENY) as [E|_].
  { by destruct (Hnd p ltac:(set_solver)). }
  destruct (Z.eqb_spec (policyType (result p)) BUCKET) as [Eb|_]; [|apply Hnext].
  destruct recursive; [|apply Hnext].
  pose proof (Hsub eq_refl p ltac:(set_solver) Eb) as Hp. unfold subResult in Hp.
  destruct (searchBucket st (metadata (result p)) k) as [bk|e|]; cbn in *; [|done..].
  rewrite Hp. cbn. destruct (PolicyResult_is (sub p) NONE); cbn; apply Hnext.
Qed.

(** When the loop over deny-free policies returns, every followed link returned. *)
Lemma minimalLoop_subs rec st k ps h m r :
  (∀ p, p ∈ ps → policyType (result p) ≠ DENY) →
  minimalLoop rec st k true ps h m = Ret r →
  ∀ p, p ∈ ps → policyType (result p) = BUCKET → ∃ s, subResult rec st k p = Ret s.
Proof.
  revert h m. induction ps as [|p ps IH]; intros h m Hnd Hret q Hq Hb; [set_solver|].
  cbn [minimalLoop] in Hret.
  destruct (Z.eqb_spec (policyType (result p)) DENY) as [E|_].
  { by destruct (Hnd p ltac:(set_solver)). }
  assert (∀ h m, minimalLoop rec st k true ps h m = Ret r → q ∈ ps →
    ∃ s, subResult rec st k q = Ret s) as Hnext.
  { intros h' m' Hr Hin. eapply IH; [|done..]. set_solver. }
  destruct (Z.eqb_spec (policyType (result p)) BUCKET) as [Eb|Eb].
  - unfold subResult. destruct (searchBucket st (metadata (result p)) k) as [bk|e|] eqn:Es;
      cbn in Hret; [|done..].
    destruct (rec bk) as [mb|e|] eqn:Er; cbn in Hret; [|done..].
    apply elem_of_cons in Hq as [->|Hq]; [rewrite Es; cbn; eauto|].
    destruct (PolicyResult_is mb NONE); cbn in Hret; by eapply Hnext.
  - apply elem_of_cons in Hq as [->|Hq]; [done|]. by eapply Hnext.
Qed.

(** ** Soundness *)

Lemma search_applies st id k ab bk :
  inv st → view st !! id = Some ab → searchBucket st id k = Ret bk →
  m_defaultPolicy bk = a_default ab ∧
  ∀ p, p ∈ bucket_policies bk ↔ applies ab k (key p) (result p).
Proof.
  intros Hinv Hid Hs. pose proof (search_law st id k Hinv) as Hlaw.
  rewrite Hid, Hs in Hlaw. destruct Hlaw as (bk' & [= <-] & Hwf & Hd & Hr).
  split; [done|]. intros p. rewrite elem_of_bucket_policies, Hr by done.
  unfold applies. by rewrite map_lookup_filter_Some.
Qed.

Lemma search_Some st id k ab :
  inv st → view st !! id = Some ab → ∃ bk, searchBucket st id k = Ret bk.
Proof.
  intros Hinv Hid. pose proof (search_law st id k Hinv) as Hlaw.
  rewrite Hid in Hlaw. destruct Hlaw as (bk & -> & _). eauto.
Qed.

Lemma search_Ret st id k bk :
  inv st → searchBucket st id k = Ret bk → ∃ ab, view st !! id = Some ab.
Proof.
  intros Hinv Hs. pose proof (search_law st id k Hinv) as Hlaw.
  destruct (view st !! id) as [ab|]; [eauto|congruence].
Qed.

Lemma least_ext (P Q : PolicyResult → Prop) d r :
  (∀ c, P c ↔ Q c) → least P d r → least Q d r.
Proof.
  intros HPQ [[Hc Hle]|[Hn ->]]; [left|right].
  - split; [by apply HPQ|]. intros c Hq. by apply Hle, HPQ.
  - split; [|done]. intros c Hq. by apply (Hn c), HPQ.
Qed.

(** The sub-results as a function of the rule. *)
Definition sub_of (ab : ABucket) (f : PolicyBucketId → outcome PolicyResult) (rk : PolicyKey) :
    PolicyResult :=
  match a_rules ab !! rk with
  | Some r => match f (metadata r) with Ret s => s | _ => PolicyResult_default end
  | None => PolicyResult_default
  end.

Lemma loop_candidates_candidate ab k recursive ps f c :
  (∀ p, p ∈ ps ↔ applies ab k (key p) (result p)) →
  c ∈ (ps ≫= loop_candidates
         (λ p, match f (metadata (result p)) with Ret s => s | _ => PolicyResult_default end)
         recursive) ↔
  candidate ab k recursive (sub_of ab f) c.
Proof.
  intros Hps. rewrite list_elem_of_bind. unfold candidate, loop_candidates, sub_of. split.
  - intros ([rk r] & Hc & Ha%Hps); cbn in *. exists rk, r. split; [done|].
    destruct Ha as [Hr _]. rewrite Hr.
    destruct (Z.eqb_spec (policyType r) BUCKET) as [E|E].
    + destruct recursive; [|set_solver].
      destruct (PolicyResult_is _ NONE) eqn:En; [set_solver|].
      apply list_elem_of_singleton in Hc as ->. right. split_and!; [done..|].
      intros H%PolicyResult_is_spec. congruence.
    + apply list_elem_of_singleton in Hc as ->. by left.
  - intros (rk & r & Ha & Hc). exists (mkPolicy rk r). cbn. rewrite Hps. cbn. split; [|done].
    destruct Ha as [Hr _]. rewrite Hr in Hc. destruct Hc as [[E ->]|(-> & E & -> & Hn)].
    + destruct (Z.eqb_spec (policyType r) BUCKET); [done|]. set_solver.
    + rewrite E, Z.eqb_refl. destruct (PolicyResult_is _ NONE) eqn:En; [|set_solver].
      by apply PolicyResult_is_spec in En.
Qed.

Lemma checkPolicy_decides fuel st k id recursive r :
  inv st → checkPolicy fuel st k id recursive = Ret r → decides (view st) k recursive id r.
Proof.
  intros Hinv. revert id recursive r. induction fuel as [|fuel IH]; intros id recursive r;
    unfold checkPolicy; destruct (searchBucket st id k) as [bk|e|] eqn:Es; cbn; try done.
  destruct (search_Ret _ _ _ _ Hinv Es) as [ab Hab].
  destruct (search_applies _ _ _ _ _ Hinv Hab Es) as [Hd Hps]. intros Hret.
  destruct (minimalLoop_deny _ _ _ _ _ _ _ _ Hret) as [(p & Hp & Ht & ->)|Hnd].
  { eapply decides_deny; [done|by apply Hps|done]. }
  set (f := λ id', checkPolicy fuel st k id' true).
  assert (∀ rk r', applies ab k rk r' → policyType r' ≠ DENY) as Hnd'.
  { intros rk r' Ha. apply (Hnd (mkPolicy rk r')). by apply Hps. }
  assert (recursive = true → ∀ p, p ∈ bucket_policies bk → policyType (result p) = BUCKET →
    ∃ s, f (metadata (result p)) = Ret s) as Hsubs.
  { intros ->. by eapply minimalLoop_subs. }
  eapply (decides_least _ _ _ _ _ (sub_of ab f)); [done|done| |].
  - intros Hrec rk r' Ha Hb. destruct (Hsubs Hrec (mkPolicy rk r')) as [s Hs];
      [by apply Hps|done|]. unfold sub_of. destruct Ha as [-> _]. cbn in Hs. rewrite Hs.
    by apply IH.
  - erewrite minimalLoop_least in Hret; [|done|].
    + injection Hret as <-. rewrite <-Hd.
      eapply least_ext; [|apply proposeMinimal_fold].
      intros c. by apply (loop_candidates_candidate ab k recursive _ f).
    + intros Hrec p Hp Hb. destruct (Hsubs Hrec p Hp Hb) as [s Hs]. cbn beta.
      rewrite Hs. exact Hs.
Qed.

(** ** Totality *)

Lemma minimalLoop_total rec st k recursive ps h m :
  (recursive = true → ∀ p, p ∈ ps → policyType (result p) = BUCKET →
     ∃ s, subResult rec st k p = Ret s) →
  ∃ r, minimalLoop rec st k recursive ps h m = Ret r.
Proof.
  revert h m. induction ps as [|p ps IH]; intros h m Hsub; cbn [minimalLoop]; [eauto|].
  destruct (policyType (result p) =? DENY)%Z; [eauto|].
  assert (∀ h m, ∃ r, minimalLoop rec st k recursive ps h m = Ret r) as Hnext.
  { intros h' m'. apply IH. intros Hr q Hq. apply Hsub; [done|set_solver]. }
  destruct (Z.eqb_spec (policyType (result p)) BUCKET) as [Eb|_]; [|apply Hnext].
  destruct recursive; [|apply Hnext].
  destruct (Hsub eq_refl p ltac:(set_solver) Eb) as [s Hs]. unfold subResult in Hs.
  destruct (searchBucket st (metadata (result p)) k) as [bk|e|]; cbn in *; [|done..].
  rewrite Hs. cbn. destruct (PolicyResult_is s NONE); apply Hnext.
Qed.

Lemma checkPolicy_total rank fuel st k id recursive :
  inv st → closed (view st) → ranked rank (view st) → is_Some (view st !! id) →
  rank id < fuel → ∃ r, checkPolicy fuel st k id recursive = Ret r.
Proof.
  intros Hinv Hcl Hrk. revert id recursive. induction fuel as [|fuel IH];
    intros id recursive [ab Hab] Hlt; [lia|].
  unfold checkPolicy. destruct (search_Some st id k ab Hinv Hab) as [bk Es].
  destruct (search_applies _ _ _ _ _ Hinv Hab Es) as [_ Hps]. rewrite Es. cbn.
  apply minimalLoop_total. intros _ p Hp Hb. apply Hps in Hp as [Hr _].
  assert (a_link (view st) id (metadata (result p))) as Hl.
  { exists ab, (key p), (result p). done. }
  apply IH; [by apply (Hcl id)|]. specialize (Hrk _ _ Hl). lia.
Qed.

(** ** Divergence *)

Lemma minimalLoop_diverges rec st k ps h m :
  (∀ p, p ∈ ps → policyType (result p) ≠ DENY) →
  (∀ p, p ∈ ps → policyType (result p) = BUCKET → subResult rec st k p = OutOfFuel) →
  (∃ p, p ∈ ps ∧ policyType (result p) = BUCKET) →
  minimalLoop rec st k true ps h m = OutOfFuel.
Proof.
  revert h m. induction ps as [|p ps IH]; intros h m Hnd Hsub (q & Hq & Hb); [set_solver|].
  cbn [minimalLoop]. destruct (Z.eqb_spec (policyType (result p)) DENY) as [E|_].
  { by destruct (Hnd p ltac:(set_solver)). }
  destruct (Z.eqb_spec (policyType (result p)) BUCKET) as [Eb|Eb].
  - pose proof (Hsub p ltac:(set_solver) Eb) as Hs. unfold subResult in Hs.
    destruct (searchBucket st (metadata (result p)) k) as [bk|e|]; cbn in *; [|done..].
    by rewrite Hs.
  - apply IH; [set_solver|set_solver|]. exists q. set_solver.
Qed.

Lemma checkPolicy_diverges (X : PolicyBucketId → Prop) fuel st k id :
  inv st → X id →
  (∀ id', X id' → ∃ ab, view st !! id' = Some ab ∧
     (∀ rk r, applies ab k rk r →
        policyType r ≠ DENY ∧ (policyType r = BUCKET → X (metadata r))) ∧
     ∃ rk r, applies ab k rk r ∧ policyType r = BUCKET) →
  checkPolicy fuel st k id true = OutOfFuel.
Proof.
  intros Hinv HX Hcyc. revert id HX. induction fuel as [|fuel IH]; intros id HX;
    destruct (Hcyc id HX) as (ab & Hab & Hall & rk & r & Ha & Hb); unfold checkPolicy;
    destruct (search_Some st id k ab Hinv Hab) as [bk Es]; rewrite Es; cbn; [done|].
  destruct (search_applies _ _ _ _ _ Hinv Hab Es) as [_ Hps].
  apply minimalLoop_diverges.
  - intros p Hp%Hps. by apply Hall in Hp as [? _].
  - intros p Hp%Hps Hbp. apply IH. apply Hall in Hp as [_ Hx]. by apply Hx.
  - exists (mkPolicy rk r). by rewrite Hps.
Qed.

End Decision.

(** ** Determinism *)

(** No rule has type [NONE]: what [Logic::checkPoliciesTypes] enforces on insertion. *)
Definition no_none (st : AStore) : Prop :=
  ∀ id ab rk r, st !! id = Some ab → a_rules ab !! rk = Some r → policyType r ≠ NONE.

#[global] Instance no_none_dec st : Decision (no_none st).
Proof.
  destruct (decide (map_Forall (λ _ ab, map_Forall (λ _ r, policyType r ≠ NONE) (a_rules ab)) st))
    as [H|H]; [left|right; intros Hn; apply H].
  - intros id ab rk r Hid Hr. by apply (H id ab Hid rk r).
  - intros id ab Hid rk r Hr. by apply (Hn id ab rk r).
Defined.

(** Two decisions agree: same type, and both or neither a bare [NONE]. *)
Definition agree (r1 r2 : PolicyResult) : Prop :=
  policyType r1 = policyType r2 ∧ (r1 = PolicyResult_of NONE ↔ r2 = PolicyResult_of NONE).

Lemma decides_agree st k recursive id r1 r2 :
  no_none st → decides st k recursive id r1 → decides st k recursive id r2 → agree r1 r2.
Proof.
  intros Hnn H1. revert r2.
  induction H1 as [recursive id ab rk r1 Hid Ha Ht
                  |recursive id ab sub1 r1 Hid Hnd _ IH Hl1];
    intros r2 H2;
    inversion H2 as [? ? ab' rk' ? Hid' Ha' Ht'|? ? ab' sub2 ? Hid' Hnd' Hs2 Hl2]; subst;
    simplify_eq.
  - split; [congruence|]. by split; intros ->.
  - by destruct (Hnd' _ _ Ha).
  - by destruct (Hnd _ _ Ha').
  - assert (∀ s1 s2, (∀ rk r, recursive = true → applies ab k rk r → policyType r = BUCKET →
        agree (s1 rk) (s2 rk)) → ∀ c, candidate ab k recursive s1 c →
        ∃ c', candidate ab k recursive s2 c' ∧ policyType c = policyType c') as Htrans.
    { intros s1 s2 Hs c (rk & r & Ha & [[Hb ->]|(Hr & Hb & -> & Hn)]).
      - exists r. split; [|done]. exists rk, r. split; [done|]. by left.
      - destruct (Hs rk r Hr Ha Hb) as [Ht Hi]. exists (s2 rk). split; [|done].
        exists rk, r. split; [done|]. right. split_and!; [done..|]. by rewrite <-Hi. }
    assert (∀ rk r, recursive = true → applies ab k rk r → policyType r = BUCKET →
      agree (sub1 rk) (sub2 rk)) as H12.
    { intros rk r Hr Ha Hb. eapply IH; [done..|]. by apply Hs2. }
    assert (∀ rk r, recursive = true → applies ab k rk r → policyType r = BUCKET →
      agree (sub2 rk) (sub1 rk)) as H21.
    { intros rk r Hr Ha Hb. destruct (H12 rk r Hr Ha Hb) as [? Hi]. split; [done|by rewrite Hi]. }
    assert (∀ s c, candidate ab k recursive s c → c ≠ PolicyResult_of NONE) as Hbare.
    { intros s c (rk & r & [Ha _] & [[Hb ->]|(_ & _ & -> & Hn)]); [|done].
      intros ->. exact (Hnn _ _ _ _ Hid Ha eq_refl). }
    destruct Hl1 as [[Hc1 Hle1]|[Hn1 ->]], Hl2 as [[Hc2 Hle2]|[Hn2 ->]].
    + destruct (Htrans _ _ H12 _ Hc1) as (c' & Hc' & E1).
      destruct (Htrans _ _ H21 _ Hc2) as (c'' & Hc'' & E2).
      apply Hle2 in Hc'. apply Hle1 in Hc''. split; [lia|].
      apply Hbare in Hc1, Hc2. done.
    + destruct (Htrans _ _ H12 _ Hc1) as (c' & Hc' & _). by destruct (Hn2 c').
    + destruct (Htrans _ _ H21 _ Hc2) as (c' & Hc' & _). by destruct (Hn1 c').
    + done.
Qed.
