(* ===== verification/StorageUpdates.v ===== *)
(** * Policy updates: the writing operations of [Storage] on the abstract store

    What each writing operation of [Storage] does to the view of the back end, on its
    normal and its throwing paths, and that all of them keep the store [closed] (no rule
    links to a missing bucket) and free of [NONE] rules. *)
From S2P Require Import Prelude Text Types Bucket StorageBackend Storage Decision.

(** ** Abstract updates *)

Definition a_insert (id : PolicyBucketId) (p : Policy) (st : AStore) : AStore :=
  alter (a_map_rules (<[key p := result p]>)) id st.
Definition a_delete (id : PolicyBucketId) (k : PolicyKey) (st : AStore) : AStore :=
  alter (a_map_rules (delete k)) id st.
Definition a_insert_all (groups : list (PolicyBucketId * list Policy)) (st : AStore) : AStore :=
  foldl (λ st g, foldl (λ st p, a_insert g.1 p st) st g.2) st groups.
Definition a_delete_all (groups : list (PolicyBucketId * list PolicyKey)) (st : AStore) : AStore :=
  foldl (λ st g, foldl (λ st k, a_delete g.1 k st) st g.2) st groups.

(** A policy whose link target, if any, exists. *)
Definition target_exists (st : AStore) (p : Policy) : Prop :=
  policyType (result p) = BUCKET → is_Some (st !! metadata (result p)).
Definition group_ok (st : AStore) (g : PolicyBucketId * list Policy) : Prop :=
  is_Some (st !! g.1) ∧ Forall (target_exists st) g.2.

Lemma alter_as_insert {A} (f : A → A) id (st : gmap PolicyBucketId A) ab :
  st !! id = Some ab → alter f id st = <[id := f ab]> st.
Proof.
  intros H. apply map_eq. intros i. destruct (decide (id = i)) as [<-|Hne].
  - by rewrite lookup_alter_eq, lookup_insert_eq, H.
  - by rewrite lookup_alter_ne, lookup_insert_ne.
Qed.

Lemma lookup_a_map f id (st : AStore) id' :
  alter (a_map_rules f) id st !! id' =
    if decide (id = id') then a_map_rules f <$> st !! id' else st !! id'.
Proof. rewrite lookup_alter. case_decide; by subst. Qed.

Lemma is_Some_alter {A} (f : A → A) id (st : gmap PolicyBucketId A) i :
  is_Some (alter f id st !! i) ↔ is_Some (st !! i).
Proof. rewrite lookup_alter. case_decide; subst; [by rewrite fmap_is_Some|done]. Qed.

(** ** Closedness of abstract updates *)

(** Shrinking rules keeps a store closed. *)
Lemma closed_shrink (st st' : AStore) :
  (∀ id, is_Some (st !! id) → is_Some (st' !! id)) →
  (∀ id id', a_link st' id id' → a_link st id id') → closed st → closed st'.
Proof. intros Hdom Hl Hcl id id' H%Hl. by apply Hdom, (Hcl id). Qed.

Lemma a_link_shrink (st st' : AStore) :
  (∀ id ab', st' !! id = Some ab' →
     ∃ ab, st !! id = Some ab ∧ a_rules ab' ⊆ a_rules ab) →
  ∀ id id', a_link st' id id' → a_link st id id'.
Proof.
  intros H id id' (ab' & k & r & Hid & Hr & Hl). destruct (H _ _ Hid) as (ab & ? & Hsub).
  exists ab, k, r. split_and!; [done|by eapply lookup_weaken|done].
Qed.

Lemma closed_a_delete id k st : closed st → closed (a_delete id k st).
Proof.
  apply closed_shrink.
  - intros i. apply is_Some_alter.
  - apply a_link_shrink. intros i ab'. unfold a_delete. rewrite lookup_a_map.
    case_decide; [|eauto]. destruct (st !! i) as [ab|]; [|done]. intros [= <-].
    exists ab. split; [done|]. apply delete_subseteq.
Qed.

Lemma closed_a_insert id p st :
  target_exists st p → closed st → closed (a_insert id p st).
Proof.
  intros Ht Hcl i i' (ab & k & r & Hi & Hr & Hl). apply is_Some_alter.
  unfold a_insert in Hi. rewrite lookup_a_map in Hi. case_decide; subst.
  - destruct (st !! i) as [ab0|] eqn:E; [|done]. injection Hi as <-. cbn in Hr.
    apply lookup_insert_Some in Hr as [[<- <-]|[_ Hr]].
    + destruct Hl as [Hb <-]. by apply Ht.
    + apply (Hcl i). by exists ab0, k, r.
  - apply (Hcl i). by exists ab, k, r.
Qed.

Lemma closed_a_insert_group id ps st :
  Forall (target_exists st) ps → closed st →
  let st' := foldl (λ st p, a_insert id p st) st ps in
  closed st' ∧ ∀ i, is_Some (st' !! i) ↔ is_Some (st !! i).
Proof.
  revert st. induction ps as [|p ps IH]; intros st Hall Hcl; [done|].
  apply Forall_cons in Hall as [Hp Hps]. cbn.
  destruct (IH (a_insert id p st)) as [H1 H2].
  - eapply Forall_impl; [done|]. intros q Hq Hb. by apply is_Some_alter, Hq.
  - by apply closed_a_insert.
  - split; [done|]. intros i. rewrite H2. apply is_Some_alter.
Qed.

Lemma closed_a_insert_all groups st :
  Forall (group_ok st) groups → closed st → closed (a_insert_all groups st).
Proof.
  revert st. induction groups as [|[id ps] groups IH]; intros st Hall Hcl; [done|].
  apply Forall_cons in Hall as [[_ Hps] Hgs]. cbn in *.
  destruct (closed_a_insert_group id ps st Hps Hcl) as [H1 H2].
  apply IH; [|done]. eapply Forall_impl; [done|]. intros [id' ps'] [Hid Hps'].
  split; cbn in *; [by apply H2|].
  eapply Forall_impl; [done|]. intros q Hq Hb. by apply H2, Hq.
Qed.

Lemma closed_a_delete_all groups st : closed st → closed (a_delete_all groups st).
Proof.
  revert st. induction groups as [|[id ks] groups IH]; intros st Hcl; [done|].
  apply IH. cbn. revert st Hcl. induction ks as [|k ks IHk]; intros st Hcl; [done|].
  by apply IHk, closed_a_delete.
Qed.

Lemma closed_new_bucket id r st :
  closed st → st !! id = None → closed (<[id := mkABucket r ∅]> st).
Proof.
  intros Hcl Hid i i' (ab & k & r' & Hi & Hr & Hl). apply lookup_insert_is_Some'. right.
  apply lookup_insert_Some in Hi as [[<- <-]|[_ Hi]]; [by cbn in Hr|].
  apply (Hcl i). by exists ab, k, r'.
Qed.

Lemma closed_set_default id r st ab :
  closed st → st !! id = Some ab → closed (<[id := a_set_default r ab]> st).
Proof.
  intros Hcl Hid. eapply closed_shrink; [| |done].
  - intros i Hi. apply lookup_insert_is_Some'. by right.
  - apply a_link_shrink. intros i ab' H.
    apply lookup_insert_Some in H as [[<- <-]|[_ Hi]]; eauto.
Qed.

Lemma closed_delete_bucket id st : closed st → closed (a_unlink id <$> delete id st).
Proof.
  intros Hcl i i' (ab' & k & r & Hi & Hr & Hl).
  rewrite lookup_fmap, fmap_Some in Hi. destruct Hi as (ab & Hi & ->).
  apply lookup_delete_Some in Hi as [Hne Hi].
  cbn in Hr. apply map_lookup_filter_Some in Hr as [Hr Hnl]. cbn in Hnl.
  rewrite lookup_fmap, fmap_is_Some, lookup_delete_is_Some. split.
  - intros ->. by apply Hnl.
  - apply (Hcl i). by exists ab, k, r.
Qed.

Lemma closed_erased scope f st st' : erased_in scope f st st' → closed st → closed st'.
Proof.
  intros He. apply closed_shrink.
  - intros i Hi. rewrite He. case_decide; [by rewrite fmap_is_Some|done].
  - apply a_link_shrink. intros i ab'. rewrite He. case_decide; [|eauto].
    intros (ab & Hi & ->)%fmap_Some. exists ab. split; [done|]. apply map_filter_subseteq.
Qed.

(** ** The operations on the contract *)

Section Updates.
Context `{HO : HashOrder} {B : Type} `{SB : StorageBackend B} `{SL : !StorageBackendLaws B}.

Implicit Types (st : B).

(** [m] throws [e] and leaves the back end alone. *)
Definition rejects {A} (m : SE B A) (st : B) (e : exn) : Prop := m st = (Throw e, st).
(** [m] returns and changes the view to [v]. *)
Definition updates (m : SE B unit) (st : B) (v : AStore) : Prop :=
  ∃ st', m st = (Ret tt, st') ∧ inv st' ∧ view st' = v.

Lemma on_bucket_updates (m : SE B unit) st id f ab :
  on_bucket view inv st id f (m st) → view st !! id = Some ab →
  updates m st (<[id := f ab]> (view st)).
Proof.
  unfold on_bucket. intros H Hid. rewrite Hid in H. destruct H as (Hr & Hi & Hv).
  exists (m st).2. split_and!; [|done..]. destruct (m st); cbn in *; congruence.
Qed.

Lemma on_bucket_alter (m : SE B unit) st id f :
  on_bucket view inv st id f (m st) → is_Some (view st !! id) →
  updates m st (alter f id (view st)).
Proof.
  intros H [ab Hid]. rewrite (alter_as_insert _ _ _ _ Hid). by eapply on_bucket_updates.
Qed.

Lemma insertPolicy_updates id p st :
  inv st → is_Some (view st !! id) → updates (insertPolicy id p) st (a_insert id p (view st)).
Proof. intros Hinv Hid. apply on_bucket_alter; [by apply insert_law|done]. Qed.

Lemma deletePolicy_updates id k st :
  inv st → is_Some (view st !! id) → updates (deletePolicy id k) st (a_delete id k (view st)).
Proof. intros Hinv Hid. apply on_bucket_alter; [by apply deletePolicy_law|done]. Qed.

(** A loop of updates none of which removes a bucket is the fold of the updates. *)
Lemma forEach_updates {A} (l : list A) (body : A → SE B unit) (f : A → AStore → AStore) st
    (P : A → AStore → Prop) :
  (∀ x st, x ∈ l → inv st → P x (view st) → updates (body x) st (f x (view st))) →
  (∀ x y v, x ∈ l → y ∈ l → P y v → P y (f x v)) →
  inv st → (∀ x, x ∈ l → P x (view st)) →
  updates (forEach l body) st (foldl (λ v x, f x v) (view st) l).
Proof.
  revert st. induction l as [|x l IH]; intros st Hb Hpres Hinv HP.
  { exists st. done. }
  destruct (Hb x st) as (st' & E & Hi & Hv); [set_solver|done|apply HP; set_solver|].
  destruct (IH st') as (st'' & E' & Hi' & Hv').
  - intros y t Hy. apply Hb. set_solver.
  - intros y z v Hy Hz. apply Hpres; set_solver.
  - done.
  - intros y Hy. rewrite Hv. apply Hpres; [set_solver..|]. apply HP. set_solver.
  - exists st''. cbn [forEach foldl]. rewrite SE_bind_eq, E, <-Hv. done.
Qed.

(** *** Checks before insertion *)

Lemma pointedBucketExists_spec p st :
  inv st →
  pointedBucketExists p st =
    if decide (target_exists (view st) p) then (Ret tt, st)
    else (Throw (BucketNotExistsException (metadata (result p))), st).
Proof.
  intros Hinv. unfold pointedBucketExists, target_exists.
  destruct (Z.eqb_spec (policyType (result p)) BUCKET) as [E|E].
  - rewrite SE_bind_eq. cbn. rewrite has_law by done.
    case_bool_decide; case_decide; naive_solver.
  - by rewrite decide_True.
Qed.

#[global] Instance target_exists_dec v p : Decision (target_exists v p).
Proof. unfold target_exists. apply _. Defined.
#[global] Instance group_ok_dec v g : Decision (group_ok v g).
Proof. unfold group_ok. apply _. Defined.

Lemma forEach_pointed ps st :
  inv st →
  (Forall (target_exists (view st)) ps ∧ forEach ps pointedBucketExists st = (Ret tt, st)) ∨
  (∃ p, p ∈ ps ∧ ¬ target_exists (view st) p ∧
     rejects (forEach ps pointedBucketExists) st
       (BucketNotExistsException (metadata (result p)))).
Proof.
  intros Hinv. induction ps as [|p ps IH]; [by left|].
  unfold rejects. cbn [forEach]. rewrite !SE_bind_eq, pointedBucketExists_spec by done.
  case_decide as Hp; [|right; exists p; set_solver].
  destruct IH as [[Hall E]|(q & Hq & Hn & E)]; [left|right].
  - split; [by constructor|done].
  - exists q. split_and!; [set_solver|done|done].
Qed.

(** The checking loop of [insertPolicies] does not write and finds the first problem. *)
Lemma check_groups groups st :
  inv st →
  let loop := forEach groups (λ group : PolicyBucketId * list Policy,
    m_backend ← get;
    if negb (hasBucket m_backend group.1) then throw (BucketNotExistsException group.1)
    else forEach group.2 pointedBucketExists) in
  (Forall (group_ok (view st)) groups ∧ loop st = (Ret tt, st)) ∨
  (¬ Forall (group_ok (view st)) groups ∧
   ∃ id, view st !! id = None ∧ rejects loop st (BucketNotExistsException id)).
Proof.
  intros Hinv. cbn zeta. induction groups as [|[id ps] groups IH]; [by left|].
  unfold rejects. cbn [forEach]. rewrite !SE_bind_eq. cbn.
  rewrite has_law by done. case_bool_decide as Hid; cbn; cycle 1.
  { right. split; [by intros [[? _] _]%Forall_cons|].
    exists id. rewrite <-eq_None_not_Some in Hid. done. }
  destruct (forEach_pointed ps st Hinv) as [[Hall E]|(p & Hp & Hn & E)].
  - rewrite E. destruct IH as [[Hgs E']|[Hn (id' & Hid' & E')]]; [left|right].
    + split; [by constructor|done].
    + split; [by intros [_ ?]%Forall_cons|]. by exists id'.
  - right. unfold rejects in E. rewrite E. split.
    + intros [[_ Hall] _]%Forall_cons. by eapply Forall_forall in Hall.
    + exists (metadata (result p)). split; [|done].
      destruct (view st !! metadata (result p)) eqn:El; [|done].
      destruct Hn. intros _. eauto.
Qed.

(** *** [insertPolicies]: all or nothing *)

Lemma insertPolicies_ok groups st :
  inv st → Forall (group_ok (view st)) groups →
  updates (insertPolicies groups) st (a_insert_all groups (view st)).
Proof.
  intros Hinv Hok.
  assert (updates (forEach groups (λ group, forEach group.2 (insertPolicy group.1))) st
    (a_insert_all groups (view st))) as (st' & E & ?).
  { apply (forEach_updates groups _ (λ g v, foldl (λ v p, a_insert g.1 p v) v g.2) st
      (λ g v, is_Some (v !! g.1))); [| |done|].
    - intros [id ps] st' _ Hinv' Hid; cbn in *.
      apply (forEach_updates ps _ (a_insert id) st' (λ _ v, is_Some (v !! id))); [| |done..].
      + intros p t _ ? ?. by apply insertPolicy_updates.
      + intros p q v _ _ Hv. by apply is_Some_alter.
    - intros [id ps] [id' ps'] v _ _ Hv; cbn in *. revert v Hv.
      induction ps as [|p ps IH]; intros v Hv; [done|]. apply IH. by apply is_Some_alter.
    - intros g Hg. by eapply Forall_forall in Hok as [? _]. }
  exists st'. split; [|done]. unfold insertPolicies. rewrite SE_bind_eq.
  destruct (check_groups groups st Hinv) as [[_ ->]|[Hn _]]; done.
Qed.

Lemma insertPolicies_bad groups st :
  inv st → ¬ Forall (group_ok (view st)) groups →
  ∃ id, view st !! id = None ∧ rejects (insertPolicies groups) st (BucketNotExistsException id).
Proof.
  intros Hinv Hbad. destruct (check_groups groups st Hinv) as [[? _]|[_ (id & Hid & E)]]; [done|].
  exists id. split; [done|]. unfold rejects, insertPolicies in *. by rewrite SE_bind_eq, E.
Qed.

(** *** [deletePolicies] *)

Lemma deletePolicies_ok groups st :
  inv st → (∀ g, g ∈ groups → is_Some (view st !! g.1)) →
  updates (deletePolicies groups) st (a_delete_all groups (view st)).
Proof.
  intros Hinv Hok. unfold deletePolicies.
  apply (forEach_updates groups _ (λ g v, foldl (λ v k, a_delete g.1 k v) v g.2) st
    (λ g v, is_Some (v !! g.1))); [| |done|done].
  - intros [id ks] st' _ Hinv' Hid; cbn in *.
    apply (forEach_updates ks _ (a_delete id) st' (λ _ v, is_Some (v !! id))); [| |done..].
    + intros k t _ ? ?. by apply deletePolicy_updates.
    + intros k q v _ _ Hv. by apply is_Some_alter.
  - intros [id ks] [id' ks'] v _ _ Hv; cbn in *. revert v Hv.
    induction ks as [|k ks IH]; intros v Hv; [done|]. apply IH. by apply is_Some_alter.
Qed.

(** The deletions before the first missing bucket stay. *)
Lemma deletePolicies_bad pre id k ks post st :
  inv st → (∀ g, g ∈ pre → is_Some (view st !! g.1)) → view st !! id = None →
  ∃ st', deletePolicies (pre ++ (id, k :: ks) :: post) st =
           (Throw (BucketNotExistsException id), st') ∧
         inv st' ∧ view st' = a_delete_all pre (view st).
Proof.
  intros Hinv Hpre Hid. destruct (deletePolicies_ok pre st Hinv Hpre) as (st' & E & Hi & Hv).
  exists st'. split; [|done]. unfold deletePolicies in *. rewrite forEach_app, SE_bind_eq, E.
  assert (view st' !! id = None) as Hid'.
  { rewrite Hv. clear E Hv Hpre. revert Hid. generalize (view st).
    induction pre as [|[id' ks'] pre IH]; intros v Hv; [done|]. apply IH. cbn. revert v Hv.
    induction ks' as [|k' ks' IHk]; intros v Hv; [done|]. apply IHk.
    unfold a_delete. rewrite lookup_alter. case_decide; subst; by rewrite ?Hv. }
  pose proof (deletePolicy_law st' id k Hi) as Hlaw. unfold on_bucket in Hlaw.
  rewrite Hid' in Hlaw. cbn [forEach fst snd]. rewrite !SE_bind_eq, Hlaw. done.
Qed.

(** *** Buckets *)

Lemma addOrUpdateBucket_none st r :
  r = PolicyResult_of NONE → rejects (addOrUpdateBucket "" r) st DefaultBucketSetNoneException.
Proof. by intros ->. Qed.

Lemma addOrUpdateBucket_guard id r :
  ¬ (id = defaultPolicyBucketId ∧ r = PolicyResult_of NONE) →
  bool_decide (id = defaultPolicyBucketId) && PolicyResult_is r NONE = false.
Proof.
  intros Hn. apply not_true_is_false. rewrite andb_true_iff, bool_decide_eq_true.
  by rewrite PolicyResult_is_spec.
Qed.

Lemma addOrUpdateBucket_update id r st ab :
  inv st → ¬ (id = defaultPolicyBucketId ∧ r = PolicyResult_of NONE) →
  view st !! id = Some ab →
  updates (addOrUpdateBucket id r) st (<[id := a_set_default r ab]> (view st)).
Proof.
  intros Hinv Hn Hid. unfold updates, addOrUpdateBucket.
  rewrite addOrUpdateBucket_guard, SE_bind_eq by done. cbn.
  rewrite has_law, bool_decide_true by eauto.
  eapply on_bucket_updates; [by apply update_law|done].
Qed.

Lemma addOrUpdateBucket_create id r st :
  inv st → ¬ (id = defaultPolicyBucketId ∧ r = PolicyResult_of NONE) →
  view st !! id = None →
  if idValid id
  then updates (addOrUpdateBucket id r) st (<[id := mkABucket r ∅]> (view st))
  else rejects (addOrUpdateBucket id r) st (InvalidBucketIdException id).
Proof.
  intros Hinv Hn Hid. pose proof (create_law st id r Hinv Hid) as Hlaw.
  assert (addOrUpdateBucket id r st = createBucket id r st) as E.
  { unfold addOrUpdateBucket. rewrite addOrUpdateBucket_guard, SE_bind_eq by done. cbn.
    rewrite has_law, Hid, bool_decide_false by (done || by intros []). done. }
  unfold updates, rejects. rewrite E. destruct (idValid id); [|done].
  destruct Hlaw as (? & ? & ?). exists (createBucket id r st).2.
  split_and!; [|done..]. destruct (createBucket id r st); cbn in *; congruence.
Qed.

Lemma deleteBucket_default st :
  rejects (deleteBucket defaultPolicyBucketId) st DefaultBucketDeletionException.
Proof. done. Qed.

Lemma deleteBucket_ok id st :
  inv st → id ≠ defaultPolicyBucketId → is_Some (view st !! id) →
  updates (deleteBucket id) st (a_unlink id <$> delete id (view st)).
Proof.
  intros Hinv Hne [ab Hid]. unfold updates, deleteBucket. rewrite bool_decide_false by done.
  destruct (unlink_law st id Hinv) as (Hr & Hi & Hv).
  destruct (deleteLinking id st) as [res st1] eqn:E; cbn in *; subst res.
  rewrite SE_bind_eq, E. pose proof (delete_law st1 id Hi) as Hlaw.
  rewrite Hv, lookup_fmap, Hid in Hlaw. cbn in Hlaw. destruct Hlaw as (Hr2 & Hi2 & Hv2).
  exists (deleteBucket_backend id st1).2. split_and!; [|done|].
  - destruct (deleteBucket_backend id st1); cbn in *; congruence.
  - rewrite Hv2. by rewrite fmap_delete.
Qed.

Lemma deleteBucket_missing id st :
  inv st → id ≠ defaultPolicyBucketId → view st !! id = None → closed (view st) →
  ∃ st', deleteBucket id st = (Throw (BucketNotExistsException id), st') ∧ inv st' ∧
    view st' = view st.
Proof.
  intros Hinv Hne Hid Hcl. unfold deleteBucket. rewrite bool_decide_false by done.
  destruct (unlink_law st id Hinv) as (Hr & Hi & Hv).
  destruct (deleteLinking id st) as [res st1] eqn:E; cbn in *; subst res.
  exists st1. rewrite SE_bind_eq, E. pose proof (delete_law st1 id Hi) as Hlaw.
  rewrite Hv, lookup_fmap, Hid in Hlaw. cbn in Hlaw. split_and!; [done..|].
  rewrite Hv. apply map_eq. intros i. rewrite lookup_fmap.
  destruct (view st !! i) as [ab|] eqn:Ei; [|done]. cbn. f_equal.
  unfold a_unlink, a_map_rules. destruct ab as [d rs]; cbn. f_equal.
  apply map_filter_id. intros k r Hk Hl; cbn in Hl.
  destruct (Hcl i id) as [? ?]; [|congruence]. by exists (mkABucket d rs), k, r.
Qed.

(** ** Sequences of updates *)

(** A call of one of the updating methods of [Storage], with its arguments. *)
Inductive storage_op :=
| OpInsertPolicies (policies : list (PolicyBucketId * list Policy))
| OpDeletePolicies (keys : list (PolicyBucketId * list PolicyKey))
| OpAddOrUpdateBucket (bucketId : PolicyBucketId) (r : PolicyResult)
| OpDeleteBucket (bucketId : PolicyBucketId)
| OpErasePolicies (fuel : nat) (bucketId : PolicyBucketId) (recursive : bool) (f : PolicyKey).

Definition run_op (op : storage_op) : SE B unit :=
  match op with
  | OpInsertPolicies policies => insertPolicies policies
  | OpDeletePolicies keys => deletePolicies keys
  | OpAddOrUpdateBucket bucketId r => addOrUpdateBucket bucketId r
  | OpDeleteBucket bucketId => deleteBucket bucketId
  | OpErasePolicies fuel bucketId recursive f => erasePolicies fuel bucketId recursive f
  end.

(** The store after a sequence of calls, whether they return or throw. *)
Definition run_ops (ops : list storage_op) (st : B) : B :=
  foldl (λ st op, (run_op op st).2) st ops.

(** The store is well formed, no link dangles and the default bucket exists. *)
Definition store_ok (st : B) : Prop :=
  inv st ∧ closed (view st) ∧ is_Some (view st !! defaultPolicyBucketId).

Lemma updates_ok m st v :
  updates m st v → closed v → is_Some (v !! defaultPolicyBucketId) → store_ok (m st).2.
Proof. by intros (st' & -> & ? & <-). Qed.

Lemma rejects_ok {A} (m : SE B A) st e : rejects m st e → store_ok st → store_ok (m st).2.
Proof. by unfold rejects; intros ->. Qed.

Lemma a_insert_all_dom groups (v : AStore) i : is_Some (a_insert_all groups v !! i) ↔ is_Some (v !! i).
Proof.
  revert v. induction groups as [|[id ps] groups IH]; intros v; [done|].
  unfold a_insert_all in *. cbn [foldl fst snd]. rewrite IH. clear IH. revert v.
  induction ps as [|p ps IH]; intros v; [done|]. cbn [foldl]. rewrite IH. apply is_Some_alter.
Qed.

Lemma a_insert_all_default groups (v : AStore) i :
  Forall (group_ok v) groups → closed v →
  is_Some (a_insert_all groups v !! i) ↔ is_Some (v !! i).
Proof.
  revert v. induction groups as [|[id ps] groups IH]; intros v Hok Hcl; [done|].
  apply Forall_cons in Hok as [[? Hps] Hok]. cbn [a_insert_all foldl fst snd] in *.
  destruct (closed_a_insert_group id ps v Hps Hcl) as [Hcl' Hdom].
  unfold a_insert_all in IH. rewrite IH; [done| |done].
  eapply Forall_impl; [exact Hok|]. intros g [? Ht]. split; [by apply Hdom|].
  eapply Forall_impl; [exact Ht|]. intros p Hp Hb. apply Hdom. by apply Hp.
Qed.

Lemma deletePolicy_ok id k st : store_ok st → store_ok (deletePolicy id k st).2.
Proof.
  intros (Hinv & Hcl & Hd). destruct (view st !! id) as [ab|] eqn:E.
  - eapply updates_ok; [by apply deletePolicy_updates|by apply closed_a_delete|].
    by apply is_Some_alter.
  - pose proof (deletePolicy_law st id k Hinv) as Hl. unfold on_bucket in Hl. rewrite E in Hl.
    by rewrite Hl.
Qed.

Lemma run_op_ok op st : store_ok st → store_ok (run_op op st).2.
Proof.
  intros Hok. pose proof Hok as (Hinv & Hcl & Hd). destruct op as [gs|ks|id r|id|fuel id rc f]; cbn.
  - destruct (decide (Forall (group_ok (view st)) gs)) as [Hg|Hg].
    + eapply updates_ok; [by apply insertPolicies_ok|by apply closed_a_insert_all|].
      by apply a_insert_all_default.
    + destruct (insertPolicies_bad gs st Hinv Hg) as (? & _ & Hr). by eapply rejects_ok.
  - apply (forEach_invariant store_ok); [|done]. intros g st' _ Hst'.
    apply (forEach_invariant store_ok); [|done]. intros k st'' _. apply deletePolicy_ok.
  - destruct (decide (id = defaultPolicyBucketId ∧ r = PolicyResult_of NONE)) as [[-> ->]|Hn].
    { by eapply rejects_ok; [apply addOrUpdateBucket_none|]. }
    destruct (view st !! id) as [ab|] eqn:E.
    + eapply updates_ok; [by apply addOrUpdateBucket_update|by apply closed_set_default|].
      apply lookup_insert_is_Some'. by right.
    + pose proof (addOrUpdateBucket_create id r st Hinv Hn E) as Hc. destruct (idValid id).
      * eapply updates_ok; [done|by apply closed_new_bucket|].
        apply lookup_insert_is_Some'. by right.
      * by eapply rejects_ok.
  - destruct (decide (id = defaultPolicyBucketId)) as [->|Hn].
    { by eapply rejects_ok; [apply deleteBucket_default|]. }
    destruct (view st !! id) as [ab|] eqn:E.
    + eapply updates_ok; [by apply deleteBucket_ok|by apply closed_delete_bucket|].
      by rewrite lookup_fmap, fmap_is_Some, lookup_delete_ne.
    + destruct (deleteBucket_missing id st) as (st' & -> & ? & Hv); [done..|].
      unfold store_ok. cbn. by rewrite Hv.
  - destruct (erase_partial st fuel id rc f Hinv) as (? & scope & _ & He).
    split_and!; [done|by eapply closed_erased|].
    unfold erasePolicies. rewrite He. case_decide; [by rewrite fmap_is_Some|done].
Qed.

End Updates.
