(* ===== verification/InMemoryStorageBackend.v ===== *)
(** * The in-memory back end ([storage/InMemoryStorageBackend])

    The map operations of [InMemoryStorageBackend] on its [Buckets], and the instance that
    they satisfy the contract [StorageBackendLaws].  [load] and [save] are in
    [Persistence.v]. *)
From S2P Require Import Prelude Text Types Bucket StorageBackend Storage.

(** [typedef std::unordered_map<PolicyBucketId, PolicyBucket> Buckets] *)
Abbreviation Buckets := (gmap PolicyBucketId PolicyBucket).

Record InMemoryStorageBackend := mkInMemory { m_buckets : Buckets }.

(** [*s.begin()] of a [std::set<std::string>] *)
Definition set_begin (s : gset PolicyBucketId) : option PolicyBucketId :=
  head (merge_sort String.le (elements s)).

Section InMemory.
Context `{HO : HashOrder}.

(** ** Operations *)

Definition im_searchBucket (b : InMemoryStorageBackend) (bucketId : PolicyBucketId)
    (k : PolicyKey) : outcome PolicyBucket :=
  match m_buckets b !! bucketId with
  | Some bucket => filtered bucket k
  | None => Throw (BucketNotExistsException bucketId)
  end.

Definition im_insertPolicy (bucketId : PolicyBucketId) (policy : Policy) :
    SE InMemoryStorageBackend unit := λ b,
  match m_buckets b !! bucketId with
  | Some bucket =>
      (Ret tt, mkInMemory (<[bucketId := insertPolicy_bucket policy bucket]> (m_buckets b)))
  | None => (Throw (BucketNotExistsException bucketId), b)
  end.

(** [std::unordered_map::insert] keeps an entry that is already there. *)
Definition im_createBucket (bucketId : PolicyBucketId) (defaultPolicy : PolicyResult) :
    SE InMemoryStorageBackend unit := λ b,
  match PolicyBucket_new bucketId defaultPolicy with
  | Ret newBucket =>
      (Ret tt, match m_buckets b !! bucketId with
               | Some _ => b
               | None => mkInMemory (<[bucketId := newBucket]> (m_buckets b))
               end)
  | Throw e => (Throw e, b)
  | OutOfFuel => (OutOfFuel, b)
  end.

Definition im_updateBucket (bucketId : PolicyBucketId) (defaultPolicy : PolicyResult) :
    SE InMemoryStorageBackend unit := λ b,
  match m_buckets b !! bucketId with
  | Some bucket =>
      (Ret tt, mkInMemory (<[bucketId := setDefaultPolicy defaultPolicy bucket]> (m_buckets b)))
  | None => (Throw (BucketNotExistsException bucketId), b)
  end.

Definition im_deleteBucket (bucketId : PolicyBucketId) : SE InMemoryStorageBackend unit := λ b,
  match m_buckets b !! bucketId with
  | Some _ => (Ret tt, mkInMemory (delete bucketId (m_buckets b)))
  | None => (Throw (BucketNotExistsException bucketId), b)
  end.

Definition im_hasBucket (b : InMemoryStorageBackend) (bucketId : PolicyBucketId) : bool :=
  bool_decide (is_Some (m_buckets b !! bucketId)).

Definition im_deletePolicy (bucketId : PolicyBucketId) (k : PolicyKey) :
    SE InMemoryStorageBackend unit := λ b,
  match m_buckets b !! bucketId with
  | Some bucket =>
      (Ret tt, mkInMemory (<[bucketId := deletePolicy_bucket k bucket]> (m_buckets b)))
  | None => (Throw (BucketNotExistsException bucketId), b)
  end.

(** The lambda [bucketIdMatches]. *)
Definition bucketIdMatches (bucketId : PolicyBucketId) (policy : Policy) : bool :=
  let policyResult := result policy in
  if (policyType policyResult =? BUCKET)%Z then bool_decide (metadata policyResult = bucketId)
  else false.

Definition im_deleteLinking (bucketId : PolicyBucketId) : SE InMemoryStorageBackend unit := λ b,
  (Ret tt, mkInMemory (deletePolicyIf (bucketIdMatches bucketId) <$> m_buckets b)).

Definition im_listPolicies (b : InMemoryStorageBackend) (bucketId : PolicyBucketId)
    (f : PolicyKey) : outcome (list Policy) :=
  match m_buckets b !! bucketId with
  | Some bucket => Ret (listPolicies_bucket f bucket)
  | None => Throw (BucketNotExistsException bucketId)
  end.

(** The worklist loop of [erasePolicies]. *)
Fixpoint eraseLoop (fuel : nat) (recursive : bool) (f : PolicyKey)
    (bucketIds : gset PolicyBucketId) : SE InMemoryStorageBackend unit := λ b,
  match fuel with
  | 0 => (OutOfFuel, b)
  | S fuel' =>
      match set_begin bucketIds with
      | None => (Ret tt, b)
      | Some policyBucketId =>
          let bucketIds := bucketIds ∖ {[policyBucketId]} in
          match m_buckets b !! policyBucketId with
          | None => (Throw (BucketNotExistsException policyBucketId), b)
          | Some policyBucket =>
              let bucketIds :=
                if recursive then bucketIds ∪ getSubBuckets policyBucket else bucketIds in
              eraseLoop fuel' recursive f bucketIds
                (mkInMemory (<[policyBucketId :=
                   deletePolicyIf (λ policy, matchFilter (key policy) f) policyBucket]>
                   (m_buckets b)))
          end
      end
  end.

Definition im_erasePolicies (fuel : nat) (bucketId : PolicyBucketId) (recursive : bool)
    (f : PolicyKey) : SE InMemoryStorageBackend unit :=
  eraseLoop fuel recursive f {[bucketId]}.

#[global] Instance InMemory_backend : StorageBackend InMemoryStorageBackend := {
  searchBucket := im_searchBucket;
  insertPolicy := im_insertPolicy;
  createBucket := im_createBucket;
  updateBucket := im_updateBucket;
  deleteBucket_backend := im_deleteBucket;
  hasBucket := im_hasBucket;
  deletePolicy := im_deletePolicy;
  deleteLinking := im_deleteLinking;
  listPolicies_backend := im_listPolicies;
  erasePolicies_backend := im_erasePolicies;
}.

(** ** The view and the invariant *)

Definition abs_bucket (b : PolicyBucket) : ABucket := mkABucket (m_defaultPolicy b) (rules b).
Definition im_view (b : InMemoryStorageBackend) : AStore := abs_bucket <$> m_buckets b.
Definition im_inv (b : InMemoryStorageBackend) : Prop :=
  map_Forall (λ id bk, bucket_wf bk ∧ m_id bk = id) (m_buckets b).

#[global] Instance im_inv_dec b : Decision (im_inv b).
Proof. unfold im_inv. apply _. Defined.

Arguments im_view : simpl never.
Arguments abs_bucket : simpl never.

Lemma im_view_lookup b id : im_view b !! id = abs_bucket <$> m_buckets b !! id.
Proof. apply lookup_fmap. Qed.

Lemma im_inv_insert b id bk :
  im_inv b → bucket_wf bk → m_id bk = id → im_inv (mkInMemory (<[id := bk]> (m_buckets b))).
Proof. intros. by apply map_Forall_insert_2. Qed.

Lemma im_view_insert b id bk :
  im_view (mkInMemory (<[id := bk]> (m_buckets b))) = <[id := abs_bucket bk]> (im_view b).
Proof. apply fmap_insert. Qed.

(** A single-bucket operation that keeps buckets well-formed satisfies its contract. *)
Lemma im_on_bucket (m : SE InMemoryStorageBackend unit) id (g : PolicyBucket → PolicyBucket)
    (f : ABucket → ABucket) b :
  im_inv b →
  m b = match m_buckets b !! id with
        | Some bk => (Ret tt, mkInMemory (<[id := g bk]> (m_buckets b)))
        | None => (Throw (BucketNotExistsException id), b)
        end →
  (∀ bk, bucket_wf bk → bucket_wf (g bk) ∧ m_id (g bk) = m_id bk ∧
     abs_bucket (g bk) = f (abs_bucket bk)) →
  on_bucket im_view im_inv b id f (m b).
Proof.
  intros Hinv -> Hg. unfold on_bucket. rewrite im_view_lookup.
  destruct (m_buckets b !! id) as [bk|] eqn:E; cbn; [|done].
  destruct (Hinv id bk E) as [Hwf Hid]. destruct (Hg bk Hwf) as (? & ? & Ha).
  split_and!; [done|apply im_inv_insert; [done..|congruence]|]. by rewrite im_view_insert, Ha.
Qed.

Lemma im_on_bucket_f (g : PolicyBucket → PolicyBucket) f bk :
  m_defaultPolicy (g bk) = m_defaultPolicy bk → rules (g bk) = f (rules bk) →
  abs_bucket (g bk) = a_map_rules f (abs_bucket bk).
Proof. intros H1 H2. unfold abs_bucket, a_map_rules. cbn. by rewrite H1, H2. Qed.

Lemma bucketIdMatches_spec id k r :
  bucketIdMatches id (mkPolicy k r) = false ↔ ¬ links_to r id.
Proof.
  unfold bucketIdMatches, links_to. cbn. destruct (Z.eqb_spec (policyType r) BUCKET).
  - rewrite bool_decide_eq_false. tauto.
  - tauto.
Qed.

Lemma a_link_view b id id' :
  im_inv b →
  a_link (im_view b) id id' ↔ ∃ bk, m_buckets b !! id = Some bk ∧ id' ∈ getSubBuckets bk.
Proof.
  intros Hinv. unfold a_link, links_to. setoid_rewrite im_view_lookup. split.
  - intros (ab & k & r & (bk & E & ->)%fmap_Some & Hr & Hl). exists bk. split; [done|].
    apply elem_of_getSubBuckets; [by apply (Hinv id)|]. by exists k, r.
  - intros (bk & E & (k & r & Hr & Hl)%elem_of_getSubBuckets); [|by apply (Hinv id)].
    exists (abs_bucket bk), k, r. rewrite E. done.
Qed.

(** ** The erase worklist *)

Lemma set_begin_Some s x : set_begin s = Some x → x ∈ s.
Proof.
  unfold set_begin. intros H%head_Some_elem_of. rewrite merge_sort_Permutation in H.
  by apply elem_of_elements.
Qed.
Lemma set_begin_None s : set_begin s = None → s = ∅.
Proof.
  unfold set_begin. intros H%head_None. apply leibniz_equiv, elements_empty_iff.
  pose proof (merge_sort_Permutation String.le (elements s)) as Hp. rewrite H in Hp.
  by apply Permutation_nil in Hp.
Qed.
Lemma set_begin_singleton x : set_begin {[x]} = Some x.
Proof. unfold set_begin. by rewrite elements_singleton. Qed.

Definition erase_bucket (f : PolicyKey) (bk : PolicyBucket) : PolicyBucket :=
  deletePolicyIf (λ policy, matchFilter (key policy) f) bk.

Lemma erase_bucket_wf f bk : bucket_wf bk → bucket_wf (erase_bucket f bk).
Proof. apply deletePolicyIf_wf. Qed.

Lemma abs_erase_bucket f bk :
  bucket_wf bk → abs_bucket (erase_bucket f bk) = a_erase f (abs_bucket bk).
Proof. intros Hwf. apply im_on_bucket_f; [done|]. unfold erase_bucket. by rewrite rules_deleteIf. Qed.

Lemma im_inv_erase b id bk f :
  im_inv b → m_buckets b !! id = Some bk →
  im_inv (mkInMemory (<[id := erase_bucket f bk]> (m_buckets b))).
Proof.
  intros Hinv E. destruct (Hinv id bk E). apply im_inv_insert; [done|by apply erase_bucket_wf|done].
Qed.

Lemma eraseLoop_inv fuel recursive f X b :
  im_inv b → im_inv (eraseLoop fuel recursive f X b).2.
Proof.
  revert X b. induction fuel as [|fuel IH]; intros X b Hinv; cbn; [done|].
  destruct (set_begin X) as [x|]; [|done].
  destruct (m_buckets b !! x) as [bk|] eqn:E; [|done].
  apply IH. by apply im_inv_erase.
Qed.

(** The state of the worklist: [D] done, [X] pending. *)
Record erase_state (recursive : bool) (id : PolicyBucketId) (f : PolicyKey) (v0 : AStore)
    (D X : gset PolicyBucketId) (v : AStore) : Prop := {
  es_view : erased_in D f v0 v;
  es_start : id ∈ D ∪ X;
  es_scope x : x ∈ D ∪ X → in_scope recursive v0 id x;
  es_closed x y : recursive = true → x ∈ D → a_link v0 x y → y ∈ D ∪ X;
}.

Lemma a_erase_idemp f ab : a_erase f (a_erase f ab) = a_erase f ab.
Proof.
  unfold a_erase, a_map_rules. cbn. f_equal. apply map_filter_id.
  intros k r H. by apply map_lookup_filter_Some in H as [_ ?].
Qed.

Lemma erased_link f (D : gset PolicyBucketId) (v0 v : AStore) x y :
  erased_in D f v0 v → a_link v x y → a_link v0 x y.
Proof.
  intros Hv (ab & k & r & Hx & Hr & Hl). rewrite Hv in Hx. case_decide.
  - destruct (v0 !! x) as [ab0|] eqn:E; [|done]. injection Hx as <-.
    apply map_lookup_filter_Some in Hr as [Hr _]. by exists ab0, k, r.
  - by exists ab, k, r.
Qed.

(** Processing one pending bucket keeps the state of the worklist. *)
Lemma erase_step recursive id f v0 D X b x bk :
  im_inv b → erase_state recursive id f v0 D X (im_view b) → x ∈ X →
  m_buckets b !! x = Some bk →
  erase_state recursive id f v0 (D ∪ {[x]})
    (if recursive then (X ∖ {[x]}) ∪ getSubBuckets bk else X ∖ {[x]})
    (im_view (mkInMemory (<[x := erase_bucket f bk]> (m_buckets b)))).
Proof.
  intros Hinv [Hv Hst Hsc Hcl] HxX E.
  assert (∀ y, recursive = true → y ∈ getSubBuckets bk → a_link v0 x y) as Hsub.
  { intros y _ Hy. eapply erased_link; [exact Hv|]. apply a_link_view; [done|]. by exists bk. }
  assert (∀ y, y ∈ (if recursive then (X ∖ {[x]}) ∪ getSubBuckets bk else X ∖ {[x]}) →
    y ∈ X ∨ recursive = true ∧ y ∈ getSubBuckets bk) as HX'.
  { intros y. destruct recursive; set_solver. }
  assert (∀ y, y ∈ D ∪ X → y ∈ D ∪ {[x]} ∪
    (if recursive then (X ∖ {[x]}) ∪ getSubBuckets bk else X ∖ {[x]})) as Hmono.
  { intros y Hy. destruct (decide (y = x)) as [->|]; [set_solver|].
    destruct recursive; set_solver. }
  split.
  - intros i. rewrite im_view_insert, lookup_insert. case_decide as Hxi.
    + subst i. rewrite decide_True by set_solver.
      rewrite abs_erase_bucket by (by apply (Hinv x)).
      specialize (Hv x). rewrite im_view_lookup, E in Hv. cbn in Hv.
      case_decide; [|by rewrite <-Hv].
      destruct (v0 !! x); [|done]. apply (inj Some) in Hv as ->. by rewrite a_erase_idemp.
    + rewrite Hv. by repeat case_decide; set_solver.
  - by apply Hmono.
  - intros y Hy. destruct (decide (y ∈ D ∪ X)) as [Hd|Hd]; [by apply Hsc|].
    assert (recursive = true ∧ y ∈ getSubBuckets bk) as [-> Hyb].
    { apply elem_of_union in Hy as [Hy|[?|?]%HX']; set_solver. }
    unfold a_reach. eapply rtc_r; [apply (Hsc x); set_solver|by apply Hsub].
  - intros y z -> Hy Hl. apply elem_of_union in Hy as [Hy| ->%elem_of_singleton].
    + apply Hmono. by eapply Hcl.
    + destruct (decide (x ∈ D)) as [Hd|Hd]; [apply Hmono; by eapply Hcl|].
      rewrite !elem_of_union. right. right.
      assert (a_link (im_view b) x z) as (bk' & E' & Hz)%a_link_view; [|by simplify_map_eq|done].
      destruct Hl as (ab & k & r & Hx & ?). exists ab, k, r. split; [|done].
      rewrite Hv. by rewrite decide_False.
Qed.

Lemma eraseLoop_state fuel recursive id f v0 D X b :
  im_inv b → erase_state recursive id f v0 D X (im_view b) →
  ∃ D' X', erase_state recursive id f v0 D' X' (im_view (eraseLoop fuel recursive f X b).2) ∧
    ((eraseLoop fuel recursive f X b).1 = Ret tt → X' = ∅).
Proof.
  revert D X b. induction fuel as [|fuel IH]; intros D X b Hinv Hes; cbn; [by exists D, X|].
  destruct (set_begin X) as [x|] eqn:Ex.
  - destruct (m_buckets b !! x) as [bk|] eqn:E; cbn; [|by exists D, X].
    apply (IH (D ∪ {[x]})); [by apply im_inv_erase|].
    eapply erase_step; [done..|by apply set_begin_Some|done].
  - exists D, X. split; [done|]. intros _. by apply set_begin_None.
Qed.

Lemma erase_state_start recursive id f v : erase_state recursive id f v ∅ {[id]} v.
Proof.
  split; [done|set_solver| |set_solver]. intros x Hx. assert (x = id) as -> by set_solver.
  unfold in_scope, a_reach. by destruct recursive.
Qed.

Lemma eraseLoop_erased fuel recursive id f b :
  im_inv b → (eraseLoop fuel recursive f {[id]} b).1 = Ret tt →
  erased recursive id f (im_view b) (im_view (eraseLoop fuel recursive f {[id]} b).2).
Proof.
  intros Hinv Hret. destruct (eraseLoop_state fuel recursive id f (im_view b) ∅ {[id]} b Hinv)
    as (D & X & [Hv Hst Hsc Hcl] & HX); [apply erase_state_start|].
  rewrite (HX Hret) in *. exists D. split; [|done]. intros i. split.
  - intros Hi. apply Hsc. set_solver.
  - unfold in_scope in *. destruct recursive; [|intros ->; set_solver].
    intros Hr. unfold a_reach in Hr. assert (id ∈ D) as Hid by set_solver. clear Hst Hret.
    assert (∀ x y, a_reach (im_view b) x y → x ∈ D → y ∈ D) as Hreach.
    { intros x y. induction 1 as [|x y z Hxy _ IH]; [done|]. intros Hx. apply IH.
      specialize (Hcl x y eq_refl Hx Hxy). set_solver. }
    by eapply Hreach.
Qed.

(** *** Termination *)

(** A pending bucket of rank [n] weighs [K ^ n], more than any [K - 1] buckets of lower
    rank together, so every turn of the loop makes the worklist lighter. *)
Definition weight (K : nat) (rank : PolicyBucketId → nat) (X : gset PolicyBucketId) : nat :=
  sum_list ((λ x, K ^ rank x) <$> elements X).

Lemma sum_list_Permutation (l l' : list nat) : l ≡ₚ l' → sum_list l = sum_list l'.
Proof. induction 1; cbn; lia. Qed.

Lemma weight_insert K rank x X :
  x ∉ X → weight K rank ({[x]} ∪ X) = K ^ rank x + weight K rank X.
Proof.
  intros Hx. unfold weight. rewrite (sum_list_Permutation _ ((λ x, K ^ rank x) <$> x :: elements X)).
  - done.
  - by rewrite elements_union_singleton.
Qed.

Lemma weight_remove K rank x X :
  x ∈ X → weight K rank X = K ^ rank x + weight K rank (X ∖ {[x]}).
Proof.
  intros Hx. rewrite <-weight_insert by set_solver. by rewrite <-union_difference_singleton_L.
Qed.

Lemma weight_union K rank X Y : weight K rank (X ∪ Y) ≤ weight K rank X + weight K rank Y.
Proof.
  induction Y as [|y Y Hy IH] using set_ind_L.
  { rewrite (right_id_L ∅ (∪)). lia. }
  rewrite (weight_insert K rank y Y) by done. destruct (decide (y ∈ X)) as [HyX|HyX].
  - replace (X ∪ ({[y]} ∪ Y)) with (X ∪ Y) by set_solver. lia.
  - replace (X ∪ ({[y]} ∪ Y)) with ({[y]} ∪ (X ∪ Y)) by set_solver.
    rewrite weight_insert by set_solver. lia.
Qed.

Lemma weight_bound K rank X n :
  K ≠ 0 → (∀ x, x ∈ X → rank x ≤ n) → weight K rank X ≤ size X * K ^ n.
Proof.
  intros HK. induction X as [|x X Hx IH] using set_ind_L; intros Hr; [done|].
  rewrite weight_insert, size_union, size_singleton by set_solver.
  assert (K ^ rank x ≤ K ^ n) by (apply Nat.pow_le_mono_r; [done|apply Hr; set_solver]).
  specialize (IH ltac:(intros y Hy; apply Hr; set_solver)). lia.
Qed.

Lemma weight_step K rank x X S :
  x ∈ X → (∀ y, y ∈ S → rank y < rank x) → size S < K →
  weight K rank (X ∖ {[x]} ∪ S) < weight K rank X.
Proof.
  intros Hx Hr HK. rewrite (weight_remove K rank x X) by done.
  pose proof (weight_union K rank (X ∖ {[x]}) S).
  destruct (decide (S = ∅)) as [->|HS].
  - replace (X ∖ {[x]} ∪ ∅) with (X ∖ {[x]}) by set_solver.
    assert (K ^ rank x ≠ 0) by (apply Nat.pow_nonzero; lia). lia.
  - destruct (rank x) as [|n] eqn:En.
    { apply set_choose_L in HS as [y Hy]. apply Hr in Hy. lia. }
    assert (weight K rank S ≤ size S * K ^ n).
    { apply weight_bound; [lia|]. intros y Hy%Hr. lia. }
    assert (K ^ n ≠ 0) by (apply Nat.pow_nonzero; lia). cbn [Nat.pow]. nia.
Qed.

Lemma eraseLoop_total fuel recursive f X b rank :
  im_inv b → closed (im_view b) → ranked rank (im_view b) →
  (∀ x, x ∈ X → is_Some (im_view b !! x)) →
  weight (S (size (dom (m_buckets b)))) rank X < fuel →
  (eraseLoop fuel recursive f X b).1 = Ret tt.
Proof.
  revert X b. induction fuel as [|fuel IH]; intros X b Hinv Hcl Hrk HX Hw; [lia|]. cbn.
  destruct (set_begin X) as [x|] eqn:Ex; [|done]. apply set_begin_Some in Ex.
  destruct (m_buckets b !! x) as [bk|] eqn:E; cbn; cycle 1.
  { destruct (HX x Ex) as [ab Hab]. rewrite im_view_lookup, E in Hab. done. }
  set (b' := mkInMemory (<[x := erase_bucket f bk]> (m_buckets b))).
  assert (∀ i, is_Some (im_view b' !! i) ↔ is_Some (im_view b !! i)) as Hdom.
  { intros i. unfold b'. rewrite im_view_insert, lookup_insert. case_decide; [subst i|done].
    rewrite im_view_lookup, E. by split; eexists. }
  assert (∀ i j, a_link (im_view b') i j → a_link (im_view b) i j) as Hlinks.
  { intros i j. apply (erased_link f {[x]}). intros i'. unfold b'.
    rewrite im_view_insert, lookup_insert. case_decide; subst.
    - rewrite decide_True, abs_erase_bucket by (set_solver || by apply (Hinv i')).
      by rewrite im_view_lookup, E.
    - rewrite decide_False by set_solver. done. }
  assert (∀ y, y ∈ getSubBuckets bk → a_link (im_view b) x y) as Hsub.
  { intros y Hy. apply a_link_view; [done|]. by exists bk. }
  assert (size (dom (m_buckets b')) = size (dom (m_buckets b))) as Hsz.
  { unfold b'; cbn [m_buckets]. f_equal. rewrite dom_insert_L.
    apply elem_of_dom_2 in E. set_solver. }
  apply (IH _ b'); [by apply im_inv_erase| | | |].
  - intros i j Hl%Hlinks. by apply Hdom, (Hcl i).
  - intros i j Hl%Hlinks. by apply Hrk.
  - intros y Hy. apply Hdom. destruct recursive; [|apply HX; set_solver].
    apply elem_of_union in Hy as [Hy|Hy%Hsub]; [apply HX; set_solver|by apply (Hcl x)].
  - rewrite Hsz. eapply Nat.lt_le_trans; [|apply Nat.lt_succ_r, Hw].
    destruct recursive; cycle 1.
    { rewrite (weight_remove _ rank x X) by done.
      assert (S (size (dom (m_buckets b))) ^ rank x ≠ 0) by (apply Nat.pow_nonzero; lia). lia. }
    apply weight_step; [done| |].
    + intros y Hy%Hsub. by apply Hrk.
    + apply Nat.lt_succ_r, subseteq_size. intros y Hy%Hsub. apply elem_of_dom.
      destruct (Hcl _ _ Hy) as [ab Hab]. rewrite im_view_lookup in Hab.
      by apply fmap_Some in Hab as (bk' & -> & _).
Qed.

(** ** The contract holds *)

#[global, refine] Instance InMemory_laws : StorageBackendLaws InMemoryStorageBackend := {
  view := im_view;
  inv := im_inv;
}.
Proof.
  - intros b id k Hinv. rewrite im_view_lookup. cbn [searchBucket InMemory_backend].
    unfold im_searchBucket. destruct (m_buckets b !! id) as [bk|] eqn:E; [|done]. cbn.
    destruct (Hinv id bk E) as [Hwf _].
    destruct (filtered_spec bk k Hwf) as (bk' & ? & ? & ? & ?). by exists bk'.
  - intros b id p Hinv. eapply im_on_bucket; [done|reflexivity|]. intros bk Hwf.
    split_and!; [by apply insertPolicy_bucket_wf|done|].
    apply im_on_bucket_f; [done|by apply rules_insert].
  - intros b id r Hinv. eapply im_on_bucket; [done|reflexivity|]. intros bk Hwf. done.
  - intros b id k Hinv. eapply im_on_bucket; [done|reflexivity|]. intros bk Hwf.
    split_and!; [by apply deletePolicy_bucket_wf|done|].
    apply im_on_bucket_f; [done|by apply rules_delete].
  - intros b id r Hinv Hid. cbn [createBucket InMemory_backend]. unfold im_createBucket.
    rewrite im_view_lookup, fmap_None in Hid. rewrite Hid.
    destruct (PolicyBucket_new id r) as [bk|e|] eqn:E;
      unfold PolicyBucket_new, idValidator in E; destruct (idValid id) eqn:Ev; cbn in E;
      simplify_eq; [|done]. cbn. split_and!; [done| |].
    + apply im_inv_insert; [done| |done]. split; [apply map_wf_empty|done].
    + by rewrite im_view_insert.
  - intros b id Hinv. rewrite im_view_lookup. cbn [deleteBucket_backend InMemory_backend].
    unfold im_deleteBucket. destruct (m_buckets b !! id) as [bk|] eqn:E; cbn; [|done].
    split_and!; [done|by apply map_Forall_delete|apply fmap_delete].
  - intros b id Hinv. cbn [hasBucket InMemory_backend]. unfold im_hasBucket.
    apply bool_decide_ext. rewrite im_view_lookup. by rewrite fmap_is_Some.
  - intros b id Hinv. split_and!; [done| |].
    + intros i bk (bk0 & <- & E)%lookup_fmap_Some. destruct (Hinv i bk0 E).
      split; [by apply deletePolicyIf_wf|done].
    + apply map_eq. intros i. rewrite lookup_fmap, !im_view_lookup. cbn [m_buckets snd].
      cbn. rewrite lookup_fmap. destruct (m_buckets b !! i) as [bk|] eqn:E; [|done]. cbn.
      f_equal. apply im_on_bucket_f; [done|]. rewrite rules_deleteIf by (by apply (Hinv i)).
      apply map_filter_ext. intros k r _. cbn. apply bucketIdMatches_spec.
  - intros b id f Hinv. rewrite im_view_lookup. cbn [listPolicies_backend InMemory_backend].
    unfold im_listPolicies. destruct (m_buckets b !! id) as [bk|] eqn:E; [|done]. cbn.
    destruct (Hinv id bk E) as [Hwf _]. eexists. split_and!; [done| |].
    + apply NoDup_ListNoDup, List.NoDup_filter, NoDup_ListNoDup.
      eapply NoDup_fmap_1. by apply NoDup_keys_bucket_policies.
    + intros p. by apply elem_of_listPolicies_bucket.
  - intros b fuel id recursive f Hinv. split; [by apply eraseLoop_inv|].
    destruct (eraseLoop_state fuel recursive id f (im_view b) ∅ {[id]} b Hinv)
      as (D & X & [Hv _ Hsc _] & _); [apply erase_state_start|].
    exists D. split; [intros; apply Hsc; set_solver|done].
  - intros b fuel id recursive f Hinv Hret. by apply eraseLoop_erased.
  - intros b fuel id recursive f Hinv Hid. cbn [erasePolicies_backend InMemory_backend].
    unfold im_erasePolicies. cbn [eraseLoop]. rewrite set_begin_singleton.
    rewrite im_view_lookup, fmap_None in Hid. by rewrite Hid.
  - intros b id recursive f rank Hinv Hcl Hrk Hid. eexists. intros fuel Hf.
    apply (eraseLoop_total _ _ _ _ _ rank); [done..| |exact Hf].
    intros x ->%elem_of_singleton. done.
Defined.

End InMemory.
