(* ===== verification/StorageTheorems.v ===== *)
(** * What the policy store promises

    The theorems on [Storage] over any back end that keeps the contract, each with an
    instance on a small in-memory store. *)
From S2P Require Import Prelude Text Types Bucket StorageBackend Storage Decision.
From S2P Require Import StorageUpdates InMemoryStorageBackend.

(** ** A concrete store *)

Definition demo_key : PolicyKey := PolicyKey_of "app" "user" "camera".
(** The default bucket sends [camera] requests to the bucket [sys] and allows [app]
    everything; [sys] denies the user's camera. *)
Definition demo_groups : list (PolicyBucketId * list Policy) :=
  [("", [bucketWithKey (PolicyKey_of "*" "*" "camera") "sys";
         simpleWithKey (PolicyKey_of "app" "*" "*") ALLOW]);
   ("sys", [simpleWithKey (PolicyKey_of "*" "user" "*") DENY])].
Definition demo_base : InMemoryStorageBackend :=
  mkInMemory (list_to_map
    [("", mkPolicyBucket ∅ PolicyResult_default "");
     ("sys", mkPolicyBucket ∅ (PolicyResult_of ALLOW) "sys")]).
Definition demo : InMemoryStorageBackend := (insertPolicies demo_groups demo_base).2.
(** A default bucket that links to itself. *)
Definition looped : InMemoryStorageBackend :=
  (insertPolicies [("", [bucketWithKey (PolicyKey_of "*" "*" "*") ""])] demo_base).2.

Definition demo_rank (id : PolicyBucketId) : nat := if decide (id = "") then 1 else 0.

Lemma demo_base_inv : inv demo_base.
Proof. decide_by_compute. Defined.
Lemma demo_inv : inv demo.
Proof. decide_by_compute. Defined.
Lemma looped_inv : inv looped.
Proof. decide_by_compute. Defined.

(** ** Decisions *)

Section decisions.
Context `{HO : HashOrder} {B : Type} `{SB : StorageBackend B} `{SL : !StorageBackendLaws B}.

(** C1: Whatever [checkPolicy] returns is a decision of the specification: a covering rule of
    type DENY if there is one; else, among the covering plain rules and the decisions of the
    linked buckets, a result of least type; else the default of the bucket. *)
Theorem check_decides fuel (st : B) k id recursive r :
  inv st → checkPolicy fuel st k id recursive = Ret r →
  decides (view st) k recursive id r.
Proof. apply checkPolicy_decides. Qed.

(** C2: On a store without dangling links and whose links go down in rank, [checkPolicy]
    returns for every request to an existing bucket, within one level of recursion per
    rank. *)
Theorem check_returns rank fuel (st : B) k id recursive :
  inv st → closed (view st) → ranked rank (view st) → is_Some (view st !! id) →
  rank id < fuel → ∃ r, checkPolicy fuel st k id recursive = Ret r.
Proof. apply checkPolicy_total. Qed.

(** The link of a bucket to itself passes the checks of [insertPolicies], and from then on
    no request to the default bucket is ever decided, whatever the recursion depth. *)
Theorem self_link_diverges (st : B) ab :
  inv st → view st !! defaultPolicyBucketId = Some ab → a_rules ab = ∅ →
  ∃ st', insertPolicies [(defaultPolicyBucketId,
      [bucketWithKey (PolicyKey_of "*" "*" "*") defaultPolicyBucketId])] st = (Ret tt, st') ∧
    ∀ fuel k, checkPolicy fuel st' k defaultPolicyBucketId true = OutOfFuel.
Proof.
  unfold defaultPolicyBucketId. intros Hinv Hab Hrules.
  destruct (insertPolicies_ok [("",
    [bucketWithKey (PolicyKey_of "*" "*" "*") ""])] st Hinv)
    as (st' & Hm & Hinv' & Hv).
  { apply Forall_singleton. split; [cbn; by rewrite Hab|]. apply Forall_singleton. intros _.
    cbn. by rewrite Hab. }
  exists st'. split; [exact Hm|]. intros fuel k.
  apply (checkPolicy_diverges (.= "")); [done..|]. intros id' ->.
  exists (a_map_rules (<[PolicyKey_of "*" "*" "*" := mkPolicyResult BUCKET ""]>) ab).
  unfold applies. rewrite Hv. cbn. unfold a_insert. rewrite lookup_alter, decide_True, Hab by done.
  split_and!; [done| |].
  - intros rk r [Hr _]. cbn in Hr. rewrite Hrules, insert_empty in Hr.
    apply lookup_singleton_Some in Hr as [_ <-]. done.
  - exists (PolicyKey_of "*" "*" "*"), (mkPolicyResult BUCKET ""). cbn.
    rewrite lookup_insert, decide_True by done. split_and!; [done| |done].
    split_and!; by right.
Qed.

End decisions.

(** C3: The type of the decision depends on the rules alone: two implementations of the back
    end, each with its own enumeration order, that hold the same rules give the same type,
    provided no rule has type NONE. *)
Theorem decision_type_unique
    {HO1 HO2 : HashOrder} {B1 B2 : Type} `{SL1 : StorageBackendLaws B1} `{SL2 : StorageBackendLaws B2}
    (st1 : B1) (st2 : B2) fuel1 fuel2 k id recursive r1 r2 :
  inv st1 → inv st2 → view st1 = view st2 → no_none (view st1) →
  checkPolicy fuel1 st1 k id recursive = Ret r1 →
  checkPolicy fuel2 st2 k id recursive = Ret r2 →
  policyType r1 = policyType r2.
Proof.
  intros H1 H2 Hv Hnn Hc1%checkPolicy_decides Hc2%checkPolicy_decides; [|done..].
  rewrite <-Hv in Hc2. by destruct (decides_agree _ _ _ _ _ _ Hnn Hc1 Hc2).
Qed.

Lemma check_decides_witness :
  inv demo ∧ checkPolicy 5 demo demo_key "" true = Ret (PolicyResult_of DENY) ∧
  decides (view demo) demo_key true "" (PolicyResult_of DENY).
Proof.
  split_and!; [decide_by_compute|by vm_compute|].
  apply (check_decides 5 demo); [decide_by_compute|by vm_compute].
Defined.

Lemma check_returns_witness : ∃ r, checkPolicy 2 demo demo_key "" true = Ret r.
Proof. apply (check_returns demo_rank); decide_by_compute. Defined.

Lemma self_link_diverges_witness :
  ∃ st', insertPolicies [("", [bucketWithKey (PolicyKey_of "*" "*" "*") ""])] demo_base =
    (Ret tt, st') ∧ ∀ fuel k, checkPolicy fuel st' k "" true = OutOfFuel.
Proof.
  apply (self_link_diverges demo_base (mkABucket PolicyResult_default ∅));
    [decide_by_compute|by vm_compute|done].
Defined.

Lemma decision_type_unique_witness :
  policyType (PolicyResult_of DENY) = DENY ∧
  policyType (PolicyResult_of DENY) = policyType (mkPolicyResult DENY "").
Proof.
  split; [done|].
  apply (decision_type_unique demo demo 3 5 demo_key "" true);
    [decide_by_compute..|by vm_compute|decide_by_compute|by vm_compute|by vm_compute].
Defined.

(** ** Updates *)

Section updates.
Context `{HO : HashOrder} {B : Type} `{SB : StorageBackend B} `{SL : !StorageBackendLaws B}.
Implicit Types st : B.

(** C10: Through any sequence of calls of the updating methods, whether they return or throw, the
    store stays well formed, its default bucket stays, and no link ever dangles. *)
Theorem updates_keep_store_ok ops st : store_ok st → store_ok (run_ops ops st).
Proof.
  unfold run_ops. revert st. induction ops as [|op ops IH]; intros st Hok; [done|].
  by apply IH, run_op_ok.
Qed.

(** [insertPolicies] is all or nothing: if every bucket and every link target exists it
    returns with all the policies in place, the later ones overriding the earlier; otherwise
    it throws and the store is as before. *)
Theorem insertPolicies_atomic groups st :
  inv st →
  if decide (Forall (group_ok (view st)) groups)
  then updates (insertPolicies groups) st (a_insert_all groups (view st))
  else ∃ id, view st !! id = None ∧
         rejects (insertPolicies groups) st (BucketNotExistsException id).
Proof.
  intros Hinv. case_decide; [by apply insertPolicies_ok|by apply insertPolicies_bad].
Qed.

(** [deletePolicies] is not: it returns with all the keys deleted when all the buckets
    exist, but at the first missing bucket it throws and the deletions before it stay. *)
Theorem deletePolicies_effect groups st :
  inv st →
  ((∀ g, g ∈ groups → is_Some (view st !! g.1)) →
     updates (deletePolicies groups) st (a_delete_all groups (view st))) ∧
  (∀ pre id k ks post, groups = pre ++ (id, k :: ks) :: post →
     (∀ g, g ∈ pre → is_Some (view st !! g.1)) → view st !! id = None →
     ∃ st', deletePolicies groups st = (Throw (BucketNotExistsException id), st') ∧
       inv st' ∧ view st' = a_delete_all pre (view st)).
Proof.
  intros Hinv. split; [by apply deletePolicies_ok|].
  intros pre id k ks post -> Hpre Hid. by apply deletePolicies_bad.
Qed.

(** [addOrUpdateBucket] on each of its branches: NONE is refused as the default of the
    default bucket, an existing bucket gets the new default and keeps its rules, a new one
    starts without rules, and an invalid id is refused. *)
Theorem addOrUpdateBucket_effect id r st :
  inv st →
  if decide (id = defaultPolicyBucketId ∧ r = PolicyResult_of NONE)
  then rejects (addOrUpdateBucket id r) st DefaultBucketSetNoneException
  else match view st !! id with
       | Some ab => updates (addOrUpdateBucket id r) st (<[id := a_set_default r ab]> (view st))
       | None =>
           if idValid id
           then updates (addOrUpdateBucket id r) st (<[id := mkABucket r ∅]> (view st))
           else rejects (addOrUpdateBucket id r) st (InvalidBucketIdException id)
       end.
Proof.
  intros Hinv. case_decide as Hd.
  - destruct Hd as [-> ->]. by apply addOrUpdateBucket_none.
  - destruct (view st !! id) eqn:E; [by apply addOrUpdateBucket_update|].
    by apply addOrUpdateBucket_create.
Qed.

(** [deleteBucket] refuses the default bucket; else it removes the bucket and, from all the
    others, exactly the rules that link to it; a missing bucket is reported and nothing
    changes. *)
Theorem deleteBucket_effect id st :
  inv st → closed (view st) →
  if decide (id = defaultPolicyBucketId)
  then rejects (deleteBucket id) st DefaultBucketDeletionException
  else match view st !! id with
       | Some _ => updates (deleteBucket id) st (a_unlink id <$> delete id (view st))
       | None => ∃ st', deleteBucket id st = (Throw (BucketNotExistsException id), st') ∧
           inv st' ∧ view st' = view st
       end.
Proof.
  intros Hinv Hcl. case_decide as Hd; [subst; apply deleteBucket_default|].
  destruct (view st !! id) eqn:E; [by apply deleteBucket_ok|by apply deleteBucket_missing].
Qed.

(** When [erasePolicies] returns, the rules that match the filter are gone from exactly the
    start bucket or, recursively, the buckets reached from it by links, and nothing else
    changed; however it ends, it erased nothing out of that scope. *)
Theorem erasePolicies_effect fuel id recursive f st :
  inv st →
  inv (erasePolicies fuel id recursive f st).2 ∧
  ((erasePolicies fuel id recursive f st).1 = Ret tt →
     erased recursive id f (view st) (view (erasePolicies fuel id recursive f st).2)) ∧
  ∃ scope : gset PolicyBucketId,
    (∀ id', id' ∈ scope → in_scope recursive (view st) id id') ∧
    erased_in scope f (view st) (view (erasePolicies fuel id recursive f st).2).
Proof.
  intros Hinv. destruct (erase_partial st fuel id recursive f Hinv) as [Hinv' Hpart].
  split; [exact Hinv'|]. split; [by apply erase_law|exact Hpart].
Qed.

(** The worklist of [erasePolicies] runs dry on a store whose links are not dangling and go
    down in rank: with enough fuel the call returns. *)
Theorem erasePolicies_returns rank id recursive f st :
  inv st → closed (view st) → ranked rank (view st) → is_Some (view st !! id) →
  ∃ n, ∀ fuel, n ≤ fuel → (erasePolicies fuel id recursive f st).1 = Ret tt.
Proof. intros. by apply (erase_total st id recursive f rank). Qed.

End updates.

(** C27: The decision sees exactly the rules that cover the request: looking the eight glued
    variants of the request up in the glued map yields the rules whose client, user and
    privilege each equal the request's or are the wildcard. *)
Theorem filtered_covers b k rk r :
  bucket_wf b →
  ∃ b', filtered b k = Ret b' ∧ m_defaultPolicy b' = m_defaultPolicy b ∧
    (mkPolicy rk r ∈ bucket_policies b' ↔ rules b !! rk = Some r ∧ covers rk k).
Proof.
  intros Hwf. destruct (filtered_spec b k Hwf) as (b' & Hf & Hwf' & Hd & Hr).
  exists b'. split_and!; [done..|]. rewrite elem_of_bucket_policies, Hr by done.
  apply map_lookup_filter_Some.
Qed.

Lemma updates_keep_store_ok_witness :
  store_ok demo_base ∧
  store_ok (run_ops [OpInsertPolicies demo_groups; OpDeleteBucket ""; OpDeleteBucket "sys"]
    demo_base).
Proof.
  assert (store_ok demo_base) as H.
  { unfold store_ok. split_and!; decide_by_compute. }
  split; [exact H|]. by apply updates_keep_store_ok.
Defined.

Lemma insertPolicies_atomic_witness :
  updates (insertPolicies demo_groups) demo_base (a_insert_all demo_groups (view demo_base)) ∧
  ∃ id, view demo_base !! id = None ∧
    rejects (insertPolicies (demo_groups ++ [("none", [])])) demo_base
      (BucketNotExistsException id).
Proof.
  split.
  - pose proof (insertPolicies_atomic demo_groups demo_base demo_base_inv) as H.
    by rewrite decide_True in H by decide_by_compute.
  - pose proof (insertPolicies_atomic (demo_groups ++ [("none", [])]) demo_base demo_base_inv) as H.
    by rewrite decide_False in H by decide_by_compute.
Defined.

Lemma deletePolicies_effect_witness :
  ∃ st', deletePolicies [("sys", [PolicyKey_of "*" "user" "*"]); ("none", [demo_key])] demo =
      (Throw (BucketNotExistsException "none"), st') ∧
    inv st' ∧ view st' = a_delete_all [("sys", [PolicyKey_of "*" "user" "*"])] (view demo).
Proof.
  apply (proj2 (deletePolicies_effect _ demo ltac:(decide_by_compute))
    [("sys", [PolicyKey_of "*" "user" "*"])] "none" demo_key [] []); [done| |by vm_compute].
  intros g ->%list_elem_of_singleton. decide_by_compute.
Defined.

Lemma addOrUpdateBucket_effect_witness :
  rejects (addOrUpdateBucket "a b" PolicyResult_default) demo (InvalidBucketIdException "a b").
Proof.
  pose proof (addOrUpdateBucket_effect "a b" PolicyResult_default demo demo_inv) as H.
  rewrite decide_False in H by decide_by_compute.
  replace (view demo !! "a b") with (@None ABucket) in H by by vm_compute. exact H.
Defined.

Lemma deleteBucket_effect_witness :
  updates (deleteBucket "sys") demo (a_unlink "sys" <$> delete "sys" (view demo)).
Proof.
  assert (closed (view demo)) as Hcl by decide_by_compute.
  pose proof (deleteBucket_effect "sys" demo demo_inv Hcl) as H.
  rewrite decide_False in H by decide_by_compute.
  assert (is_Some (view demo !! "sys")) as [ab E] by decide_by_compute. by rewrite E in H.
Defined.

Lemma erasePolicies_effect_witness :
  erased true "" (PolicyKey_of "#" "user" "#") (view demo)
    (view (erasePolicies 3 "" true (PolicyKey_of "#" "user" "#") demo).2).
Proof.
  apply (erasePolicies_effect 3 "" true (PolicyKey_of "#" "user" "#") demo);
    [decide_by_compute|by vm_compute].
Defined.

Lemma erasePolicies_returns_witness :
  ∃ n, ∀ fuel, n ≤ fuel → (erasePolicies fuel "" true (PolicyKey_of "#" "#" "#") demo).1 = Ret tt.
Proof. apply (erasePolicies_returns demo_rank); decide_by_compute. Defined.

Definition demo_bucket : PolicyBucket :=
  insertPolicy_bucket (simpleWithKey (PolicyKey_of "*" "user" "*") ALLOW)
    (mkPolicyBucket ∅ PolicyResult_default "b").
Lemma filtered_covers_witness :
  ∃ b', filtered demo_bucket demo_key = Ret b' ∧
    m_defaultPolicy b' = m_defaultPolicy demo_bucket ∧
    (simpleWithKey (PolicyKey_of "*" "user" "*") ALLOW ∈ bucket_policies b' ↔
     rules demo_bucket !! PolicyKey_of "*" "user" "*" = Some (PolicyResult_of ALLOW) ∧
     covers (PolicyKey_of "*" "user" "*") demo_key).
Proof. apply filtered_covers. decide_by_compute. Defined.
