(* ===== verification/Md5.v ===== *)
(** * MD5 ([external/md5.c], [external/md5wrapper.cpp])

    The streaming MD5 of the repository on bytes and 32-bit words written as [N], with its
    block buffer and bit counter, and the proof that it computes the one-shot digest of the
    padded message. *)
From S2P Require Import Prelude Text.

Local Open Scope N_scope.

(** ** Definitions *)

Definition MD5_BLOCK_LENGTH : nat := 64.

(** Arithmetic on [u_int32_t] *)
Definition w32 (x : N) : N := x mod 2 ^ 32.
Definition add32 (x y : N) : N := w32 (x + y).
Definition not32 (x : N) : N := N.lxor x (2 ^ 32 - 1).
(** [w << s | w >> (32 - s)] *)
Definition rotl32 (s w : N) : N := N.lor (w32 (N.shiftl w s)) (N.shiftr w (32 - s)).

Definition F1 (x y z : N) : N := N.lxor z (N.land x (N.lxor y z)).
Definition F2 (x y z : N) : N := F1 z x y.
Definition F3 (x y z : N) : N := N.lxor (N.lxor x y) z.
Definition F4 (x y z : N) : N := N.lxor y (N.lor x (not32 z)).

(** The four words of the state. *)
Record words := mkWords { wa : N; wb : N; wc : N; wd : N }.
Add Printing Constructor words.

Record MD5_CTX := mkMD5 { md5_state : words; md5_count : N; md5_buffer : list N }.

(** [MD5STEP(f, w, x, y, z, data, s)]: the new value of [w]. *)
Definition MD5STEP (f : N → N → N → N) (w x y z data s : N) : N :=
  add32 (rotl32 s (add32 (add32 w (f x y z)) data)) x.

(** One row of [MD5Transform]; the registers are renamed so that the next row finds its
    [w, x, y, z] in the places [a, b, c, d]. *)
Definition md5_row (f : N → N → N → N) (inp : list N) (ws : words) (row : N * N * N) : words :=
  let '(i, k, s) := row in
  let data := add32 (nth (N.to_nat i) inp 0) k in
  mkWords (wd ws) (MD5STEP f (wa ws) (wb ws) (wc ws) (wd ws) data s) (wb ws) (wc ws).

Definition md5_rows1 : list (N * N * N) :=
  [(0, 0xd76aa478, 7); (1, 0xe8c7b756, 12); (2, 0x242070db, 17); (3, 0xc1bdceee, 22);
   (4, 0xf57c0faf, 7); (5, 0x4787c62a, 12); (6, 0xa8304613, 17); (7, 0xfd469501, 22);
   (8, 0x698098d8, 7); (9, 0x8b44f7af, 12); (10, 0xffff5bb1, 17); (11, 0x895cd7be, 22);
   (12, 0x6b901122, 7); (13, 0xfd987193, 12); (14, 0xa679438e, 17); (15, 0x49b40821, 22)].
Definition md5_rows2 : list (N * N * N) :=
  [(1, 0xf61e2562, 5); (6, 0xc040b340, 9); (11, 0x265e5a51, 14); (0, 0xe9b6c7aa, 20);
   (5, 0xd62f105d, 5); (10, 0x02441453, 9); (15, 0xd8a1e681, 14); (4, 0xe7d3fbc8, 20);
   (9, 0x21e1cde6, 5); (14, 0xc33707d6, 9); (3, 0xf4d50d87, 14); (8, 0x455a14ed, 20);
   (13, 0xa9e3e905, 5); (2, 0xfcefa3f8, 9); (7, 0x676f02d9, 14); (12, 0x8d2a4c8a, 20)].
Definition md5_rows3 : list (N * N * N) :=
  [(5, 0xfffa3942, 4); (8, 0x8771f681, 11); (11, 0x6d9d6122, 16); (14, 0xfde5380c, 23);
   (1, 0xa4beea44, 4); (4, 0x4bdecfa9, 11); (7, 0xf6bb4b60, 16); (10, 0xbebfbc70, 23);
   (13, 0x289b7ec6, 4); (0, 0xeaa127fa, 11); (3, 0xd4ef3085, 16); (6, 0x04881d05, 23);
   (9, 0xd9d4d039, 4); (12, 0xe6db99e5, 11); (15, 0x1fa27cf8, 16); (2, 0xc4ac5665, 23)].
Definition md5_rows4 : list (N * N * N) :=
  [(0, 0xf4292244, 6); (7, 0x432aff97, 10); (14, 0xab9423a7, 15); (5, 0xfc93a039, 21);
   (12, 0x655b59c3, 6); (3, 0x8f0ccc92, 10); (10, 0xffeff47d, 15); (1, 0x85845dd1, 21);
   (8, 0x6fa87e4f, 6); (15, 0xfe2ce6e0, 10); (6, 0xa3014314, 15); (13, 0x4e0811a1, 21);
   (4, 0xf7537e82, 6); (11, 0xbd3af235, 10); (2, 0x2ad7d2bb, 15); (9, 0xeb86d391, 21)].

(** The little-endian 32-bit words of a block: [memcpy(in, block, sizeof(in))]. *)
Fixpoint le_words (l : list N) : list N :=
  match l with
  | b0 :: b1 :: b2 :: b3 :: l' =>
      N.lor (N.lor b0 (N.shiftl b1 8)) (N.lor (N.shiftl b2 16) (N.shiftl b3 24)) :: le_words l'
  | _ => []
  end.

Definition MD5Transform (state : words) (block : list N) : words :=
  let inp := le_words block in
  let ws := foldl (md5_row F1 inp) state md5_rows1 in
  let ws := foldl (md5_row F2 inp) ws md5_rows2 in
  let ws := foldl (md5_row F3 inp) ws md5_rows3 in
  let ws := foldl (md5_row F4 inp) ws md5_rows4 in
  mkWords (add32 (wa state) (wa ws)) (add32 (wb state) (wb ws))
          (add32 (wc state) (wc ws)) (add32 (wd state) (wd ws)).

Definition md5_init_state : words := mkWords 0x67452301 0xefcdab89 0x98badcfe 0x10325476.

(** [MD5Init] leaves the buffer as it is. *)
Definition MD5Init (buffer : list N) : MD5_CTX := mkMD5 md5_init_state 0 buffer.

(** [memcpy(buffer + off, src, src.size())] *)
Definition memcpy_at (buffer : list N) (off : nat) (src : list N) : list N :=
  take off buffer ++ src ++ drop (off + length src) buffer.

(** The [while (len >= MD5_BLOCK_LENGTH)] loop: the state and the bytes left. *)
Fixpoint updateLoop (fuel : nat) (state : words) (input : list N) : words * list N :=
  match fuel with
  | O => (state, input)
  | S fuel' =>
      if (MD5_BLOCK_LENGTH <=? length input)%nat
      then updateLoop fuel' (MD5Transform state (take MD5_BLOCK_LENGTH input))
             (drop MD5_BLOCK_LENGTH input)
      else (state, input)
  end.

(** [(size_t)((ctx->count >> 3) & (MD5_BLOCK_LENGTH - 1))] *)
Definition md5_have (ctx : MD5_CTX) : nat :=
  N.to_nat (N.land (N.shiftr (md5_count ctx) 3) (N.of_nat MD5_BLOCK_LENGTH - 1)).

Definition MD5Update (ctx : MD5_CTX) (input : list N) : MD5_CTX :=
  let have := md5_have ctx in
  let need := (MD5_BLOCK_LENGTH - have)%nat in
  let count := (md5_count ctx + N.shiftl (N.of_nat (length input)) 3) mod 2 ^ 64 in
  if (need <=? length input)%nat then
    let '(state, buffer, input) :=
      if (have =? 0)%nat then (md5_state ctx, md5_buffer ctx, input)
      else let buffer := memcpy_at (md5_buffer ctx) have (take need input) in
           (MD5Transform (md5_state ctx) buffer, buffer, drop need input) in
    let '(state, input) := updateLoop (length input) state input in
    mkMD5 state count (memcpy_at buffer 0 input)
  else mkMD5 (md5_state ctx) count (memcpy_at (md5_buffer ctx) have input).

(** [PUT_64BIT_LE], [PUT_32BIT_LE]: the [n] low bytes, the least significant first. *)
Fixpoint put_le (n : nat) (v : N) : list N :=
  match n with
  | O => []
  | S n' => v mod 256 :: put_le n' (N.shiftr v 8)
  end.

Definition md5_padlen (ctx : MD5_CTX) : nat :=
  let padlen := (MD5_BLOCK_LENGTH - md5_have ctx)%nat in
  if (padlen <? 1 + 8)%nat then (padlen + MD5_BLOCK_LENGTH)%nat else padlen.

Definition PADDING : list N := 0x80 :: replicate 63 0.

Definition MD5Pad (ctx : MD5_CTX) : MD5_CTX :=
  let count := put_le 8 (md5_count ctx) in
  MD5Update (MD5Update ctx (take (md5_padlen ctx - 8) PADDING)) count.

Definition words_bytes (ws : words) : list N :=
  put_le 4 (wa ws) ++ put_le 4 (wb ws) ++ put_le 4 (wc ws) ++ put_le 4 (wd ws).
Definition MD5Final (ctx : MD5_CTX) : list N := words_bytes (md5_state (MD5Pad ctx)).

(** [std::setfill('0') << std::hex << std::setw(2)]: lower-case digits. *)
Definition hex_digit (d : N) : ascii := ascii_of_N (if d <? 10 then 48 + d else 87 + d).
Definition hex_byte (b : N) : string :=
  String (hex_digit (b / 16)) (String (hex_digit (b mod 16)) "").

Definition bytes_of_string (s : string) : list N := N_of_ascii <$> String.list_ascii_of_string s.

(** The context is a local variable: its buffer starts with any bytes. *)
Definition generateMD5_from (buffer : list N) (data : string) : string :=
  String.concat "" (hex_byte <$> MD5Final (MD5Update (MD5Init buffer) (bytes_of_string data))).
Definition generateMD5 : string → string := generateMD5_from (replicate MD5_BLOCK_LENGTH 0).

Example md5_empty : generateMD5 "" = "d41d8cd98f00b204e9800998ecf8427e".
Proof. by vm_compute. Qed.
Example md5_alphabet :
  generateMD5 "abcdefghijklmnopqrstuvwxyz" = "c3fcd3d76192e4007dfb496cca67e13b".
Proof. by vm_compute. Qed.
Example md5_long :
  generateMD5 "12345678901234567890123456789012345678901234567890123456789012345678901234567890"
  = "57edf4a22be3c955ac49da2e2107b67a".
Proof. by vm_compute. Qed.

Local Close Scope N_scope.

(** ** The one-shot digest *)

(** The message padded to whole blocks: a 1 bit, zeros up to 56 mod 64 bytes, the bit
    length mod 2^64 in little-endian order. *)
Definition md5_zeros (n : nat) : nat := (119 - n mod 64) mod 64.
Definition md5_padded (msg : list N) : list N :=
  msg ++ 0x80%N :: replicate (md5_zeros (length msg)) 0%N
      ++ put_le 8 (8 * N.of_nat (length msg) mod 2 ^ 64).

(** The digest of a message of whole blocks. *)
Definition md5_blocks (msg : list N) : words * list N :=
  updateLoop (length msg) md5_init_state msg.

Definition md5_digest (msg : list N) : list N := words_bytes (md5_blocks (md5_padded msg)).1.

(** ** The streaming invariant *)

Lemma updateLoop_fuel n m st l :
  length l ≤ n → length l ≤ m → updateLoop n st l = updateLoop m st l.
Proof.
  revert m st l. induction n as [|n IH]; intros [|m] st l Hn Hm; [done| | |].
  - destruct l; [|cbn in *; lia]. done.
  - destruct l; [|cbn in *; lia]. done.
  - cbn [updateLoop]. destruct (Nat.leb_spec MD5_BLOCK_LENGTH (length l)) as [H|H]; [|done].
    unfold MD5_BLOCK_LENGTH in *. apply IH; rewrite length_drop; lia.
Qed.

Lemma updateLoop_short n st l : length l < 64 → updateLoop n st l = (st, l).
Proof.
  intros Hl. destruct n; [done|]. cbn [updateLoop].
  destruct (Nat.leb_spec MD5_BLOCK_LENGTH (length l)) as [H|H]; [|done].
  unfold MD5_BLOCK_LENGTH in H. lia.
Qed.

Lemma updateLoop_block n st b l :
  length b = 64 → length (b ++ l) ≤ n →
  updateLoop n st (b ++ l) = updateLoop n (MD5Transform st b) l.
Proof.
  intros Hb Hn. rewrite length_app in Hn. destruct n as [|n]; [lia|]. cbn [updateLoop].
  unfold MD5_BLOCK_LENGTH in *. rewrite length_app, Hb.
  destruct (Nat.leb_spec 64 (64 + length l)); [|lia].
  rewrite take_app_length', drop_app_length' by done.
  change (updateLoop n (MD5Transform st b) l = updateLoop (S n) (MD5Transform st b) l).
  apply updateLoop_fuel; lia.
Qed.

Lemma updateLoop_rest n st l :
  length l ≤ n → length (updateLoop n st l).2 = length l mod 64.
Proof.
  revert st l. induction n as [|n IH]; intros st l Hn.
  { by destruct l; [|cbn in *; lia]. }
  cbn [updateLoop]. unfold MD5_BLOCK_LENGTH in *. destruct (Nat.leb_spec 64 (length l)) as [H|H].
  - rewrite IH by (rewrite length_drop; lia). rewrite length_drop.
    rewrite <-(Nat.Div0.mod_add (length l - 64) 1 64). f_equal. lia.
  - cbn [snd]. by rewrite Nat.mod_small.
Qed.

Lemma updateLoop_app n st l1 l2 :
  length (l1 ++ l2) ≤ n →
  updateLoop n st (l1 ++ l2) =
    updateLoop n (updateLoop n st l1).1 ((updateLoop n st l1).2 ++ l2).
Proof.
  intros Hn. remember (length l1) as k eqn:Hk. revert st l1 Hk Hn.
  induction k as [k IH] using lt_wf_ind; intros st l1 -> Hn.
  destruct (decide (length l1 < 64)) as [Hs|Hs]; [by rewrite (updateLoop_short n st l1)|].
  rewrite <-(take_drop 64 l1) in Hn |- *.
  assert (length (take 64 l1) = 64) as Hb by (rewrite length_take; lia).
  rewrite <-app_assoc in Hn |- *.
  rewrite (updateLoop_block n st (take 64 l1) (drop 64 l1 ++ l2)) by done.
  rewrite !length_app in Hn.
  rewrite (updateLoop_block n st (take 64 l1) (drop 64 l1)) by (rewrite ?length_app; lia).
  apply (IH (length (drop 64 l1))); rewrite ?length_app, ?length_drop in *; lia.
Qed.

(** [ctx] has absorbed [msg]. *)
Record md5_absorbed (ctx : MD5_CTX) (msg : list N) : Prop := {
  ab_count : md5_count ctx = (8 * N.of_nat (length msg) mod 2 ^ 64)%N;
  ab_size : length (md5_buffer ctx) = 64;
  ab_state : md5_state ctx = (md5_blocks msg).1;
  ab_rest : take (length msg mod 64) (md5_buffer ctx) = (md5_blocks msg).2;
}.

Lemma md5_have_count ctx n :
  md5_count ctx = (8 * N.of_nat n mod 2 ^ 64)%N → md5_have ctx = n mod 64.
Proof.
  intros H. unfold md5_have, MD5_BLOCK_LENGTH. rewrite H.
  change (N.of_nat 64 - 1)%N with (N.ones 6). rewrite N.land_ones, N.shiftr_div_pow2.
  change (2 ^ 64)%N with (8 * 2 ^ 61)%N. rewrite N.Div0.mul_mod_distr_l.
  change (2 ^ 3)%N with 8%N. rewrite (N.mul_comm 8), N.div_mul by done.
  change (2 ^ 61)%N with (2 ^ 6 * 2 ^ 55)%N. rewrite N.Div0.mod_mul_r, N.Div0.add_mod, N.mul_comm.
  rewrite N.Div0.mod_mul, N.add_0_r, !N.Div0.mod_mod. change (2 ^ 6)%N with (N.of_nat 64).
  by rewrite <-Nat2N.inj_mod, Nat2N.id.
Qed.

Lemma md5_count_add n m :
  (((8 * N.of_nat n mod 2 ^ 64) + N.shiftl (N.of_nat m) 3) mod 2 ^ 64 =
    8 * N.of_nat (n + m) mod 2 ^ 64)%N.
Proof.
  rewrite N.shiftl_mul_pow2, N.Div0.add_mod_idemp_l. f_equal. lia.
Qed.

Lemma length_memcpy_at buffer off src :
  off + length src ≤ length buffer → length (memcpy_at buffer off src) = length buffer.
Proof.
  intros H. unfold memcpy_at. rewrite !length_app, length_take, length_drop. lia.
Qed.

Lemma take_memcpy_at buffer off src :
  off ≤ length buffer → take (off + length src) (memcpy_at buffer off src) = take off buffer ++ src.
Proof.
  intros H. unfold memcpy_at. rewrite app_assoc. apply take_app_length'.
  rewrite length_app, length_take. lia.
Qed.

Lemma md5_blocks_app msg input :
  md5_blocks (msg ++ input) =
    updateLoop (length (msg ++ input)) (md5_blocks msg).1 ((md5_blocks msg).2 ++ input).
Proof.
  unfold md5_blocks. rewrite updateLoop_app by done.
  by rewrite (updateLoop_fuel (length (msg ++ input)) (length msg) _ msg)
    by (rewrite ?length_app; lia).
Qed.

Lemma md5_absorbed_init buffer :
  length buffer = 64 → md5_absorbed (MD5Init buffer) [].
Proof. by split. Qed.

(** The bytes past the last whole block of the data, copied to the front of the buffer,
    complete the invariant. *)
Lemma md5_absorbed_loop msg st buffer count inp :
  count = (8 * N.of_nat (length msg) mod 2 ^ 64)%N →
  length buffer = 64 → length inp ≤ length msg →
  md5_blocks msg = updateLoop (length msg) st inp →
  md5_absorbed (let '(state, inp) := updateLoop (length inp) st inp in
    mkMD5 state count (memcpy_at buffer 0 inp)) msg.
Proof.
  intros Hcount Hbuf Hinp Heq.
  rewrite (updateLoop_fuel _ (length inp)) in Heq by lia.
  pose proof (updateLoop_rest (length inp) st inp ltac:(done)) as Hl.
  destruct (updateLoop (length inp) st inp) as [st' inp'] eqn:E. cbn in Hl.
  pose proof (Nat.mod_upper_bound (length inp) 64 ltac:(done)).
  assert (length msg mod 64 = length inp') as Hlast.
  { unfold md5_blocks in Heq.
    by rewrite <-(updateLoop_rest (length msg) md5_init_state), Heq by done. }
  split; cbn [md5_count md5_state md5_buffer]; [done| |by rewrite Heq|].
  - rewrite length_memcpy_at; lia.
  - rewrite Hlast, Heq. by apply (take_memcpy_at buffer 0 inp'); lia.
Qed.

Lemma md5_absorbed_update ctx msg input :
  md5_absorbed ctx msg → md5_absorbed (MD5Update ctx input) (msg ++ input).
Proof.
  intros [Hc Hs Hst Hr]. unfold MD5Update. rewrite (md5_have_count _ _ Hc).
  pose proof (Nat.mod_upper_bound (length msg) 64 ltac:(done)) as Hlt.
  assert (length msg mod 64 ≤ length msg) by apply Nat.Div0.mod_le.
  assert (length (msg ++ input) mod 64 = (length msg mod 64 + length input) mod 64) as Hmod.
  { rewrite length_app. by rewrite Nat.Div0.add_mod_idemp_l. }
  assert (((md5_count ctx + N.shiftl (N.of_nat (length input)) 3) mod 2 ^ 64 =
    8 * N.of_nat (length (msg ++ input)) mod 2 ^ 64)%N) as Hcount.
  { rewrite Hc, md5_count_add. by rewrite length_app. }
  set (have := length msg mod 64) in *. set (rest := take have (md5_buffer ctx)) in *.
  assert (length rest = have) as Hrest by (unfold rest; rewrite length_take; lia).
  pose proof (md5_blocks_app msg input) as Hb. rewrite <-Hst, <-Hr in Hb. fold rest in Hb.
  unfold MD5_BLOCK_LENGTH in *.
  destruct (Nat.leb_spec (64 - have) (length input)) as [Hlen|Hlen]; cycle 1.
  { rewrite updateLoop_short in Hb by (rewrite length_app; lia).
    split; cbn [md5_count md5_state md5_buffer]; [done| |by rewrite Hb|].
    - rewrite length_memcpy_at; lia.
    - rewrite Hmod, Nat.mod_small, take_memcpy_at, Hb by lia. done. }
  destruct (Nat.eqb_spec have 0) as [Hz|Hz].
  - apply md5_absorbed_loop; [done|done|rewrite length_app; lia|]. rewrite Hb.
    by replace rest with (@nil N) by (by destruct rest; [|cbn in *; lia]).
  - cbv zeta. set (buffer := memcpy_at (md5_buffer ctx) have (take (64 - have) input)).
    assert (buffer = rest ++ take (64 - have) input) as Hbuf.
    { unfold buffer, rest. rewrite <-(take_memcpy_at (md5_buffer ctx)) by lia. symmetry.
      apply take_ge. rewrite length_memcpy_at; rewrite length_take; lia. }
    apply (md5_absorbed_loop _ _ buffer); [done| |rewrite length_app, length_drop; lia|].
    { unfold buffer. rewrite length_memcpy_at; rewrite ?length_take; lia. }
    rewrite Hb, Hbuf, <-(updateLoop_block (length (msg ++ input)));
      [|rewrite !length_app, ?length_take; lia|rewrite !length_app, ?length_take, ?length_drop; lia].
    by rewrite <-app_assoc, take_drop.
Qed.

Lemma length_put_le n v : length (put_le n v) = n.
Proof. revert v. induction n as [|n IH]; intros v; cbn; auto. Qed.

Lemma md5_pad_padded ctx msg : md5_absorbed ctx msg → md5_absorbed (MD5Pad ctx) (md5_padded msg).
Proof.
  intros Hab. unfold MD5Pad, md5_padded.
  assert (take (md5_padlen ctx - 8) PADDING = 0x80%N :: replicate (md5_zeros (length msg)) 0%N) as ->.
  { unfold md5_padlen, md5_zeros, PADDING, MD5_BLOCK_LENGTH. rewrite (md5_have_count ctx _ (ab_count _ _ Hab)).
    pose proof (Nat.mod_upper_bound (length msg) 64 ltac:(done)) as Hlt.
    remember (length msg mod 64) as h eqn:Eh. clear Eh.
    do 64 (destruct h as [|h]; [by vm_compute|]). lia. }
  rewrite (ab_count _ _ Hab), app_comm_cons, app_assoc.
  by apply md5_absorbed_update, md5_absorbed_update.
Qed.

Lemma md5_padded_blocks msg : length (md5_padded msg) mod 64 = 0.
Proof.
  unfold md5_padded. rewrite !length_app. cbn [length]. rewrite length_app, length_replicate, length_put_le.
  unfold md5_zeros. rewrite <-(Nat.Div0.add_mod_idemp_l (length msg)).
  pose proof (Nat.mod_upper_bound (length msg) 64 ltac:(done)) as Hlt.
  remember (length msg mod 64) as h eqn:Eh. clear Eh.
  do 64 (destruct h as [|h]; [by vm_compute|]). lia.
Qed.

(** ** The shape of a digest *)

Lemma bytes_put_le n v b : b ∈ put_le n v → (b < 256)%N.
Proof.
  revert v. induction n as [|n IH]; intros v; cbn [put_le]; [set_solver|].
  intros [->|Hb]%elem_of_cons; [by apply N.mod_lt|by eapply IH].
Qed.

Lemma md5_final_digest ctx msg : md5_absorbed ctx msg → MD5Final ctx = md5_digest msg.
Proof.
  intros Hab%md5_pad_padded. unfold MD5Final, md5_digest. by rewrite (ab_state _ _ Hab).
Qed.

Lemma MD5Final_bytes ctx : length (MD5Final ctx) = 16 ∧ Forall (λ b, b < 256)%N (MD5Final ctx).
Proof.
  unfold MD5Final, words_bytes. rewrite !length_app, !length_put_le. split; [done|].
  rewrite Forall_forall. intros b Hb. rewrite !elem_of_app in Hb.
  destruct Hb as [Hb|[Hb|[Hb|Hb]]]; by eapply bytes_put_le.
Qed.

Definition is_hex (c : ascii) : Prop := ∃ d, (d < 16)%N ∧ c = hex_digit d.

Lemma hex_bytes_chars bs c :
  Forall (λ b, b < 256)%N bs → ¬ is_hex c → lacks c (String.concat "" (hex_byte <$> bs)).
Proof.
  intros Hbs Hc. assert (∀ d, (d < 16)%N → hex_digit d ≠ c) as Hd.
  { intros d Hd <-. apply Hc. by exists d. }
  assert (∀ b, (b < 256)%N → lacks c (hex_byte b)) as Hb.
  { intros b Hb. unfold hex_byte. rewrite !lacks_cons. split_and!; [apply Hd|apply Hd|apply lacks_nil].
    - by apply N.Div0.div_lt_upper_bound.
    - by apply N.mod_lt. }
  induction Hbs as [|b bs Hb1 Hbs IH]; [apply lacks_nil|].
  destruct bs as [|b' bs]; [by apply Hb|].
  change (lacks c (hex_byte b +:+ "" +:+ String.concat "" (hex_byte <$> b' :: bs))).
  rewrite str_app_nil_l, lacks_app. split; [by apply Hb|done].
Qed.

Lemma length_hex_bytes bs : String.length (String.concat "" (hex_byte <$> bs)) = 2 * length bs.
Proof.
  induction bs as [|b bs IH]; [done|]. destruct bs as [|b' bs]; [done|].
  change (String.length (hex_byte b +:+ "" +:+ String.concat "" (hex_byte <$> b' :: bs)) =
    2 * S (length (b' :: bs))).
  rewrite str_app_nil_l, str_length_app, IH. unfold hex_byte. cbn [String.length]. lia.
Qed.

Lemma generateMD5_length data : String.length (generateMD5 data) = 32.
Proof.
  unfold generateMD5, generateMD5_from. rewrite length_hex_bytes.
  by rewrite (proj1 (MD5Final_bytes _)).
Qed.

Lemma generateMD5_lacks c data : ¬ is_hex c → lacks c (generateMD5 data).
Proof. intros Hc. apply hex_bytes_chars; [apply MD5Final_bytes|done]. Qed.

Lemma not_hex_newline : ¬ is_hex "010".
Proof.
  intros (d & Hd & H). unfold hex_digit in H. apply (f_equal N_of_ascii) in H.
  destruct (N.ltb_spec d 10); rewrite N_ascii_embedding in H by lia;
    change (N_of_ascii "010") with 10%N in H; lia.
Qed.

(** ** The theorems *)

(** C34: The streaming digest is the one-shot digest of the padded message, whatever the context's
    buffer held before, and the padded message is a whole number of blocks. *)
Theorem md5_one_shot buffer data :
  length buffer = MD5_BLOCK_LENGTH →
  generateMD5_from buffer data =
    String.concat "" (hex_byte <$> md5_digest (bytes_of_string data)) ∧
  length (md5_padded (bytes_of_string data)) mod MD5_BLOCK_LENGTH = 0.
Proof.
  intros Hbuf. split; [|apply md5_padded_blocks]. unfold generateMD5_from.
  rewrite (md5_final_digest _ (bytes_of_string data)); [done|].
  apply (md5_absorbed_update _ []). by apply md5_absorbed_init.
Qed.

(** Feeding the message in two pieces gives the digest of the whole. *)
Theorem md5_update_app buffer msg1 msg2 msg3 :
  length buffer = MD5_BLOCK_LENGTH →
  MD5Final (MD5Update (MD5Update (MD5Update (MD5Init buffer) msg1) msg2) msg3) =
  MD5Final (MD5Update (MD5Update (MD5Init buffer) msg1) (msg2 ++ msg3)).
Proof.
  intros Hbuf.
  assert (md5_absorbed (MD5Update (MD5Init buffer) msg1) msg1) as H1.
  { apply (md5_absorbed_update _ []). by apply md5_absorbed_init. }
  rewrite (md5_final_digest _ ((msg1 ++ msg2) ++ msg3))
    by (by apply md5_absorbed_update, md5_absorbed_update).
  rewrite (md5_final_digest _ (msg1 ++ msg2 ++ msg3)) by (by apply md5_absorbed_update).
  by rewrite app_assoc.
Qed.

Lemma md5_one_shot_witness :
  generateMD5_from (replicate 64 7%N) "abc" =
    String.concat "" (hex_byte <$> md5_digest (bytes_of_string "abc")) ∧
  length (md5_padded (bytes_of_string "abc")) mod MD5_BLOCK_LENGTH = 0.
Proof. apply md5_one_shot. reflexivity. Defined.

Lemma md5_update_app_witness :
  MD5Final (MD5Update (MD5Update (MD5Update (MD5Init (replicate 64 0%N)) [1%N]) [2%N]) [3%N]) =
  MD5Final (MD5Update (MD5Update (MD5Init (replicate 64 0%N)) [1%N]) ([2%N] ++ [3%N])).
Proof. apply md5_update_app. reflexivity. Defined.
