(* ===== verification/StorageSerialization.v ===== *)
(** * The database text ([storage/StorageSerializer.h], [storage/StorageDeserializer],
    [storage/BucketDeserializer])

    The index file lists the buckets, a file per bucket lists its policies: a record per
    line, fields separated by semicolons, policy types in hexadecimal.  Nothing is escaped:
    the round trip holds for keys without separators ([storable]). *)
From S2P Require Import Prelude Text Types Bucket InMemoryStorageBackend.

Definition fieldSeparator : ascii := ";".
Definition recordSeparator : ascii := "010".

(** ** Serialization *)

Definition dump_type (t : PolicyType) : string := "0x" +:+ print_base 16 (Z.to_N t).

Fixpoint dumpFields (args : list string) : string :=
  match args with
  | [] => String recordSeparator ""
  | arg1 :: args' =>
      arg1 +:+ (if (0 <? length args') then String fieldSeparator "" else "") +:+ dumpFields args'
  end.

Definition dump_policy (policy : Policy) : string :=
  let k := key policy in
  let r := result policy in
  dumpFields [value (client k); value (user k); value (privilege k);
    dump_type (policyType r); metadata r].

Section Serialization.
Context `{HO : HashOrder}.

(** [dump(const PolicyBucket &)]: the text of a bucket file. *)
Definition dump_bucket (bucket : PolicyBucket) : string :=
  foldr (λ policy s, dump_policy policy +:+ s) "" (bucket_policies bucket).

Definition dump_index_entry (bucket : PolicyBucket) : string :=
  dumpFields [m_id bucket; dump_type (policyType (m_defaultPolicy bucket));
    metadata (m_defaultPolicy bucket)].

(** The first loop of [dump(const Buckets &, ..)]: the text of the index. *)
Definition dump_index (buckets : Buckets) : string :=
  foldr (λ bucketIter s, dump_index_entry bucketIter.2 +:+ s) "" (miter buckets).

End Serialization.

(** ** Deserialization *)

(** A token up to the next field separator, and the position after it. *)
Definition parseToken (line : string) (beginToken : nat) : outcome (string * nat) :=
  match find_from fieldSeparator line beginToken with
  | Some endToken => Ret (substr beginToken (endToken - beginToken) line, endToken + 1)
  | None => Throw (BucketRecordCorruptedException line 0)
  end.

Definition parseBucketId : string → nat → outcome (PolicyBucketId * nat) := parseToken.

(** The loop of [parseKey] over the [n] features left. *)
Fixpoint parseFeatures (n : nat) (line : string) (beginToken : nat) :
    outcome (list string * nat) :=
  match n with
  | 0 => Ret ([], beginToken)
  | S n' =>
      '(token, beginToken) ← parseToken line beginToken;
      '(tokens, beginToken) ← parseFeatures n' line beginToken;
      Ret (token :: tokens, beginToken)
  end.

Definition parseKey (line : string) (beginToken : nat) : outcome (PolicyKey * nat) :=
  '(keyFeatures, beginToken) ← parseFeatures 3 line beginToken;
  Ret (PolicyKey_of (nth 0 keyFeatures "") (nth 1 keyFeatures "") (nth 2 keyFeatures ""),
       beginToken).

(** The [int] of [std::stoi] is cut to 16 bits.  [line.substr(beginToken)] throws past the
    end of the line, inside the [try]. *)
Definition parsePolicyType (line : string) (beginToken : nat) : outcome (PolicyType * nat) :=
  if String.length line <? beginToken then Throw (BucketRecordCorruptedException line 0)
  else match stoi16 (sdrop beginToken line) with
       | Some (z, newBegin) => Ret ((z mod 2 ^ 16)%Z, beginToken + newBegin)
       | None => Throw (BucketRecordCorruptedException line 0)
       end.

Definition parseMetadata (line : string) (beginToken : nat) : PolicyMetadata :=
  if beginToken <? String.length line then sdrop (beginToken + 1) line else "".

(** The body of the loop of [loadPolicies]. *)
Definition parse_policy (line : string) : outcome Policy :=
  '(policyKey, beginToken) ← parseKey line 0;
  '(policyType, beginToken) ← parsePolicyType line beginToken;
  let metadata := parseMetadata line beginToken in
  Ret (mkPolicy policyKey (mkPolicyResult policyType metadata)).

(** [catch (const BucketRecordCorruptedException &ex) { throw ex.withLineNumber(lineNum); }] *)
Definition withLineNumber {A} (lineNum : nat) (m : outcome A) : outcome A :=
  match m with
  | Throw (BucketRecordCorruptedException line _) =>
      Throw (BucketRecordCorruptedException line lineNum)
  | Throw (ChecksumRecordCorruptedException line _) =>
      Throw (ChecksumRecordCorruptedException line lineNum)
  | _ => m
  end.

Fixpoint loadPolicies_from (lines : list string) (lineNum : nat) : outcome (list Policy) :=
  match lines with
  | [] | "" :: _ => Ret []
  | line :: lines' =>
      policy ← withLineNumber lineNum (parse_policy line);
      policies ← loadPolicies_from lines' (S lineNum);
      Ret (policy :: policies)
  end.

(** [BucketDeserializer::loadPolicies] on the contents of the stream *)
Definition loadPolicies (stream : string) : outcome (list Policy) :=
  loadPolicies_from (getlines recordSeparator stream) 1.

Fixpoint initBuckets_from (lines : list string) (buckets : Buckets) : outcome Buckets :=
  match lines with
  | [] | "" :: _ => Ret buckets
  | line :: lines' =>
      '(bucketId, beginToken) ← parseBucketId line 0;
      '(policyType, beginToken) ← parsePolicyType line beginToken;
      let metadata := parseMetadata line beginToken in
      bucket ← PolicyBucket_new bucketId (mkPolicyResult policyType metadata);
      initBuckets_from lines'
        (match buckets !! bucketId with Some _ => buckets | None => <[bucketId := bucket]> buckets end)
  end.

(** [StorageDeserializer::initBuckets]; a throw leaves the buckets read so far, which the
    caller clears. *)
Definition initBuckets (stream : string) : outcome Buckets :=
  initBuckets_from (getlines recordSeparator stream) ∅.

(** The body of the loop of [loadBuckets], the bucket's text being at hand. *)
Definition load_into (bucket : PolicyBucket) (policies : list Policy) : PolicyBucket :=
  foldl (λ bucket policy, insertPolicy_bucket policy bucket) bucket policies.

(** ** What can be stored *)

Definition storable_result (r : PolicyResult) : Prop :=
  is_u16 (policyType r) ∧ lacks recordSeparator (metadata r).
Definition storable_feature (f : PolicyKeyFeature) : Prop :=
  lacks fieldSeparator (value f) ∧ lacks recordSeparator (value f).
Definition storable (p : Policy) : Prop :=
  storable_feature (client (key p)) ∧ storable_feature (user (key p)) ∧
  storable_feature (privilege (key p)) ∧ storable_result (result p).
(** The id is part of a file name: a NUL byte, which the id validator lets through, would
    cut the name short. *)
Definition storable_bucket (b : PolicyBucket) : Prop :=
  (bucket_wf b ∧ lacks "000" (m_id b)) ∧ storable_result (m_defaultPolicy b) ∧
  map_Forall (λ _ p, storable p) (m_policyCollection b).
Definition storable_buckets (buckets : Buckets) : Prop :=
  map_Forall (λ id b, m_id b = id ∧ storable_bucket b) buckets.

#[global] Instance storable_dec p : Decision (storable p).
Proof. unfold storable, storable_feature, storable_result, lacks. apply _. Defined.
#[global] Instance storable_bucket_dec b : Decision (storable_bucket b).
Proof. unfold storable_bucket, storable_result, lacks. apply _. Defined.
#[global] Instance storable_buckets_dec bs : Decision (storable_buckets bs).
Proof. unfold storable_buckets. apply _. Defined.

(** ** Round trips *)

(** A record without its separator. *)
Fixpoint joinFields (args : list string) : string :=
  match args with
  | [] => ""
  | [a] => a
  | a :: args' => a +:+ String fieldSeparator (joinFields args')
  end.

Lemma dumpFields_join args : dumpFields args = joinFields args +:+ String recordSeparator "".
Proof.
  induction args as [|a [|a' args] IH]; [done|done|].
  change (dumpFields (a :: a' :: args)) with
    (a +:+ String fieldSeparator "" +:+ dumpFields (a' :: args)).
  change (joinFields (a :: a' :: args)) with
    (a +:+ String fieldSeparator (joinFields (a' :: args))).
  rewrite IH. by autorewrite with str.
Qed.

Lemma lacks_joinFields c args :
  c ≠ fieldSeparator → Forall (lacks c) args → lacks c (joinFields args).
Proof.
  intros Hc. induction 1 as [|a [|a' args] Ha Hargs IH]; [apply lacks_nil|done|].
  change (lacks c (a +:+ String fieldSeparator (joinFields (a' :: args)))).
  rewrite lacks_app, lacks_cons. by split_and!.
Qed.

Lemma parseToken_app p a b :
  lacks fieldSeparator a →
  parseToken (p +:+ a +:+ String fieldSeparator b) (String.length p) =
    Ret (a, String.length (p +:+ a +:+ String fieldSeparator "")).
Proof.
  intros Ha. unfold parseToken. rewrite find_from_app by done. f_equal. f_equal.
  - unfold substr. rewrite sdrop_app. replace (_ - _) with (String.length a) by lia. apply stake_app.
  - rewrite !str_length_app. cbn. lia.
Qed.

Lemma print_base_16_lacks_lf n : lacks recordSeparator (print_base 16 n).
Proof. apply print_base_lacks; [lia|done]. Qed.

Lemma dump_type_lacks_lf t : lacks recordSeparator (dump_type t).
Proof. unfold dump_type. rewrite lacks_app. split; [done|apply print_base_16_lacks_lf]. Qed.

Lemma parsePolicyType_app p t b :
  is_u16 t →
  parsePolicyType (p +:+ dump_type t +:+ String fieldSeparator b) (String.length p) =
    Ret (t, String.length (p +:+ dump_type t)).
Proof.
  intros Ht. unfold is_u16 in Ht. unfold parsePolicyType, dump_type.
  rewrite !(str_length_app p). destruct (Nat.ltb_spec (String.length p + String.length
    (("0x" +:+ print_base 16 (Z.to_N t)) +:+ String fieldSeparator b)) (String.length p)); [lia|].
  rewrite sdrop_app, str_app_assoc, stoi16_print by (done || lia).
  rewrite Z2N.id, Z.mod_small by lia. done.
Qed.

Lemma parseMetadata_app p m :
  parseMetadata (p +:+ String fieldSeparator m) (String.length p) = m.
Proof.
  unfold parseMetadata. rewrite str_length_app. cbn [String.length].
  destruct (Nat.ltb_spec (String.length p) (String.length p + S (String.length m))); [|lia].
  rewrite <-sdrop_sdrop, sdrop_app. done.
Qed.

(** The tail of both kinds of record: a type and the metadata. *)
Lemma parse_result_app p r :
  is_u16 (policyType r) →
  let line := p +:+ joinFields [dump_type (policyType r); metadata r] in
  parsePolicyType line (String.length p) =
    Ret (policyType r, String.length (p +:+ dump_type (policyType r))) ∧
  parseMetadata line (String.length (p +:+ dump_type (policyType r))) = metadata r.
Proof.
  intros Ht. cbn [joinFields]. split; [by apply parsePolicyType_app|].
  rewrite <-str_app_assoc. apply parseMetadata_app.
Qed.

Arguments joinFields : simpl never.

Definition policy_fields (p : Policy) : list string :=
  [value (client (key p)); value (user (key p)); value (privilege (key p));
   dump_type (policyType (result p)); metadata (result p)].

Lemma parse_policy_line p : storable p → parse_policy (joinFields (policy_fields p)) = Ret p.
Proof.
  intros ([Hc _] & [Hu _] & [Hp _] & Ht & _). destruct p as [[[c] [u] [v]] r]; cbn in *.
  unfold parse_policy, parseKey, policy_fields. cbn [parseFeatures key result client user privilege value].
  set (tl := joinFields [dump_type (policyType r); metadata r]).
  assert (joinFields [c; u; v; dump_type (policyType r); metadata r] =
    "" +:+ c +:+ String fieldSeparator (u +:+ String fieldSeparator (v +:+ String fieldSeparator tl)))
    as -> by reflexivity.
  change 0 with (String.length "") at 1. rewrite parseToken_app by done.
  set (p1 := "" +:+ c +:+ String fieldSeparator "").
  assert ("" +:+ c +:+ String fieldSeparator (u +:+ String fieldSeparator (v +:+ String fieldSeparator tl))
    = p1 +:+ u +:+ String fieldSeparator (v +:+ String fieldSeparator tl)) as ->.
  { unfold p1. by autorewrite with str. }
  cbn [mbind outcome_bind]. rewrite parseToken_app by done.
  set (p2 := p1 +:+ u +:+ String fieldSeparator "").
  assert (p1 +:+ u +:+ String fieldSeparator (v +:+ String fieldSeparator tl)
    = p2 +:+ v +:+ String fieldSeparator tl) as ->.
  { unfold p2. by autorewrite with str. }
  cbn [mbind outcome_bind]. rewrite parseToken_app by done.
  cbn [mbind outcome_bind nth].
  set (p3 := p2 +:+ v +:+ String fieldSeparator "").
  assert (p2 +:+ v +:+ String fieldSeparator tl = p3 +:+ tl) as ->.
  { unfold p3. by autorewrite with str. }
  destruct (parse_result_app p3 r Ht) as [Hty Hm]. fold tl in Hty, Hm.
  rewrite Hty. cbn [mbind outcome_bind]. rewrite Hm. by destruct r.
Qed.

Lemma dump_policy_line p :
  dump_policy p = joinFields (policy_fields p) +:+ String recordSeparator "".
Proof. apply dumpFields_join. Qed.

Lemma policy_line_lacks p : storable p → lacks recordSeparator (joinFields (policy_fields p)).
Proof.
  intros ([_ Hc] & [_ Hu] & [_ Hp] & _ & Hm). apply lacks_joinFields; [done|].
  repeat constructor; try done. apply dump_type_lacks_lf.
Qed.

Lemma joinFields_nonempty a a' args : joinFields (a :: a' :: args) ≠ "".
Proof.
  change (a +:+ String fieldSeparator (joinFields (a' :: args)) ≠ "").
  intros H. apply (f_equal String.length) in H. rewrite str_length_app in H. cbn in H. lia.
Qed.

Lemma foldr_lines_app {A} (f : A → string) (line : A → string) l s :
  (∀ x, x ∈ l → f x = line x +:+ String recordSeparator "" ∧ lacks recordSeparator (line x)) →
  getlines recordSeparator (foldr (λ x s, f x +:+ s) "" l +:+ s) =
    (line <$> l) ++ getlines recordSeparator s.
Proof.
  induction l as [|x l IH]; intros Hl; [done|]. cbn [foldr fmap list_fmap app].
  destruct (Hl x ltac:(set_solver)) as [-> Hx]. autorewrite with str.
  rewrite getlines_app by done. f_equal. apply IH. intros y Hy. apply Hl. set_solver.
Qed.

Lemma getlines_foldr {A} (f : A → string) (line : A → string) l :
  (∀ x, x ∈ l → f x = line x +:+ String recordSeparator "" ∧ lacks recordSeparator (line x)) →
  getlines recordSeparator (foldr (λ x s, f x +:+ s) "" l) = line <$> l.
Proof.
  intros Hl. rewrite <-(str_app_nil_r (foldr _ _ _)), (foldr_lines_app f line) by done.
  by rewrite getlines_nil, app_nil_r.
Qed.

Lemma loadPolicies_from_lines ps n :
  Forall storable ps →
  loadPolicies_from ((λ p, joinFields (policy_fields p)) <$> ps) n = Ret ps.
Proof.
  intros Hps. revert n. induction Hps as [|p ps Hp Hps IH]; intros n; [done|].
  cbn [fmap list_fmap loadPolicies_from].
  pose proof (parse_policy_line p Hp) as Hparse.
  destruct (joinFields (policy_fields p)) as [|c line] eqn:E.
  { by apply joinFields_nonempty in E. }
  rewrite Hparse. cbn. by rewrite IH.
Qed.

Section RoundTrip.
Context `{HO : HashOrder}.

Lemma storable_bucket_policies b p : storable_bucket b → p ∈ bucket_policies b → storable p.
Proof.
  intros (_ & _ & Hall) Hp. unfold bucket_policies in Hp.
  apply list_elem_of_fmap in Hp as ([k p'] & -> & Hp). apply elem_of_miter in Hp. by apply (Hall k).
Qed.

Lemma loadPolicies_dump b : storable_bucket b → loadPolicies (dump_bucket b) = Ret (bucket_policies b).
Proof.
  intros Hb. unfold loadPolicies, dump_bucket.
  rewrite (getlines_foldr _ (λ p, joinFields (policy_fields p))).
  - apply loadPolicies_from_lines. rewrite Forall_forall. intros p. by apply storable_bucket_policies.
  - intros p Hp. split; [apply dump_policy_line|].
    by eapply policy_line_lacks, storable_bucket_policies.
Qed.

(** The map rebuilt from the policies of a well-formed map is that map. *)
Lemma foldl_insert_policies (ps : list Policy) (m : gmap string Policy) b :
  m_policyCollection (load_into b ps) =
    foldl (λ m p, <[glueKey (key p) := p]> m) (m_policyCollection b) ps.
Proof.
  unfold load_into. revert b. induction ps as [|p ps IH]; intros b; [done|]. cbn [foldl].
  by rewrite IH.
Qed.

Lemma load_into_id_default b ps :
  m_id (load_into b ps) = m_id b ∧ m_defaultPolicy (load_into b ps) = m_defaultPolicy b.
Proof.
  unfold load_into. revert b. induction ps as [|p ps IH]; intros b; [done|]. cbn [foldl].
  by destruct (IH (insertPolicy_bucket p b)) as [-> ->].
Qed.

Lemma foldl_insert_lookup (kps : list (string * Policy)) (m : gmap string Policy) k :
  NoDup kps.*1 → (∀ i p, (i, p) ∈ kps → i = glueKey (key p)) →
  foldl (λ m p, <[glueKey (key p) := p]> m) m kps.*2 !! k =
    match (list_to_map kps : gmap string Policy) !! k with Some p => Some p | None => m !! k end.
Proof.
  revert m. induction kps as [|[i p] kps IH]; intros m Hnd Hk; [done|].
  cbn [fmap list_fmap foldl snd fst] in *. apply NoDup_cons in Hnd as [Hi Hnd].
  rewrite IH by (done || set_solver). rewrite <-(Hk i p) by set_solver.
  rewrite list_to_map_cons, !lookup_insert. case_decide; [subst k|done].
  by rewrite (not_elem_of_list_to_map_1 kps i Hi).
Qed.

Lemma load_into_collection b b0 :
  bucket_wf b → m_policyCollection b0 = ∅ →
  m_policyCollection (load_into b0 (bucket_policies b)) = m_policyCollection b.
Proof.
  intros [Hwf _] H0. rewrite (foldl_insert_policies _ ∅), H0. unfold bucket_policies.
  apply map_eq. intros k. rewrite foldl_insert_lookup.
  - rewrite lookup_empty. rewrite (list_to_map_proper _ (map_to_list (m_policyCollection b))).
    + rewrite list_to_map_to_list. by destruct (m_policyCollection b !! k).
    + apply NoDup_fst_miter.
    + apply miter_perm.
  - apply NoDup_fst_miter.
  - intros i p Hp%elem_of_miter. by apply (Hwf i p).
Qed.

(** Reading a dumped bucket into the empty bucket of the index gives the bucket back. *)
Lemma load_into_dumped b :
  storable_bucket b →
  load_into (mkPolicyBucket ∅ (m_defaultPolicy b) (m_id b)) (bucket_policies b) = b.
Proof.
  intros ([Hwf _] & _). set (b0 := mkPolicyBucket ∅ (m_defaultPolicy b) (m_id b)).
  pose proof (load_into_collection b b0 Hwf eq_refl) as Hc.
  destruct (load_into_id_default b0 (bucket_policies b)) as [Hi Hd].
  destruct (load_into b0 (bucket_policies b)), b. cbn in *. by subst.
Qed.

(** *** The index *)

Definition index_fields (b : PolicyBucket) : list string :=
  [m_id b; dump_type (policyType (m_defaultPolicy b)); metadata (m_defaultPolicy b)].

Lemma idValid_lacks c id : idValid id = true → isCharInvalid c = true → lacks c id.
Proof.
  unfold idValid. intros Hv Hc. induction id as [|d id IH]; [apply lacks_nil|].
  cbn [String.list_ascii_of_string existsb] in Hv.
  apply negb_true_iff, orb_false_iff in Hv as [Hd Hv]. apply lacks_cons. split.
  - intros ->. congruence.
  - apply IH. by rewrite Hv.
Qed.

Lemma storable_id_lacks b :
  storable_bucket b → lacks fieldSeparator (m_id b) ∧ lacks recordSeparator (m_id b).
Proof. intros ([[_ Hid] _] & _). split; by apply idValid_lacks. Qed.

(** A bucket as the index describes it. *)
Definition bucket_shell (b : PolicyBucket) : PolicyBucket :=
  mkPolicyBucket ∅ (m_defaultPolicy b) (m_id b).

Lemma initBuckets_from_lines (kbs : list (PolicyBucketId * PolicyBucket)) (acc : Buckets) :
  NoDup kbs.*1 → (∀ id b, (id, b) ∈ kbs → m_id b = id ∧ storable_bucket b ∧ acc !! id = None) →
  initBuckets_from ((λ kb, joinFields (index_fields kb.2)) <$> kbs) acc =
    Ret (foldl (λ acc kb, <[kb.1 := bucket_shell kb.2]> acc) acc kbs).
Proof.
  revert acc. induction kbs as [|[id b] kbs IH]; intros acc Hnd Hk; [done|].
  cbn [fmap list_fmap initBuckets_from foldl fst snd] in *. apply NoDup_cons in Hnd as [Hi Hnd].
  destruct (Hk id b ltac:(set_solver)) as (Hid & Hb & Hacc).
  destruct (joinFields (index_fields b)) as [|c line] eqn:E; [by apply joinFields_nonempty in E|].
  rewrite <-E. clear E c line. change (joinFields (index_fields b)) with ("" +:+ m_id b +:+ String fieldSeparator
    (joinFields [dump_type (policyType (m_defaultPolicy b)); metadata (m_defaultPolicy b)])).
  unfold parseBucketId. change 0 with (String.length "") at 1.
  rewrite parseToken_app by (by apply storable_id_lacks). cbn [mbind outcome_bind].
  set (p := "" +:+ m_id b +:+ String fieldSeparator "").
  assert ("" +:+ m_id b +:+ String fieldSeparator
    (joinFields [dump_type (policyType (m_defaultPolicy b)); metadata (m_defaultPolicy b)]) =
    p +:+ joinFields [dump_type (policyType (m_defaultPolicy b)); metadata (m_defaultPolicy b)])
    as -> by (unfold p; by autorewrite with str).
  destruct Hb as ([Hwf _] & [Ht _] & _).
  destruct (parse_result_app p (m_defaultPolicy b) Ht) as [-> Hm].
  cbn [mbind outcome_bind]. rewrite Hm. rewrite Hid, Hacc.
  unfold PolicyBucket_new, idValidator. rewrite <-Hid, (proj2 Hwf). cbn [mbind outcome_bind].
  rewrite IH; [|done|].
  - do 2 f_equal. unfold bucket_shell. by destruct (m_defaultPolicy b).
  - intros id' b' Hin. destruct (Hk id' b' ltac:(set_solver)) as (? & ? & ?).
    split_and!; [done..|]. rewrite lookup_insert_ne; [done|]. intros <-.
    apply Hi. rewrite Hid in *. apply list_elem_of_fmap. by exists (id, b').
Qed.

Lemma foldl_insert_shells (kbs : list (PolicyBucketId * PolicyBucket)) (acc : Buckets) id :
  NoDup kbs.*1 →
  foldl (λ acc kb, <[kb.1 := bucket_shell kb.2]> acc) acc kbs !! id =
    match (list_to_map kbs : gmap PolicyBucketId PolicyBucket) !! id with
    | Some b => Some (bucket_shell b)
    | None => acc !! id
    end.
Proof.
  revert acc. induction kbs as [|[i b] kbs IH]; intros acc Hnd; [done|].
  cbn [fmap list_fmap foldl fst snd] in *. apply NoDup_cons in Hnd as [Hi Hnd].
  rewrite IH by done. rewrite list_to_map_cons, !lookup_insert. case_decide; [subst id|done].
  by rewrite (not_elem_of_list_to_map_1 kbs i Hi).
Qed.

Lemma initBuckets_dump buckets :
  storable_buckets buckets → initBuckets (dump_index buckets) = Ret (bucket_shell <$> buckets).
Proof.
  intros Hb. unfold initBuckets, dump_index.
  rewrite (getlines_foldr _ (λ kb, joinFields (index_fields kb.2))).
  - rewrite initBuckets_from_lines; [|apply NoDup_fst_miter|].
    + f_equal. apply map_eq. intros id. rewrite lookup_fmap.
      rewrite (foldl_insert_shells (miter buckets)) by apply NoDup_fst_miter.
      rewrite lookup_empty. rewrite (list_to_map_proper _ (map_to_list buckets)).
      * rewrite list_to_map_to_list. by destruct (buckets !! id).
      * apply NoDup_fst_miter.
      * apply miter_perm.
    + intros id b Hin%elem_of_miter. destruct (Hb id b Hin). by rewrite lookup_empty.
  - intros [id b] Hin%elem_of_miter. destruct (Hb id b Hin) as [_ Hs]. cbn [snd].
    split; [apply dumpFields_join|]. apply lacks_joinFields; [done|].
    pose proof (storable_id_lacks b Hs) as [_ Hlf]. destruct Hs as (_ & [_ Hm] & _).
    repeat constructor; [done|apply dump_type_lacks_lf|done].
Qed.

End RoundTrip.
