(* ===== verification/FileSystem.v ===== *)
(** * A POSIX directory with hard links, [fsync] and power failure

    The part of the file system that [storage/Integrity] and the file streams of
    [storage/InMemoryStorageBackend] rely on, as POSIX documents it: names bound to inodes,
    contents that reach the disk when the file is synced, bindings that reach the disk when
    the directory is synced.  A power failure keeps synced contents, may lose or corrupt
    the others, and keeps, name by name, any binding made since the last directory sync.

    Every system call draws from a plan: it works, it fails with [EIO], or, when the plan
    is used up, the power fails, which ends the run as [OutOfFuel].  A write of a stream
    that fails (an error of the device, a full disk) leaves a part of the data in the file
    and sets the stream's [badbit]; no code of the database looks at it, so the run goes
    on, and [w_lost] records that data was lost.  Reads of an open file do not fail. *)
From S2P Require Import Prelude Text.

(** ** State *)

Record inode := mkInode { i_data : string; i_synced : bool }.
Abbreviation directory := (gmap string nat).

Record fs := mkFs {
  f_dir : directory;              (* the current bindings *)
  f_hist : list directory;        (* earlier bindings the disk may still hold *)
  f_inodes : gmap nat inode;
}.

(** What the next system call does; a write that fails has written [written] bytes. *)
Inductive io := Works | Faults (written : nat).

Record world := mkWorld {
  w_fs : fs;
  w_plan : list io;
  w_lost : bool;                  (* the [badbit] of some stream has been set *)
}.

(** A fault is still to come. *)
Definition faulty (plan : list io) : Prop := ∃ written, Faults written ∈ plan.

Definition ENOENT : Z := 2.
Definition EIO : Z := 5.
Definition EEXIST : Z := 17.

(** ** System calls *)

(** A call answers a value or an [errno]. *)
Definition sys {A} (call : fs → (A + Z) * fs) : SE world (A + Z) := λ w,
  match w_plan w with
  | [] => (OutOfFuel, w)
  | Faults _ :: plan => (Ret (inr EIO), mkWorld (w_fs w) plan (w_lost w))
  | Works :: plan =>
      let '(r, s) := call (w_fs w) in (Ret r, mkWorld s plan (w_lost w))
  end.

(** A call that does not fail. *)
Definition sys_sure {A} (call : fs → A * fs) : SE world A := λ w,
  match w_plan w with
  | [] => (OutOfFuel, w)
  | _ :: plan => let '(r, s) := call (w_fs w) in (Ret r, mkWorld s plan (w_lost w))
  end.

Definition bind_name (name : string) (i : nat) (s : fs) : fs :=
  mkFs (<[name := i]> (f_dir s)) (f_dir s :: f_hist s) (f_inodes s).
Definition unbind_name (name : string) (s : fs) : fs :=
  mkFs (delete name (f_dir s)) (f_dir s :: f_hist s) (f_inodes s).
Definition set_inode (i : nat) (n : inode) (s : fs) : fs :=
  mkFs (f_dir s) (f_hist s) (<[i := n]> (f_inodes s)).
Definition new_inode (s : fs) : nat := fresh (dom (f_inodes s)).

Definition sys_stat (name : string) : SE world (unit + Z) :=
  sys (λ s, (if decide (is_Some (f_dir s !! c_str name)) then inl tt else inr ENOENT, s)).

(** [open(name, O_WRONLY | O_CREAT | O_TRUNC)], as [std::ofstream] opens *)
Definition sys_open_trunc (name : string) : SE world (nat + Z) :=
  sys (λ s,
    match f_dir s !! c_str name with
    | Some i => (inl i, set_inode i (mkInode "" false) s)
    | None => let i := new_inode s in
        (inl i, bind_name (c_str name) i (set_inode i (mkInode "" false) s))
    end).

(** [open(name, O_CREAT | O_EXCL)] *)
Definition sys_open_excl (name : string) : SE world (nat + Z) :=
  sys (λ s,
    match f_dir s !! c_str name with
    | Some _ => (inr EEXIST, s)
    | None => let i := new_inode s in
        (inl i, bind_name (c_str name) i (set_inode i (mkInode "" false) s))
    end).

(** [open(name, O_RDONLY)] *)
Definition sys_open (name : string) : SE world (nat + Z) :=
  sys (λ s, match f_dir s !! c_str name with
            | Some i => (inl i, s)
            | None => (inr ENOENT, s)
            end).

(** The contents of the stream reach the file when it is closed; what a flush writes
    earlier is unsynced, so a power failure leaves any contents in either case.  A write
    that fails goes unnoticed: the caller gets no error. *)
Definition sys_write_close (i : nat) (data : string) : SE world unit := λ w,
  match w_plan w with
  | [] => (OutOfFuel, w)
  | Faults written :: plan =>
      (Ret tt, mkWorld (set_inode i (mkInode (stake written data) false) (w_fs w)) plan true)
  | Works :: plan =>
      (Ret tt, mkWorld (set_inode i (mkInode data false) (w_fs w)) plan (w_lost w))
  end.

Definition sys_read (i : nat) : SE world string :=
  sys_sure (λ s, (match f_inodes s !! i with Some n => i_data n | None => "" end, s)).

Definition sys_fsync (i : nat) : SE world (unit + Z) :=
  sys (λ s, match f_inodes s !! i with
            | Some n => (inl tt, set_inode i (mkInode (i_data n) true) s)
            | None => (inl tt, s)
            end).

Definition sys_fsync_dir : SE world (unit + Z) :=
  sys (λ s, (inl tt, mkFs (f_dir s) [] (f_inodes s))).

Definition sys_close : SE world (unit + Z) := sys (λ s, (inl tt, s)).

Definition sys_link (oldName newName : string) : SE world (unit + Z) :=
  sys (λ s,
    match f_dir s !! c_str oldName with
    | None => (inr ENOENT, s)
    | Some i =>
        match f_dir s !! c_str newName with
        | Some _ => (inr EEXIST, s)
        | None => (inl tt, bind_name (c_str newName) i s)
        end
    end).

Definition sys_unlink (name : string) : SE world (unit + Z) :=
  sys (λ s,
    match f_dir s !! c_str name with
    | None => (inr ENOENT, s)
    | Some _ => (inl tt, unbind_name (c_str name) s)
    end).

(** [opendir] and the [readdir]s that follow: the full names as C strings, in any order;
    the caller adds [.] and [..]. *)
Definition sys_readdir `{HashOrder} : SE world (list string + Z) :=
  sys (λ s, (inl (c_str <$> (miter (f_dir s)).*1), s)).

(** ** Power failure *)

(** The directories the disk may hold name by name. *)
Definition f_dirs (s : fs) : list directory := f_dir s :: f_hist s.

Record crash (s s' : fs) : Prop := {
  cr_names name : ∃ d, d ∈ f_dirs s ∧ f_dir s' !! name = d !! name;
  cr_hist : f_hist s' = [];
  cr_inodes i n : f_inodes s !! i = Some n → i_synced n = true → f_inodes s' !! i = Some n;
}.

(** Whatever the power failure, [name] is bound to the inode [i], or not bound. *)
Definition durably (s : fs) (name : string) (oi : option nat) : Prop :=
  ∀ d, d ∈ f_dirs s → d !! name = oi.

Lemma crash_durably s s' name oi : crash s s' → durably s name oi → f_dir s' !! name = oi.
Proof. intros Hc Hd. destruct (cr_names _ _ Hc name) as (d & Hin & ->). by apply Hd. Qed.

(** ** Data that is lost

    Only the write of a stream loses data, and what is lost stays lost. *)
Definition lost (b : bool) (w : world) : Prop := w_lost w = b.

Lemma keeps_lost_sys {A} b (call : fs → (A + Z) * fs) : keeps (lost b) (sys call).
Proof. intros [s [|[] plan] l]; cbn; [done| |done]. by destruct (call s). Qed.
Lemma keeps_lost_sys_sure {A} b (call : fs → A * fs) : keeps (lost b) (sys_sure call).
Proof. intros [s [|i plan] l]; cbn; [done|]. by destruct (call s). Qed.
Lemma keeps_lost_write i data : keeps (lost true) (sys_write_close i data).
Proof. by intros [s [|[] plan] l]. Qed.
#[export] Hint Resolve keeps_lost_sys keeps_lost_sys_sure keeps_lost_write : keeps.

(** What follows does not find lost data again; found by [keep]. *)
Class Forgets {A B} (k : A → SE world B) : Prop := forgets a : keeps (lost true) (k a).
#[export] Hint Mode Forgets + + + : typeclass_instances.
#[export] Hint Extern 0 (Forgets _) => (intros ?; cbv beta; keep) : typeclass_instances.

(** ** Reasoning about runs

    [spec m Q C s]: from [s] and however the plan goes, unless a write is lost, [m]
    returns with [Q], or throws because of a fault with [C], or is cut by a power failure
    with [C]. *)
Definition spec {A} (m : SE world A) (Q : A → fs → Prop) (C : fs → Prop) (s : fs) : Prop :=
  ∀ plan, match m (mkWorld s plan false) with (r, mkWorld s' plan' l) =>
            l = false →
            match r with
            | Ret a => Q a s' ∧ (faulty plan' → faulty plan)
            | Throw _ => C s' ∧ faulty plan
            | OutOfFuel => C s'
            end
          end.

Lemma faulty_cons i plan : faulty plan → faulty (i :: plan).
Proof. intros [n Hn]. exists n. by right. Qed.
Lemma faulty_head n plan : faulty (Faults n :: plan).
Proof. exists n. by left. Qed.
#[export] Hint Resolve faulty_cons faulty_head : cynara.

Lemma spec_ret {A} (a : A) (Q : A → fs → Prop) C s : Q a s → spec (mret a) Q C s.
Proof. by intros H plan. Qed.

Lemma spec_mono {A} (m : SE world A) (Q Q' : A → fs → Prop) (C C' : fs → Prop) s :
  spec m Q C s → (∀ a s, Q a s → Q' a s) → (∀ s, C s → C' s) → spec m Q' C' s.
Proof.
  intros H HQ HC plan. specialize (H plan).
  destruct (m (mkWorld s plan false)) as [[a|e|] []]; naive_solver.
Qed.

Lemma spec_bind {A B} (m : SE world A) (f : A → SE world B) (Q : A → fs → Prop) (R : B → fs → Prop) C s
    `{Hk : !Forgets f} :
  spec m Q C s → (∀ a s, Q a s → spec (f a) R C s) → spec (m ≫= f) R C s.
Proof.
  intros H Hf plan. specialize (H plan). rewrite SE_bind_eq.
  destruct (m (mkWorld s plan false)) as [[a|e|] [s' plan' []]]; cbn in *; [| |done..].
  - specialize (Hk a (mkWorld s' plan' true) eq_refl).
    destruct (f a (mkWorld s' plan' true)) as [r []]. unfold lost in Hk. cbn in Hk. by subst.
  - destruct (H eq_refl) as [HQ Hp]. specialize (Hf a s' HQ plan').
    destruct (f a (mkWorld s' plan' false)) as [[b|e|] []]; naive_solver.
Qed.

(** A system call whose failure the caller answers with an exception. *)
Lemma spec_sys {A B} (call : fs → (A + Z) * fs) (k : A + Z → SE world B) (Q : B → fs → Prop) C s :
  C s → (∃ e, k (inr EIO) = throw e) → spec (k (call s).1) Q C (call s).2 →
  spec (sys call ≫= k) Q C s.
Proof.
  intros HC [e He] H [|[] plan]; rewrite SE_bind_eq; cbn; [done| |].
  - specialize (H plan). destruct (call s) as [r s']; cbn in *.
    destruct (k r (mkWorld s' plan false)) as [[b|e'|] []]; naive_solver eauto with cynara.
  - rewrite He. cbn. eauto with cynara.
Qed.

Lemma spec_sys_sure {A B} (call : fs → A * fs) (k : A → SE world B) (Q : B → fs → Prop) C s :
  C s → spec (k (call s).1) Q C (call s).2 → spec (sys_sure call ≫= k) Q C s.
Proof.
  intros HC H [|i plan]; rewrite SE_bind_eq; cbn; [done|].
  specialize (H plan). destruct (call s) as [r s']; cbn in *.
  destruct (k r (mkWorld s' plan false)) as [[b|e'|] []]; naive_solver eauto with cynara.
Qed.

(** The write of a stream, if it is not lost. *)
Lemma spec_write i data (Q : unit → fs → Prop) C s :
  C s → Q tt (set_inode i (mkInode data false) s) → spec (sys_write_close i data) Q C s.
Proof. intros HC HQ [|[] plan]; cbn; eauto with cynara; done. Qed.

(** A pure step that returns. *)
Lemma spec_reads {A B} (a : A) (o : outcome A) (k : A → SE world B) (Q : B → fs → Prop) C s :
  o = Ret a → spec (k a) Q C s → spec (reads (λ _, o) ≫= k) Q C s.
Proof. by intros ->. Qed.

(** A handler that turns the exceptions of [m] into exceptions, by itself or with what
    follows it. *)
Lemma spec_tryCatch {A B} (m : SE world A) h (k : A → SE world B) (Q : A → fs → Prop)
    (R : B → fs → Prop) C s `{Hl : !Forgets k} :
  spec m Q C s → (∀ e, ∃ e', ∀ w, (h e ≫= k) w = (Throw e', w)) →
  (∀ a s, Q a s → spec (k a) R C s) → spec (tryCatch m h ≫= k) R C s.
Proof.
  intros H Hh Hk plan. specialize (H plan). rewrite SE_bind_eq. unfold tryCatch.
  destruct (m (mkWorld s plan false)) as [[a|e|] [s' plan' l]]; cbn in *; [| |done].
  - destruct l.
    + specialize (Hl a (mkWorld s' plan' true) eq_refl).
      destruct (k a (mkWorld s' plan' true)) as [r []]. unfold lost in Hl. cbn in Hl. by subst.
    + destruct (H eq_refl) as [HQ Hp]. specialize (Hk a s' HQ plan').
      destruct (k a (mkWorld s' plan' false)) as [[b|e|] []]; naive_solver.
  - destruct (Hh e) as [e' He]. specialize (He (mkWorld s' plan' l)).
    rewrite SE_bind_eq in He. by rewrite He.
Qed.

Lemma spec_forEach {A} (l : list A) (body : A → SE world unit) (I : list A → fs → Prop)
    (C : fs → Prop) s `{Hk : !Forgets body} :
  I [] s →
  (∀ pre x post s, l = pre ++ x :: post → I pre s →
     spec (body x) (λ _, I (pre ++ [x])) C s) →
  spec (forEach l body) (λ _, I l) C s.
Proof.
  intros H0 Hb. assert (∀ post pre s, l = pre ++ post → I pre s →
    spec (forEach post body) (λ _, I l) C s) as H.
  { induction post as [|x post IH]; intros pre s' -> HI.
    - apply spec_ret. by rewrite app_nil_r.
    - cbn [forEach]. eapply spec_bind; [|by eapply Hb|].
      { intros _. apply keeps_forEach. exact Hk. }
      intros [] s'' HI'. apply (IH (pre ++ [x])); [by rewrite <-app_assoc|done]. }
  by apply (H l []).
Qed.

(** The rules as tactics, with the postcondition or invariant when it must be told. *)
Tactic Notation "spec_seq" := eapply spec_bind; [apply _|..].
Tactic Notation "spec_seq" uconstr(Q) := eapply (spec_bind _ _ Q); [apply _|..].
Tactic Notation "spec_try" uconstr(Q) := eapply (spec_tryCatch _ _ _ Q); [apply _|..].
Tactic Notation "spec_loop" := apply spec_forEach; [apply _|..].
Tactic Notation "spec_loop" uconstr(I) := apply (spec_forEach _ _ I); [apply _|..].

(** ** Runs without faults

    [total m]: whatever the state, some number of working system calls suffices for [m] to
    return or throw. *)
Definition total {A} (m : SE world A) : Prop := ∀ s l, ∃ r s' k, r ≠ OutOfFuel ∧
  ∀ n, m (mkWorld s (replicate (k + n) Works) l) = (r, mkWorld s' (replicate n Works) l).

Lemma total_ret {A} (a : A) : total (mret a).
Proof. intros s l. by exists (Ret a), s, 0. Qed.
Lemma total_throw {A} e : total (throw (A:=A) e).
Proof. intros s l. by exists (Throw e), s, 0. Qed.
Lemma total_reads {A} (o : outcome A) : o ≠ OutOfFuel → total (reads (λ _, o)).
Proof. intros Ho s l. by exists o, s, 0. Qed.

Lemma total_bind {A B} (m : SE world A) (f : A → SE world B) :
  total m → (∀ a, total (f a)) → total (m ≫= f).
Proof.
  intros Hm Hf s l. destruct (Hm s l) as (r & s1 & k1 & Hr & H1). destruct r as [a|e|]; [| |done].
  - destruct (Hf a s1 l) as (r & s2 & k2 & Hr2 & H2). exists r, s2, (k1 + k2). split; [done|].
    intros n. rewrite SE_bind_eq. rewrite <-Nat.add_assoc, H1. apply H2.
  - exists (Throw e), s1, k1. split; [done|]. intros n. by rewrite SE_bind_eq, H1.
Qed.

Lemma total_tryCatch {A} (m : SE world A) h : total m → (∀ e, total (h e)) → total (tryCatch m h).
Proof.
  intros Hm Hh s l. destruct (Hm s l) as (r & s1 & k1 & Hr & H1). destruct r as [a|e|]; [| |done].
  - exists (Ret a), s1, k1. split; [done|]. intros n. unfold tryCatch. by rewrite H1.
  - destruct (Hh e s1 l) as (r & s2 & k2 & Hr2 & H2). exists r, s2, (k1 + k2). split; [done|].
    intros n. unfold tryCatch. rewrite <-Nat.add_assoc, H1. apply H2.
Qed.

Lemma total_sys {A} (call : fs → (A + Z) * fs) : total (sys call).
Proof.
  intros s l. destruct (call s) as [r s'] eqn:E. exists (Ret r), s', 1. split; [done|].
  intros n. cbn. by rewrite E.
Qed.
Lemma total_sys_sure {A} (call : fs → A * fs) : total (sys_sure call).
Proof.
  intros s l. destruct (call s) as [r s'] eqn:E. exists (Ret r), s', 1. split; [done|].
  intros n. cbn. by rewrite E.
Qed.
Lemma total_write i data : total (sys_write_close i data).
Proof. intros s l. by exists (Ret tt), (set_inode i (mkInode data false) s), 1. Qed.

Lemma total_forEach {A} (l : list A) (body : A → SE world unit) :
  (∀ x, total (body x)) → total (forEach l body).
Proof.
  intros Hb. induction l as [|x l IH]; [apply total_ret|]. apply total_bind; [apply Hb|]. by intros [].
Qed.

#[export] Hint Resolve total_ret total_throw total_sys total_sys_sure total_write : cynara.
Ltac solve_total :=
  repeat first
    [ progress intros | apply total_bind | apply total_forEach | apply total_tryCatch
    | apply total_sys | apply total_sys_sure | apply total_write | apply total_ret
    | apply total_throw | case_match ].

(** A run without faults returns, as [spec] says. *)
Lemma spec_total {A} (m : SE world A) Q C s :
  total m → spec m Q C s →
  ∃ k a s', Q a s' ∧ ∀ n, k ≤ n →
    m (mkWorld s (replicate n Works) false) = (Ret a, mkWorld s' (replicate (n - k) Works) false).
Proof.
  intros Ht Hs. destruct (Ht s false) as (r & s' & k & Hr & Hrun).
  assert (∃ a, r = Ret a ∧ Q a s') as (a & -> & HQ).
  { specialize (Hs (replicate (k + 0) Works)). rewrite Hrun in Hs.
    destruct r as [a|e|]; [|destruct (Hs eq_refl) as [_ [j Hf]]|done].
    - exists a. by destruct (Hs eq_refl).
    - by apply elem_of_replicate in Hf as [? _]. }
  exists k, a, s'. split; [done|]. intros n Hn. specialize (Hrun (n - k)).
  by replace (k + (n - k)) with n in Hrun by lia.
Qed.

(** ** Files on the disk *)

(** Each named file is, whatever the power failure, bound to a synced inode that holds the
    given contents. *)
Definition stored (s : fs) (files : list (string * string)) : Prop :=
  ∀ name data, (name, data) ∈ files →
    ∃ i, durably s name (Some i) ∧ f_inodes s !! i = Some (mkInode data true).

Lemma durably_dir s name oi : durably s name oi → f_dir s !! name = oi.
Proof. intros H. apply H. by left. Qed.

Lemma durably_bind s name oi nm i : name ≠ nm → durably s name oi → durably (bind_name nm i s) name oi.
Proof.
  intros Hne H d [->|[->|Hd]%elem_of_cons]%elem_of_cons; cbn.
  - rewrite lookup_insert_ne by done. by apply durably_dir.
  - by apply durably_dir.
  - apply H. by right.
Qed.
Lemma durably_unbind s name oi nm : name ≠ nm → durably s name oi → durably (unbind_name nm s) name oi.
Proof.
  intros Hne H d [->|[->|Hd]%elem_of_cons]%elem_of_cons; cbn.
  - rewrite lookup_delete_ne by done. by apply durably_dir.
  - by apply durably_dir.
  - apply H. by right.
Qed.
Definition sync_dir (s : fs) : fs := mkFs (f_dir s) [] (f_inodes s).
Lemma durably_sync s name oi : f_dir s !! name = oi → durably (sync_dir s) name oi.
Proof. intros H d ->%list_elem_of_singleton. done. Qed.

Lemma stored_bind s files nm i : nm ∉ files.*1 → stored s files → stored (bind_name nm i s) files.
Proof.
  intros Hn H name data Hin. destruct (H name data Hin) as (j & Hj & Hd). exists j. split; [|done].
  apply durably_bind; [|done]. intros ->. apply Hn, list_elem_of_fmap. by exists (nm, data).
Qed.
Lemma stored_unbind s files nm : nm ∉ files.*1 → stored s files → stored (unbind_name nm s) files.
Proof.
  intros Hn H name data Hin. destruct (H name data Hin) as (j & Hj & Hd). exists j. split; [|done].
  apply durably_unbind; [|done]. intros ->. apply Hn, list_elem_of_fmap. by exists (nm, data).
Qed.
Lemma stored_set_inode s files i n :
  (∀ name, name ∈ files.*1 → f_dir s !! name ≠ Some i) →
  stored s files → stored (set_inode i n s) files.
Proof.
  intros Hn H name data Hin. destruct (H name data Hin) as (j & Hj & Hd). exists j. split; [done|].
  cbn. rewrite lookup_insert_ne; [done|]. intros <-. apply (Hn name); [|by apply durably_dir].
  apply list_elem_of_fmap. by exists (name, data).
Qed.
Lemma stored_fsync s files i n :
  f_inodes s !! i = Some n → stored s files → stored (set_inode i (mkInode (i_data n) true) s) files.
Proof.
  intros Hi H name data Hin. destruct (H name data Hin) as (j & Hj & Hd). exists j. split; [done|].
  cbn. rewrite lookup_insert. case_decide; [subst j|done]. rewrite Hi in Hd. by simplify_eq.
Qed.
Lemma stored_sync s files : stored s files → stored (sync_dir s) files.
Proof.
  intros H name data Hin. destruct (H name data Hin) as (j & Hj & Hd). exists j. split; [|done].
  by apply durably_sync, durably_dir.
Qed.
Lemma stored_crash s s' files : crash s s' → stored s files → stored s' files.
Proof.
  intros Hc H name data Hin. destruct (H name data Hin) as (j & Hj & Hd). exists j. split.
  - intros d. unfold f_dirs. rewrite (cr_hist _ _ Hc). intros ->%list_elem_of_singleton.
    by eapply crash_durably.
  - by apply (cr_inodes _ _ Hc).
Qed.
Lemma stored_open s files name data :
  stored s files → (name, data) ∈ files →
  ∃ i, f_dir s !! name = Some i ∧ f_inodes s !! i = Some (mkInode data true).
Proof. intros H Hin. destruct (H name data Hin) as (i & Hi & Hd). exists i. eauto using durably_dir. Qed.
Lemma durably_unbind_None s name nm : durably s name None → durably (unbind_name nm s) name None.
Proof.
  intros H d [->|Hd]%elem_of_cons; [|by apply H]. cbn. rewrite lookup_delete.
  case_decide; [done|by apply durably_dir].
Qed.
Lemma durably_crash s s' name oi : crash s s' → durably s name oi → durably s' name oi.
Proof.
  intros Hc H d. unfold f_dirs. rewrite (cr_hist _ _ Hc). intros ->%list_elem_of_singleton.
  by eapply crash_durably.
Qed.
Lemma durably_set_inode s name oi i n : durably s name oi → durably (set_inode i n s) name oi.
Proof. done. Qed.
