(* ===== verification/Persistence.v ===== *)
(** * Loading and saving the database ([storage/Integrity], [storage/ChecksumValidator],
    [storage/ChecksumStream], [storage/InMemoryStorageBackend])

    [save] writes a complete backup next to the database, vouches for it with a guard file,
    links the backup files over the primary ones and removes the guard; [load] reads the
    backup when the guard is there.  [m_dbPath] ends in a slash. *)
From S2P Require Import Prelude Text Types Bucket InMemoryStorageBackend.
From S2P Require Import Md5 StorageSerialization FileSystem.

(** ** [PathConfig::StoragePath] *)
Definition indexFilename : string := "buckets".
Definition guardFilename : string := "guard".
Definition checksumFilename : string := "checksum".
Definition backupFilenameSuffix : string := "~".
Definition bucketFilenamePrefix : string := "_".

(** ** [Integrity] *)

Section Integrity.
Context `{HO : HashOrder}.
Variable m_dbPath : string.

Definition backupGuardExists : SE world bool :=
  ret ← sys_stat (m_dbPath +:+ guardFilename);
  match ret with
  | inl _ => mret true
  | inr err => if bool_decide (err ≠ ENOENT) then throw (UnexpectedErrorException err) else mret false
  end.

(** [syncElement]: the file is opened by [opened], synced and closed. *)
Definition syncElement (filename : string) (opened : SE world (nat + Z)) : SE world unit :=
  fileFd ← opened;
  match fileFd with
  | inr err =>
      if bool_decide (err ≠ EEXIST) then throw (UnexpectedErrorException err)
      else throw (CannotCreateFileException filename)
  | inl fd =>
      ret ← sys_fsync fd;
      match ret with
      | inr err => throw (UnexpectedErrorException err)
      | inl _ =>
          ret ← sys_close;
          match ret with
          | inr err => throw (UnexpectedErrorException err)
          | inl _ => mret tt
          end
      end
  end.

(** [syncElement(dirname, O_DIRECTORY)] on the database directory, which exists. *)
Definition syncDirectory : SE world unit :=
  fileFd ← sys (λ s, (inl tt, s));
  match fileFd with
  | inr err =>
      if bool_decide (err ≠ EEXIST) then throw (UnexpectedErrorException err)
      else throw (CannotCreateFileException m_dbPath)
  | inl _ =>
      ret ← sys_fsync_dir;
      match ret with
      | inr err => throw (UnexpectedErrorException err)
      | inl _ =>
          ret ← sys_close;
          match ret with
          | inr err => throw (UnexpectedErrorException err)
          | inl _ => mret tt
          end
      end
  end.

Definition createBackupGuard : SE world unit :=
  _ ← syncElement (m_dbPath +:+ guardFilename) (sys_open_excl (m_dbPath +:+ guardFilename));
  syncDirectory.

Definition syncFile (filename : string) : SE world unit := syncElement filename (sys_open filename).

Definition syncDatabase (buckets : Buckets) (syncBackup : bool) : SE world unit :=
  let suffix := if syncBackup then backupFilenameSuffix else "" in
  _ ← forEach (miter buckets) (λ bucketIter,
    syncFile (m_dbPath +:+ bucketFilenamePrefix +:+ bucketIter.1 +:+ suffix));
  _ ← syncFile (m_dbPath +:+ indexFilename +:+ suffix);
  _ ← syncFile (m_dbPath +:+ checksumFilename +:+ suffix);
  syncDirectory.

Definition createHardLink (oldName newName : string) : SE world unit :=
  ret ← sys_link oldName newName;
  match ret with
  | inr err => throw (UnexpectedErrorException err)
  | inl _ => mret tt
  end.

Definition deleteHardLink (filename : string) : SE world unit :=
  ret ← sys_unlink filename;
  match ret with
  | inr err => if bool_decide (err ≠ ENOENT) then throw (UnexpectedErrorException err) else mret tt
  | inl _ => mret tt
  end.

(** One primary file: [deleteHardLink(f); createHardLink(f + suffix, f)]. *)
Definition relink (filename : string) : SE world unit :=
  _ ← deleteHardLink filename;
  createHardLink (filename +:+ backupFilenameSuffix) filename.

Definition createPrimaryHardLinks (buckets : Buckets) : SE world unit :=
  _ ← forEach (miter buckets) (λ bucketIter,
    relink (m_dbPath +:+ bucketFilenamePrefix +:+ bucketIter.1));
  _ ← relink (m_dbPath +:+ indexFilename);
  relink (m_dbPath +:+ checksumFilename).

Definition deleteBackupHardLinks (buckets : Buckets) : SE world unit :=
  _ ← forEach (miter buckets) (λ bucketIter,
    deleteHardLink (m_dbPath +:+ bucketFilenamePrefix +:+ bucketIter.1 +:+ backupFilenameSuffix));
  _ ← deleteHardLink (m_dbPath +:+ indexFilename +:+ backupFilenameSuffix);
  deleteHardLink (m_dbPath +:+ checksumFilename +:+ backupFilenameSuffix).

Definition revalidatePrimaryDatabase (buckets : Buckets) : SE world unit :=
  _ ← createPrimaryHardLinks buckets;
  _ ← syncDatabase buckets false;
  _ ← deleteHardLink (m_dbPath +:+ guardFilename);
  _ ← syncDirectory;
  deleteBackupHardLinks buckets.

Definition isSpecialDirectory (filename : string) : bool :=
  bool_decide ("." = filename) || bool_decide (".." = filename).
Definition isSpecialDatabaseEntry (filename : string) : bool :=
  bool_decide (indexFilename = filename) || bool_decide (checksumFilename = filename).

(** The body of the loop of [deleteNonIndexedFiles]. *)
Definition deleteNonIndexedFile (tester : PolicyBucketId → bool) (filename : string) :
    SE world unit :=
  if isSpecialDirectory filename || isSpecialDatabaseEntry filename then mret tt
  else
    let prefixLength := String.length bucketFilenamePrefix in
    if String.length filename <? prefixLength then deleteHardLink (m_dbPath +:+ filename)
    else if bool_decide (stake prefixLength filename ≠ bucketFilenamePrefix)
    then deleteHardLink (m_dbPath +:+ filename)
    else if negb (tester (sdrop prefixLength filename))
    then deleteHardLink (m_dbPath +:+ filename)
    else mret tt.

Definition deleteNonIndexedFiles (tester : PolicyBucketId → bool) : SE world unit :=
  entries ← sys_readdir;
  match entries with
  | inr err => throw (UnexpectedErrorException err)
  | inl names =>
      forEach ("." :: ".." :: (sdrop (String.length m_dbPath) <$> names))
        (deleteNonIndexedFile tester)
  end.

End Integrity.

(** ** [ChecksumValidator] *)

Abbreviation Checksums := (gmap string string).

Definition parseFilename (line : string) (beginToken : nat) : outcome (string * nat) :=
  match find_from fieldSeparator line beginToken with
  | Some filenameEndToken =>
      if filenameEndToken =? beginToken then Throw (ChecksumRecordCorruptedException line 0)
      else Ret (substr beginToken (filenameEndToken - beginToken) line, filenameEndToken + 1)
  | None => Throw (ChecksumRecordCorruptedException line 0)
  end.

Definition parseChecksum (line : string) (beginToken : nat) : outcome (string * nat) :=
  if String.length line <=? beginToken then Throw (ChecksumRecordCorruptedException line 0)
  else Ret (sdrop beginToken line, String.length line).

Definition parse_checksum_line (line : string) : outcome (string * string) :=
  '(filename, beginToken) ← parseFilename line 0;
  '(checksum, beginToken) ← parseChecksum line beginToken;
  Ret (filename, checksum).

Fixpoint loadChecksums_from (lines : list string) (lineNum : nat) (m_sums : Checksums) :
    outcome Checksums :=
  match lines with
  | [] => Ret m_sums
  | line :: lines' =>
      '(filename, checksum) ← withLineNumber lineNum (parse_checksum_line line);
      loadChecksums_from lines' (S lineNum)
        (match m_sums !! filename with Some _ => m_sums | None => <[filename := checksum]> m_sums end)
  end.
(** [ChecksumValidator::load] *)
Definition loadChecksums (stream : string) : outcome Checksums :=
  loadChecksums_from (getlines recordSeparator stream) 1 ∅.

Definition isChecksumIndex (m_dbPath filename : string) : bool :=
  let checksum := m_dbPath +:+ checksumFilename in
  bool_decide (filename = checksum) || bool_decide (filename = checksum +:+ backupFilenameSuffix).

(** [basename(3)] of a path that does not end in a slash *)
Fixpoint basename (path : string) : string :=
  match path with
  | "" => ""
  | String c path' =>
      if decide (find_char "/" path = None) then path else basename path'
  end.

(** [filename.erase(pos)] when [rfind] finds the suffix at the very end. *)
Definition strip_suffix (filename : string) : string :=
  let n := String.length filename in
  if (1 <=? n) && bool_decide (sdrop (n - 1) filename = backupFilenameSuffix)
  then stake (n - 1) filename else filename.

(** [ChecksumValidator::compare]: [m_sums[filename]] is empty for a missing name. *)
Definition compare (m_dbPath : string) (m_sums : Checksums) (stream pathname : string)
    (isBackupValid : bool) : outcome unit :=
  if isChecksumIndex m_dbPath pathname then Ret tt
  else
    let filename := basename (c_str pathname) in
    let filename := if isBackupValid then strip_suffix filename else filename in
    let sum := default "" (m_sums !! filename) in
    if bool_decide (sum ≠ generateMD5 stream) then Throw (ChecksumRecordCorruptedException sum 0)
    else Ret tt.

(** ** [InMemoryStorageBackend::load] and [save] *)

Section LoadSave.
Context `{HO : HashOrder}.
Variable m_dbPath : string.

(** [openDumpFileStream] *)
Definition openDumpFileStream (filename : string) : SE world nat :=
  ret ← sys_open_trunc filename;
  match ret with
  | inl fd => mret fd
  | inr _ => throw (CannotCreateFileException filename)
  end.

(** Closing a stream writes what it has buffered: an error sets [badbit], which nobody looks at. *)
Definition closeStream (fd : nat) (data : string) : SE world unit := sys_write_close fd data.

(** The line [ChecksumStream::save] adds to the checksum stream. *)
Definition checksum_line (filename data : string) : string :=
  filename +:+ String fieldSeparator (generateMD5 data) +:+ String recordSeparator "".

(** A bucket file: [bucketDumpStreamOpener], [dump], and [~ChecksumStream]; the checksum
    lines so far are threaded through. *)
Definition dumpBucketFile (bucketIter : PolicyBucketId * PolicyBucket) : SE world unit :=
  let bucketFilename :=
    m_dbPath +:+ bucketFilenamePrefix +:+ bucketIter.1 +:+ backupFilenameSuffix in
  fd ← openDumpFileStream bucketFilename;
  closeStream fd (dump_bucket bucketIter.2).

(** What the checksum stream holds after [dumpDatabase]. *)
Definition checksum_text (buckets : Buckets) : string :=
  foldr (λ bucketIter s,
    checksum_line (bucketFilenamePrefix +:+ bucketIter.1) (dump_bucket bucketIter.2) +:+ s)
    (checksum_line indexFilename (dump_index buckets)) (miter buckets).

Definition dumpDatabase (buckets : Buckets) : SE world unit :=
  indexFd ← openDumpFileStream (m_dbPath +:+ indexFilename +:+ backupFilenameSuffix);
  _ ← forEach (miter buckets) dumpBucketFile;
  closeStream indexFd (dump_index buckets).

Definition saveBackup (buckets : Buckets) : SE world unit :=
  chsFd ← openDumpFileStream (m_dbPath +:+ checksumFilename +:+ backupFilenameSuffix);
  _ ← dumpDatabase buckets;
  closeStream chsFd (checksum_text buckets).

Definition im_save (b : InMemoryStorageBackend) : SE world unit :=
  _ ← saveBackup (m_buckets b);
  _ ← syncDatabase m_dbPath (m_buckets b) true;
  _ ← createBackupGuard m_dbPath;
  revalidatePrimaryDatabase m_dbPath (m_buckets b).

(** [openFileStream]: the contents of the file, its checksum verified. *)
Definition openFileStream (m_sums : Checksums) (filename : string) (isBackupValid : bool) :
    SE world string :=
  fd ← sys_open filename;
  match fd with
  | inr _ => throw (FileNotFoundException filename)
  | inl fd =>
      stream ← sys_read fd;
      _ ← reads (λ _, compare m_dbPath m_sums stream filename isBackupValid);
      mret stream
  end.

Definition isFileNotFound (e : exn) : bool :=
  match e with FileNotFoundException _ => true | _ => false end.

Definition bucketStreamOpener (m_sums : Checksums) (bucketId : PolicyBucketId)
    (filenameSuffix : string) (isBackupValid : bool) : SE world (option string) :=
  let bucketFilename := m_dbPath +:+ bucketFilenamePrefix +:+ bucketId +:+ filenameSuffix in
  tryCatch (stream ← openFileStream m_sums bucketFilename isBackupValid; mret (Some stream))
    (λ e, if isFileNotFound e then mret None else throw e).

(** [StorageDeserializer::loadBuckets] over the entries of the map. *)
Fixpoint loadBuckets (opener : PolicyBucketId → SE world (option string))
    (entries : list (PolicyBucketId * PolicyBucket)) (buckets : Buckets) : SE world Buckets :=
  match entries with
  | [] => mret buckets
  | (bucketId, bucket) :: entries' =>
      bucketDeserializer ← opener bucketId;
      match bucketDeserializer with
      | Some stream =>
          policies ← reads (λ _, loadPolicies stream);
          loadBuckets opener entries' (<[bucketId := load_into bucket policies]> buckets)
      | None => throw (BucketDeserializationException bucketId)
      end
  end.

(** The [try] block of [load]: the buckets of the database. *)
Definition readDatabase (isBackupValid : bool) : SE world Buckets :=
  let suffix := if isBackupValid then backupFilenameSuffix else "" in
  chsStream ← openFileStream ∅ (m_dbPath +:+ checksumFilename +:+ suffix) isBackupValid;
  m_sums ← reads (λ _, loadChecksums chsStream);
  indexStream ← openFileStream m_sums (m_dbPath +:+ indexFilename +:+ suffix) isBackupValid;
  buckets ← reads (λ _, initBuckets indexStream);
  loadBuckets (λ bucketId, bucketStreamOpener m_sums bucketId suffix isBackupValid)
    (miter buckets) buckets.

Definition postLoadCleanup (b : InMemoryStorageBackend) (isBackupValid : bool) : SE world unit :=
  _ ← (if isBackupValid then revalidatePrimaryDatabase m_dbPath (m_buckets b) else mret tt);
  deleteNonIndexedFiles m_dbPath (im_hasBucket b).

(** [load] returns the back end it leaves; on a [DatabaseException] the buckets are cleared
    and [DatabaseCorruptedException] is thrown. *)
Definition im_load : SE world InMemoryStorageBackend :=
  isBackupValid ← backupGuardExists m_dbPath;
  buckets ← tryCatch (readDatabase isBackupValid)
    (λ e, if isDatabaseException e then throw DatabaseCorruptedException else throw e);
  let b := mkInMemory buckets in
  b ← (if negb (im_hasBucket b defaultPolicyBucketId) then
         bucket ← reads (λ _, PolicyBucket_new defaultPolicyBucketId (PolicyResult_of DENY));
         mret (mkInMemory (<[defaultPolicyBucketId := bucket]> buckets))
       else mret b);
  _ ← postLoadCleanup b isBackupValid;
  mret b.

End LoadSave.

(** ** The checksum file reads back *)

Definition checksum_record (nd : string * string) : string :=
  nd.1 +:+ String fieldSeparator (generateMD5 nd.2).

Lemma generateMD5_nonempty data : generateMD5 data ≠ "".
Proof. intros H. pose proof (generateMD5_length data) as Hl. by rewrite H in Hl. Qed.

Lemma parse_checksum_record n d :
  n ≠ "" → lacks fieldSeparator n → parse_checksum_line (checksum_record (n, d)) = Ret (n, generateMD5 d).
Proof.
  intros Hne Hn. unfold parse_checksum_line, parseFilename, checksum_record. cbn [fst snd].
  change (n +:+ String fieldSeparator (generateMD5 d)) with
    ("" +:+ n +:+ String fieldSeparator (generateMD5 d)).
  pose proof (find_from_app fieldSeparator "" n (generateMD5 d) Hn) as Hf.
  change (String.length "") with 0 in Hf. rewrite Hf.
  destruct (Nat.eqb_spec (0 + String.length n) 0) as [Hz|_].
  { by apply str_length_nil in Hz. }
  cbn [mbind outcome_bind]. unfold parseChecksum, substr. rewrite str_app_nil_l.
  replace (0 + String.length n - 0) with (String.length n) by lia.
  rewrite sdrop_0, stake_app, str_length_app. cbn [String.length]. rewrite generateMD5_length.
  destruct (Nat.leb_spec (String.length n + S 32) (0 + String.length n + 1)); [lia|].
  cbn [mbind outcome_bind]. do 2 f_equal.
  replace (0 + String.length n + 1) with (String.length n + 1) by lia.
  by rewrite <-sdrop_sdrop, sdrop_app.
Qed.

Lemma loadChecksums_from_records es k (acc : Checksums) :
  NoDup es.*1 → (∀ n d, (n, d) ∈ es → n ≠ "" ∧ lacks fieldSeparator n ∧ acc !! n = None) →
  ∃ sums, loadChecksums_from (checksum_record <$> es) k acc = Ret sums ∧
    (∀ n d, (n, d) ∈ es → sums !! n = Some (generateMD5 d)) ∧
    (∀ n x, acc !! n = Some x → sums !! n = Some x).
Proof.
  revert k acc. induction es as [|[n d] es IH]; intros k acc Hnd He.
  { exists acc. split_and!; [done|set_solver|done]. }
  cbn [fmap list_fmap] in *. apply NoDup_cons in Hnd as [Hn Hnd].
  destruct (He n d ltac:(set_solver)) as (Hne & Hl & Hacc).
  cbn [loadChecksums_from]. rewrite parse_checksum_record by done.
  cbn [withLineNumber mbind outcome_bind]. rewrite Hacc.
  destruct (IH (S k) (<[n := generateMD5 d]> acc) Hnd) as (sums & Hs & H1 & H2).
  { intros n' d' Hin. destruct (He n' d' ltac:(set_solver)) as (? & ? & ?).
    split_and!; [done..|]. rewrite lookup_insert_ne; [done|]. intros <-. apply Hn.
    apply list_elem_of_fmap. by exists (n, d'). }
  exists sums. split_and!; [done| |].
  - intros n' d' [[= -> ->]|Hin]%elem_of_cons; [|by apply H1]. apply H2. apply lookup_insert_eq.
  - intros n' x Hx. apply H2. rewrite lookup_insert_ne; [done|]. intros <-. congruence.
Qed.

Lemma checksum_line_record n d :
  checksum_line n d = checksum_record (n, d) +:+ String recordSeparator "".
Proof. unfold checksum_line, checksum_record. by autorewrite with str. Qed.

Section checksum_text.
Context `{HO : HashOrder}.

(** The files a checksum file covers. *)
Definition sum_entries (B : Buckets) : list (string * string) :=
  ((λ kb, (bucketFilenamePrefix +:+ kb.1, dump_bucket kb.2)) <$> miter B) ++
  [(indexFilename, dump_index B)].

Lemma checksum_text_entries B :
  checksum_text B = foldr (λ nd s, checksum_line nd.1 nd.2 +:+ s) "" (sum_entries B).
Proof.
  unfold checksum_text, sum_entries. induction (miter B) as [|kb l IH]; cbn.
  - by rewrite str_app_nil_r.
  - by rewrite IH.
Qed.

Lemma loadChecksums_text B :
  NoDup (sum_entries B).*1 →
  (∀ n d, (n, d) ∈ sum_entries B → n ≠ "" ∧ lacks fieldSeparator n ∧ lacks recordSeparator n) →
  ∃ sums, loadChecksums (checksum_text B) = Ret sums ∧
    ∀ n d, (n, d) ∈ sum_entries B → sums !! n = Some (generateMD5 d).
Proof.
  intros Hnd He. unfold loadChecksums. rewrite checksum_text_entries.
  rewrite (getlines_foldr _ checksum_record).
  - destruct (loadChecksums_from_records (sum_entries B) 1 ∅ Hnd) as (sums & Hs & H & _).
    + intros n d Hin. destruct (He n d Hin) as (? & ? & ?). by rewrite lookup_empty.
    + by exists sums.
  - intros [n d] Hin. split; [apply checksum_line_record|]. destruct (He n d Hin) as (_ & _ & Hl).
    unfold checksum_record. rewrite lacks_app, lacks_cons. split_and!; [done|done|].
    apply generateMD5_lacks, not_hex_newline.
Qed.
End checksum_text.

(** ** File names *)

Lemma basename_lacks x : lacks "/" x → basename x = x.
Proof. intros H. destruct x as [|c x]; [done|]. cbn [basename]. by rewrite decide_True. Qed.

Lemma basename_path dir x : lacks "/" x → basename (dir +:+ String "/" x) = x.
Proof.
  intros Hx. induction dir as [|c dir IH].
  - rewrite str_app_nil_l. cbn [basename]. rewrite decide_False; [by apply basename_lacks|].
    change (¬ lacks "/" (String "/" x)). rewrite lacks_cons. by intros [? _].
  - rewrite str_app_cons. cbn [basename]. rewrite decide_False; [done|].
    change (¬ lacks "/" (String c (dir +:+ String "/" x))).
    rewrite lacks_cons, lacks_app, lacks_cons. by intros (_ & _ & ? & _).
Qed.

Lemma strip_suffix_app n : strip_suffix (n +:+ backupFilenameSuffix) = n.
Proof.
  unfold strip_suffix, backupFilenameSuffix. rewrite str_length_app. cbn [String.length].
  replace (String.length n + 1 - 1) with (String.length n) by lia.
  destruct (Nat.leb_spec 1 (String.length n + 1)); [|lia].
  rewrite sdrop_app, bool_decide_true, stake_app by done. done.
Qed.

(** ** Lost data stays lost, and only a dump loses any *)

Section lost.
Context `{HO : HashOrder} (m_dbPath : string) (b : bool).
Abbreviation kept m := (keeps (lost b) m).

Lemma kept_backupGuardExists : kept (backupGuardExists m_dbPath).
Proof. unfold backupGuardExists, sys_stat. keep. Qed.
Lemma kept_syncElement filename opened : kept opened → kept (syncElement filename opened).
Proof. intros. unfold syncElement, sys_fsync, sys_close. keep. Qed.
Lemma kept_syncDirectory : kept (syncDirectory m_dbPath).
Proof. unfold syncDirectory, sys_fsync_dir, sys_close. keep. Qed.
Lemma kept_syncFile filename : kept (syncFile filename).
Proof. apply kept_syncElement. unfold sys_open. keep. Qed.
Lemma kept_createHardLink oldName newName : kept (createHardLink oldName newName).
Proof. unfold createHardLink, sys_link. keep. Qed.
Lemma kept_deleteHardLink filename : kept (deleteHardLink filename).
Proof. unfold deleteHardLink, sys_unlink. keep. Qed.
Hint Resolve kept_backupGuardExists kept_syncElement kept_syncDirectory kept_syncFile
  kept_createHardLink kept_deleteHardLink : keeps.

Lemma kept_createBackupGuard : kept (createBackupGuard m_dbPath).
Proof. unfold createBackupGuard, sys_open_excl. keep. Qed.
Lemma kept_syncDatabase buckets flag : kept (syncDatabase m_dbPath buckets flag).
Proof. unfold syncDatabase. keep. Qed.
Lemma kept_relink filename : kept (relink filename).
Proof. unfold relink. keep. Qed.
Hint Resolve kept_createBackupGuard kept_syncDatabase kept_relink : keeps.
Lemma kept_createPrimaryHardLinks buckets : kept (createPrimaryHardLinks m_dbPath buckets).
Proof. unfold createPrimaryHardLinks. keep. Qed.
Lemma kept_deleteBackupHardLinks buckets : kept (deleteBackupHardLinks m_dbPath buckets).
Proof. unfold deleteBackupHardLinks. keep. Qed.
Hint Resolve kept_createPrimaryHardLinks kept_deleteBackupHardLinks : keeps.
Lemma kept_revalidate buckets : kept (revalidatePrimaryDatabase m_dbPath buckets).
Proof. unfold revalidatePrimaryDatabase. keep. Qed.
Lemma kept_deleteNonIndexedFile tester filename : kept (deleteNonIndexedFile m_dbPath tester filename).
Proof. unfold deleteNonIndexedFile. keep. Qed.
Hint Resolve kept_revalidate kept_deleteNonIndexedFile : keeps.
Lemma kept_deleteNonIndexedFiles tester : kept (deleteNonIndexedFiles m_dbPath tester).
Proof. unfold deleteNonIndexedFiles, sys_readdir. keep. Qed.
Hint Resolve kept_deleteNonIndexedFiles : keeps.

Lemma kept_openDumpFileStream filename : kept (openDumpFileStream filename).
Proof. unfold openDumpFileStream, sys_open_trunc. keep. Qed.
Lemma kept_openFileStream sums filename flag : kept (openFileStream m_dbPath sums filename flag).
Proof. unfold openFileStream, sys_open, sys_read. keep. Qed.
Hint Resolve kept_openDumpFileStream kept_openFileStream : keeps.
Lemma kept_bucketStreamOpener sums id suffix flag : kept (bucketStreamOpener m_dbPath sums id suffix flag).
Proof. unfold bucketStreamOpener. keep. Qed.
Lemma kept_loadBuckets opener l buckets :
  (∀ id, kept (opener id)) → kept (loadBuckets opener l buckets).
Proof. intros Ho. revert buckets. induction l as [|[id bk] l IH]; intros buckets; cbn [loadBuckets]; keep. Qed.
Hint Resolve kept_bucketStreamOpener kept_loadBuckets : keeps.
Lemma kept_readDatabase flag : kept (readDatabase m_dbPath flag).
Proof. unfold readDatabase. keep. Qed.
Lemma kept_postLoadCleanup bk flag : kept (postLoadCleanup m_dbPath bk flag).
Proof. unfold postLoadCleanup. keep. Qed.
Hint Resolve kept_readDatabase kept_postLoadCleanup : keeps.
Lemma kept_im_load : kept (im_load m_dbPath).
Proof. unfold im_load. keep. Qed.
End lost.
#[export] Hint Resolve kept_backupGuardExists kept_syncElement kept_syncDirectory kept_syncFile
  kept_createHardLink kept_deleteHardLink kept_createBackupGuard kept_syncDatabase kept_relink
  kept_createPrimaryHardLinks kept_deleteBackupHardLinks kept_revalidate kept_deleteNonIndexedFile
  kept_deleteNonIndexedFiles kept_openDumpFileStream kept_openFileStream kept_bucketStreamOpener
  kept_loadBuckets kept_readDatabase kept_postLoadCleanup kept_im_load : keeps.

Section lost_dump.
Context `{HO : HashOrder} (m_dbPath : string).

Lemma kept_closeStream fd data : keeps (lost true) (closeStream fd data).
Proof. unfold closeStream. keep. Qed.
Hint Resolve kept_closeStream : keeps.
Lemma kept_dumpBucketFile kb : keeps (lost true) (dumpBucketFile m_dbPath kb).
Proof. unfold dumpBucketFile. keep. Qed.
Hint Resolve kept_dumpBucketFile : keeps.
Lemma kept_dumpDatabase buckets : keeps (lost true) (dumpDatabase m_dbPath buckets).
Proof. unfold dumpDatabase. keep. Qed.
Hint Resolve kept_dumpDatabase : keeps.
Lemma kept_saveBackup buckets : keeps (lost true) (saveBackup m_dbPath buckets).
Proof. unfold saveBackup. keep. Qed.
End lost_dump.
#[export] Hint Resolve kept_closeStream kept_dumpBucketFile kept_dumpDatabase kept_saveBackup : keeps.
