(* ===== verification/CrashSafety.v ===== *)
(** * Saving survives power failures

    Through every prefix of [im_save] the disk determines either the old or the new
    database; [im_load] reads it back, also when it has to finish the replacement of the
    primary files itself. *)
From S2P Require Import Prelude Text Types Bucket InMemoryStorageBackend.
From S2P Require Import Md5 StorageSerialization FileSystem Persistence.

(** A name free of the backup suffix and of the C string terminator. *)
Definition base (n : string) : Prop := lacks "~" n ∧ lacks "000" n.

Section CrashSafety.
Variable dbDir : string.
Hypothesis dbDir_ok : lacks "000" dbDir.
Let m_dbPath : string := dbDir +:+ "/".
Let path (n : string) : string := m_dbPath +:+ n.
Let bpath (n : string) : string := m_dbPath +:+ n +:+ "~".

Implicit Types B : Buckets.
Implicit Types s : fs.

(** ** The files of a database *)

Section Files.
Context `{HO : HashOrder}.

Definition entries (B : Buckets) : list (string * string) :=
  sum_entries B ++ [(checksumFilename, checksum_text B)].

Definition primary (B : Buckets) : list (string * string) :=
  (λ nd, (path nd.1, nd.2)) <$> entries B.
Definition backup (B : Buckets) : list (string * string) :=
  (λ nd, (bpath nd.1, nd.2)) <$> entries B.

Definition guard : string := path guardFilename.
Definition guard_off (s : fs) : Prop := durably s guard None.
Definition guard_on (s : fs) : Prop := ∃ i, durably s guard (Some i).

(** The disk holds [B]: in the primary files, no guard; or in the backup files, guarded. *)
Definition committed (s : fs) (B : Buckets) : Prop := stored s (primary B) ∧ guard_off s.
Definition pending (s : fs) (B : Buckets) : Prop := stored s (backup B) ∧ guard_on s.
(** The replacement of the primary files is under way. *)
Definition recovering (s : fs) (B : Buckets) : Prop :=
  pending s B ∨ committed s B ∨ (stored s (backup B) ∧ stored s (primary B)).
(** Either database, depending on whether the guard survives. *)
Definition either (s : fs) (B B' : Buckets) : Prop :=
  committed s B ∨ recovering s B' ∨ (stored s (primary B) ∧ stored s (backup B')).

(** No backup file is there. *)
Definition clean (s : fs) : Prop := ∀ n, base n → f_dir s !! bpath n = None.

(** ** Names *)

Lemma path_inj n n' : path n = path n' → n = n'.
Proof. by intros [_ H]%str_app_inj_length. Qed.
Lemma bpath_inj n n' : bpath n = bpath n' → n = n'.
Proof. intros [_ H]%str_app_inj_length; [|done]. by apply str_app_inj_r in H. Qed.
Lemma path_bpath n n' : base n → path n ≠ bpath n'.
Proof.
  intros [Hn _] [_ ->]%str_app_inj_length; [|done]. rewrite lacks_app in Hn. by destruct Hn.
Qed.
Lemma c_str_path n : lacks "000" n → c_str (path n) = path n.
Proof. intros Hn. apply c_str_id. unfold path, m_dbPath. by rewrite !lacks_app. Qed.
Lemma c_str_bpath n : base n → c_str (bpath n) = bpath n.
Proof. intros [_ Hn]. apply c_str_id. unfold bpath, m_dbPath. by rewrite !lacks_app. Qed.
Lemma base_guard : base guardFilename.
Proof. by split. Qed.
Lemma guard_bpath n : guard ≠ bpath n.
Proof. apply path_bpath, base_guard. Qed.

Section names.
Variable B : Buckets.
Hypothesis HB : storable_buckets B.

Lemma base_id id b : B !! id = Some b → base (bucketFilenamePrefix +:+ id) ∧ lacks "/" id.
Proof.
  intros Hid. destruct (HB id b Hid) as [<- Hs]. pose proof Hs as ([[_ Hv] Hnul] & _).
  unfold base. rewrite !lacks_app. split_and!; try done; by apply idValid_lacks.
Qed.

Lemma elem_of_entries n d :
  (n, d) ∈ entries B ↔
    (∃ id b, n = bucketFilenamePrefix +:+ id ∧ d = dump_bucket b ∧ B !! id = Some b) ∨
    (n = indexFilename ∧ d = dump_index B) ∨ (n = checksumFilename ∧ d = checksum_text B).
Proof.
  unfold entries, sum_entries. rewrite !elem_of_app, !list_elem_of_singleton, list_elem_of_fmap. split.
  - intros [[([id b] & [= -> ->] & Hin%elem_of_miter)|[= -> ->]]|[= -> ->]]; naive_solver.
  - intros [(id & b & -> & -> & Hid)|[[-> ->]|[-> ->]]]; [|tauto..].
    left; left. exists (id, b). split; [done|]. by apply elem_of_miter.
Qed.

Lemma entries_base n d : (n, d) ∈ entries B → base n ∧ n ≠ guardFilename.
Proof.
  intros [(id & b & -> & _ & Hid)|[[-> _]|[-> _]]]%elem_of_entries; [|by split..].
  split; [by eapply base_id|done].
Qed.

Lemma entries_NoDup : NoDup (entries B).*1.
Proof.
  unfold entries, sum_entries. rewrite !fmap_app, <-list_fmap_compose.
  assert (∀ n, n ∈ (fst ∘ (λ kb : string * PolicyBucket,
    (bucketFilenamePrefix +:+ kb.1, dump_bucket kb.2)) <$> miter B) → ∃ id, n = "_" +:+ id) as Hn.
  { intros n ([id b] & -> & _)%list_elem_of_fmap. by exists id. }
  rewrite !NoDup_app. split_and!.
  - assert (NoDup (String.append "_" <$> (miter B).*1)) as Hnd.
    { apply NoDup_fmap_2; [|apply NoDup_fst_miter]. intros x y H.
      by apply (str_app_inj_length "_" x "_" y) in H as [_ ->]. }
    by rewrite <-list_fmap_compose in Hnd.
  - intros n [id ->]%Hn Hin%list_elem_of_singleton. done.
  - apply NoDup_singleton.
  - intros n [[id ->]%Hn|Hin%list_elem_of_singleton]%elem_of_app ?%list_elem_of_singleton; naive_solver.
  - apply NoDup_singleton.
Qed.

Lemma elem_of_primary n d : base n → (path n, d) ∈ primary B ↔ (n, d) ∈ entries B.
Proof.
  intros _. unfold primary. rewrite list_elem_of_fmap. split.
  - intros ([n' d'] & [= ->%path_inj ->] & ?). done.
  - intros. by exists (n, d).
Qed.

Lemma primary_names nm : nm ∈ (primary B).*1 → ∃ n, nm = path n ∧ n ∈ (entries B).*1.
Proof.
  unfold primary. rewrite <-list_fmap_compose. intros ([n d] & -> & Hin)%list_elem_of_fmap.
  exists n. split; [done|]. apply list_elem_of_fmap. by exists (n, d).
Qed.
Lemma backup_names nm : nm ∈ (backup B).*1 → ∃ n, nm = bpath n ∧ n ∈ (entries B).*1.
Proof.
  unfold backup. rewrite <-list_fmap_compose. intros ([n d] & -> & Hin)%list_elem_of_fmap.
  exists n. split; [done|]. apply list_elem_of_fmap. by exists (n, d).
Qed.
Lemma names_base n : n ∈ (entries B).*1 → base n ∧ n ≠ guardFilename.
Proof. intros ([n' d] & -> & Hin)%list_elem_of_fmap. by eapply entries_base. Qed.

Lemma bpath_not_primary n : bpath n ∉ (primary B).*1.
Proof. intros (n' & H & [Hb _]%names_base)%primary_names. by apply (path_bpath n' n). Qed.
Lemma path_not_backup n : base n → path n ∉ (backup B).*1.
Proof. intros Hn (n' & H & _)%backup_names. by apply (path_bpath n n'). Qed.
Lemma guard_not_primary : guard ∉ (primary B).*1.
Proof. intros (n' & H%path_inj & [_ Hb]%names_base)%primary_names. congruence. Qed.
Lemma guard_not_backup : guard ∉ (backup B).*1.
Proof. apply path_not_backup, base_guard. Qed.
End names.

Definition suffixed (syncBackup : bool) (n : string) : string :=
  m_dbPath +:+ n +:+ (if syncBackup then backupFilenameSuffix else "").

Definition files (B : Buckets) (flag : bool) : list (string * string) :=
  (λ nd, (suffixed flag nd.1, nd.2)) <$> entries B.

Lemma files_true B : files B true = backup B.
Proof. done. Qed.
Lemma files_false B : files B false = primary B.
Proof.
  unfold files, primary, suffixed, path. apply list_fmap_ext. intros i [n d] _. cbn.
  by rewrite str_app_nil_r.
Qed.

Lemma elem_of_files B flag n d : (n, d) ∈ entries B → (suffixed flag n, d) ∈ files B flag.
Proof. intros H. apply list_elem_of_fmap. by exists (n, d). Qed.

Lemma c_str_suffixed flag n : base n → c_str (suffixed flag n) = suffixed flag n.
Proof.
  intros [_ Hn]. apply c_str_id. unfold suffixed, m_dbPath. rewrite !lacks_app. by destruct flag.
Qed.

Lemma bucket_path flag id :
  m_dbPath +:+ bucketFilenamePrefix +:+ id +:+ (if flag : bool then backupFilenameSuffix else "") =
  suffixed flag (bucketFilenamePrefix +:+ id).
Proof. unfold suffixed. by autorewrite with str. Qed.

Lemma entry_of_bucket B id b :
  B !! id = Some b → (bucketFilenamePrefix +:+ id, dump_bucket b) ∈ entries B.
Proof. intros H. apply elem_of_entries. left. by exists id, b. Qed.
Lemma entry_of_index B : (indexFilename, dump_index B) ∈ entries B.
Proof. apply elem_of_entries. tauto. Qed.
Lemma entry_of_checksum B : (checksumFilename, checksum_text B) ∈ entries B.
Proof. apply elem_of_entries. tauto. Qed.

Lemma miter_split B pre id b post : miter B = pre ++ (id, b) :: post → B !! id = Some b.
Proof. intros H. apply elem_of_miter. rewrite H. set_solver. Qed.

(** The names of the bucket files of [kbs]. *)
Definition bucket_names (kbs : list (PolicyBucketId * PolicyBucket)) : list string :=
  (λ kb, bucketFilenamePrefix +:+ kb.1) <$> kbs.

Lemma bucket_names_snoc kbs id b :
  bucket_names (kbs ++ [(id, b)]) = bucket_names kbs ++ [bucketFilenamePrefix +:+ id].
Proof. unfold bucket_names. by rewrite fmap_app. Qed.

Lemma entries_names (HO' : HashOrder) B n :
  n ∈ (entries B).*1 ↔
    n ∈ bucket_names (@miter HO' _ B) ∨ n = indexFilename ∨ n = checksumFilename.
Proof.
  assert (n ∈ bucket_names (@miter HO' _ B) ↔ n ∈ bucket_names (@miter HO _ B)) as ->.
  { assert (@miter HO' _ B ≡ₚ @miter HO _ B) as Hp.
    { transitivity (map_to_list B); [apply miter_perm|symmetry; apply miter_perm]. }
    unfold bucket_names. by rewrite Hp. }
  unfold entries, sum_entries, bucket_names. rewrite !fmap_app, <-list_fmap_compose.
  rewrite !elem_of_app. cbn [fmap list_fmap fst]. rewrite !list_elem_of_singleton.
  unfold compose. cbn [fst]. tauto.
Qed.

End Files.

(** ** The steps of [Integrity] *)

Lemma spec_syncFile nm i n (Q : unit → fs → Prop) C s :
  C s → f_dir s !! c_str nm = Some i → f_inodes s !! i = Some n →
  C (set_inode i (mkInode (i_data n) true) s) → Q tt (set_inode i (mkInode (i_data n) true) s) →
  spec (syncFile nm) Q C s.
Proof.
  intros HC Hi Hn HC' HQ. unfold syncFile, syncElement, sys_open.
  apply spec_sys; [done|by eexists|]. rewrite Hi. cbn [fst snd].
  apply spec_sys; [done|by eexists|]. rewrite Hn. cbn [fst snd].
  apply spec_sys; [done|by eexists|]. by apply spec_ret.
Qed.

Lemma spec_syncDirectory (Q : unit → fs → Prop) C s :
  C s → C (sync_dir s) → Q tt (sync_dir s) → spec (syncDirectory m_dbPath) Q C s.
Proof.
  intros HC HC' HQ. unfold syncDirectory, sys_fsync_dir.
  do 3 (apply spec_sys; [done|by eexists|cbn [fst snd]]). by apply spec_ret.
Qed.

Lemma spec_deleteHardLink nm (Q : unit → fs → Prop) C s :
  C s →
  (∀ i, f_dir s !! c_str nm = Some i → Q tt (unbind_name (c_str nm) s)) →
  (f_dir s !! c_str nm = None → Q tt s) →
  spec (deleteHardLink nm) Q C s.
Proof.
  intros HC H1 H2. unfold deleteHardLink, sys_unlink.
  apply spec_sys; [done|by eexists|]. destruct (f_dir s !! c_str nm); cbn [fst snd];
    apply spec_ret; by eauto.
Qed.

(** [J] is an invariant that syncing cannot break. *)
Record sync_stable (J : fs → Prop) : Prop := {
  ss_inode s i n : J s → f_inodes s !! i = Some n → J (set_inode i (mkInode (i_data n) true) s);
  ss_dir s : J s → J (sync_dir s);
}.

Lemma sync_stable_stored files : sync_stable (λ s, stored s files).
Proof. split; intros s; [intros; by apply stored_fsync|apply stored_sync]. Qed.
Lemma sync_stable_durably nm oi : sync_stable (λ s, durably s nm oi).
Proof. split; [done|]. intros s H. by apply durably_sync, durably_dir. Qed.
Lemma sync_stable_exists {A} (J : A → fs → Prop) :
  (∀ a, sync_stable (J a)) → sync_stable (λ s, ∃ a, J a s).
Proof.
  intros H. split.
  - intros s i n [a Ha] Hn. exists a. by apply (ss_inode _ (H a)).
  - intros s [a Ha]. exists a. by apply (ss_dir _ (H a)).
Qed.
Lemma sync_stable_and J J' : sync_stable J → sync_stable J' → sync_stable (λ s, J s ∧ J' s).
Proof.
  intros H H'. split.
  - intros s i n [? ?] Hn. split; by eapply ss_inode.
  - intros s [? ?]. split; by eapply ss_dir.
Qed.
Lemma sync_stable_dir (P : directory → Prop) : sync_stable (λ s, P (f_dir s)).
Proof. by split. Qed.

(** The files are there, synced or not. *)
Definition present (s : fs) (files : list (string * string)) : Prop :=
  ∀ nm data, (nm, data) ∈ files →
    ∃ i b, f_dir s !! nm = Some i ∧ f_inodes s !! i = Some (mkInode data b).
Definition synced (s : fs) (nm : string) : Prop :=
  ∀ i n, f_dir s !! nm = Some i → f_inodes s !! i = Some n → i_synced n = true.

(** A file is synced: what was there stays, and it is synced now. *)
Lemma spec_sync_present J files nm data s (P : string → Prop) :
  sync_stable J → J s → present s files → (∀ nm', P nm' → synced s nm') →
  (nm, data) ∈ files → c_str nm = nm →
  spec (syncFile nm) (λ _ s', J s' ∧ present s' files ∧ f_dir s' = f_dir s ∧
      (∀ nm', P nm' ∨ nm' = nm → synced s' nm')) J s.
Proof.
  intros HJ Hs Hp Hsy Hin Hc. destruct (Hp nm data Hin) as (i & b & Hi & Hn).
  eapply spec_syncFile; [done|by rewrite Hc|done|by apply (ss_inode _ HJ)|].
  split_and!; [by apply (ss_inode _ HJ)| |done|].
  - intros nm' data' Hin'. destruct (Hp nm' data' Hin') as (i' & b' & Hi' & Hn').
    destruct (decide (i' = i)) as [->|Hne].
    + exists i, true. split; [done|]. cbn. rewrite lookup_insert_eq. congruence.
    + exists i', b'. split; [done|]. cbn. by rewrite lookup_insert_ne.
  - intros nm' Hnm' j m Hj Hm. cbn in Hj, Hm. rewrite lookup_insert in Hm. case_decide.
    + by simplify_eq.
    + destruct Hnm' as [Hnm'| ->]; [by eapply Hsy|congruence].
Qed.

Lemma synced_present_stored s files :
  present s files → (∀ nm, nm ∈ files.*1 → synced s nm) → stored (sync_dir s) files.
Proof.
  intros Hp Hs nm data Hin. destruct (Hp nm data Hin) as (i & b & Hi & Hn). exists i. split.
  - by apply durably_sync.
  - cbn. rewrite Hn. do 2 f_equal. assert (nm ∈ files.*1) as Hnm.
    { apply list_elem_of_fmap. by exists (nm, data). }
    apply (Hs nm Hnm i (mkInode data b) Hi Hn).
Qed.


Section Steps.
(** The order of the loops, and the order the files were written in. *)
Context {HOi HOd : HashOrder}.
Local Abbreviation miter := (@miter HOi _).
Local Abbreviation syncDatabase := (syncDatabase (HO:=HOi)).
Local Abbreviation createPrimaryHardLinks := (createPrimaryHardLinks (HO:=HOi)).
Local Abbreviation deleteBackupHardLinks := (deleteBackupHardLinks (HO:=HOi)).
Local Abbreviation revalidatePrimaryDatabase := (revalidatePrimaryDatabase (HO:=HOi)).

Lemma sync_stable_pending B : sync_stable (λ s, pending s B).
Proof.
  apply sync_stable_and; [apply sync_stable_stored|].
  apply sync_stable_exists. intros i. apply sync_stable_durably.
Qed.
Lemma sync_stable_committed B : sync_stable (λ s, committed s B).
Proof. apply sync_stable_and; [apply sync_stable_stored|apply sync_stable_durably]. Qed.

Lemma spec_syncDatabase J B flag s :
  storable_buckets B → sync_stable J → J s → present s (files B flag) →
  spec (syncDatabase m_dbPath B flag)
    (λ _ s', J s' ∧ stored s' (files B flag) ∧ f_dir s' = f_dir s) J s.
Proof.
  intros HB HJ Hs Hp. unfold syncDatabase.
  set (I := λ (done : list string) s', J s' ∧ present s' (files B flag) ∧ f_dir s' = f_dir s ∧
    ∀ nm, nm ∈ suffixed flag <$> done → synced s' nm).
  assert (∀ done n d s', (n, d) ∈ entries B → I done s' →
    spec (syncFile (suffixed flag n)) (λ _, I (done ++ [n])) J s') as Hone.
  { intros done n d s' Hin (HJ' & Hp' & Hd' & Hsy).
    eapply spec_mono; [eapply (spec_sync_present J _ _ _ _ (.∈ suffixed flag <$> done)); try done| |done].
    - by eapply elem_of_files.
    - by eapply c_str_suffixed, entries_base.
    - intros _ s'' (HJ'' & Hp'' & Hd'' & Hsy''). split_and!; [done..|congruence|].
      intros nm Hnm. apply Hsy''. rewrite fmap_app in Hnm. set_solver. }
  spec_seq.
  { spec_loop (λ pre, I (bucket_names pre)).
    - unfold I. split_and!; [done..|]. set_solver.
    - intros pre [id b] post s' Hsplit HI. rewrite bucket_names_snoc. cbn [fst].
      rewrite bucket_path. by eapply Hone; [eapply entry_of_bucket, (miter_split (HO:=HOi))|]. }
  intros [] s1 H1. spec_seq; [by eapply (Hone _ _ _ _ (entry_of_index B))|].
  intros [] s2 H2. spec_seq; [by eapply (Hone _ _ _ _ (entry_of_checksum B))|].
  intros [] s3 (HJ3 & Hp3 & Hd3 & Hsy3). apply spec_syncDirectory; [done|by apply (ss_dir _ HJ)|].
  split_and!; [by apply (ss_dir _ HJ)| |done]. apply synced_present_stored; [done|].
  intros nm Hnm. apply Hsy3. unfold files in Hnm. rewrite <-list_fmap_compose in Hnm.
  apply list_elem_of_fmap in Hnm as (nd & -> & Hin). cbn. apply list_elem_of_fmap_2.
  assert (nd.1 ∈ (entries B).*1) as Hn by by apply list_elem_of_fmap_2.
  apply (entries_names HOi) in Hn. rewrite !elem_of_app, !list_elem_of_singleton. tauto.
Qed.

(** ** The guard *)

Lemma new_inode_fresh s : f_inodes s !! new_inode s = None.
Proof. unfold new_inode. apply not_elem_of_dom. apply (is_fresh (dom (f_inodes s))). Qed.

Lemma stored_not_fresh s fls nm : stored s fls → nm ∈ fls.*1 → f_dir s !! nm ≠ Some (new_inode s).
Proof.
  intros H ([nm' d] & -> & Hin)%list_elem_of_fmap Hd. cbn in Hd.
  destruct (stored_open _ _ _ _ H Hin) as (i & Hi & Hn). rewrite Hi in Hd. simplify_eq.
  by rewrite new_inode_fresh in Hn.
Qed.

(** Creating a file leaves the stored files alone. *)
Definition create_file (nm : string) s : fs :=
  bind_name nm (new_inode s) (set_inode (new_inode s) (mkInode "" false) s).
Lemma stored_create s fls nm : nm ∉ fls.*1 → stored s fls → stored (create_file nm s) fls.
Proof.
  intros Hn H. apply stored_bind; [done|]. apply stored_set_inode; [|done].
  intros name. by apply stored_not_fresh.
Qed.

(** The bindings of the backup names are those of [s0]. *)
Definition same_backups (s0 s : fs) : Prop := ∀ n, f_dir s !! bpath n = f_dir s0 !! bpath n.
Lemma same_backups_stable s0 : sync_stable (same_backups s0).
Proof. by split. Qed.

Lemma spec_createBackupGuard B B' s :
  storable_buckets B → storable_buckets B' →
  guard_off s → stored s (primary B) → stored s (backup B') →
  spec (createBackupGuard m_dbPath) (λ _ s', pending s' B' ∧ same_backups s s')
    (λ s', stored s' (primary B) ∧ stored s' (backup B')) s.
Proof.
  intros HB HB' Hg Hp Hb. unfold createBackupGuard. fold (path guardFilename). fold guard.
  assert (c_str guard = guard) as Hc by by apply c_str_path, base_guard.
  set (J := λ s', stored s' (primary B) ∧ stored s' (backup B')).
  assert (sync_stable J) as HJ by (apply sync_stable_and; apply sync_stable_stored).
  assert (J s) as Hs by done.
  assert (J (create_file guard s)) as H1.
  { split; apply stored_create; try done; [by apply guard_not_primary|by apply guard_not_backup]. }
  assert (same_backups s (create_file guard s)) as Hsame.
  { intros n. cbn. apply lookup_insert_ne, guard_bpath. }
  spec_seq (λ _ s', J s' ∧ same_backups s s' ∧ is_Some (f_dir s' !! guard)).
  - unfold syncElement, sys_open_excl. apply spec_sys; [done|by eexists|].
    rewrite Hc, (durably_dir _ _ _ Hg). cbn [fst snd]. fold (create_file guard s).
    apply spec_sys; [done|by eexists|]. cbn [f_inodes create_file bind_name set_inode].
    rewrite lookup_insert_eq. cbn [fst snd].
    set (s2 := set_inode _ _ _). assert (J s2) as H2.
    { apply (ss_inode _ HJ) with (n := mkInode "" false); [done|]. apply lookup_insert_eq. }
    apply spec_sys; [done|by eexists|]. apply spec_ret. split_and!; [done|done|].
    cbn. rewrite lookup_insert_eq. done.
  - intros [] s1 (Hs1 & Hb1 & [i Hi]). apply spec_syncDirectory; [done|by apply (ss_dir _ HJ)|].
    destruct (ss_dir _ HJ _ Hs1) as [_ ?]. split_and!; [split; [done|]|done].
    exists i. by apply durably_sync.
Qed.

(** ** Replacing the primary files *)

(** [relink] of one file while the backup is guarded. *)
Lemma spec_relink B n d s :
  storable_buckets B → (n, d) ∈ entries B → pending s B →
  spec (relink (path n))
    (λ _ s', pending s' B ∧ f_dir s' !! path n = f_dir s !! bpath n ∧
       ∀ nm, nm ≠ path n → f_dir s' !! nm = f_dir s !! nm)
    (λ s', pending s' B) s.
Proof.
  intros HB Hin Hs. destruct (entries_base B HB n d Hin) as [Hb Hg].
  assert (c_str (path n) = path n) as Hc by apply c_str_path, Hb.
  assert (path n +:+ backupFilenameSuffix = bpath n) as Hbp.
  { unfold path, bpath. by rewrite str_app_assoc. }
  assert (guard ≠ path n) as Hgn by by intros ?%path_inj.
  assert ((bpath n, d) ∈ backup B) as Hbin by (apply list_elem_of_fmap; by exists (n, d)).
  assert (bpath n ≠ path n) as Hne by (intros H; by apply (path_bpath n n)).
  assert (∀ s', pending s' B → pending (unbind_name (path n) s') B) as Hunb.
  { intros s' [Hst [i Hi]]. split; [apply stored_unbind; [by apply path_not_backup|done]|].
    exists i. by apply durably_unbind. }
  assert (∀ s', pending s' B → f_dir s' !! path n = None →
    spec (createHardLink (path n +:+ backupFilenameSuffix) (path n))
      (λ _ s'', pending s'' B ∧ f_dir s'' !! path n = f_dir s' !! bpath n ∧
         ∀ nm, nm ≠ path n → f_dir s'' !! nm = f_dir s' !! nm) (λ s', pending s' B) s') as Hlink.
  { intros s' [Hst [j Hj]] Hnone. unfold createHardLink, sys_link.
    apply spec_sys; [by split; [|exists j]|by eexists|]. rewrite Hbp, Hc, c_str_bpath, Hnone by done.
    destruct (stored_open _ _ _ _ Hst Hbin) as (i & Hi & _). rewrite Hi. cbn [fst snd].
    apply spec_ret. split_and!.
    - split; [apply stored_bind; [by apply path_not_backup|done]|]. exists j. by apply durably_bind.
    - cbn. by rewrite lookup_insert_eq.
    - intros nm Hnm. cbn. by rewrite lookup_insert_ne. }
  unfold relink. spec_seq (λ _ s', pending s' B ∧ f_dir s' !! path n = None ∧
    ∀ nm, nm ≠ path n → f_dir s' !! nm = f_dir s !! nm).
  - apply spec_deleteHardLink; [done| |].
    + intros i _. rewrite Hc. split_and!; [by apply Hunb|cbn; by rewrite lookup_delete_eq|].
      intros nm Hnm. cbn. by rewrite lookup_delete_ne.
    + rewrite Hc. done.
  - intros [] s1 (H1 & Hn1 & Ho1). eapply spec_mono; [by apply Hlink| |done].
    intros [] s2 (H2 & Hn2 & Ho2). split_and!; [done| |].
    + by rewrite Hn2, Ho1.
    + intros nm Hnm. by rewrite Ho2, Ho1.
Qed.

Lemma spec_createPrimaryHardLinks B s :
  storable_buckets B → pending s B →
  spec (createPrimaryHardLinks m_dbPath B)
    (λ _ s', pending s' B ∧ same_backups s s' ∧ present s' (primary B))
    (λ s', pending s' B) s.
Proof.
  intros HB Hs. unfold createPrimaryHardLinks.
  set (I := λ (done : list string) s', pending s' B ∧ same_backups s s' ∧
    ∀ n, n ∈ done → f_dir s' !! path n = f_dir s !! bpath n).
  assert (∀ done n d s', (n, d) ∈ entries B → I done s' →
    spec (relink (path n)) (λ _, I (done ++ [n])) (λ s', pending s' B) s') as Hone.
  { intros done n d s' Hin (Hs' & Hsame & Hd).
    eapply spec_mono; [by eapply spec_relink| |done].
    intros [] s'' (Hs'' & Hn & Ho). split_and!; [done| |].
    - intros m. rewrite Ho; [apply Hsame|]. intros Hm. symmetry in Hm. revert Hm.
      apply path_bpath. by eapply entries_base.
    - intros m [Hm|Hm%list_elem_of_singleton]%elem_of_app; [|subst m; by rewrite Hn].
      destruct (decide (m = n)) as [->|Hne]; [by rewrite Hn|].
      rewrite Ho; [by apply Hd|]. by intros ?%path_inj. }
  spec_seq.
  { spec_loop (λ pre, I (bucket_names pre)).
    - unfold I. split_and!; [done..|]. set_solver.
    - intros pre [id b] post s' Hsplit HI. rewrite bucket_names_snoc. cbn [fst].
      by eapply (Hone _ (bucketFilenamePrefix +:+ id)); [eapply entry_of_bucket, (miter_split (HO:=HOi))|]. }
  intros [] s1 H1. spec_seq; [by eapply (Hone _ indexFilename _ _ (entry_of_index B))|].
  intros [] s2 H2. eapply spec_mono;
    [by eapply (Hone _ checksumFilename _ _ (entry_of_checksum B))| |done].
  intros [] s3 (Hs3 & Hb3 & Hd3). split_and!; [done..|].
  intros nm d Hin. apply list_elem_of_fmap in Hin as ([n d'] & [= -> ->] & Hin). cbn.
  rewrite Hd3, <-Hb3.
  - destruct Hs3 as [Hst _]. destruct (stored_open s3 (backup B) (bpath n) d') as (i & Hi & Hn).
    + done.
    + apply list_elem_of_fmap. by exists (n, d').
    + by exists i, true.
  - assert (n ∈ (entries B).*1) as Hn%(entries_names HOi) by (apply list_elem_of_fmap; by exists (n, d')).
    rewrite !elem_of_app, !list_elem_of_singleton. tauto.
Qed.

(** The backup names bound in [s'] are those of [s] but for [gone]. *)
Definition backups_without (gone : list string) (s s' : fs) : Prop :=
  ∀ n, base n → f_dir s' !! bpath n = if decide (n ∈ gone) then None else f_dir s !! bpath n.

Lemma spec_deleteBackupHardLinks B s :
  storable_buckets B → committed s B →
  spec (deleteBackupHardLinks m_dbPath B)
    (λ _ s', committed s' B ∧ backups_without (entries B).*1 s s')
    (λ s', committed s' B) s.
Proof.
  intros HB Hs. unfold deleteBackupHardLinks.
  set (I := λ (done : list string) s', committed s' B ∧ backups_without done s s').
  assert (∀ done n s', n ∈ (entries B).*1 → I done s' →
    spec (deleteHardLink (bpath n)) (λ _, I (done ++ [n])) (λ s', committed s' B) s') as Hone.
  { intros done n s' Hin [[Hst Hg] Hd]. destruct (names_base B HB n Hin) as [Hb _].
    apply spec_deleteHardLink; [done| |].
    - intros i _. rewrite c_str_bpath by done. split.
      + split; [apply stored_unbind; [by apply bpath_not_primary|done]|by apply durably_unbind_None].
      + intros m Hm. cbn. rewrite lookup_delete. case_decide as Hm'.
        * apply bpath_inj in Hm' as ->. rewrite decide_True by set_solver. done.
        * rewrite Hd by done. assert (m ≠ n) by (by intros ->). 
          destruct (decide (m ∈ done)); [by rewrite decide_True by set_solver|].
          rewrite decide_False by set_solver. done.
    - rewrite c_str_bpath by done. intros Hnone. split; [done|]. intros m Hm. rewrite Hd by done.
      destruct (decide (m = n)) as [->|Hne].
      + rewrite (decide_True (P := n ∈ done ++ [n])) by set_solver.
        rewrite <-Hd by done. done.
      + destruct (decide (m ∈ done)); [by rewrite decide_True by set_solver|].
        rewrite decide_False by set_solver. done. }
  spec_seq.
  { spec_loop (λ pre, I (bucket_names pre)).
    - split; [done|]. intros m Hm. rewrite decide_False by set_solver. done.
    - intros pre [id b] post s' Hsplit HI. rewrite bucket_names_snoc. cbn [fst].
      rewrite (bucket_path true). apply Hone; [|done]. apply (entries_names HOi). left.
      rewrite Hsplit. unfold bucket_names. rewrite fmap_app. set_solver. }
  intros [] s1 H1. spec_seq; [eapply (Hone _ indexFilename); [apply (entries_names HOi); tauto|done]|].
  intros [] s2 H2.
  eapply spec_mono; [eapply (Hone _ checksumFilename); [apply (entries_names HOi); tauto|done]| |done].
  intros [] s3 [Hs3 Hb3]. split; [done|]. intros n Hn. rewrite Hb3 by done.
  apply decide_ext. rewrite (entries_names HOi), !elem_of_app, !list_elem_of_singleton. tauto.
Qed.

Lemma spec_revalidate B s :
  storable_buckets B → pending s B →
  spec (revalidatePrimaryDatabase m_dbPath B)
    (λ _ s', committed s' B ∧ backups_without (entries B).*1 s s')
    (λ s', recovering s' B) s.
Proof.
  intros HB Hs. unfold revalidatePrimaryDatabase. fold (path guardFilename). fold guard.
  assert (c_str guard = guard) as Hc by by apply c_str_path, base_guard.
  spec_seq; [eapply spec_mono; [by apply spec_createPrimaryHardLinks|done|]|].
  { intros s' H. by left. }
  intros [] s1 (H1 & Hb1 & Hp1).
  spec_seq (λ _ s', (pending s' B ∧ same_backups s s') ∧ stored s' (primary B)).
  { eapply spec_mono; [apply (spec_syncDatabase (λ s', pending s' B ∧ same_backups s s')); try done| |].
    - apply sync_stable_and; [apply sync_stable_pending|apply same_backups_stable].
    - by rewrite files_false.
    - intros [] s' (H & Hst & _). by rewrite files_false in Hst.
    - intros s' [H _]. by left. }
  intros [] s2 [[[Hbk2 Hg2] Hb2] Hp2].
  spec_seq (λ _ s', stored s' (backup B) ∧ stored s' (primary B) ∧
    f_dir s' !! guard = None ∧ same_backups s s').
  { apply spec_deleteHardLink; [by left|intros i _|]; rewrite Hc; [|done].
    split_and!.
    - apply stored_unbind; [by apply guard_not_backup|done].
    - apply stored_unbind; [by apply guard_not_primary|done].
    - cbn. by rewrite lookup_delete_eq.
    - intros n. cbn. rewrite lookup_delete_ne; [apply Hb2|apply guard_bpath]. }
  intros [] s3 (Hbk3 & Hp3 & Hg3 & Hb3).
  spec_seq (λ _ s', committed s' B ∧ same_backups s s').
  { apply spec_syncDirectory; [by right; right|right; right|].
    - by split; apply stored_sync.
    - split; [|done]. split; [by apply stored_sync|by apply durably_sync]. }
  intros [] s4 [H4 Hb4]. eapply spec_mono; [by apply spec_deleteBackupHardLinks| |].
  - intros [] s5 [H5 Hb5]. split; [done|]. intros n Hn. rewrite Hb5 by done.
    by rewrite Hb4.
  - intros s' H. by right; left.
Qed.

End Steps.

Section Save.
Context `{HO : HashOrder}.

(** ** Writing the backup *)

(** The backup names are bound as in [m], to inodes of their own; the database [B] is
    committed. *)
Record writing (B : Buckets) (s : fs) (m : gmap string nat) : Prop := {
  wr_committed : committed s B;
  wr_names n : base n → f_dir s !! bpath n = m !! n;
  wr_inj n n' i : m !! n = Some i → m !! n' = Some i → n = n';
  wr_inode n i : m !! n = Some i → is_Some (f_inodes s !! i);
  wr_own n i nm : m !! n = Some i → nm ∈ (primary B).*1 → f_dir s !! nm ≠ Some i;
}.

Definition filled (s : fs) (m : gmap string nat) (done : list (string * string)) : Prop :=
  ∀ n d, (n, d) ∈ done → ∃ i b, m !! n = Some i ∧ f_inodes s !! i = Some (mkInode d b).

Lemma writing_create B s m n :
  storable_buckets B → writing B s m → m !! n = None → base n →
  writing B (create_file (bpath n) s) (<[n := new_inode s]> m).
Proof.
  intros HB [[Hst Hg] Hn Hinj Hino Hown] Hnone Hb.
  assert (∀ n', m !! n' ≠ Some (new_inode s)) as Hfresh.
  { intros n' [x Hx]%Hino. by rewrite new_inode_fresh in Hx. }
  split.
  - split; [apply stored_create; [by apply bpath_not_primary|done]|].
    apply durably_bind; [apply guard_bpath|done].
  - intros n' Hb'. cbn. rewrite !lookup_insert. destruct (decide (n = n')) as [->|Hne].
    + by rewrite !decide_True.
    + rewrite !decide_False; [by apply Hn|first [done|by intros ?%bpath_inj]..].
  - intros n1 n2 i. rewrite !lookup_insert. repeat case_decide; intros; simplify_eq; try done.
    + by destruct (Hfresh n2).
    + by destruct (Hfresh n1).
    + by eapply Hinj.
  - intros n' i. rewrite lookup_insert. cbn. case_decide; intros Hi.
    + simplify_eq. by rewrite lookup_insert_eq.
    + apply lookup_insert_is_Some'. right. by eapply Hino.
  - intros n' i nm Hm Hnm. cbn. rewrite lookup_insert_ne.
    + rewrite lookup_insert in Hm. case_decide; [simplify_eq; by eapply stored_not_fresh|by eapply Hown].
    + intros <-. by apply (bpath_not_primary B HB n).
Qed.

Lemma spec_openDump B s m n done :
  storable_buckets B → writing B s m → m !! n = None → base n → filled s m done →
  spec (openDumpFileStream (bpath n))
    (λ fd s', writing B s' (<[n := fd]> m) ∧ filled s' (<[n := fd]> m) done)
    (λ s', committed s' B) s.
Proof.
  intros HB Hw Hnone Hb Hf. unfold openDumpFileStream, sys_open_trunc.
  apply spec_sys; [by eapply wr_committed|by eexists|].
  rewrite c_str_bpath, (wr_names _ _ _ Hw), Hnone by done. cbn [fst snd].
  apply spec_ret. fold (create_file (bpath n) s). split; [by apply writing_create|].
  intros n' d Hin. destruct (Hf n' d Hin) as (i & b & Hi & Hx). exists i, b.
  rewrite lookup_insert_ne by congruence. split; [done|]. cbn. rewrite lookup_insert_ne; [done|].
  intros <-. by rewrite new_inode_fresh in Hx.
Qed.

Lemma spec_closeDump B s m n i d done :
  writing B s m → m !! n = Some i → filled s m done → n ∉ done.*1 →
  spec (closeStream i d) (λ _ s', writing B s' m ∧ filled s' m (done ++ [(n, d)]))
    (λ s', committed s' B) s.
Proof.
  intros [[Hst Hg] Hn Hinj Hino Hown] Hi Hf Hnd.
  apply spec_write; [done|]. split.
  - split; try done.
    + split; [|done]. apply stored_set_inode; [|done]. intros nm Hnm. by eapply Hown.
    + intros n' j Hj. cbn. apply lookup_insert_is_Some'. right. by eapply Hino.
  - intros n' d' [Hin|[= -> ->]%list_elem_of_singleton]%elem_of_app.
    + destruct (Hf n' d' Hin) as (j & b & Hj & Hx). exists j, b. split; [done|]. cbn.
      rewrite lookup_insert_ne; [done|]. intros ->. apply Hnd. rewrite (Hinj n n' j) by done.
      apply list_elem_of_fmap. by exists (n', d').
    + exists i, false. split; [done|]. cbn. by rewrite lookup_insert_eq.
Qed.

Definition bucket_entries (kbs : list (PolicyBucketId * PolicyBucket)) : list (string * string) :=
  (λ kb, (bucketFilenamePrefix +:+ kb.1, dump_bucket kb.2)) <$> kbs.

Lemma bucket_entries_names kbs : (bucket_entries kbs).*1 = bucket_names kbs.
Proof. unfold bucket_entries, bucket_names. by rewrite <-list_fmap_compose. Qed.

Lemma bucket_names_shape kbs n : n ∈ bucket_names kbs → ∃ id, n = "_" +:+ id.
Proof. intros ([id b] & -> & _)%list_elem_of_fmap. by exists id. Qed.

Lemma bucket_names_fresh B pre id b post :
  miter B = pre ++ (id, b) :: post → bucketFilenamePrefix +:+ id ∉ bucket_names pre.
Proof.
  intros Hsplit Hin. pose proof (NoDup_fst_miter B) as Hnd. rewrite Hsplit, fmap_app in Hnd.
  apply NoDup_app in Hnd as (_ & Hd & _). apply list_elem_of_fmap in Hin as ([id' b'] & H & Hin).
  apply (str_app_inj_length "_" id "_" id') in H as [_ <-]; [|done].
  apply (Hd id); [|set_solver]. apply list_elem_of_fmap. by exists (id, b').
Qed.

(** What holds once the backup is written. *)
Definition backup_written (B B' : Buckets) (s : fs) : Prop :=
  committed s B ∧ present s (backup B') ∧
  ∀ n, base n → is_Some (f_dir s !! bpath n) → n ∈ (entries B').*1.

Lemma spec_saveBackup B B' s :
  storable_buckets B → storable_buckets B' → committed s B → clean s →
  spec (saveBackup m_dbPath B') (λ _, backup_written B B') (λ s', committed s' B) s.
Proof.
  intros HB HB' Hs Hclean. unfold saveBackup, dumpDatabase.
  assert (∀ n, m_dbPath +:+ n +:+ backupFilenameSuffix = bpath n) as Hbp by done.
  rewrite !Hbp.
  assert (writing B s ∅) as H0.
  { split; [done| |intros; by simplify_map_eq..]. intros n Hn. by rewrite lookup_empty, Hclean. }
  assert (∀ s m, filled s m []) as Hnil by by intros ???? ?%elem_of_nil.
  spec_seq; [by apply (spec_openDump B s ∅ checksumFilename [])|].
  intros c s1 [H1 _]. spec_seq.
  { spec_seq.
    { apply (spec_openDump B s1 (<[checksumFilename := c]> ∅) indexFilename []); done. }
    intros x s2 [H2 _].
    set (I := λ (pre : list (PolicyBucketId * PolicyBucket)) s', ∃ m, writing B s' m ∧
      m !! checksumFilename = Some c ∧ m !! indexFilename = Some x ∧
      (∀ n, is_Some (m !! n) → n ∈ bucket_names pre ∨ n = indexFilename ∨ n = checksumFilename) ∧
      filled s' m (bucket_entries pre)).
    spec_seq (λ _, I (miter B')).
    - spec_loop.
      + eexists. split_and!; [done|by simplify_map_eq..| |apply Hnil].
        intros n [i Hi]. rewrite !lookup_insert, lookup_empty in Hi. repeat case_decide; subst; tauto || done.
      + intros pre [id b] post s' Hsplit (m & Hw & Hc & Hx & Hdom & Hf). unfold dumpBucketFile.
        cbn [fst snd]. rewrite (bucket_path true). set (n := bucketFilenamePrefix +:+ id).
        assert (m !! n = None) as Hn.
        { apply eq_None_not_Some. intros [Hin|[?|?]]%Hdom; [|done..].
          by eapply bucket_names_fresh. }
        assert (base n) as Hb by (eapply (base_id B' HB'), miter_split; done).
        spec_seq; [by apply spec_openDump|]. intros fd s3 [H3 Hf3].
        eapply spec_mono; [eapply (spec_closeDump _ _ _ n); [done|apply lookup_insert_eq|done|]| |done].
        { rewrite bucket_entries_names. by eapply bucket_names_fresh. }
        intros [] s4 [H4 Hf4]. exists (<[n := fd]> m). split_and!; [done| | | |].
        * by rewrite lookup_insert_ne.
        * by rewrite lookup_insert_ne.
        * intros n' Hn'. rewrite bucket_names_snoc. fold n. apply lookup_insert_is_Some' in Hn'.
          destruct Hn' as [<-|Hn'%Hdom]; set_solver.
        * unfold bucket_entries in *. by rewrite fmap_app.
    - intros [] s3 (m & Hw & Hc & Hx & Hdom & Hf).
      eapply spec_mono; [eapply (spec_closeDump _ _ _ indexFilename); try done| |done].
      + rewrite bucket_entries_names. by intros [id ?]%bucket_names_shape.
      + intros [] s4 [H4 Hf4].
        instantiate (1 := λ _ s', ∃ m, writing B s' m ∧ m !! checksumFilename = Some c ∧
          (∀ n, is_Some (m !! n) → n ∈ (entries B').*1) ∧ filled s' m (sum_entries B')).
        exists m. split_and!; [done|done| |exact Hf4]. intros n Hn. apply (entries_names HO). by apply Hdom. }
  intros [] s2 (m & Hw & Hc & Hdom & Hf).
  eapply spec_mono; [eapply (spec_closeDump _ _ _ checksumFilename); try done| |done].
  - pose proof (entries_NoDup B') as Hnd. unfold entries in Hnd. rewrite fmap_app in Hnd.
    apply NoDup_app in Hnd as (_ & Hd & _). intros Hin. apply (Hd _ Hin). set_solver.
  - intros [] s3 [H3 Hf3]. fold (entries B') in Hf3. split_and!; [apply H3| |].
    + intros nm d Hin. apply list_elem_of_fmap in Hin as ([n d'] & [= -> ->] & Hin). cbn.
      destruct (Hf3 n d' Hin) as (i & b & Hi & Hx). exists i, b. split; [|done].
      rewrite (wr_names _ _ _ H3); [done|]. by eapply (entries_base B' HB').
    + intros n Hb Hn. rewrite (wr_names _ _ _ H3) in Hn by done. by apply Hdom.
Qed.

(** ** [save] *)

(** A save ends with the new database; cut anywhere, with the old or the new one. *)
Lemma spec_im_save B B' s :
  storable_buckets B → storable_buckets B' → committed s B → clean s →
  spec (im_save m_dbPath (mkInMemory B')) (λ _ s', committed s' B' ∧ clean s')
    (λ s', either s' B B') s.
Proof.
  intros HB HB' Hs Hclean. unfold im_save. cbn [m_buckets].
  spec_seq; [eapply spec_mono; [by apply (spec_saveBackup B)|done|by left]|].
  intros [] s1 (H1 & Hp1 & Hn1).
  set (J := λ s', committed s' B ∧ f_dir s' = f_dir s1).
  assert (sync_stable J) as HJ.
  { apply sync_stable_and; [apply sync_stable_committed|]. by split. }
  spec_seq (λ _ s', J s' ∧ stored s' (backup B')).
  { eapply spec_mono; [by apply (spec_syncDatabase J)|by intros [] s' (? & ? & _)|].
    intros s' [H _]. by left. }
  intros [] s2 [[[Hp2 Hg2] Hd2] Hb2].
  spec_seq; [eapply spec_mono; [by apply (spec_createBackupGuard B B')|done|]|].
  { intros s' H. by right; right. }
  intros [] s3 [H3 Hb3]. eapply spec_mono; [by apply spec_revalidate| |].
  - intros [] s4 [H4 Hb4]. split; [done|]. intros n Hn. rewrite Hb4 by done. case_decide as Hin; [done|].
    rewrite Hb3, Hd2. apply eq_None_not_Some. intros Hsome. by apply Hin, Hn1.
  - intros s' H. by right; left.
Qed.

(** ** Power failure *)

(** The disk determines [B]. *)
Definition on_disk (s : fs) (B : Buckets) : Prop := committed s B ∨ pending s B.

Lemma committed_crash B s s' : crash s s' → committed s B → committed s' B.
Proof. intros Hc [Hst Hg]. split; [by eapply stored_crash|by eapply durably_crash]. Qed.

Lemma pending_crash B s s' : crash s s' → pending s B → pending s' B.
Proof.
  intros Hc [Hst [i Hg]]. split; [by eapply stored_crash|]. exists i. by eapply durably_crash.
Qed.

(** After a power failure the guard is there or not, for good. *)
Lemma guard_crash s s' : crash s s' → guard_on s' ∨ guard_off s'.
Proof.
  intros Hc. assert (∀ oi, f_dir s' !! guard = oi → durably s' guard oi) as H.
  { intros oi Hoi d. unfold f_dirs. rewrite (cr_hist _ _ Hc). by intros ->%list_elem_of_singleton. }
  destruct (f_dir s' !! guard) as [i|] eqn:E; [left; exists i|right]; by apply H.
Qed.

Lemma recovering_crash B s s' : crash s s' → recovering s B → on_disk s' B.
Proof.
  intros Hc [H|[H|[H1 H2]]].
  - right. by eapply pending_crash.
  - left. by eapply committed_crash.
  - destruct (guard_crash _ _ Hc); [right|left]; (split; [by eapply stored_crash|done]).
Qed.

Lemma either_crash B B' s s' :
  crash s s' → either s B B' → on_disk s' B ∨ on_disk s' B'.
Proof.
  intros Hc [H|[H|[H1 H2]]].
  - left; left. by eapply committed_crash.
  - right. by eapply recovering_crash.
  - destruct (guard_crash _ _ Hc); [right; right|left; left]; (split; [by eapply stored_crash|done]).
Qed.

End Save.

(** ** Reading the database *)

Section Load.
Context {HOi HOd : HashOrder}.
Local Abbreviation miter := (@miter HOi _).

Lemma suffixed_slash flag n :
  suffixed flag n = dbDir +:+ String "/" (n +:+ (if flag : bool then backupFilenameSuffix else "")).
Proof. unfold suffixed, m_dbPath. by autorewrite with str. Qed.

Lemma compare_ok flag n d sums :
  base n → lacks "/" n → sums !! n = Some (generateMD5 d) →
  compare m_dbPath sums d (suffixed flag n) flag = Ret tt.
Proof.
  intros Hb Hs Hsum. unfold compare. destruct (isChecksumIndex _ _); [done|].
  rewrite c_str_suffixed by done. rewrite suffixed_slash, basename_path.
  - assert ((if flag then strip_suffix (n +:+ (if flag then backupFilenameSuffix else ""))
      else n +:+ (if flag then backupFilenameSuffix else "")) = n) as ->.
    { destruct flag; [apply strip_suffix_app|apply str_app_nil_r]. }
    rewrite Hsum. cbn [default from_option id]. rewrite bool_decide_false; [done|]. naive_solver.
  - rewrite lacks_app. by destruct flag.
Qed.

Lemma compare_checksum flag sums d :
  compare m_dbPath sums d (suffixed flag checksumFilename) flag = Ret tt.
Proof.
  unfold compare. assert (isChecksumIndex m_dbPath (suffixed flag checksumFilename) = true) as ->; [|done].
  unfold isChecksumIndex, suffixed. destruct flag.
  - rewrite str_app_assoc. apply orb_true_iff. right. by apply bool_decide_eq_true.
  - rewrite str_app_nil_r. apply orb_true_iff. left. by apply bool_decide_eq_true.
Qed.

Lemma spec_openFileStream {A} B flag n d sums (k : string → SE world A) (Q : A → fs → Prop) C s
    `{Hl : !Forgets k} :
  storable_buckets B → stored s (files B flag) → (n, d) ∈ entries B → C s →
  compare m_dbPath sums d (suffixed flag n) flag = Ret tt →
  spec (k d) Q C s → spec (openFileStream m_dbPath sums (suffixed flag n) flag ≫= k) Q C s.
Proof.
  intros HB Hst Hin HC Hcmp Hk. spec_seq (λ st s', st = d ∧ s' = s).
  - unfold openFileStream, sys_open. apply spec_sys; [done|by eexists|].
    rewrite c_str_suffixed by (by eapply entries_base).
    destruct (stored_open s _ _ _ Hst (elem_of_files B flag n d Hin)) as (i & -> & Hi).
    cbn [fst snd]. apply spec_sys_sure; [done|]. rewrite Hi. cbn [fst snd i_data].
    eapply spec_reads; [done|]. by apply spec_ret.
  - by intros ? ? [-> ->].
Qed.

Lemma spec_loadBuckets B flag sums l (acc : Buckets) C s :
  storable_buckets B → stored s (files B flag) → C s →
  (∀ n d, (n, d) ∈ sum_entries B → sums !! n = Some (generateMD5 d)) →
  (∀ id sh, (id, sh) ∈ l → ∃ b, B !! id = Some b ∧ sh = bucket_shell b) →
  spec (loadBuckets (λ bucketId, bucketStreamOpener m_dbPath sums bucketId
      (if flag then backupFilenameSuffix else "") flag) l acc)
    (λ r s', (∀ id, r !! id = if decide (id ∈ l.*1) then B !! id else acc !! id) ∧ s' = s) C s.
Proof.
  intros HB Hst HC Hsums Hl. revert acc. induction l as [|[id sh] l IH]; intros acc.
  { apply spec_ret. split; [|done]. intros id. by rewrite decide_False by set_solver. }
  destruct (Hl id sh ltac:(set_solver)) as (b & Hb & ->). cbn [loadBuckets].
  destruct (HB id b Hb) as [Hid Hsb].
  assert ((bucketFilenamePrefix +:+ id, dump_bucket b) ∈ entries B) as Hin by by apply entry_of_bucket.
  unfold bucketStreamOpener. rewrite bucket_path.
  spec_try (λ o s', o = Some (dump_bucket b) ∧ s' = s).
  - eapply spec_openFileStream; [apply _|done|done|exact Hin|done| |by apply spec_ret].
    destruct (base_id B HB id b Hb) as [Hbase Hslash]. apply compare_ok; [done| |].
    + by rewrite lacks_app.
    + apply Hsums. unfold sum_entries. apply elem_of_app. left. apply list_elem_of_fmap.
      exists (id, b). split; [done|]. by apply elem_of_miter.
  - intros e. destruct (isFileNotFound e); by eexists.
  - intros o s' [-> ->]. eapply spec_reads; [by apply loadPolicies_dump|].
    eapply spec_mono; [apply IH; intros; apply Hl; set_solver| |done].
    intros r s' [Hr ->]. split; [|done]. intros id'. rewrite Hr. cbn [fmap list_fmap fst].
    destruct (decide (id' ∈ l.*1)) as [Hin'|Hin']; [by rewrite decide_True by set_solver|].
    rewrite lookup_insert. destruct (decide (id = id')) as [<-|Hne].
    + rewrite decide_True by set_solver. rewrite Hb. f_equal. by apply load_into_dumped.
    + by rewrite decide_False by set_solver.
Qed.

Lemma sum_entries_ok B n d :
  storable_buckets B → (n, d) ∈ sum_entries B →
  n ≠ "" ∧ lacks fieldSeparator n ∧ lacks recordSeparator n.
Proof.
  intros HB. unfold sum_entries.
  intros [([id b] & [= -> ->] & Hin%elem_of_miter)%list_elem_of_fmap|[= -> ->]%list_elem_of_singleton]%elem_of_app;
    [|done].
  destruct (HB id b Hin) as [<- Hs]. pose proof (storable_id_lacks b Hs) as [? ?].
  cbn [fst]. rewrite !lacks_app. by split_and!.
Qed.

(** Reading complete files, primary or backup, yields the database. *)
Lemma spec_readDatabase B flag C s :
  storable_buckets B → stored s (files B flag) → C s →
  spec (readDatabase (HO:=HOi) m_dbPath flag) (λ r s', r = B ∧ s' = s) C s.
Proof.
  intros HB Hst HC. unfold readDatabase.
  change (m_dbPath +:+ checksumFilename +:+ (if flag then backupFilenameSuffix else "")) with
    (suffixed flag checksumFilename).
  change (m_dbPath +:+ indexFilename +:+ (if flag then backupFilenameSuffix else "")) with
    (suffixed flag indexFilename).
  eapply spec_openFileStream; [apply _|done|done|apply entry_of_checksum|done|apply compare_checksum|].
  destruct (loadChecksums_text B) as (sums & Hsums & Hlook).
  { pose proof (entries_NoDup B) as Hnd. unfold entries in Hnd. rewrite fmap_app in Hnd.
    by apply NoDup_app in Hnd as [? _]. }
  { intros n d. by apply sum_entries_ok. }
  eapply spec_reads; [exact Hsums|].
  eapply spec_openFileStream; [apply _|done|done|apply entry_of_index|done|apply compare_ok|].
  { by split. }
  { done. }
  { apply Hlook. unfold sum_entries. set_solver. }
  eapply spec_reads; [by apply initBuckets_dump|].
  eapply spec_mono; [apply (spec_loadBuckets B); try done| |done].
  - intros id sh Hin%elem_of_miter. apply lookup_fmap_Some in Hin as (b & <- & Hb). by exists b.
  - intros r s' [Hr ->]. split; [|done]. apply map_eq. intros id. rewrite Hr, lookup_fmap.
    case_decide as Hin; [done|]. destruct (B !! id) as [b|] eqn:E; [|done]. exfalso. apply Hin.
    apply list_elem_of_fmap. exists (id, bucket_shell b). split; [done|]. apply elem_of_miter.
    by rewrite lookup_fmap, E.
Qed.

(** ** Clearing out other files *)

Lemma sdrop_lacks c k x : lacks c x → lacks c (sdrop k x).
Proof.
  revert x. induction k as [|k IH]; intros [|d x] Hx; try done. apply lacks_cons in Hx as [_ Hx].
  by apply IH.
Qed.

(** A file that [deleteNonIndexedFile] deletes is not a primary file. *)
Lemma deleted_not_primary B x :
  storable_buckets B →
  isSpecialDatabaseEntry x = false →
  (String.length x < 1 ∨ stake 1 x ≠ bucketFilenamePrefix ∨
   im_hasBucket (mkInMemory B) (sdrop 1 x) = false) →
  path x ∉ (primary B).*1.
Proof.
  intros HB Hsp Hx (n & ->%path_inj & Hn)%primary_names. unfold isSpecialDatabaseEntry in Hsp.
  apply orb_false_iff in Hsp as [H1%bool_decide_eq_false H2%bool_decide_eq_false].
  apply list_elem_of_fmap in Hn as ([n' d] & -> & [(id & b & -> & _ & Hb)|[[-> _]|[-> _]]]%elem_of_entries);
    cbn [fst] in *; [|done..].
  destruct Hx as [Hx|[Hx|Hx]]; [rewrite str_length_app in Hx; cbn in Hx; lia|by apply Hx|].
  change (sdrop 1 (bucketFilenamePrefix +:+ id)) with id in Hx. unfold im_hasBucket in Hx.
  apply bool_decide_eq_false in Hx. apply Hx. by exists b.
Qed.

Lemma spec_deleteNonIndexedFile B x s :
  storable_buckets B → committed s B → lacks "000" x →
  spec (deleteNonIndexedFile m_dbPath (im_hasBucket (mkInMemory B)) x)
    (λ _ s', committed s' B ∧
       (f_dir s' = f_dir s ∨ f_dir s' = delete (path x) (f_dir s)) ∧
       ∀ n, base n → x = n +:+ "~" → f_dir s' !! bpath n = None)
    (λ s', committed s' B) s.
Proof.
  intros HB [Hst Hg] Hx. unfold deleteNonIndexedFile.
  assert (∀ n, base n → x = n +:+ "~" → bpath n = path x) as Hbx by by intros n _ ->.
  assert (isSpecialDatabaseEntry x = false → (String.length x < 1 ∨ stake 1 x ≠ bucketFilenamePrefix ∨
      im_hasBucket (mkInMemory B) (sdrop 1 x) = false) →
    spec (deleteHardLink (m_dbPath +:+ x)) (λ _ s', committed s' B ∧
       (f_dir s' = f_dir s ∨ f_dir s' = delete (path x) (f_dir s)) ∧
       ∀ n, base n → x = n +:+ "~" → f_dir s' !! bpath n = None) (λ s', committed s' B) s) as Hdel.
  { intros Hsp Hp. apply deleted_not_primary in Hp; [|done..]. fold (path x).
    apply spec_deleteHardLink; [done| |]; rewrite c_str_path by done.
    - intros i _. split_and!.
      + split; [by apply stored_unbind|by apply durably_unbind_None].
      + by right.
      + intros n Hn ->%Hbx; [|done]. cbn. by rewrite lookup_delete_eq.
    - intros Hnone. split_and!; [done|by left|]. intros n Hn ->%Hbx; [done|done]. }
  unfold deleteNonIndexedFile in *.
  destruct (isSpecialDirectory x || isSpecialDatabaseEntry x) eqn:Esp.
  { apply spec_ret. split_and!; [done|by left|]. intros n _ ->. exfalso.
    assert (∀ y, lacks "~" y → bool_decide (y = n +:+ "~") = false) as Hne.
    { intros y Hy. apply bool_decide_eq_false. intros ->. rewrite lacks_app in Hy. by destruct Hy. }
    unfold isSpecialDirectory, isSpecialDatabaseEntry in Esp. by rewrite !Hne in Esp. }
  apply orb_false_iff in Esp as [_ Esp].
  destruct (Nat.ltb_spec (String.length x) (String.length bucketFilenamePrefix)) as [Hl|_].
  { apply Hdel; [done|by left]. }
  case_bool_decide as Hpre; [apply Hdel; [done|right; by left]|].
  destruct (im_hasBucket (mkInMemory B) (sdrop (String.length bucketFilenamePrefix) x)) eqn:Ehas;
    [|apply Hdel; [done|by right; right]].
  apply spec_ret. split_and!; [done|by left|]. intros [|c n] _ ->.
  { by vm_compute in Hpre. }
  exfalso. unfold im_hasBucket in Ehas. apply bool_decide_eq_true in Ehas as [b Hb].
  destruct (HB _ _ Hb) as [Hid [[[_ Hv] _] _]]. apply (idValid_lacks "~") in Hv; [|done].
  rewrite Hid in Hv. change (lacks "~" (n +:+ "~")) in Hv. rewrite lacks_app in Hv. by destruct Hv.
Qed.

Lemma spec_deleteNonIndexedFiles B s :
  storable_buckets B → committed s B →
  spec (deleteNonIndexedFiles (HO:=HOi) m_dbPath (im_hasBucket (mkInMemory B)))
    (λ _ s', committed s' B ∧ clean s') (λ s', committed s' B) s.
Proof.
  intros HB Hs. unfold deleteNonIndexedFiles, sys_readdir.
  apply spec_sys; [done|by eexists|]. cbn [fst snd].
  set (l := "." :: ".." :: _).
  set (I := λ (pre : list string) s', committed s' B ∧
    ∀ n, base n → f_dir s' !! bpath n = None ∨
      (¬ (n +:+ "~") ∈ pre ∧ f_dir s' !! bpath n = f_dir s !! bpath n)).
  eapply spec_mono; [apply (spec_forEach _ _ I (λ s', committed s' B)); [apply _|..]| |done].
  - split; [done|]. intros n Hn. right. split; [set_solver|done].
  - intros pre x post s' Hsplit [Hs' Hn].
    assert (lacks "000" x) as Hx.
    { assert (x ∈ l) as Hin by (rewrite Hsplit; set_solver). unfold l in Hin.
      rewrite !elem_of_cons in Hin. destruct Hin as [->|[->|Hin]]; [done|done|].
      apply list_elem_of_fmap in Hin as (y & -> & (z & -> & _)%list_elem_of_fmap).
      apply sdrop_lacks, c_str_lacks. }
    eapply spec_mono; [by apply (spec_deleteNonIndexedFile B)| |done].
    intros [] s'' (Hs'' & Hd & Hgone). split; [done|]. intros n Hb.
    destruct (decide (x = n +:+ "~")) as [Hxn|Hxn]; [left; by apply Hgone|].
    assert (f_dir s'' !! bpath n = f_dir s' !! bpath n) as ->.
    { destruct Hd as [->| ->]; [done|]. apply lookup_delete_ne. by intros ?%path_inj. }
    destruct (Hn n Hb) as [|[Hnp Heq]]; [by left|]. right. split; [|done].
    rewrite elem_of_app, list_elem_of_singleton. intros [?|<-]; done.
  - intros [] s' [Hs' Hn]. split; [done|]. intros n Hb.
    destruct (Hn n Hb) as [|[Hnl ->]]; [done|]. apply eq_None_not_Some. intros [i Hi].
    apply Hnl. unfold l. do 2 right. apply list_elem_of_fmap. exists (c_str (bpath n)).
    rewrite c_str_bpath by done. split; [unfold bpath; by rewrite sdrop_app|].
    apply list_elem_of_fmap. exists (bpath n). rewrite c_str_bpath by done. split; [done|].
    apply list_elem_of_fmap. exists (bpath n, i). split; [done|]. by apply elem_of_miter.
Qed.

(** ** [load] *)

(** Loading a disk that determines [B] returns [B] and leaves [B] committed; cut anywhere it
    leaves a disk that still determines [B]. *)
Lemma spec_im_load B s :
  storable_buckets B → is_Some (B !! defaultPolicyBucketId) →
  on_disk s B →
  spec (im_load (HO:=HOi) m_dbPath) (λ b s', b = mkInMemory B ∧ committed s' B ∧ clean s')
    (λ s', recovering s' B) s.
Proof.
  intros HB Hdef Hs. unfold im_load.
  assert (recovering s B) as Hrec by (destruct Hs; [right; by left|by left]).
  spec_seq (λ flag s', s' = s ∧ stored s (files B flag) ∧
    if flag : bool then pending s B else committed s B).
  { unfold backupGuardExists, sys_stat. fold (path guardFilename). fold guard.
    apply spec_sys; [done|by eexists|]. cbn [fst snd].
    assert (c_str guard = guard) as -> by apply c_str_path, base_guard.
    destruct Hs as [[Hst Hg]|[Hst [i Hg]]]; rewrite (durably_dir _ _ _ Hg).
    - rewrite decide_False by (by intros [? ?]). apply spec_ret. by rewrite files_false.
    - rewrite decide_True by done. apply spec_ret. split_and!; [done|done|]. split; [done|by exists i]. }
  intros flag s' (-> & Hst & Hflag).
  spec_try (λ r s', r = B ∧ s' = s); [by apply spec_readDatabase| |].
  { intros e. destruct (isDatabaseException e); by eexists. }
  intros r s' [-> ->]. unfold im_hasBucket. cbn [m_buckets]. rewrite bool_decide_true by done.
  cbn [negb]. spec_seq (λ b s', b = mkInMemory B ∧ s' = s); [by apply spec_ret|].
  intros b s' [-> ->]. spec_seq (λ _ s', committed s' B ∧ clean s').
  { unfold postLoadCleanup. cbn [m_buckets]. spec_seq (λ _ s', committed s' B).
    - destruct flag; [|by apply spec_ret]. eapply spec_mono; [by apply spec_revalidate|by intros ?? []|done].
    - intros [] s' Hc. eapply spec_mono; [by apply spec_deleteNonIndexedFiles|done|].
      intros s'' H. by right; left. }
  intros [] s' H. by apply spec_ret.
Qed.

End Load.

End CrashSafety.
