(* ===== verification/PersistenceTheorems.v ===== *)
(** * What loading and saving promise

    Round trips of the database text, recovery after power failures, and what the code does
    not withstand: separators inside keys, a write that fails, a save after a failed save. *)
From S2P Require Import Prelude Text Types Bucket InMemoryStorageBackend.
From S2P Require Import Md5 StorageSerialization FileSystem Persistence CrashSafety.

(** ** Runs without faults end *)

Definition ends {A} (o : outcome A) : Prop := o ≠ OutOfFuel.

Lemma ends_bind {A B} (m : outcome A) (f : A → outcome B) :
  ends m → (∀ a, ends (f a)) → ends (m ≫= f).
Proof. unfold ends. destruct m; cbn; auto. Qed.
Lemma ends_ret {A} (a : A) : ends (Ret a).
Proof. done. Qed.
Lemma ends_throw {A} e : ends (Throw (A:=A) e).
Proof. done. Qed.
Lemma ends_withLineNumber {A} n (m : outcome A) : ends m → ends (withLineNumber n m).
Proof. unfold ends. by destruct m as [|[]|]. Qed.

Ltac solve_ends :=
  repeat first
    [ progress intros | apply ends_bind | apply ends_withLineNumber | apply ends_ret
    | apply ends_throw | case_match | progress cbn ].

Lemma parseToken_ends line n : ends (parseToken line n).
Proof. unfold parseToken. solve_ends. Qed.
Lemma parsePolicyType_ends line n : ends (parsePolicyType line n).
Proof. unfold parsePolicyType. solve_ends. Qed.
Lemma parseFeatures_ends n line k : ends (parseFeatures n line k).
Proof.
  revert k. induction n as [|n IH]; intros k; cbn; [done|].
  apply ends_bind; [apply parseToken_ends|]. intros []. apply ends_bind; [apply IH|]. by intros [].
Qed.
Lemma parse_policy_ends line : ends (parse_policy line).
Proof.
  unfold parse_policy, parseKey. apply ends_bind; [apply ends_bind; [apply parseFeatures_ends|by intros []]|].
  intros []. apply ends_bind; [apply parsePolicyType_ends|]. by intros [].
Qed.
Lemma loadPolicies_ends stream : ends (loadPolicies stream).
Proof.
  unfold loadPolicies. generalize 1 as k. induction (getlines _ stream) as [|line lines IH]; intros k; [done|].
  cbn [loadPolicies_from]. destruct line as [|c line]; [done|].
  apply ends_bind; [apply ends_withLineNumber, parse_policy_ends|]. intros p.
  apply ends_bind; [apply IH|]. done.
Qed.
Lemma initBuckets_ends stream : ends (initBuckets stream).
Proof.
  unfold initBuckets. generalize (∅ : Buckets) as b.
  induction (getlines _ stream) as [|line lines IH]; intros b; [done|].
  cbn [initBuckets_from]. destruct line as [|c line]; [done|]. unfold parseBucketId.
  apply ends_bind; [apply parseToken_ends|]. intros [].
  apply ends_bind; [apply parsePolicyType_ends|]. intros [].
  apply ends_bind; [|intros; apply IH]. unfold PolicyBucket_new, idValidator. solve_ends.
Qed.
Lemma loadChecksums_ends stream : ends (loadChecksums stream).
Proof.
  unfold loadChecksums. generalize (∅ : Checksums) as b, 1 as k.
  induction (getlines _ stream) as [|line lines IH]; intros b k; [done|].
  cbn [loadChecksums_from]. apply ends_bind; [|intros []; apply IH].
  apply ends_withLineNumber. unfold parse_checksum_line, parseFilename, parseChecksum. solve_ends.
Qed.

Lemma total_openFileStream p sums name flag : total (openFileStream p sums name flag).
Proof.
  unfold openFileStream, sys_open, sys_read. apply total_bind; [apply total_sys|].
  intros [fd|]; [|apply total_throw]. apply total_bind; [apply total_sys_sure|]. intros d.
  apply total_bind; [|intros; apply total_ret]. apply total_reads. unfold compare. solve_ends.
  all: done.
Qed.

Lemma total_loadBuckets opener l acc :
  (∀ id, total (opener id)) → total (loadBuckets opener l acc).
Proof.
  intros Ho. revert acc. induction l as [|[id b] l IH]; intros acc; cbn; [apply total_ret|].
  apply total_bind; [apply Ho|]. intros [s|]; [|apply total_throw].
  apply total_bind; [apply total_reads, loadPolicies_ends|]. intros ps. apply IH.
Qed.

Lemma total_readDatabase `{HashOrder} p flag : total (readDatabase p flag).
Proof.
  unfold readDatabase. apply total_bind; [apply total_openFileStream|]. intros chs.
  apply total_bind; [apply total_reads, loadChecksums_ends|]. intros sums.
  apply total_bind; [apply total_openFileStream|]. intros idx.
  apply total_bind; [apply total_reads, initBuckets_ends|]. intros bs.
  apply total_loadBuckets. intros id. unfold bucketStreamOpener. apply total_tryCatch.
  - apply total_bind; [apply total_openFileStream|]. intros. apply total_ret.
  - intros e. destruct (isFileNotFound e); [apply total_ret|apply total_throw].
Qed.

Lemma total_revalidate `{HashOrder} p B : total (revalidatePrimaryDatabase p B).
Proof.
  unfold revalidatePrimaryDatabase, createPrimaryHardLinks, syncDatabase, deleteBackupHardLinks,
    relink, syncFile, syncElement, syncDirectory, deleteHardLink, createHardLink,
    sys_open, sys_fsync, sys_fsync_dir, sys_close, sys_link, sys_unlink.
  solve_total.
Qed.

Lemma total_im_load `{HashOrder} p : total (im_load p).
Proof.
  unfold im_load. apply total_bind; [unfold backupGuardExists, sys_stat; solve_total|].
  intros flag. apply total_bind.
  { apply total_tryCatch; [apply total_readDatabase|]. intros e.
    destruct (isDatabaseException e); apply total_throw. }
  intros B. apply total_bind.
  { destruct (negb _); [|apply total_ret]. apply total_bind; [|intros; apply total_ret].
    by apply total_reads. }
  intros b. apply total_bind; [|intros; apply total_ret]. unfold postLoadCleanup.
  apply total_bind; [destruct flag; [apply total_revalidate|apply total_ret]|].
  intros []. unfold deleteNonIndexedFiles, sys_readdir. apply total_bind; [apply total_sys|].
  intros [l|]; [|apply total_throw]. apply total_forEach. intros x.
  unfold deleteNonIndexedFile, deleteHardLink, sys_unlink. solve_total.
Qed.

Lemma total_im_save `{HashOrder} p b : total (im_save p b).
Proof.
  unfold im_save. apply total_bind; [|intros []; apply total_bind; [|intros []; apply total_bind]].
  - unfold saveBackup, dumpDatabase, dumpBucketFile, openDumpFileStream, sys_open_trunc, closeStream.
    solve_total.
  - unfold syncDatabase, syncFile, syncElement, syncDirectory, sys_open, sys_fsync, sys_fsync_dir, sys_close.
    solve_total.
  - unfold createBackupGuard, syncElement, syncDirectory, sys_open_excl, sys_fsync, sys_fsync_dir, sys_close.
    solve_total.
  - intros []. apply total_revalidate.
Qed.

(** ** Round trips of the text *)

(** C33: A bucket file reads back: parsing the dumped text gives the policies of the bucket, and
    inserting them into the empty bucket of the index rebuilds the bucket, if keys have no
    separators and metadata no line breaks. *)
Theorem bucket_file_roundtrip `{HashOrder} b :
  storable_bucket b →
  loadPolicies (dump_bucket b) = Ret (bucket_policies b) ∧
  load_into (bucket_shell b) (bucket_policies b) = b.
Proof. intros Hb. split; [by apply loadPolicies_dump|by apply load_into_dumped]. Qed.

(** The index file reads back: it restores the ids and the defaults of all the buckets. *)
Theorem index_file_roundtrip `{HashOrder} buckets :
  storable_buckets buckets →
  initBuckets (dump_index buckets) = Ret (bucket_shell <$> buckets).
Proof. apply initBuckets_dump. Qed.

(** A rule that denies the client [app;*] the privilege [FFFF]. *)
Definition odd_rule : Policy := simpleWithKey (PolicyKey_of "app;*" "*" "FFFF") DENY.

(** Separators in keys are not escaped: the deny rule of a client [app;*] reads back as a rule
    that allows the client [app] everything. *)
Theorem unescaped_separator :
  loadPolicies (dump_policy odd_rule) =
    Ret [mkPolicy (PolicyKey_of "app" "*" "*") (mkPolicyResult ALLOW "0x0;")].
Proof. by vm_compute. Qed.

(** ** Power failures *)

Definition at_disk (dbDir : string) : string := dbDir +:+ "/".

(** Without faults, loading returns the database that the disk determines. *)
Lemma load_determined {HO HO' : HashOrder} dbDir B s :
  lacks "000" dbDir → storable_buckets B → is_Some (B !! defaultPolicyBucketId) → on_disk (HO:=HO) dbDir s B →
  ∃ k s', ∀ n, k ≤ n → im_load (HO:=HO') (at_disk dbDir) (mkWorld s (replicate n Works) false) =
    (Ret (mkInMemory B), mkWorld s' (replicate (n - k) Works) false).
Proof.
  intros Hdir HB Hdef Hon.
  destruct (spec_total _ _ _ _ (total_im_load (at_disk dbDir)) (spec_im_load (HOi:=HO') (HOd:=HO) dbDir Hdir B s HB Hdef Hon))
    as (k & b & s' & [-> _] & Hrun).
  by exists k, s'.
Qed.

(** A power failure during or after a [save] whose writes have not been lost. *)
Lemma save_ends {HO : HashOrder} dbDir B B' s plan s' :
  lacks "000" dbDir → storable_buckets B → storable_buckets B' → committed dbDir s B → clean dbDir s →
  let run := im_save (at_disk dbDir) (mkInMemory B') (mkWorld s plan false) in
  w_lost run.2 = false → crash (w_fs run.2) s' → on_disk dbDir s' B' ∨ on_disk dbDir s' B ∧ run.1 ≠ Ret tt.
Proof.
  intros Hdir HB HB' Hs Hclean run Hlost Hcrash.
  pose proof (spec_im_save dbDir Hdir B B' s HB HB' Hs Hclean plan) as Hsave.
  fold (at_disk dbDir) in Hsave. fold run in Hsave. destruct run as [r [s1 plan1 l]]. cbn in *.
  specialize (Hsave Hlost). destruct r as [[]|e|]; cbn in *.
  - destruct Hsave as ([Hc _] & _). left. left. by eapply committed_crash.
  - destruct Hsave as [He _]. destruct (either_crash _ _ _ _ _ Hcrash He) as [Hon|Hon]; [by right|by left].
  - destruct (either_crash _ _ _ _ _ Hcrash Hsave) as [Hon|Hon]; [by right|by left].
Qed.

(** C9: From a directory that holds the database [B] and no leftovers of a failed save, [save]
    replaces [B] by [B'] atomically: whatever system calls fail with an error that [save] is
    told, and wherever the power fails, loading after the power failure returns [B] or [B'],
    and [B'] if [save] had returned.  Both databases must be storable (no separators in keys,
    no line breaks in metadata) and have the default bucket, and no write of a stream may
    have failed: [save] does not notice that (full_disk_loses_database). *)
Theorem save_crash_safe {HO HO' : HashOrder} dbDir B B' s plan s' :
  lacks "000" dbDir →
  storable_buckets B → storable_buckets B' →
  is_Some (B !! defaultPolicyBucketId) → is_Some (B' !! defaultPolicyBucketId) →
  committed (HO:=HO) dbDir s B → clean dbDir s →
  let run := im_save (HO:=HO) (at_disk dbDir) (mkInMemory B') (mkWorld s plan false) in
  w_lost run.2 = false →
  crash (w_fs run.2) s' →
  ∃ k B'' s'', (B'' = B' ∨ B'' = B ∧ run.1 ≠ Ret tt) ∧
    ∀ n, k ≤ n → im_load (HO:=HO') (at_disk dbDir) (mkWorld s' (replicate n Works) false) =
      (Ret (mkInMemory B''), mkWorld s'' (replicate (n - k) Works) false).
Proof.
  intros Hdir HB HB' Hdef Hdef' Hs Hclean run Hlost Hcrash.
  destruct (save_ends dbDir B B' s plan s' Hdir HB HB' Hs Hclean Hlost Hcrash) as [Hon|[Hon Hret]].
  - destruct (load_determined dbDir B' s' Hdir HB' Hdef' Hon) as (k & s'' & Hk). exists k, B', s''. split; [by left|done].
  - destruct (load_determined dbDir B s' Hdir HB Hdef Hon) as (k & s'' & Hk). exists k, B, s''. split; [by right|done].
Qed.

(** C31: [load] never makes things worse: if the disk determines [B], then after [load], completed
    or not, and a power failure, it still does; completed, [load] has returned [B] and left
    the directory ready for the next [save]. *)
Theorem load_crash_safe {HO HO' : HashOrder} dbDir B s plan :
  lacks "000" dbDir → storable_buckets B → is_Some (B !! defaultPolicyBucketId) →
  on_disk (HO:=HO) dbDir s B →
  let run := im_load (HO:=HO') (at_disk dbDir) (mkWorld s plan false) in
  (∀ s', crash (w_fs run.2) s' → on_disk (HO:=HO) dbDir s' B) ∧
  (∀ b, run.1 = Ret b →
     b = mkInMemory B ∧ committed (HO:=HO) dbDir (w_fs run.2) B ∧ clean dbDir (w_fs run.2)).
Proof.
  intros Hdir HB Hdef Hs run.
  pose proof (spec_im_load (HOi:=HO') (HOd:=HO) dbDir Hdir B s HB Hdef Hs plan) as Hload.
  fold (at_disk dbDir) in Hload.
  pose proof (kept_im_load (at_disk dbDir) false (mkWorld s plan false) eq_refl) as Hlost.
  fold run in Hload, Hlost. destruct run as [r [s1 plan1 l]]. unfold lost in Hlost. cbn in *.
  specialize (Hload Hlost). destruct r as [b|e|]; cbn in *.
  - destruct Hload as ((-> & Hc & Hcl) & _). split; [|by intros b [= <-]].
    intros s' Hcr. left. by eapply committed_crash.
  - split; [|done]. intros s' Hcr. destruct Hload as [Hr _]. by eapply recovering_crash.
  - split; [|done]. intros s' Hcr. by eapply recovering_crash.
Qed.

(** C32: Without faults [save] returns, the new database is committed, and the directory is ready for
    the next [save]. *)
Theorem save_returns {HO : HashOrder} dbDir B B' s :
  lacks "000" dbDir → storable_buckets B → storable_buckets B' →
  committed dbDir s B → clean dbDir s →
  ∃ k s', committed dbDir s' B' ∧ clean dbDir s' ∧
    ∀ n, k ≤ n → im_save (at_disk dbDir) (mkInMemory B') (mkWorld s (replicate n Works) false) =
      (Ret tt, mkWorld s' (replicate (n - k) Works) false).
Proof.
  intros Hdir HB HB' Hs Hcl.
  destruct (spec_total _ _ _ _ (total_im_save (at_disk dbDir) (mkInMemory B'))
    (spec_im_save dbDir Hdir B B' s HB HB' Hs Hcl)) as (k & [] & s' & [Hc Hcl'] & Hrun).
  by exists k, s'.
Qed.

(** ** A concrete disk *)

Definition old_db : Buckets := {[ "" := mkPolicyBucket ∅ PolicyResult_default "" ]}.
Definition new_db : Buckets :=
  list_to_map
    [("", insertPolicy_bucket (bucketWithKey (PolicyKey_of "*" "*" "camera") "sys")
            (mkPolicyBucket ∅ PolicyResult_default ""));
     ("sys", insertPolicy_bucket (simpleWithKey (PolicyKey_of "app" "*" "camera") ALLOW)
            (mkPolicyBucket ∅ (PolicyResult_of DENY) "sys"))].

(** A directory with the given files, all on disk. *)
Definition disk_of (fls : list (string * string)) : fs :=
  let numbered := zip (seq 0 (length fls)) fls in
  mkFs (list_to_map ((λ inf, (inf.2.1, inf.1)) <$> numbered)) []
    (list_to_map ((λ inf, (inf.1, mkInode inf.2.2 true)) <$> numbered)).
Definition old_disk : fs := disk_of (primary "/db" old_db).

#[global] Instance inode_eq_dec : EqDecision inode.
Proof. solve_decision. Defined.

Definition storedb (s : fs) (fls : list (string * string)) : bool :=
  forallb (λ nd, match f_dir s !! nd.1 with
    | Some i => bool_decide (f_inodes s !! i = Some (mkInode nd.2 true)) &&
        bool_decide (Forall (λ d : directory, d !! nd.1 = Some i) (f_dirs s))
    | None => false end) fls.

Lemma storedb_stored s fls : storedb s fls = true → stored s fls.
Proof.
  unfold storedb. rewrite forallb_forall. intros H nm d Hin%list_elem_of_In.
  specialize (H _ Hin). cbn in H. destruct (f_dir s !! nm) as [i|]; [|done].
  apply andb_true_iff in H as [H1%bool_decide_eq_true H2%bool_decide_eq_true].
  exists i. split; [|done]. unfold durably. by rewrite Forall_forall in H2.
Qed.

Lemma old_disk_committed : committed "/db" old_disk old_db.
Proof.
  split; [apply storedb_stored; by vm_compute|].
  intros d ->%list_elem_of_singleton. by vm_compute.
Defined.
Lemma old_disk_clean : clean "/db" old_disk.
Proof.
  intros n _. unfold old_disk, disk_of. cbn [f_dir]. apply not_elem_of_list_to_map_1.
  set (l := _ <$> _). intros H.
  assert (Forall (λ x, ∃ y, x = ("/db" +:+ "/") +:+ y ∧ lacks "~" y) l) as Hall.
  { subst l. vm_compute. repeat constructor; eexists (String _ _); split; reflexivity. }
  rewrite Forall_forall in Hall. destruct (Hall _ H) as (y & Hy & Hl).
  apply str_app_inj_length in Hy as [_ <-]; [|done]. rewrite lacks_app in Hl. by destruct Hl.
Defined.

(** Everything the kernel holds reaches the disk. *)
Definition flushed (s : fs) : fs := mkFs (f_dir s) [] (f_inodes s).
Lemma crash_flushed s : crash s (flushed s).
Proof. split; [|done|done]. intros name. exists (f_dir s). split; [by left|done]. Qed.

(** Write errors go unnoticed: when the disk is full and nothing can be written, [save] returns
    normally, with the good database replaced by empty files, and the next [load] reports a
    corrupted database. *)
Definition full_disk : list io :=
  [Works; Works; Works; Faults 0; Works; Faults 0; Faults 0; Faults 0] ++ replicate 52 Works.
Theorem full_disk_loses_database :
  ∃ s', committed "/db" old_disk old_db ∧ clean "/db" old_disk ∧
    im_save (at_disk "/db") (mkInMemory new_db) (mkWorld old_disk full_disk false) =
      (Ret tt, mkWorld s' [] true) ∧
    (im_load (at_disk "/db") (mkWorld s' (replicate 100 Works) false)).1 =
      Throw DatabaseCorruptedException.
Proof.
  exists (w_fs (im_save (at_disk "/db") (mkInMemory new_db) (mkWorld old_disk full_disk false)).2).
  split; [apply old_disk_committed|]. split; [apply old_disk_clean|]. split; by vm_compute.
Qed.

(** A save after a failed one is not crash safe: if a system call fails while the primary files
    are replaced, the guard stays; the next [save] truncates the backup files the guard
    vouches for, and a power failure then leaves a directory that cannot be loaded. *)
Theorem save_after_failed_save_unsafe :
  ∃ s1 s2, committed "/db" old_disk old_db ∧ clean "/db" old_disk ∧
    im_save (at_disk "/db") (mkInMemory new_db)
      (mkWorld old_disk (replicate 35 Works ++ [Faults 0]) false) =
      (Throw (UnexpectedErrorException EIO), mkWorld s1 [] false) ∧
    crash (w_fs (im_save (at_disk "/db") (mkInMemory new_db) (mkWorld s1 [Works] false)).2) s2 ∧
    (im_load (at_disk "/db") (mkWorld s2 (replicate 100 Works) false)).1 =
      Throw DatabaseCorruptedException.
Proof.
  set (s1 := w_fs (im_save (at_disk "/db") (mkInMemory new_db)
    (mkWorld old_disk (replicate 35 Works ++ [Faults 0]) false)).2).
  exists s1, (flushed (w_fs (im_save (at_disk "/db") (mkInMemory new_db) (mkWorld s1 [Works] false)).2)).
  split; [apply old_disk_committed|]. split; [apply old_disk_clean|].
  split; [by vm_compute|]. split; [apply crash_flushed|by vm_compute].
Qed.

(** ** Witnesses *)

Lemma bucket_file_roundtrip_witness :
  let b := default (mkPolicyBucket ∅ PolicyResult_default "") (new_db !! "sys") in
  loadPolicies (dump_bucket b) = Ret (bucket_policies b) ∧
  load_into (bucket_shell b) (bucket_policies b) = b.
Proof. apply bucket_file_roundtrip. decide_by_compute. Defined.

Lemma index_file_roundtrip_witness :
  initBuckets (dump_index new_db) = Ret (bucket_shell <$> new_db).
Proof. apply index_file_roundtrip. decide_by_compute. Defined.

(** The power fails while the primary files are being replaced. *)
Lemma save_crash_safe_witness :
  let run := im_save (at_disk "/db") (mkInMemory new_db)
    (mkWorld old_disk (replicate 35 Works) false) in
  run.1 = OutOfFuel ∧
  ∃ k B'' s'', (B'' = new_db ∨ B'' = old_db ∧ run.1 ≠ Ret tt) ∧
    ∀ n, k ≤ n →
      im_load (at_disk "/db") (mkWorld (flushed (w_fs run.2)) (replicate n Works) false) =
      (Ret (mkInMemory B''), mkWorld s'' (replicate (n - k) Works) false).
Proof.
  split; [by vm_compute|].
  apply (save_crash_safe "/db" old_db new_db old_disk (replicate 35 Works));
    [reflexivity|decide_by_compute|decide_by_compute|decide_by_compute|decide_by_compute
    |apply old_disk_committed|apply old_disk_clean|vm_compute; reflexivity|apply crash_flushed].
Defined.

Lemma load_crash_safe_witness :
  let run := im_load (at_disk "/db") (mkWorld old_disk (replicate 100 Works) false) in
  (∀ s', crash (w_fs run.2) s' → on_disk "/db" s' old_db) ∧
  (∀ b, run.1 = Ret b →
     b = mkInMemory old_db ∧ committed "/db" (w_fs run.2) old_db ∧ clean "/db" (w_fs run.2)).
Proof.
  apply (load_crash_safe "/db" old_db old_disk (replicate 100 Works));
    [reflexivity|decide_by_compute|decide_by_compute|left; apply old_disk_committed].
Defined.

Lemma save_returns_witness :
  ∃ k s', committed "/db" s' new_db ∧ clean "/db" s' ∧
    ∀ n, k ≤ n → im_save (at_disk "/db") (mkInMemory new_db)
        (mkWorld old_disk (replicate n Works) false) =
      (Ret tt, mkWorld s' (replicate (n - k) Works) false).
Proof.
  apply (save_returns "/db" old_db new_db old_disk);
    [reflexivity|decide_by_compute|decide_by_compute|apply old_disk_committed|apply old_disk_clean].
Defined.
