(* ===== verification/BinaryQueue.v ===== *)
(** * The byte queue ([common/containers/BinaryQueue])

    A list of buckets, each a buffer with the bytes not yet consumed at its end, and a
    running total.  The queue refines a byte string ([bytes]): appending adds at the end,
    [flatten] and [consume] take from the front. *)
From S2P Require Import Prelude Text.

(** ** Definitions *)

Module QBucket.
Record t := mk { buffer : string; ptr : nat; left : nat }.
End QBucket.

Record BinaryQueue := mkBinaryQueue { q_buckets : list QBucket.t; m_size : nat }.

Definition BinaryQueue_new : BinaryQueue := mkBinaryQueue [] 0.

(** The bytes of a bucket that are left. *)
Definition bucket_bytes (b : QBucket.t) : string :=
  stake (QBucket.left b) (sdrop (QBucket.ptr b) (QBucket.buffer b)).

Definition appendUnmanaged (buffer : string) : SE BinaryQueue unit := λ q,
  if String.length buffer =? 0 then (Ret tt, q)
  else (Ret tt, mkBinaryQueue (q_buckets q ++ [QBucket.mk buffer 0 (String.length buffer)])
                  (m_size q + String.length buffer)).

Definition appendCopy (buffer : string) : SE BinaryQueue unit := appendUnmanaged buffer.

Definition queue_clear : SE BinaryQueue unit := λ _, (Ret tt, BinaryQueue_new).
Definition queue_size (q : BinaryQueue) : nat := m_size q.
Definition queue_empty (q : BinaryQueue) : bool := m_size q =? 0.

(** The loop of [consume] over [bytesLeft]; the front of an empty list is undefined. *)
Fixpoint consumeLoop (fuel bytesLeft : nat) : SE BinaryQueue unit := λ q,
  match fuel with
  | 0 => (OutOfFuel, q)
  | S fuel' =>
      if bytesLeft =? 0 then (Ret tt, q)
      else match q_buckets q with
           | [] => (Throw UndefinedBehaviour, q)
           | front :: buckets =>
               let count := bytesLeft `min` QBucket.left front in
               let front := QBucket.mk (QBucket.buffer front) (QBucket.ptr front + count)
                              (QBucket.left front - count) in
               consumeLoop fuel' (bytesLeft - count)
                 (mkBinaryQueue (if QBucket.left front =? 0 then buckets else front :: buckets)
                    (m_size q - count))
           end
  end.

Definition consume (size : nat) : SE BinaryQueue unit := λ q,
  if m_size q <? size then (Throw (OutOfDataException (m_size q) size), q)
  else consumeLoop (S size) size q.

(** The loop of [flatten]: the bytes it copies. *)
Fixpoint flattenLoop (buckets : list QBucket.t) (bytesLeft : nat) : outcome string :=
  if bytesLeft =? 0 then Ret ""
  else match buckets with
       | [] => Throw UndefinedBehaviour
       | b :: buckets' =>
           let count := bytesLeft `min` QBucket.left b in
           rest ← flattenLoop buckets' (bytesLeft - count);
           Ret (stake count (sdrop (QBucket.ptr b) (QBucket.buffer b)) +:+ rest)
       end.

Definition flatten (q : BinaryQueue) (bufferSize : nat) : outcome string :=
  if bufferSize =? 0 then Ret ""
  else if m_size q <? bufferSize then Throw (OutOfDataException (m_size q) bufferSize)
  else flattenLoop (q_buckets q) bufferSize.

Definition flattenConsume (bufferSize : nat) : SE BinaryQueue string :=
  buffer ← reads (λ q, flatten q bufferSize);
  _ ← consume bufferSize;
  mret buffer.

Definition appendCopyFrom (other : BinaryQueue) : SE BinaryQueue unit :=
  bufferCopy ← reads (λ _, flatten other (m_size other));
  appendUnmanaged bufferCopy.

(** The queue after the move, and the emptied [other]. *)
Definition appendMoveFrom (q other : BinaryQueue) : BinaryQueue * BinaryQueue :=
  (mkBinaryQueue (q_buckets q ++ q_buckets other) (m_size q + m_size other), BinaryQueue_new).

(** [operator=] between distinct queues *)
Definition queue_assign (other : BinaryQueue) : SE BinaryQueue unit :=
  _ ← queue_clear;
  appendCopyFrom other.

(** ** The refinement *)

Definition buckets_bytes (bs : list QBucket.t) : string :=
  foldr (λ b s, bucket_bytes b +:+ s) "" bs.
Definition bytes (q : BinaryQueue) : string := buckets_bytes (q_buckets q).

Definition bucket_ok (b : QBucket.t) : Prop :=
  0 < QBucket.left b ∧ QBucket.ptr b + QBucket.left b = String.length (QBucket.buffer b).
Definition queue_ok (q : BinaryQueue) : Prop :=
  Forall bucket_ok (q_buckets q) ∧ m_size q = String.length (bytes q).

Lemma str_length_sdrop n s : String.length (sdrop n s) = String.length s - n.
Proof. revert s. induction n as [|n IH]; intros [|c s]; cbn; auto. Qed.

Lemma stake_ge n s : String.length s ≤ n → stake n s = s.
Proof.
  revert n. induction s as [|c s IH]; intros [|n] H; cbn in *; try done; [lia|].
  by rewrite IH by lia.
Qed.
Lemma stake_app_le n a b : n ≤ String.length a → stake n (a +:+ b) = stake n a.
Proof.
  revert n. induction a as [|c a IH]; intros [|n] H; cbn in *; try done; [lia|].
  rewrite str_app_cons. cbn. by rewrite IH by lia.
Qed.
Lemma stake_app_ge n a b :
  String.length a ≤ n → stake n (a +:+ b) = a +:+ stake (n - String.length a) b.
Proof.
  revert n. induction a as [|c a IH]; intros n H; cbn in *.
  - by rewrite !str_app_nil_l, Nat.sub_0_r.
  - destruct n as [|n]; [lia|]. rewrite !str_app_cons. cbn. by rewrite IH by lia.
Qed.
Lemma sdrop_app_le n a b : n ≤ String.length a → sdrop n (a +:+ b) = sdrop n a +:+ b.
Proof.
  revert n. induction a as [|c a IH]; intros [|n] H; cbn in *; try done; try lia.
  rewrite str_app_cons. cbn. by rewrite IH by lia.
Qed.
Lemma sdrop_app_ge n a b : String.length a ≤ n → sdrop n (a +:+ b) = sdrop (n - String.length a) b.
Proof.
  revert n. induction a as [|c a IH]; intros n H; cbn in *.
  - by rewrite str_app_nil_l, Nat.sub_0_r.
  - destruct n as [|n]; [lia|]. rewrite str_app_cons. cbn. by rewrite IH by lia.
Qed.
Lemma stake_stake n m s : n ≤ m → stake n (stake m s) = stake n s.
Proof.
  revert m s. induction n as [|n IH]; intros [|m] [|c s] H; cbn; try done; [lia|].
  by rewrite IH by lia.
Qed.
Lemma sdrop_stake n m s : sdrop n (stake (n + m) s) = stake m (sdrop n s).
Proof.
  revert s. induction n as [|n IH]; intros [|c s]; cbn; [done..|by destruct m|apply IH].
Qed.

Lemma length_bucket_bytes b : bucket_ok b → String.length (bucket_bytes b) = QBucket.left b.
Proof.
  intros [_ H]. unfold bucket_bytes. rewrite str_length_stake, str_length_sdrop. lia.
Qed.

Lemma buckets_bytes_app bs bs' : buckets_bytes (bs ++ bs') = buckets_bytes bs +:+ buckets_bytes bs'.
Proof.
  induction bs as [|b bs IH]; cbn; [by rewrite str_app_nil_l|]. unfold buckets_bytes in *.
  by rewrite IH, str_app_assoc.
Qed.

Lemma queue_ok_new : queue_ok BinaryQueue_new ∧ bytes BinaryQueue_new = "".
Proof. by split; [split|]. Qed.

Lemma appendUnmanaged_ok s q :
  queue_ok q →
  ∃ q', appendUnmanaged s q = (Ret tt, q') ∧ queue_ok q' ∧ bytes q' = bytes q +:+ s.
Proof.
  intros [Hb Hs]. unfold appendUnmanaged. destruct (Nat.eqb_spec (String.length s) 0) as [Hz|Hz].
  - exists q. apply str_length_nil in Hz as ->. by rewrite str_app_nil_r.
  - assert (buckets_bytes [QBucket.mk s 0 (String.length s)] = s) as Hn.
    { cbn. unfold bucket_bytes. cbn. by rewrite stake_all, str_app_nil_r. }
    eexists. split; [done|]. unfold queue_ok, bytes. cbn [q_buckets m_size].
    rewrite buckets_bytes_app, Hn, str_length_app. unfold bytes in Hs. rewrite Hs.
    split; [|done]. split; [|done]. apply Forall_app. split; [done|].
    apply Forall_singleton. split; cbn; lia.
Qed.

Lemma consumeLoop_ok fuel n q :
  n < fuel → queue_ok q → n ≤ String.length (bytes q) →
  ∃ q', consumeLoop fuel n q = (Ret tt, q') ∧ queue_ok q' ∧ bytes q' = sdrop n (bytes q).
Proof.
  revert n q. induction fuel as [|fuel IH]; intros n q Hf [Hb Hs] Hn; [lia|]. cbn [consumeLoop].
  destruct (Nat.eqb_spec n 0) as [->|Hz]; [by exists q|].
  destruct q as [[|b bs] size]; cbn [q_buckets m_size] in *; [cbn in Hn; lia|].
  apply Forall_cons in Hb as [Hbk Hb]. pose proof (length_bucket_bytes b Hbk) as Hl.
  unfold bytes in *. cbn [q_buckets] in *. change (buckets_bytes (b :: bs)) with
    (bucket_bytes b +:+ buckets_bytes bs) in *. rewrite str_length_app, Hl in Hs, Hn.
  destruct Hbk as [Hpos Hlen]. cbn [QBucket.left].
  destruct (decide (QBucket.left b ≤ n)) as [Hle|Hgt].
  - rewrite (Nat.min_r n) by done. rewrite Nat.sub_diag, Nat.eqb_refl.
    destruct (IH (n - QBucket.left b) (mkBinaryQueue bs (size - QBucket.left b))) as (q' & Hq & Hok & Hby).
    + lia.
    + split; [done|]. unfold bytes. cbn [q_buckets m_size]. lia.
    + unfold bytes. cbn [q_buckets]. lia.
    + exists q'. split_and!; [done..|]. rewrite Hby, sdrop_app_ge, Hl by lia. done.
  - rewrite (Nat.min_l n) by lia. destruct (Nat.eqb_spec (QBucket.left b - n) 0); [lia|].
    set (b' := QBucket.mk (QBucket.buffer b) (QBucket.ptr b + n) (QBucket.left b - n)).
    assert (bucket_ok b') as Hok' by (split; cbn; lia).
    assert (bucket_bytes b' = sdrop n (bucket_bytes b)) as Hb'.
    { unfold bucket_bytes, b'. cbn [QBucket.left QBucket.ptr QBucket.buffer].
      rewrite <-sdrop_sdrop. replace (QBucket.left b) with (n + (QBucket.left b - n)) at 2 by lia.
      by rewrite sdrop_stake. }
    destruct (IH (n - n) (mkBinaryQueue (b' :: bs) (size - n))) as (q' & Hq & Hok & Hby).
    + lia.
    + split; [by constructor|]. unfold bytes. cbn [q_buckets m_size].
      change (buckets_bytes (b' :: bs)) with (bucket_bytes b' +:+ buckets_bytes bs).
      rewrite str_length_app, length_bucket_bytes by done. cbn [QBucket.left b']. lia.
    + lia.
    + exists q'. split_and!; [done..|]. rewrite Hby, Nat.sub_diag, sdrop_0. unfold bytes. cbn [q_buckets].
      change (buckets_bytes (b' :: bs)) with (bucket_bytes b' +:+ buckets_bytes bs).
      rewrite Hb', sdrop_app_le by lia. done.
Qed.

Lemma consume_ok n q :
  queue_ok q → n ≤ String.length (bytes q) →
  ∃ q', consume n q = (Ret tt, q') ∧ queue_ok q' ∧ bytes q' = sdrop n (bytes q).
Proof.
  intros Hok Hn. unfold consume. rewrite (proj2 Hok).
  destruct (Nat.ltb_spec (String.length (bytes q)) n); [lia|]. apply consumeLoop_ok; [lia|done|done].
Qed.

Lemma flattenLoop_ok bs n :
  Forall bucket_ok bs → n ≤ String.length (buckets_bytes bs) →
  flattenLoop bs n = Ret (stake n (buckets_bytes bs)).
Proof.
  revert n. induction bs as [|b bs IH]; intros n Hb Hn; cbn [flattenLoop].
  { cbn in Hn. destruct (Nat.eqb_spec n 0) as [->|]; [done|lia]. }
  destruct (Nat.eqb_spec n 0) as [->|Hz]; [done|].
  apply Forall_cons in Hb as [Hbk Hb]. pose proof (length_bucket_bytes b Hbk) as Hl.
  change (buckets_bytes (b :: bs)) with (bucket_bytes b +:+ buckets_bytes bs) in *.
  rewrite str_length_app, Hl in Hn. rewrite IH by (try done; lia). cbn. f_equal.
  destruct (decide (QBucket.left b ≤ n)) as [Hle|Hgt].
  - rewrite Nat.min_r by done. rewrite stake_app_ge, Hl by lia. done.
  - rewrite Nat.min_l by lia. rewrite stake_app_le by lia. unfold bucket_bytes.
    rewrite stake_stake by lia. rewrite Nat.sub_diag. by rewrite str_app_nil_r.
Qed.

Lemma flatten_ok n q :
  queue_ok q → n ≤ String.length (bytes q) → flatten q n = Ret (stake n (bytes q)).
Proof.
  intros [Hb Hs] Hn. unfold flatten. destruct (Nat.eqb_spec n 0) as [->|Hz]; [done|].
  rewrite Hs. destruct (Nat.ltb_spec (String.length (bytes q)) n); [lia|]. by apply flattenLoop_ok.
Qed.

Lemma flattenConsume_ok n q :
  queue_ok q → n ≤ String.length (bytes q) →
  ∃ q', flattenConsume n q = (Ret (stake n (bytes q)), q') ∧ queue_ok q' ∧
    bytes q' = sdrop n (bytes q).
Proof.
  intros Hok Hn. destruct (consume_ok n q Hok Hn) as (q' & Hq & Hok' & Hb).
  exists q'. split; [|done]. unfold flattenConsume. rewrite !SE_bind_eq. unfold reads.
  rewrite flatten_ok by done. by rewrite SE_bind_eq, Hq.
Qed.

Lemma flattenConsume_short n q :
  queue_ok q → String.length (bytes q) < n →
  flattenConsume n q = (Throw (OutOfDataException (String.length (bytes q)) n), q).
Proof.
  intros [Hb Hs] Hn. unfold flattenConsume. rewrite SE_bind_eq. unfold reads, flatten.
  destruct (Nat.eqb_spec n 0); [lia|]. rewrite Hs.
  destruct (Nat.ltb_spec (String.length (bytes q)) n); [done|lia].
Qed.

Lemma appendMoveFrom_ok q other :
  queue_ok q → queue_ok other →
  queue_ok (appendMoveFrom q other).1 ∧ bytes (appendMoveFrom q other).1 = bytes q +:+ bytes other ∧
  queue_ok (appendMoveFrom q other).2 ∧ bytes (appendMoveFrom q other).2 = "".
Proof.
  intros [Hb Hs] [Hb' Hs']. unfold bytes, queue_ok. cbn. rewrite buckets_bytes_app, Hs, Hs'.
  rewrite str_length_app. split_and!; [|done..]. by apply Forall_app.
Qed.

Lemma appendCopyFrom_ok q other :
  queue_ok q → queue_ok other →
  ∃ q', appendCopyFrom other q = (Ret tt, q') ∧ queue_ok q' ∧ bytes q' = bytes q +:+ bytes other.
Proof.
  intros Hq Ho. unfold appendCopyFrom. rewrite SE_bind_eq. unfold reads. rewrite (proj2 Ho).
  rewrite flatten_ok, stake_all by done. by apply appendUnmanaged_ok.
Qed.
