(* ===== verification/Serialization.v ===== *)
(** * Field serialization ([common/protocol/ProtocolSerialization.h])

    [ProtocolSerialization] writes and [ProtocolDeserialization] reads little-endian
    integers, booleans, strings and vectors through an abstract stream [IStream].  The
    model keeps the abstraction: the definitions work on any state with an [IStream]
    instance, the lemmas on any instance that satisfies [IStreamLaws], and the frame
    classes discharge those laws.  [writes] and [reads_to] state what a writer appends and
    what a reader makes of it; every field has a pair of such lemmas. *)
From S2P Require Import Prelude Text Types BinaryQueue.

(** ** Little-endian bytes *)

(** The [n] low bytes of [v], in two's complement for a negative [v]. *)
Fixpoint le_bytes (n : nat) (v : Z) : string :=
  match n with
  | 0 => ""
  | S n' => String (ascii_of_N (Z.to_N (v mod 256))) (le_bytes n' (v / 256))
  end.

Fixpoint le_value (s : string) : Z :=
  match s with
  | EmptyString => 0
  | String c s' => (Z.of_N (N_of_ascii c) + 256 * le_value s')%Z
  end.

(** The signed reading of a [w]-bit pattern. *)
Definition to_signed (w v : Z) : Z :=
  if (v <? 2 ^ (w - 1))%Z then v else (v - 2 ^ w)%Z.
Definition wrap_signed (w v : Z) : Z := to_signed w (v mod 2 ^ w).
Definition wrap_unsigned (w v : Z) : Z := (v mod 2 ^ w)%Z.

Definition is_uint (w v : Z) : Prop := (0 ≤ v < 2 ^ w)%Z.
Definition is_int (w v : Z) : Prop := (- 2 ^ (w - 1) ≤ v < 2 ^ (w - 1))%Z.
#[global] Instance is_uint_dec w v : Decision (is_uint w v).
Proof. unfold is_uint. apply _. Defined.
#[global] Instance is_int_dec w v : Decision (is_int w v).
Proof. unfold is_int. apply _. Defined.

(** ** Streams *)

(** [IStream] *)
Class IStream (S : Type) := {
  stream_read : nat → SE S string;
  stream_write : string → SE S unit;
}.

Section fields.
Context {S : Type} `{IStream S}.

(** *** [ProtocolSerialization::serialize] *)
Definition serialize_u8 (v : Z) : SE S unit := stream_write (le_bytes 1 v).
Definition serialize_u16 (v : Z) : SE S unit := stream_write (le_bytes 2 v).
Definition serialize_u32 (v : Z) : SE S unit := stream_write (le_bytes 4 v).
Definition serialize_i32 (v : Z) : SE S unit := stream_write (le_bytes 4 v).
Definition serialize_u64 (v : Z) : SE S unit := stream_write (le_bytes 8 v).
Definition serialize_i64 (v : Z) : SE S unit := stream_write (le_bytes 8 v).
Definition serialize_bool (b : bool) : SE S unit := stream_write (le_bytes 1 (if b then 1 else 0)).
Definition serialize_opCode (v : Z) : SE S unit := stream_write (le_bytes 1 v).

Definition serialize_string (str : string) : SE S unit :=
  if CYNARA_MAX_ID_LENGTH <? String.length str then throw (InvalidProtocolException IdentifierTooLong)
  else stream_write (le_bytes 4 (Z.of_nat (String.length str))) ;; stream_write str.

Definition serializeNoSize (str : string) : SE S unit := stream_write str.

Definition serialize_vector {T} (serialize : T → SE S unit) (vec : list T) : SE S unit :=
  if CYNARA_MAX_VECTOR_SIZE <? length vec then throw (InvalidProtocolException IdentifierTooLong)
  else stream_write (le_bytes 4 (Z.of_nat (length vec))) ;; forEach vec serialize.

(** *** [ProtocolDeserialization::deserialize] *)
Definition deserialize_u8 : SE S Z := bytes ← stream_read 1; mret (le_value bytes).
Definition deserialize_u16 : SE S Z := bytes ← stream_read 2; mret (le_value bytes).
Definition deserialize_u32 : SE S Z := bytes ← stream_read 4; mret (le_value bytes).
Definition deserialize_i32 : SE S Z := bytes ← stream_read 4; mret (to_signed 32 (le_value bytes)).
Definition deserialize_u64 : SE S Z := bytes ← stream_read 8; mret (le_value bytes).
Definition deserialize_i64 : SE S Z := bytes ← stream_read 8; mret (to_signed 64 (le_value bytes)).
Definition deserialize_bool : SE S bool := bytes ← stream_read 1; mret (negb (le_value bytes =? 0)%Z).
Definition deserialize_opCode : SE S Z := bytes ← stream_read 1; mret (le_value bytes).

Definition deserialize_string : SE S string :=
  length ← deserialize_u32;
  if (Z.of_nat CYNARA_MAX_ID_LENGTH <? length)%Z
  then throw (InvalidProtocolException IdentifierTooLong)
  else stream_read (Z.to_nat length).

Definition deserialize_stringNoSize (length : nat) : SE S string :=
  if CYNARA_MAX_ID_LENGTH <? length then throw (InvalidProtocolException IdentifierTooLong)
  else stream_read length.

(** [for (i = 0; i < n; ++i) { T obj; deserialize(stream, obj); vec.push_back(obj); }] *)
Fixpoint deserialize_times {T} (n : nat) (deserialize : SE S T) : SE S (list T) :=
  match n with
  | 0 => mret []
  | Datatypes.S n' =>
      obj ← deserialize;
      rest ← deserialize_times n' deserialize;
      mret (obj :: rest)
  end.

Definition deserialize_vector {T} (deserialize : SE S T) : SE S (list T) :=
  length ← deserialize_u32;
  if (Z.of_nat CYNARA_MAX_VECTOR_SIZE <? length)%Z
  then throw (InvalidProtocolException IdentifierTooLong)
  else deserialize_times (Z.to_nat length) deserialize.
End fields.

(** ** Lemmas on bytes *)

Lemma le_bytes_length n v : String.length (le_bytes n v) = n.
Proof. revert v. induction n as [|n IH]; intros v; cbn; by rewrite ?IH. Qed.

Lemma le_value_le_bytes n v : le_value (le_bytes n v) = (v mod 2 ^ (8 * Z.of_nat n))%Z.
Proof.
  revert v. induction n as [|n IH]; intros v; cbn [le_bytes le_value]; [by rewrite Z.mod_1_r|].
  rewrite IH. pose proof (Z.mod_pos_bound v 256) as Hb.
  rewrite N_ascii_embedding by lia. rewrite Z2N.id by lia.
  replace (8 * Z.of_nat (S n))%Z with (8 + 8 * Z.of_nat n)%Z by lia.
  rewrite Z.pow_add_r by lia. change (2 ^ 8)%Z with 256%Z.
  rewrite Z.rem_mul_r by lia. lia.
Qed.

Lemma le_value_uint n w v : w = (8 * Z.of_nat n)%Z → is_uint w v → le_value (le_bytes n v) = v.
Proof. intros -> Hv. rewrite le_value_le_bytes. by apply Z.mod_small. Qed.

Lemma wrap_signed_int w v : (0 < w)%Z → is_int w v → wrap_signed w v = v.
Proof.
  intros Hw Hv. unfold wrap_signed, to_signed, is_int in *.
  assert (2 ^ w = 2 * 2 ^ (w - 1))%Z as Hp.
  { rewrite <-Z.pow_succ_r by lia. f_equal. lia. }
  assert (0 < 2 ^ (w - 1))%Z as Hpos by (apply Z.pow_pos_nonneg; lia).
  destruct (Z.ltb_spec v 0) as [Hneg|Hpos'].
  - rewrite <-(Z.mod_unique v (2 ^ w) (-1) (v + 2 ^ w)) by lia.
    destruct (Z.ltb_spec (v + 2 ^ w) (2 ^ (w - 1))); lia.
  - rewrite Z.mod_small by lia. destruct (Z.ltb_spec v (2 ^ (w - 1))); lia.
Qed.

Lemma is_int_wrap_signed w v : (0 < w)%Z → is_int w (wrap_signed w v).
Proof.
  intros Hw. unfold wrap_signed, to_signed, is_int in *.
  assert (2 ^ w = 2 * 2 ^ (w - 1))%Z as Hp.
  { rewrite <-Z.pow_succ_r by lia. f_equal. lia. }
  assert (0 < 2 ^ (w - 1))%Z as Hpos by (apply Z.pow_pos_nonneg; lia).
  pose proof (Z.mod_pos_bound v (2 ^ w)) as Hb.
  destruct (Z.ltb_spec (v mod 2 ^ w) (2 ^ (w - 1))); lia.
Qed.

(** ** Encodings *)

(** The bytes of consecutive fields. *)
Definition fields (es : list string) : string := foldr String.append "" es.

Definition enc_string (str : string) : string :=
  le_bytes 4 (Z.of_nat (String.length str)) +:+ str.
Definition enc_bool (b : bool) : string := le_bytes 1 (if b then 1 else 0).
Definition enc_vector {T} (enc : T → string) (vec : list T) : string :=
  fields (le_bytes 4 (Z.of_nat (length vec)) :: map enc vec).

(** A string short enough for the wire. *)
Definition id_ok (str : string) : Prop := String.length str ≤ CYNARA_MAX_ID_LENGTH.
#[global] Instance id_ok_dec str : Decision (id_ok str).
Proof. unfold id_ok. apply _. Defined.

Lemma fields_app es es' : fields (es ++ es') = fields es +:+ fields es'.
Proof.
  induction es as [|e es IH]; cbn; [by rewrite str_app_nil_l|].
  unfold fields in IH. by rewrite IH, str_app_assoc.
Qed.
Lemma fields_one e : fields [e] = e.
Proof. cbn. by rewrite str_app_nil_r. Qed.

(** ** Readers *)

Class ReadLaws (S T : Type) `{IStream S} := {
  rs_ok : S → Prop;
  (** the bytes that wait to be read *)
  rs_bytes : S → string;
  (** the part of the state that reading leaves alone *)
  rs_rest : S → T;
  stream_read_ok n s :
    rs_ok s → n ≤ String.length (rs_bytes s) →
    ∃ s', stream_read n s = (Ret (stake n (rs_bytes s)), s') ∧ rs_ok s' ∧
      rs_bytes s' = sdrop n (rs_bytes s) ∧ rs_rest s' = rs_rest s;
  stream_read_short n s :
    rs_ok s → String.length (rs_bytes s) < n →
    stream_read n s = (Throw (OutOfDataException (String.length (rs_bytes s)) n), s);
}.

Section readers.
Context {S T : Type} `{ReadLaws S T}.

(** On a stream that starts with [enc], [m] returns [f] of the untouched part of the state
    and consumes exactly [enc]. *)
Definition reads_with {A} (m : SE S A) (enc : string) (f : T → A) : Prop :=
  ∀ s rest, rs_ok s → rs_bytes s = enc +:+ rest →
    ∃ s', m s = (Ret (f (rs_rest s)), s') ∧ rs_ok s' ∧ rs_bytes s' = rest ∧
      rs_rest s' = rs_rest s.
Definition reads_to {A} (m : SE S A) (enc : string) (a : A) : Prop := reads_with m enc (λ _, a).

Lemma reads_ret {A} (a : A) : reads_to (mret a) "" a.
Proof. intros s rest Hok Hb. rewrite str_app_nil_l in Hb. by exists s. Qed.

Lemma reads_bind {A B} (m : SE S A) (k : A → SE S B) e e' a f :
  reads_to m e a → reads_with (k a) e' f → reads_with (m ≫= k) (e +:+ e') f.
Proof.
  intros Hm Hk s rest Hok Hb. rewrite str_app_assoc in Hb.
  destruct (Hm s _ Hok Hb) as (s1 & H1 & Hok1 & Hb1 & Hr1).
  destruct (Hk s1 _ Hok1 Hb1) as (s2 & H2 & Hok2 & Hb2 & Hr2).
  exists s2. split_and!; [|done..|by rewrite Hr2]. rewrite SE_bind_eq, H1, H2. by rewrite Hr1.
Qed.

Lemma reads_fields {A B} (m : SE S A) (k : A → SE S B) e es a f :
  reads_to m e a → reads_with (k a) (fields es) f → reads_with (m ≫= k) (fields (e :: es)) f.
Proof. apply reads_bind. Qed.

Lemma reads_raw str n : n = String.length str → reads_to (stream_read n) str str.
Proof.
  intros -> s rest Hok Hb. destruct (stream_read_ok (String.length str) s) as (s' & Hs & Hok' & Hb' & Hr).
  - done.
  - rewrite Hb, str_length_app. lia.
  - exists s'. rewrite Hs, Hb, stake_app. rewrite Hb, sdrop_app in Hb'. done.
Qed.

Lemma reads_value {A} n enc (g : string → A) a :
  String.length enc = n → g enc = a → reads_to (bytes ← stream_read n; mret (g bytes)) enc a.
Proof.
  intros <- <-. rewrite <-(str_app_nil_r enc) at 2. eapply reads_bind; [by apply reads_raw|].
  apply reads_ret.
Qed.

Lemma reads_uint n w v :
  w = (8 * Z.of_nat n)%Z → is_uint w v →
  reads_to (bytes ← stream_read n; mret (le_value bytes)) (le_bytes n v) v.
Proof.
  intros Hw Hv. apply (reads_value n _ le_value); [apply le_bytes_length|by eapply le_value_uint].
Qed.

Lemma reads_u8 v : is_uint 8 v → reads_to deserialize_u8 (le_bytes 1 v) v.
Proof. by apply reads_uint. Qed.
Lemma reads_opCode v : is_uint 8 v → reads_to deserialize_opCode (le_bytes 1 v) v.
Proof. by apply reads_uint. Qed.
Lemma reads_u16 v : is_uint 16 v → reads_to deserialize_u16 (le_bytes 2 v) v.
Proof. by apply reads_uint. Qed.
Lemma reads_u32 v : is_uint 32 v → reads_to deserialize_u32 (le_bytes 4 v) v.
Proof. by apply reads_uint. Qed.
Lemma reads_u64 v : is_uint 64 v → reads_to deserialize_u64 (le_bytes 8 v) v.
Proof. by apply reads_uint. Qed.

Lemma reads_i32 v : is_int 32 v → reads_to deserialize_i32 (le_bytes 4 v) v.
Proof.
  intros Hv. apply (reads_value 4 _ (λ b, to_signed 32 (le_value b))); [done|].
  rewrite le_value_le_bytes. by apply (wrap_signed_int 32).
Qed.
Lemma reads_i64 v : is_int 64 v → reads_to deserialize_i64 (le_bytes 8 v) v.
Proof.
  intros Hv. apply (reads_value 8 _ (λ b, to_signed 64 (le_value b))); [done|].
  rewrite le_value_le_bytes. by apply (wrap_signed_int 64).
Qed.
Lemma reads_bool b : reads_to deserialize_bool (enc_bool b) b.
Proof. apply (reads_value 1 _ (λ x, negb (le_value x =? 0)%Z)); by destruct b. Qed.

Lemma reads_string str : id_ok str → reads_to deserialize_string (enc_string str) str.
Proof.
  unfold id_ok, CYNARA_MAX_ID_LENGTH. intros Hl. unfold deserialize_string, enc_string.
  eapply reads_bind; [apply reads_u32; unfold is_uint; lia|].
  unfold CYNARA_MAX_ID_LENGTH. destruct (Z.ltb_spec (Z.of_nat 4096) (Z.of_nat (String.length str))); [lia|].
  apply reads_raw. lia.
Qed.

Lemma reads_times {A} (deserialize : SE S A) enc (l : list A) :
  (∀ a, a ∈ l → reads_to deserialize (enc a) a) →
  reads_to (deserialize_times (length l) deserialize) (fields (map enc l)) l.
Proof.
  induction l as [|a l IH]; intros Hr; cbn [length deserialize_times map]; [apply reads_ret|].
  eapply reads_fields; [apply Hr; set_solver|].
  rewrite <-(str_app_nil_r (fields _)). eapply reads_bind; [apply IH; set_solver|]. apply reads_ret.
Qed.

Lemma reads_vector {A} (deserialize : SE S A) enc (l : list A) :
  length l ≤ CYNARA_MAX_VECTOR_SIZE → (∀ a, a ∈ l → reads_to deserialize (enc a) a) →
  reads_to (deserialize_vector deserialize) (enc_vector enc l) l.
Proof.
  unfold CYNARA_MAX_VECTOR_SIZE. intros Hl Hr. unfold deserialize_vector, enc_vector.
  eapply reads_fields; [apply reads_u32; unfold is_uint; lia|].
  unfold CYNARA_MAX_VECTOR_SIZE. destruct (Z.ltb_spec (Z.of_nat 4096) (Z.of_nat (length l))); [lia|].
  rewrite Nat2Z.id. by apply reads_times.
Qed.
End readers.

(** ** Writers *)

Class WriteLaws (S T : Type) `{IStream S} := {
  ws_ok : S → Prop;
  ws_bytes : S → string;
  ws_rest : S → T;
  stream_write_ok str s :
    ws_ok s →
    ∃ s', stream_write str s = (Ret tt, s') ∧ ws_ok s' ∧ ws_bytes s' = ws_bytes s +:+ str ∧
      ws_rest s' = ws_rest s;
}.

Section writers.
Context {S T : Type} `{WriteLaws S T}.

Definition writes (m : SE S unit) (enc : string) : Prop :=
  ∀ s, ws_ok s →
    ∃ s', m s = (Ret tt, s') ∧ ws_ok s' ∧ ws_bytes s' = ws_bytes s +:+ enc ∧ ws_rest s' = ws_rest s.

Lemma writes_raw str : writes (stream_write str) str.
Proof. intros s Hok. by apply stream_write_ok. Qed.

Lemma writes_none : writes (mret tt) "".
Proof. intros s Hok. exists s. by rewrite str_app_nil_r. Qed.

Lemma writes_seq m m' e e' : writes m e → writes m' e' → writes (m ;; m') (e +:+ e').
Proof.
  intros Hm Hm' s Hok. destruct (Hm s Hok) as (s1 & H1 & Hok1 & Hb1 & Hr1).
  destruct (Hm' s1 Hok1) as (s2 & H2 & Hok2 & Hb2 & Hr2).
  exists s2. rewrite SE_bind_eq, H1, H2, Hb2, Hb1, Hr2, Hr1. by rewrite str_app_assoc.
Qed.

Lemma writes_fields m m' e es :
  writes m e → writes m' (fields es) → writes (m ;; m') (fields (e :: es)).
Proof. apply writes_seq. Qed.
Lemma writes_last m e : writes m e → writes m (fields [e]).
Proof. by rewrite fields_one. Qed.

Lemma writes_string str : id_ok str → writes (serialize_string str) (enc_string str).
Proof.
  intros Hl. unfold serialize_string. unfold id_ok in Hl.
  destruct (Nat.ltb_spec CYNARA_MAX_ID_LENGTH (String.length str)); [lia|].
  apply writes_seq; apply writes_raw.
Qed.

Lemma writes_bool b : writes (serialize_bool b) (enc_bool b).
Proof. apply writes_raw. Qed.

Lemma writes_forEach {A} (serialize : A → SE S unit) enc (l : list A) :
  (∀ a, a ∈ l → writes (serialize a) (enc a)) →
  writes (forEach l serialize) (fields (map enc l)).
Proof.
  induction l as [|a l IH]; intros Hw; cbn [forEach map]; [apply writes_none|].
  apply writes_fields; [apply Hw|apply IH]; set_solver.
Qed.

Lemma writes_vector {A} (serialize : A → SE S unit) enc (l : list A) :
  length l ≤ CYNARA_MAX_VECTOR_SIZE → (∀ a, a ∈ l → writes (serialize a) (enc a)) →
  writes (serialize_vector serialize l) (enc_vector enc l).
Proof.
  intros Hl Hw. unfold serialize_vector.
  destruct (Nat.ltb_spec CYNARA_MAX_VECTOR_SIZE (length l)); [lia|].
  apply writes_fields; [apply writes_raw|by apply writes_forEach].
Qed.

(** Strings over the limit are refused before a byte is written. *)
Lemma serialize_string_long str s :
  ¬ id_ok str → serialize_string str s = (Throw (InvalidProtocolException IdentifierTooLong), s).
Proof.
  unfold id_ok, serialize_string. intros Hl.
  by destruct (Nat.ltb_spec CYNARA_MAX_ID_LENGTH (String.length str)); [|lia].
Qed.
End writers.
