(* ===== verification/Frame.v ===== *)
(** * Frames ([ProtocolFrameHeader], [ProtocolFrame], [ProtocolFrameSerializer])

    A message is a frame: the signature ["CPv1"], the frame's length (32 bits), a sequence
    number (16 bits), then the body.  A frame header object is also a stream: writing goes
    to its header queue, reading takes from the buffer [deserializeHeader] was given.

    [deserializeHeader] shares the connection's read buffer with the header by a
    [shared_ptr], and every call for one protocol object passes the same buffer; the model
    keeps that one queue in the header, as [m_frameHeaderContent].

    [awaits h s] says that [s] are the bytes received and not yet decoded, whether or not
    the header of the next frame was already taken out of the buffer. *)
From S2P Require Import Prelude Text Types BinaryQueue Serialization.

Record ProtocolFrameHeader := mkProtocolFrameHeader {
  m_frameHeaderContent : BinaryQueue;
  m_frameLength : Z;
  m_sequenceNumber : Z;
  m_headerComplete : bool;
  m_bodyComplete : bool;
}.

Definition m_signature : string := "CPv1".
Definition frameHeaderLength : nat := String.length m_signature + 4 + 2.

(** [ProtocolFrameHeader(headerContent)] *)
Definition ProtocolFrameHeader_new (headerContent : BinaryQueue) : ProtocolFrameHeader :=
  mkProtocolFrameHeader headerContent 0 0 false false.

Definition isHeaderComplete (h : ProtocolFrameHeader) : bool := m_headerComplete h.
Definition isFrameComplete (h : ProtocolFrameHeader) : bool :=
  m_headerComplete h && m_bodyComplete h.

Definition setHeaderContent (q : BinaryQueue) (h : ProtocolFrameHeader) : ProtocolFrameHeader :=
  mkProtocolFrameHeader q (m_frameLength h) (m_sequenceNumber h) (m_headerComplete h) (m_bodyComplete h).
Definition setFrameLength (n : Z) (h : ProtocolFrameHeader) : ProtocolFrameHeader :=
  mkProtocolFrameHeader (m_frameHeaderContent h) n (m_sequenceNumber h) (m_headerComplete h) (m_bodyComplete h).
Definition setSequenceNumber (n : Z) (h : ProtocolFrameHeader) : ProtocolFrameHeader :=
  mkProtocolFrameHeader (m_frameHeaderContent h) (m_frameLength h) n (m_headerComplete h) (m_bodyComplete h).
Definition setHeaderComplete (h : ProtocolFrameHeader) : ProtocolFrameHeader :=
  mkProtocolFrameHeader (m_frameHeaderContent h) (m_frameLength h) (m_sequenceNumber h) true (m_bodyComplete h).
Definition setBodyComplete (h : ProtocolFrameHeader) : ProtocolFrameHeader :=
  mkProtocolFrameHeader (m_frameHeaderContent h) (m_frameLength h) (m_sequenceNumber h) (m_headerComplete h) true.
Definition resetState (h : ProtocolFrameHeader) : ProtocolFrameHeader :=
  mkProtocolFrameHeader (m_frameHeaderContent h) (m_frameLength h) (m_sequenceNumber h) false false.
(** [m_frameLength += size], on 32 bits *)
Definition increaseFrameLength (size : nat) (h : ProtocolFrameHeader) : ProtocolFrameHeader :=
  setFrameLength (wrap_unsigned 32 (m_frameLength h + Z.of_nat size)) h.

(** An operation on the header's queue. *)
Definition onContent {A} (m : SE BinaryQueue A) : SE ProtocolFrameHeader A := λ h,
  let '(r, q) := m (m_frameHeaderContent h) in (r, setHeaderContent q h).

#[global] Instance ProtocolFrameHeader_stream : IStream ProtocolFrameHeader := {
  stream_read num := onContent (flattenConsume num);
  stream_write bytes := onContent (appendCopy bytes);
}.

Record ProtocolFrame := mkProtocolFrame {
  frameHeader : ProtocolFrameHeader;
  m_frameBodyContent : BinaryQueue;
}.

#[global] Instance ProtocolFrame_stream : IStream ProtocolFrame := {
  stream_read num := λ f,
    let '(r, q) := flattenConsume num (m_frameBodyContent f) in (r, mkProtocolFrame (frameHeader f) q);
  stream_write bytes := λ f,
    match appendCopy bytes (m_frameBodyContent f) with
    | (Ret tt, q) => (Ret tt, mkProtocolFrame (increaseFrameLength (String.length bytes) (frameHeader f)) q)
    | (r, q) => (r, mkProtocolFrame (frameHeader f) q)
    end;
}.

(** ** [ProtocolFrameSerializer] *)

(** [data] is the header's queue (see above).  The subtraction is on the 64 bits of
    [size_t]. *)
Definition deserializeHeader : SE ProtocolFrameHeader unit :=
  let checkBody : SE ProtocolFrameHeader unit :=
    frameHeader ← get;
    if (wrap_unsigned 64 (m_frameLength frameHeader - Z.of_nat frameHeaderLength)
          <=? Z.of_nat (queue_size (m_frameHeaderContent frameHeader)))%Z
    then modify setBodyComplete else mret tt in
  frameHeader ← get;
  if isHeaderComplete frameHeader then checkBody
  else if queue_size (m_frameHeaderContent frameHeader) <? frameHeaderLength then mret tt
  else
    signature ← deserialize_stringNoSize (String.length m_signature);
    if negb (bool_decide (m_signature = signature))
    then throw (InvalidProtocolException InvalidSignature)
    else
      frameLength ← deserialize_u32;
      modify (setFrameLength frameLength) ;;
      sequenceNumber ← deserialize_u16;
      modify (setSequenceNumber sequenceNumber) ;;
      modify setHeaderComplete ;;
      checkBody.

Definition startSerialization (sequenceNumber : Z) : ProtocolFrame :=
  let header := ProtocolFrameHeader_new BinaryQueue_new in
  let header := setSequenceNumber sequenceNumber header in
  let header := increaseFrameLength frameHeaderLength header in
  mkProtocolFrame header BinaryQueue_new.

(** The header's three fields, written to the header's queue. *)
Definition serializeHeader : SE ProtocolFrameHeader unit :=
  frameHeader ← get;
  serializeNoSize m_signature ;;
  serialize_u32 (m_frameLength frameHeader) ;;
  serialize_u16 (m_sequenceNumber frameHeader).

Definition finishSerialization (frame : ProtocolFrame) : SE BinaryQueue unit := λ data,
  match serializeHeader (frameHeader frame) with
  | (Ret tt, header) =>
      let data := (appendMoveFrom data (m_frameHeaderContent header)).1 in
      let data := (appendMoveFrom data (m_frameBodyContent frame)).1 in
      (Ret tt, data)
  | (r, _) => (r, data)
  end.

(** The shape of every [execute] of a protocol: start a frame, write its fields, finish it
    into the response queue.  The frame is a local variable, gone when a field throws. *)
Definition serializeFrame (sequenceNumber : Z) (body : SE ProtocolFrame unit) :
    SE BinaryQueue unit := λ data,
  match body (startSerialization sequenceNumber) with
  | (Ret tt, frame) => finishSerialization frame data
  | (r, _) => (r, data)
  end.

(** The shape of every [extract...FromBuffer]: [None] is the null pointer, [switch] the
    cases of the switch on the operation code. *)
Definition extractFrame {A} (switch : Z → SE ProtocolFrameHeader A) :
    SE ProtocolFrameHeader (option A) :=
  deserializeHeader ;;
  frameHeader ← get;
  if isFrameComplete frameHeader then
    modify resetState ;;
    opCode ← deserialize_opCode;
    message ← switch opCode;
    mret (Some message)
  else mret None.

(** ** Laws of the streams *)

(** What reading a header leaves alone: length, sequence number and the two flags. *)
Definition header_fields (h : ProtocolFrameHeader) : Z * Z * bool * bool :=
  (m_frameLength h, m_sequenceNumber h, m_headerComplete h, m_bodyComplete h).

#[global, refine] Instance ProtocolFrameHeader_read_laws :
    ReadLaws ProtocolFrameHeader (Z * Z * bool * bool) := {
  rs_ok h := queue_ok (m_frameHeaderContent h);
  rs_bytes h := bytes (m_frameHeaderContent h);
  rs_rest := header_fields;
}.
Proof.
  - intros n h Hok Hn. destruct (flattenConsume_ok n _ Hok Hn) as (q & Hq & Hok' & Hb).
    cbn. unfold onContent. rewrite Hq. by eexists.
  - intros n h Hok Hn. cbn. unfold onContent. rewrite flattenConsume_short by done.
    by destruct h.
Defined.

#[global, refine] Instance ProtocolFrameHeader_write_laws :
    WriteLaws ProtocolFrameHeader (Z * Z * bool * bool) := {
  ws_ok h := queue_ok (m_frameHeaderContent h);
  ws_bytes h := bytes (m_frameHeaderContent h);
  ws_rest := header_fields;
}.
Proof.
  intros str h Hok. destruct (appendUnmanaged_ok str _ Hok) as (q & Hq & Hok' & Hb).
  cbn. unfold onContent, appendCopy. rewrite Hq. by eexists.
Defined.

#[global, refine] Instance ProtocolFrame_write_laws : WriteLaws ProtocolFrame (BinaryQueue * Z) := {
  ws_ok f := queue_ok (m_frameBodyContent f) ∧
    m_frameLength (frameHeader f) =
      wrap_unsigned 32 (Z.of_nat frameHeaderLength + Z.of_nat (String.length (bytes (m_frameBodyContent f))));
  ws_bytes f := bytes (m_frameBodyContent f);
  ws_rest f := (m_frameHeaderContent (frameHeader f), m_sequenceNumber (frameHeader f));
}.
Proof.
  intros str f [Hok Hl]. destruct (appendUnmanaged_ok str _ Hok) as (q & Hq & Hok' & Hb).
  cbn. unfold appendCopy. rewrite Hq. eexists. split_and!; [done|done| |done|done].
  cbn [frameHeader increaseFrameLength setFrameLength m_frameLength m_frameBodyContent].
  rewrite Hl, Hb, str_length_app. unfold wrap_unsigned.
  rewrite Zplus_mod_idemp_l, Nat2Z.inj_add.
  change frameHeaderLength with 10. f_equal. lia.
Defined.

(** ** Writing a frame *)

Definition frame_header (len seq : Z) : string :=
  fields [m_signature; le_bytes 4 len; le_bytes 2 seq].
Definition frame_bytes (seq : Z) (body : string) : string :=
  frame_header (Z.of_nat (frameHeaderLength + String.length body)) seq +:+ body.
(** The body fits the 32-bit length field. *)
Definition body_fits (body : string) : Prop :=
  (Z.of_nat (frameHeaderLength + String.length body) < 2 ^ 32)%Z.

Lemma frame_header_length len seq : String.length (frame_header len seq) = frameHeaderLength.
Proof. done. Qed.

Lemma serializeHeader_ok h :
  queue_ok (m_frameHeaderContent h) →
  ∃ h', serializeHeader h = (Ret tt, h') ∧ queue_ok (m_frameHeaderContent h') ∧
    bytes (m_frameHeaderContent h') =
      bytes (m_frameHeaderContent h) +:+ frame_header (m_frameLength h) (m_sequenceNumber h).
Proof.
  intros Hok. unfold serializeHeader. rewrite SE_bind_eq. cbn [get].
  assert (writes (S:=ProtocolFrameHeader) (serializeNoSize m_signature ;;
    serialize_u32 (m_frameLength h) ;; serialize_u16 (m_sequenceNumber h))
    (frame_header (m_frameLength h) (m_sequenceNumber h))) as Hw.
  { apply writes_fields; [apply writes_raw|].
    apply writes_fields; [apply writes_raw|]. apply writes_last, writes_raw. }
  destruct (Hw h Hok) as (h' & Hh & Hokh & Hbh & _).
  exists h'. done.
Qed.

Lemma serializeFrame_ok seq body enc data :
  writes body enc → body_fits enc → queue_ok data →
  ∃ data', serializeFrame seq body data = (Ret tt, data') ∧ queue_ok data' ∧
    bytes data' = bytes data +:+ frame_bytes seq enc.
Proof.
  intros Hw Hfit Hok. unfold serializeFrame.
  destruct (Hw (startSerialization seq)) as (f & Hf & [Hokf Hlen] & Hb & Hr).
  { split; [apply queue_ok_new|done]. }
  rewrite Hf. unfold finishSerialization. cbn [ws_bytes ws_rest ProtocolFrame_write_laws] in *.
  injection Hr as Hr1 Hr2. cbn in Hr1, Hr2.
  assert (bytes (m_frameBodyContent f) = enc) as Hbody by (rewrite Hb; apply str_app_nil_l).
  rewrite Hbody in Hlen. rewrite <-Nat2Z.inj_add in Hlen. unfold wrap_unsigned in Hlen.
  rewrite Z.mod_small in Hlen by (unfold body_fits in Hfit; lia).
  destruct (serializeHeader_ok (frameHeader f)) as (h & Hh & Hokh & Hbh).
  { rewrite Hr1. apply queue_ok_new. }
  rewrite Hh. rewrite Hr1, Hlen, Hr2 in Hbh.
  destruct (appendMoveFrom_ok data (m_frameHeaderContent h) Hok Hokh) as (Hok1 & Hb1 & _).
  destruct (appendMoveFrom_ok _ (m_frameBodyContent f) Hok1 Hokf) as (Hok2 & Hb2 & _).
  eexists. split; [done|]. split; [done|]. rewrite Hb2, Hb1, Hbh, Hbody. unfold frame_bytes.
  rewrite (proj2 queue_ok_new), str_app_nil_l. apply str_app_assoc.
Qed.

(** A writer that throws leaves the response queue as it was. *)
Lemma serializeFrame_throw seq body data e f :
  body (startSerialization seq) = (Throw e, f) → serializeFrame seq body data = (Throw e, data).
Proof. intros H. unfold serializeFrame. by rewrite H. Qed.

(** ** Reading a frame *)

(** The bytes received and not yet decoded. *)
Definition awaits (h : ProtocolFrameHeader) (s : string) : Prop :=
  queue_ok (m_frameHeaderContent h) ∧ m_bodyComplete h = false ∧
  if m_headerComplete h
  then is_uint 32 (m_frameLength h) ∧ is_uint 16 (m_sequenceNumber h) ∧
    s = frame_header (m_frameLength h) (m_sequenceNumber h) +:+ bytes (m_frameHeaderContent h)
  else s = bytes (m_frameHeaderContent h).

(** What is left of [deserializeHeader] when the header is known. *)
Definition body_arrived (h : ProtocolFrameHeader) : Prop :=
  (wrap_unsigned 64 (m_frameLength h - Z.of_nat frameHeaderLength)
    ≤ Z.of_nat (String.length (bytes (m_frameHeaderContent h))))%Z.
#[global] Instance body_arrived_dec h : Decision (body_arrived h).
Proof. unfold body_arrived. apply _. Defined.

Lemma reads_header_fields {A} (m : SE ProtocolFrameHeader A) enc (a : A) h rest :
  reads_to m enc a → queue_ok (m_frameHeaderContent h) →
  bytes (m_frameHeaderContent h) = enc +:+ rest →
  ∃ q, m h = (Ret a, setHeaderContent q h) ∧ queue_ok q ∧ bytes q = rest.
Proof.
  intros Hm Hok Hb. destruct (Hm h rest Hok Hb) as (h' & Hh & Hok' & Hb' & Hr).
  exists (m_frameHeaderContent h'). split; [|done]. rewrite Hh. f_equal.
  destruct h, h'; cbv in Hr |- *. by injection Hr as -> -> -> ->.
Qed.

(** Enough bytes for a header with the right signature: the header is decoded. *)
Lemma deserializeHeader_header h len seq rest :
  queue_ok (m_frameHeaderContent h) → m_headerComplete h = false →
  is_uint 32 len → is_uint 16 seq →
  bytes (m_frameHeaderContent h) = frame_header len seq +:+ rest →
  ∃ q, queue_ok q ∧ bytes q = rest ∧
    let h' := mkProtocolFrameHeader q len seq true (m_bodyComplete h) in
    deserializeHeader h =
      (Ret tt, if bool_decide (body_arrived h') then setBodyComplete h' else h').
Proof.
  intros Hok Hc Hlen Hseq Hb. unfold deserializeHeader. rewrite SE_bind_eq. cbn [get].
  unfold isHeaderComplete. rewrite Hc. unfold queue_size at 1. rewrite (proj2 Hok).
  assert (String.length (bytes (m_frameHeaderContent h)) = frameHeaderLength + String.length rest) as Hl.
  { by rewrite Hb, str_length_app, frame_header_length. }
  destruct (Nat.ltb_spec (String.length (bytes (m_frameHeaderContent h))) frameHeaderLength); [lia|].
  unfold frame_header in Hb.
  destruct (reads_header_fields (deserialize_stringNoSize (String.length m_signature)) m_signature
    m_signature h (fields [le_bytes 4 len; le_bytes 2 seq] +:+ rest)) as (q1 & H1 & Hok1 & Hb1).
  { by apply reads_raw. } { done. } { by rewrite Hb, <-str_app_assoc. }
  rewrite SE_bind_eq, H1. rewrite bool_decide_eq_true_2 by done. cbn [negb].
  destruct (reads_header_fields deserialize_u32 (le_bytes 4 len) len
    (setHeaderContent q1 h) (le_bytes 2 seq +:+ rest)) as (q2 & H2 & Hok2 & Hb2).
  { by apply reads_u32. } { done. } { cbn. rewrite Hb1. done. }
  rewrite SE_bind_eq, H2, SE_bind_eq. cbn [modify].
  destruct (reads_header_fields deserialize_u16 (le_bytes 2 seq) seq
    (setFrameLength len (setHeaderContent q2 (setHeaderContent q1 h))) rest) as (q3 & H3 & Hok3 & Hb3).
  { by apply reads_u16. } { done. } { done. }
  rewrite SE_bind_eq, H3. repeat (rewrite SE_bind_eq; cbn [modify get]). exists q3. split_and!; [done..|].
  unfold body_arrived, queue_size. cbn [m_frameLength m_frameHeaderContent setHeaderComplete
    setSequenceNumber setHeaderContent setFrameLength m_sequenceNumber m_bodyComplete].
  rewrite (proj2 Hok3). case_bool_decide as Hd; [rewrite (proj2 (Z.leb_le _ _)) by done|
    rewrite (proj2 (Z.leb_gt _ _)) by lia]; done.
Qed.

Lemma deserializeHeader_again h :
  queue_ok (m_frameHeaderContent h) → m_headerComplete h = true →
  deserializeHeader h = (Ret tt, if bool_decide (body_arrived h) then setBodyComplete h else h).
Proof.
  intros Hok Hc. unfold deserializeHeader. rewrite SE_bind_eq. cbn [get].
  unfold isHeaderComplete. rewrite Hc, SE_bind_eq. cbn [get].
  unfold body_arrived, queue_size. rewrite (proj2 Hok).
  case_bool_decide as Hd; [rewrite (proj2 (Z.leb_le _ _)) by done|
    rewrite (proj2 (Z.leb_gt _ _)) by lia]; done.
Qed.

Lemma deserializeHeader_short h :
  queue_ok (m_frameHeaderContent h) → m_headerComplete h = false →
  String.length (bytes (m_frameHeaderContent h)) < frameHeaderLength →
  deserializeHeader h = (Ret tt, h).
Proof.
  intros Hok Hc Hl. unfold deserializeHeader. rewrite SE_bind_eq. cbn [get].
  unfold isHeaderComplete, queue_size. rewrite Hc, (proj2 Hok).
  by destruct (Nat.ltb_spec (String.length (bytes (m_frameHeaderContent h))) frameHeaderLength); [|lia].
Qed.

(** Header bytes with another signature: four bytes are consumed, then the throw. *)
Lemma deserializeHeader_signature h :
  queue_ok (m_frameHeaderContent h) → m_headerComplete h = false →
  frameHeaderLength ≤ String.length (bytes (m_frameHeaderContent h)) →
  stake 4 (bytes (m_frameHeaderContent h)) ≠ m_signature →
  ∃ q, deserializeHeader h = (Throw (InvalidProtocolException InvalidSignature), setHeaderContent q h) ∧
    queue_ok q ∧ bytes q = sdrop 4 (bytes (m_frameHeaderContent h)).
Proof.
  intros Hok Hc Hl Hs. unfold deserializeHeader. rewrite SE_bind_eq. cbn [get].
  unfold isHeaderComplete, queue_size. rewrite Hc, (proj2 Hok).
  destruct (Nat.ltb_spec (String.length (bytes (m_frameHeaderContent h))) frameHeaderLength); [lia|].
  destruct (reads_header_fields (deserialize_stringNoSize (String.length m_signature))
    (stake 4 (bytes (m_frameHeaderContent h))) (stake 4 (bytes (m_frameHeaderContent h))) h
    (sdrop 4 (bytes (m_frameHeaderContent h)))) as (q & Hq & Hokq & Hbq).
  { apply reads_raw. rewrite str_length_stake. change frameHeaderLength with 10 in Hl.
    change (String.length m_signature) with 4. lia. }
  { done. } { by rewrite stake_sdrop. }
  exists q. split; [|done]. rewrite SE_bind_eq, Hq. rewrite bool_decide_eq_false_2 by done. done.
Qed.

Lemma frame_header_inj len seq len' seq' r r' :
  is_uint 32 len → is_uint 16 seq → is_uint 32 len' → is_uint 16 seq' →
  frame_header len seq +:+ r = frame_header len' seq' +:+ r' → len = len' ∧ seq = seq' ∧ r = r'.
Proof.
  intros H1 H2 H3 H4 H. apply str_app_inj_length in H as [H ->]; [|done].
  unfold frame_header in H. cbn [fields foldr] in H. rewrite !str_app_nil_r in H.
  apply str_app_inj_length in H as [_ H]; [|done].
  apply str_app_inj_length in H as [Hl Hs]; [|by rewrite !le_bytes_length].
  apply (f_equal le_value) in Hl, Hs.
  rewrite !(le_value_uint 4 32) in Hl by done. by rewrite !(le_value_uint 2 16) in Hs by done.
Qed.

Lemma body_arrived_iff h body :
  m_frameLength h = Z.of_nat (frameHeaderLength + String.length body) → body_fits body →
  body_arrived h ↔ String.length body ≤ String.length (bytes (m_frameHeaderContent h)).
Proof.
  intros Hl Hfit. unfold body_arrived, body_fits, wrap_unsigned in *. rewrite Hl.
  rewrite Z.mod_small by lia. lia.
Qed.

(** The rest of a whole frame is known to be there: the frame is complete. *)
Lemma deserializeHeader_complete h seq body rest :
  is_uint 16 seq → body_fits body → awaits h (frame_bytes seq body +:+ rest) →
  ∃ h', deserializeHeader h = (Ret tt, h') ∧ isFrameComplete h' = true ∧
    m_sequenceNumber h' = seq ∧ queue_ok (m_frameHeaderContent h') ∧
    bytes (m_frameHeaderContent h') = body +:+ rest.
Proof.
  intros Hseq Hfit (Hok & Hbc & Haw).
  assert (is_uint 32 (Z.of_nat (frameHeaderLength + String.length body))) as Hlen.
  { unfold is_uint, body_fits in *. lia. }
  unfold frame_bytes in Haw. rewrite str_app_assoc in Haw.
  destruct (m_headerComplete h) eqn:Hc.
  - destruct Haw as (Hlen' & Hseq' & Haw).
    apply frame_header_inj in Haw as (Hl & -> & Hb); [|done..].
    rewrite deserializeHeader_again by done.
    rewrite bool_decide_eq_true_2.
    2:{ rewrite (body_arrived_iff h body) by done. rewrite <-Hb, str_length_app. lia. }
    eexists. split; [done|]. split_and!; [|done|done|done].
    unfold isFrameComplete. cbn. by rewrite Hc.
  - destruct (deserializeHeader_header h _ seq (body +:+ rest) Hok Hc Hlen Hseq) as (q & Hokq & Hbq & Hh).
    { done. }
    cbn zeta in Hh. rewrite bool_decide_eq_true_2 in Hh.
    2:{ rewrite (body_arrived_iff _ body) by done. cbn. rewrite Hbq, str_length_app. lia. }
    eexists. split; [exact Hh|]. done.
Qed.

(** Part of a frame: nothing is decoded but perhaps the header, and no byte is lost. *)
Lemma deserializeHeader_partial h s seq body rest :
  is_uint 16 seq → body_fits body → awaits h s → s +:+ rest = frame_bytes seq body → rest ≠ "" →
  ∃ h', deserializeHeader h = (Ret tt, h') ∧ isFrameComplete h' = false ∧ awaits h' s.
Proof.
  intros Hseq Hfit (Hok & Hbc & Haw) Hs Hrest.
  assert (is_uint 32 (Z.of_nat (frameHeaderLength + String.length body))) as Hlen.
  { unfold is_uint, body_fits in *. lia. }
  assert (0 < String.length rest) as Hpos by (destruct rest; cbn; [done|lia]).
  unfold frame_bytes in Hs. destruct (m_headerComplete h) eqn:Hc.
  - destruct Haw as (Hlen' & Hseq' & ->). rewrite str_app_assoc in Hs.
    apply frame_header_inj in Hs as (Hl & Hs & Hb); [|done..].
    rewrite deserializeHeader_again by done. rewrite bool_decide_eq_false_2.
    2:{ rewrite (body_arrived_iff h body) by done. rewrite <-Hb, str_length_app. lia. }
    exists h. split; [done|]. split; [unfold isFrameComplete; by rewrite Hbc, andb_false_r|].
    split; [done|]. split; [done|]. rewrite Hc. by split_and!.
  - subst s. destruct (decide (String.length (bytes (m_frameHeaderContent h)) < frameHeaderLength)) as [Hlt|Hge].
    + exists h. split; [by apply deserializeHeader_short|].
      split; [unfold isFrameComplete; by rewrite Hc|]. split; [done|]. split; [done|]. by rewrite Hc.
    + set (b := bytes (m_frameHeaderContent h)) in *.
      rewrite <-(stake_sdrop frameHeaderLength b), str_app_assoc in Hs.
      apply str_app_inj_length in Hs as [Ht Hd].
      2:{ rewrite str_length_stake, frame_header_length. lia. }
      destruct (deserializeHeader_header h _ seq (sdrop frameHeaderLength b) Hok Hc Hlen Hseq)
        as (q & Hokq & Hbq & Hh).
      { rewrite <-Ht. by rewrite stake_sdrop. }
      cbn zeta in Hh. rewrite bool_decide_eq_false_2 in Hh.
      2:{ rewrite (body_arrived_iff _ body) by done. cbn [m_frameHeaderContent].
          rewrite Hbq, <-Hd, str_length_app. lia. }
      eexists. split; [exact Hh|]. split; [by cbn; rewrite Hbc|].
      split; [done|]. split; [done|].
      cbn [m_headerComplete m_frameLength m_sequenceNumber m_frameHeaderContent].
      split; [done|]. split; [done|]. rewrite Hbq, <-Ht. by rewrite stake_sdrop.
Qed.

(** *** [extractFrame] *)

(** [switch] decodes [body] as [msg], given that the header carries [seq]. *)
Definition decodes {A} (switch : Z → SE ProtocolFrameHeader A) (seq : Z) (body : string) (msg : A) : Prop :=
  ∃ op fs, is_uint 8 op ∧ body = le_bytes 1 op +:+ fs ∧
    ∀ len rest q, queue_ok q → bytes q = fs +:+ rest →
      ∃ q', switch op (mkProtocolFrameHeader q len seq false false) =
        (Ret msg, mkProtocolFrameHeader q' len seq false false) ∧ queue_ok q' ∧ bytes q' = rest.

Lemma extractFrame_complete {A} switch h seq body (msg : A) rest :
  is_uint 16 seq → body_fits body → awaits h (frame_bytes seq body +:+ rest) →
  decodes switch seq body msg →
  ∃ h', extractFrame switch h = (Ret (Some msg), h') ∧ awaits h' rest.
Proof.
  intros Hseq Hfit Haw (op & fs & Hop & -> & Hsw).
  destruct (deserializeHeader_complete h seq _ rest Hseq Hfit Haw) as (h1 & H1 & Hc1 & Hs1 & Hok1 & Hb1).
  unfold extractFrame. rewrite SE_bind_eq, H1, SE_bind_eq. cbn [get]. rewrite Hc1, SE_bind_eq. cbn [modify].
  rewrite str_app_assoc in Hb1.
  destruct (reads_header_fields deserialize_opCode (le_bytes 1 op) op (resetState h1) (fs +:+ rest))
    as (q2 & H2 & Hok2 & Hb2); [by apply reads_opCode|done|done|].
  rewrite SE_bind_eq, H2. unfold resetState, setHeaderContent; cbn. rewrite Hs1.
  destruct (Hsw (m_frameLength h1) rest q2 Hok2 Hb2) as (q3 & H3 & Hok3 & Hb3).
  rewrite SE_bind_eq, H3. eexists. split; [done|]. by split_and!.
Qed.

Lemma extractFrame_partial {A} (switch : Z → SE ProtocolFrameHeader A) h s seq body rest :
  is_uint 16 seq → body_fits body → awaits h s → s +:+ rest = frame_bytes seq body → rest ≠ "" →
  ∃ h', extractFrame switch h = (Ret None, h') ∧ awaits h' s.
Proof.
  intros Hseq Hfit Haw Hs Hrest.
  destruct (deserializeHeader_partial h s seq body rest Hseq Hfit Haw Hs Hrest) as (h1 & H1 & Hc1 & Haw1).
  unfold extractFrame. rewrite SE_bind_eq, H1, SE_bind_eq. cbn [get]. rewrite Hc1. by exists h1.
Qed.

(** More bytes arrive in the buffer. *)
Lemma awaits_append h s t :
  awaits h s →
  ∃ q, appendCopy t (m_frameHeaderContent h) = (Ret tt, q) ∧ awaits (setHeaderContent q h) (s +:+ t).
Proof.
  intros (Hok & Hbc & Haw). destruct (appendUnmanaged_ok t _ Hok) as (q & Hq & Hokq & Hbq).
  exists q. split; [done|]. split; [done|]. split; [done|]. cbn.
  destruct (m_headerComplete h).
  - destruct Haw as (? & ? & ->). rewrite Hbq. by rewrite <-str_app_assoc.
  - by rewrite Haw, Hbq.
Qed.
