(* ===== verification/Messages.v ===== *)
(** * Messages ([common/request], [common/response], [ProtocolOpCode.h], [MonitorEntry.h], [RequestContext.h])

    One constructor per request and response class, its fields in the order of the
    class's constructor, the sequence number last. *)
From S2P Require Import Prelude Text Types.

(** [struct timespec] *)
Record timespec := mkTimespec { tv_sec : Z; tv_nsec : Z }.
#[global] Instance timespec_eq_dec : EqDecision timespec.
Proof. solve_decision. Defined.

Module MonitorEntry.
Record t := mk { key : PolicyKey; result : Z; timestamp : timespec }.
End MonitorEntry.
Abbreviation MonitorEntry := MonitorEntry.t (only parsing).
#[global] Instance MonitorEntry_eq_dec : EqDecision MonitorEntry.
Proof. solve_decision. Defined.

(** [typedef std::vector<unsigned char> RawBuffer] *)
Abbreviation RawBuffer := (list Z) (only parsing).

Inductive Request :=
| CheckRequest (key : PolicyKey) (sequenceNumber : Z)
| SimpleCheckRequest (key : PolicyKey) (sequenceNumber : Z)
| CancelRequest (sequenceNumber : Z)
| MonitorEntriesPutRequest (monitorEntries : list MonitorEntry) (sequenceNumber : Z)
| MonitorEntryPutRequest (monitorEntry : MonitorEntry) (sequenceNumber : Z)
| AdminCheckRequest (key : PolicyKey) (startBucket : PolicyBucketId) (recursive : bool) (sequenceNumber : Z)
| DescriptionListRequest (sequenceNumber : Z)
| EraseRequest (startBucket : PolicyBucketId) (recursive : bool) (filter : PolicyKey) (sequenceNumber : Z)
| InsertOrUpdateBucketRequest (bucketId : PolicyBucketId) (result : PolicyResult) (sequenceNumber : Z)
| ListRequest (bucket : PolicyBucketId) (filter : PolicyKey) (sequenceNumber : Z)
| RemoveBucketRequest (bucketId : PolicyBucketId) (sequenceNumber : Z)
| SetPoliciesRequest (policiesToBeInsertedOrUpdated : gmap PolicyBucketId (list Policy))
    (policiesToBeRemoved : gmap PolicyBucketId (list PolicyKey)) (sequenceNumber : Z)
| AgentActionRequest (type : Z) (data : RawBuffer) (sequenceNumber : Z)
| AgentRegisterRequest (agentType : string) (sequenceNumber : Z)
| MonitorGetEntriesRequest (bufferSize : Z) (sequenceNumber : Z)
| MonitorGetFlushRequest (sequenceNumber : Z)
| SignalRequest (sigInfo : string).

Inductive Response :=
| CheckResponse (resultRef : PolicyResult) (sequenceNumber : Z)
| SimpleCheckResponse (retValue : Z) (resultRef : PolicyResult) (sequenceNumber : Z)
| CancelResponse (sequenceNumber : Z)
| AdminCheckResponse (result : PolicyResult) (bucketValid dbCorrupted : bool) (sequenceNumber : Z)
| CodeResponse (code : Z) (sequenceNumber : Z)
| DescriptionListResponse (descriptions : list PolicyDescription) (dbCorrupted : bool) (sequenceNumber : Z)
| ListResponse (policies : list Policy) (bucketValid dbCorrupted : bool) (sequenceNumber : Z)
| AgentActionResponse (type : Z) (data : RawBuffer) (sequenceNumber : Z)
| AgentRegisterResponse (code : Z) (sequenceNumber : Z)
| MonitorGetEntriesResponse (entries : list MonitorEntry) (sequenceNumber : Z).

#[global] Instance PolicyDescription_eq_dec : EqDecision PolicyDescription.
Proof. solve_decision. Defined.
#[global] Instance Request_eq_dec : EqDecision Request.
Proof. solve_decision. Defined.
#[global] Instance Response_eq_dec : EqDecision Response.
Proof. solve_decision. Defined.

(** [Request::sequenceNumber] *)
Definition request_sequenceNumber (r : Request) : Z :=
  match r with
  | CheckRequest _ n | SimpleCheckRequest _ n | CancelRequest n | MonitorEntriesPutRequest _ n
  | MonitorEntryPutRequest _ n | AdminCheckRequest _ _ _ n | DescriptionListRequest n
  | EraseRequest _ _ _ n | InsertOrUpdateBucketRequest _ _ n | ListRequest _ _ n
  | RemoveBucketRequest _ n | SetPoliciesRequest _ _ n | AgentActionRequest _ _ n
  | AgentRegisterRequest _ n | MonitorGetEntriesRequest _ n | MonitorGetFlushRequest n => n
  | SignalRequest _ => 0%Z
  end.

(** [Response::sequenceNumber] *)
Definition response_sequenceNumber (r : Response) : Z :=
  match r with
  | CheckResponse _ n | SimpleCheckResponse _ _ n | CancelResponse n | AdminCheckResponse _ _ _ n
  | CodeResponse _ n | DescriptionListResponse _ _ n | ListResponse _ _ _ n
  | AgentActionResponse _ _ n | AgentRegisterResponse _ n | MonitorGetEntriesResponse _ n => n
  end.

(** [CodeResponse::Code]; a received code is any 16-bit value. *)
Module CodeResponseCode.
Definition OK : Z := 0.
Definition NO_BUCKET : Z := 1.
Definition NO_POLICY_TYPE : Z := 2.
Definition NOT_ALLOWED : Z := 3.
Definition FAILED : Z := 4.
Definition DB_CORRUPTED : Z := 5.
End CodeResponseCode.

(** [AgentRegisterResponse::Code] *)
Module AgentRegisterCode.
Definition DONE : Z := 0.
Definition REJECTED : Z := 1.
Definition ERROR : Z := 2.
End AgentRegisterCode.

(** [enum ProtocolOpCode : uint8_t]; a received code is any 8-bit value. *)
Definition OpCheckPolicyRequest : Z := 0.
Definition OpCheckPolicyResponse : Z := 1.
Definition OpCancelRequest : Z := 2.
Definition OpCancelResponse : Z := 3.
Definition OpSimpleCheckPolicyRequest : Z := 4.
Definition OpSimpleCheckPolicyResponse : Z := 5.
Definition OpMonitorEntriesPutRequest : Z := 6.
Definition OpMonitorEntryPutRequest : Z := 7.
Definition OpInsertOrUpdateBucket : Z := 20.
Definition OpRemoveBucket : Z := 21.
Definition OpSetPolicies : Z := 22.
Definition OpCodeResponse : Z := 23.
Definition OpAdminCheckRequest : Z := 24.
Definition OpListRequest : Z := 25.
Definition OpListResponse : Z := 26.
Definition OpAdminCheckPolicyResponse : Z := 27.
Definition OpEraseRequest : Z := 28.
Definition OpDescriptionListRequest : Z := 29.
Definition OpDescriptionListResponse : Z := 30.
Definition OpAgentRegisterRequest : Z := 40.
Definition OpAgentRegisterResponse : Z := 41.
Definition OpAgentActionRequest : Z := 42.
Definition OpAgentActionResponse : Z := 43.
Definition OpMonitorGetEntriesRequest : Z := 50.
Definition OpMonitorGetEntriesResponse : Z := 51.
Definition OpMonitorGetFlushRequest : Z := 52.

(** ** Request contexts and links ([RequestContext.h], [types/Link.h])

    A [LinkId] is a shared pointer to the write queue of a connection: it identifies the
    connection, not the descriptor number, which is used again later.  In the model it is
    the descriptor with the number of connections closed on it so far.  A context also
    holds the response taker, the protocol object of the same connection, by a weak
    pointer: it is alive exactly as long as the connection is the current one of its
    descriptor.  The write queue outlives the connection while a map has it as a key. *)

Definition LinkId : Type := nat * nat.

Record RequestContext := mkRequestContext {
  m_responseQueue : LinkId;
  m_clientId : Z;
}.

Definition InvalidClientId : Z := -1.

#[global] Instance RequestContext_eq_dec : EqDecision RequestContext.
Proof. solve_decision. Defined.
