(* ===== verification/ProtocolClient.v ===== *)
(** * The client protocol ([common/protocol/ProtocolClient])

    Writers ([execute]) and readers ([extract...FromBuffer]) of the messages between the
    client library and the service, with the bytes each message has on the wire. *)
From S2P Require Import Prelude Text Types BinaryQueue Serialization Frame Messages.

(** ** Fields shared by the protocols *)

Section shared_fields.
Context {S : Type} `{IStream S}.

(** A key: client, user, privilege. *)
Definition serialize_key (k : PolicyKey) : SE S unit :=
  serialize_string (value (client k)) ;;
  serialize_string (value (user k)) ;;
  serialize_string (value (privilege k)).
Definition deserialize_key : SE S PolicyKey :=
  clientId ← deserialize_string;
  userId ← deserialize_string;
  privilegeId ← deserialize_string;
  mret (PolicyKey_of clientId userId privilegeId).

(** A policy result: type and metadata. *)
Definition serialize_result (r : PolicyResult) : SE S unit :=
  serialize_u16 (policyType r) ;;
  serialize_string (metadata r).
Definition deserialize_result : SE S PolicyResult :=
  policyType ← deserialize_u16;
  metadata ← deserialize_string;
  mret (mkPolicyResult policyType metadata).

(** A monitor entry; its result is an [int] that travels as 64 bits. *)
Definition serialize_entry (e : MonitorEntry) : SE S unit :=
  serialize_key (MonitorEntry.key e) ;;
  serialize_i64 (MonitorEntry.result e) ;;
  serialize_i64 (tv_sec (MonitorEntry.timestamp e)) ;;
  serialize_i64 (tv_nsec (MonitorEntry.timestamp e)).
Definition deserialize_entry : SE S MonitorEntry :=
  key ← deserialize_key;
  result ← deserialize_i64;
  tv_sec ← deserialize_i64;
  tv_nsec ← deserialize_i64;
  mret (MonitorEntry.mk key (wrap_signed 32 (wrap_unsigned 64 result)) (mkTimespec tv_sec tv_nsec)).

(** A list after its 16-bit count, which the writer truncates. *)
Definition serialize_counted {T} (serialize : T → SE S unit) (l : list T) : SE S unit :=
  serialize_u16 (wrap_unsigned 16 (Z.of_nat (length l))) ;; forEach l serialize.
Definition deserialize_counted {T} (deserialize : SE S T) : SE S (list T) :=
  count ← deserialize_u16;
  deserialize_times (Z.to_nat count) deserialize.
End shared_fields.

(** ** Readers *)

Abbreviation Reader := (SE ProtocolFrameHeader) (only parsing).

(** [m_frameHeader.sequenceNumber()] *)
Definition sequenceNumber : Reader Z := gets m_sequenceNumber.

Definition deserializeCancelRequest : Reader Request :=
  seq ← sequenceNumber; mret (CancelRequest seq).

Definition deserializeCheckRequest : Reader Request :=
  key ← deserialize_key;
  seq ← sequenceNumber; mret (CheckRequest key seq).

Definition deserializeSimpleCheckRequest : Reader Request :=
  key ← deserialize_key;
  seq ← sequenceNumber; mret (SimpleCheckRequest key seq).

Definition deserializeMonitorEntriesPutRequest : Reader Request :=
  entries ← deserialize_counted deserialize_entry;
  seq ← sequenceNumber; mret (MonitorEntriesPutRequest entries seq).

Definition deserializeMonitorEntryPutRequest : Reader Request :=
  entry ← deserialize_entry;
  seq ← sequenceNumber; mret (MonitorEntryPutRequest entry seq).

Definition client_requestSwitch (opCode : Z) : Reader Request :=
  if (opCode =? OpCheckPolicyRequest)%Z then deserializeCheckRequest
  else if (opCode =? OpCancelRequest)%Z then deserializeCancelRequest
  else if (opCode =? OpSimpleCheckPolicyRequest)%Z then deserializeSimpleCheckRequest
  else if (opCode =? OpMonitorEntriesPutRequest)%Z then deserializeMonitorEntriesPutRequest
  else if (opCode =? OpMonitorEntryPutRequest)%Z then deserializeMonitorEntryPutRequest
  else throw (InvalidProtocolException WrongOpCode).

Definition client_extractRequestFromBuffer : Reader (option Request) :=
  extractFrame client_requestSwitch.

Definition deserializeCancelResponse : Reader Response :=
  seq ← sequenceNumber; mret (CancelResponse seq).

Definition deserializeCheckResponse : Reader Response :=
  result ← deserialize_result;
  seq ← sequenceNumber; mret (CheckResponse result seq).

Definition deserializeSimpleCheckResponse : Reader Response :=
  retValue ← deserialize_i32;
  result ← deserialize_result;
  seq ← sequenceNumber; mret (SimpleCheckResponse retValue result seq).

Definition client_responseSwitch (opCode : Z) : Reader Response :=
  if (opCode =? OpCheckPolicyResponse)%Z then deserializeCheckResponse
  else if (opCode =? OpCancelResponse)%Z then deserializeCancelResponse
  else if (opCode =? OpSimpleCheckPolicyResponse)%Z then deserializeSimpleCheckResponse
  else throw (InvalidProtocolException WrongOpCode).

Definition client_extractResponseFromBuffer : Reader (option Response) :=
  extractFrame client_responseSwitch.

(** ** Writers *)

Abbreviation Writer := (SE BinaryQueue unit) (only parsing).

(** [RequestTaker]'s and [ResponseTaker]'s own [execute] overloads *)
Definition RequestTaker_execute {S} (request : Request) : SE S unit := throw NotImplementedException.
Definition ResponseTaker_execute {S} (response : Response) : SE S unit := throw NotImplementedException.

(** The [execute] overloads for requests; the others are [RequestTaker]'s. *)
Definition client_executeRequest (request : Request) : Writer :=
  match request with
  | CancelRequest seq => serializeFrame seq (serialize_opCode OpCancelRequest)
  | CheckRequest key seq =>
      serializeFrame seq (serialize_opCode OpCheckPolicyRequest ;; serialize_key key)
  | SimpleCheckRequest key seq =>
      serializeFrame seq (serialize_opCode OpSimpleCheckPolicyRequest ;; serialize_key key)
  | MonitorEntriesPutRequest entries seq =>
      serializeFrame seq
        (serialize_opCode OpMonitorEntriesPutRequest ;; serialize_counted serialize_entry entries)
  | MonitorEntryPutRequest entry seq =>
      serializeFrame seq (serialize_opCode OpMonitorEntryPutRequest ;; serialize_entry entry)
  | _ => RequestTaker_execute request
  end.

(** The [execute] overloads for responses; the others are [ResponseTaker]'s. *)
Definition client_executeResponse (response : Response) : Writer :=
  match response with
  | CancelResponse seq => serializeFrame seq (serialize_opCode OpCancelResponse)
  | CheckResponse result seq =>
      serializeFrame seq (serialize_opCode OpCheckPolicyResponse ;; serialize_result result)
  | SimpleCheckResponse retValue result seq =>
      serializeFrame seq
        (serialize_opCode OpSimpleCheckPolicyResponse ;; serialize_i32 retValue ;; serialize_result result)
  | _ => ResponseTaker_execute response
  end.

(** ** Bytes on the wire *)

#[global] Arguments fields : simpl never.

Definition enc_key (k : PolicyKey) : string :=
  fields [enc_string (value (client k)); enc_string (value (user k)); enc_string (value (privilege k))].
Definition enc_result (r : PolicyResult) : string :=
  fields [le_bytes 2 (policyType r); enc_string (metadata r)].
Definition enc_entry (e : MonitorEntry) : string :=
  fields [enc_key (MonitorEntry.key e); le_bytes 8 (MonitorEntry.result e);
          le_bytes 8 (tv_sec (MonitorEntry.timestamp e)); le_bytes 8 (tv_nsec (MonitorEntry.timestamp e))].
Definition enc_counted {T} (enc : T → string) (l : list T) : string :=
  fields (le_bytes 2 (wrap_unsigned 16 (Z.of_nat (length l))) :: map enc l).

#[global] Arguments enc_key : simpl never.
#[global] Arguments enc_result : simpl never.
#[global] Arguments enc_entry : simpl never.

Definition key_ok (k : PolicyKey) : Prop :=
  id_ok (value (client k)) ∧ id_ok (value (user k)) ∧ id_ok (value (privilege k)).
Definition result_ok (r : PolicyResult) : Prop := is_uint 16 (policyType r) ∧ id_ok (metadata r).
Definition entry_ok (e : MonitorEntry) : Prop :=
  key_ok (MonitorEntry.key e) ∧ is_int 32 (MonitorEntry.result e) ∧
  is_int 64 (tv_sec (MonitorEntry.timestamp e)) ∧ is_int 64 (tv_nsec (MonitorEntry.timestamp e)).
Definition counted_ok {T} (P : T → Prop) (l : list T) : Prop :=
  (Z.of_nat (length l) < 2 ^ 16)%Z ∧ Forall P l.

#[global] Instance key_ok_dec k : Decision (key_ok k).
Proof. unfold key_ok. apply _. Defined.
#[global] Instance result_ok_dec r : Decision (result_ok r).
Proof. unfold result_ok. apply _. Defined.
#[global] Instance entry_ok_dec e : Decision (entry_ok e).
Proof. unfold entry_ok. apply _. Defined.
#[global] Instance counted_ok_dec {T} (P : T → Prop) `{∀ x, Decision (P x)} l : Decision (counted_ok P l).
Proof. unfold counted_ok. apply _. Defined.

Section shared_reads.
Context {S T : Type} `{ReadLaws S T}.

Lemma reads_last {A B} (m : SE S A) (f : A → B) e a :
  reads_to m e a → reads_to (x ← m; mret (f x)) (fields [e]) (f a).
Proof. intros Hm. eapply reads_fields; [done|]. apply reads_ret. Qed.

Lemma reads_key k : key_ok k → reads_to deserialize_key (enc_key k) k.
Proof.
  intros (Hc & Hu & Hp). destruct k as [[c] [u] [p]]; cbn in *. unfold deserialize_key, enc_key.
  eapply reads_fields; [by apply reads_string|]. eapply reads_fields; [by apply reads_string|].
  by apply (reads_last _ (λ p, PolicyKey_of c u p)), reads_string.
Qed.

Lemma reads_result r : result_ok r → reads_to deserialize_result (enc_result r) r.
Proof.
  intros [Ht Hm]. destruct r as [t m]; cbn in *. unfold deserialize_result, enc_result.
  eapply reads_fields; [by apply reads_u16|].
  by apply (reads_last _ (λ m, mkPolicyResult t m)), reads_string.
Qed.

Lemma wrap_int_int64 v : is_int 32 v → wrap_signed 32 (wrap_unsigned 64 v) = v.
Proof.
  intros Hv. rewrite <-(wrap_signed_int 32 v) at 2 by done. unfold wrap_signed, wrap_unsigned.
  f_equal. apply Z.mod_mod_divide. by exists (2 ^ 32)%Z.
Qed.

Lemma is_int_32_64 v : is_int 32 v → is_int 64 v.
Proof. unfold is_int. cbn. lia. Qed.

Lemma reads_entry e : entry_ok e → reads_to deserialize_entry (enc_entry e) e.
Proof.
  intros (Hk & Hr & Hs & Hn). destruct e as [k r [s n]]; cbn [MonitorEntry.key MonitorEntry.result
    MonitorEntry.timestamp tv_sec tv_nsec] in *. unfold deserialize_entry, enc_entry.
  eapply reads_fields; [by apply reads_key|].
  eapply reads_fields; [by apply reads_i64, is_int_32_64|].
  eapply reads_fields; [by apply reads_i64|]. rewrite wrap_int_int64 by done.
  by apply (reads_last _ (λ n, MonitorEntry.mk k r (mkTimespec s n))), reads_i64.
Qed.

Lemma wrap_count n : (Z.of_nat n < 2 ^ 16)%Z → wrap_unsigned 16 (Z.of_nat n) = Z.of_nat n.
Proof. intros. unfold wrap_unsigned. apply Z.mod_small. lia. Qed.

Lemma reads_counted {A} (deserialize : SE S A) enc P (l : list A) :
  counted_ok P l → (∀ a, P a → reads_to deserialize (enc a) a) →
  reads_to (deserialize_counted deserialize) (enc_counted enc l) l.
Proof.
  intros [Hl HP] Hr. unfold deserialize_counted, enc_counted. rewrite wrap_count by done.
  eapply reads_fields; [apply reads_u16; unfold is_uint; lia|]. rewrite Nat2Z.id.
  apply reads_times. intros a Ha. apply Hr. by eapply Forall_forall.
Qed.
End shared_reads.

Section shared_writes.
Context {S T : Type} `{WriteLaws S T}.

Lemma writes_key k : key_ok k → writes (serialize_key k) (enc_key k).
Proof.
  intros (Hc & Hu & Hp). apply writes_fields; [by apply writes_string|].
  apply writes_fields; [by apply writes_string|]. by apply writes_last, writes_string.
Qed.

Lemma writes_result r : result_ok r → writes (serialize_result r) (enc_result r).
Proof.
  intros [Ht Hm]. apply writes_fields; [apply writes_raw|]. by apply writes_last, writes_string.
Qed.

Lemma writes_entry e : entry_ok e → writes (serialize_entry e) (enc_entry e).
Proof.
  intros (Hk & Hr & Hs & Hn). apply writes_fields; [by apply writes_key|].
  apply writes_fields; [apply writes_raw|]. apply writes_fields; [apply writes_raw|].
  apply writes_last, writes_raw.
Qed.

Lemma writes_counted {A} (serialize : A → SE S unit) enc P (l : list A) :
  counted_ok P l → (∀ a, P a → writes (serialize a) (enc a)) →
  writes (serialize_counted serialize l) (enc_counted enc l).
Proof.
  intros [Hl HP] Hw. apply writes_fields; [apply writes_raw|].
  apply writes_forEach. intros a Ha. apply Hw. by eapply Forall_forall.
Qed.
End shared_writes.

(** ** The interface a protocol offers

    One direction of a protocol: how its messages are written and read.  The laws say that
    a well-formed message is written as one frame, and that the switch of the reading side
    decodes the frame's body to the same message. *)
Class ProtocolLaws {M : Type} (execute : M → Writer) (switch : Z → Reader M)
    (body : M → string) (seq : M → Z) (ok : M → Prop) := {
  message_written m data :
    ok m → queue_ok data →
    ∃ data', execute m data = (Ret tt, data') ∧ queue_ok data' ∧
      bytes data' = bytes data +:+ frame_bytes (seq m) (body m);
  message_decoded m : ok m → decodes switch (seq m) (body m) m;
  message_fits m : ok m → body_fits (body m) ∧ is_uint 16 (seq m);
}.

Lemma reads_sequenceNumber {A} (f : Z → A) :
  reads_with (S:=ProtocolFrameHeader) (seq ← sequenceNumber; mret (f seq)) (fields [])
    (λ '(_, n, _, _), f n).
Proof.
  intros h rest Hok Hb. exists h. split; [|done]. unfold sequenceNumber. rewrite SE_bind_eq. cbn.
  unfold header_fields. by destruct h.
Qed.

(** A body is an operation code and the fields after it. *)
Lemma decodes_intro {A} (switch : Z → Reader A) op es n (f : Z → A) :
  is_uint 8 op → reads_with (switch op) (fields es) (λ '(_, n, _, _), f n) →
  decodes switch n (fields (le_bytes 1 op :: es)) (f n).
Proof.
  intros Hop Hr. exists op, (fields es). split; [done|]. split; [done|]. intros len rest q Hq Hb.
  destruct (Hr (mkProtocolFrameHeader q len n false false) rest Hq Hb) as (h & Hh & Hok & Hbh & Hrest).
  exists (m_frameHeaderContent h). split; [|done]. rewrite Hh. f_equal.
  destruct h; cbv in Hrest |- *. by injection Hrest as -> -> -> ->.
Qed.

(** One payload field after the operation code. *)
Lemma decodes_one {A B} (switch : Z → Reader B) op n (m : Reader A) enc a (f : A → Z → B) :
  is_uint 8 op → switch op = (x ← m; seq ← sequenceNumber; mret (f x seq)) → reads_to m enc a →
  decodes switch n (fields [le_bytes 1 op; enc]) (f a n).
Proof.
  intros Hop Hs Hm. apply decodes_intro; [done|]. rewrite Hs.
  eapply reads_fields; [done|]. apply reads_sequenceNumber.
Qed.

(** *** Automation *)

Lemma writes_code {S T} `{WriteLaws S T} code :
  is_uint 16 code → writes (serialize_u16 (wrap_unsigned 16 code)) (le_bytes 2 code).
Proof. intros Hc. unfold wrap_unsigned. rewrite Z.mod_small by done. apply writes_raw. Qed.

Create HintDb wire.
#[global] Hint Extern 1 (writes (serialize_opCode _) _) => apply writes_raw : wire.
#[global] Hint Extern 1 (writes (serialize_u8 _) _) => apply writes_raw : wire.
#[global] Hint Extern 1 (writes (serialize_i32 _) _) => apply writes_raw : wire.
#[global] Hint Extern 1 (writes (serialize_u64 _) _) => apply writes_raw : wire.
#[global] Hint Resolve writes_string writes_bool writes_key writes_result writes_entry writes_code : wire.
#[global] Hint Resolve reads_string reads_bool reads_key reads_result reads_entry reads_u8 reads_u16
  reads_i32 reads_u64 : wire.

(** Writes the remaining fields one by one. *)
Ltac write_fields :=
  repeat (apply writes_fields; [by eauto with wire|]); first [apply writes_last|idtac]; eauto with wire.
(** Reads the remaining fields one by one, then the sequence number. *)
Ltac read_fields :=
  repeat (eapply reads_fields; [by eauto with wire|]); try apply reads_sequenceNumber.
(** Splits a conjunction of well-formedness conditions. *)
Ltac split_ok H := try match type of H with _ ∧ _ => destruct H end.

(** *** Requests of the client protocol *)

Definition client_request_body (r : Request) : string :=
  match r with
  | CancelRequest _ => fields [le_bytes 1 OpCancelRequest]
  | CheckRequest k _ => fields [le_bytes 1 OpCheckPolicyRequest; enc_key k]
  | SimpleCheckRequest k _ => fields [le_bytes 1 OpSimpleCheckPolicyRequest; enc_key k]
  | MonitorEntriesPutRequest es _ =>
      fields [le_bytes 1 OpMonitorEntriesPutRequest; enc_counted enc_entry es]
  | MonitorEntryPutRequest e _ => fields [le_bytes 1 OpMonitorEntryPutRequest; enc_entry e]
  | _ => ""
  end.

Definition client_request_ok (r : Request) : Prop :=
  match r with
  | CancelRequest n => True
  | CheckRequest k _ | SimpleCheckRequest k _ => key_ok k
  | MonitorEntriesPutRequest es _ => counted_ok entry_ok es
  | MonitorEntryPutRequest e _ => entry_ok e
  | _ => False
  end ∧ body_fits (client_request_body r) ∧ is_uint 16 (request_sequenceNumber r).

#[global] Instance client_request_laws :
  ProtocolLaws client_executeRequest client_requestSwitch client_request_body request_sequenceNumber
    client_request_ok.
Proof.
  split.
  - intros r data (Hok & Hfit & _) Hq.
    destruct r; try done; cbn [client_executeRequest client_request_body] in *;
      (apply serializeFrame_ok; [|done..]); try by write_fields.
    apply writes_fields; [apply writes_raw|]. eapply writes_last, writes_counted; eauto with wire.
  - intros r (Hok & Hfit & Hn).
    destruct r; try done; cbn [client_request_body request_sequenceNumber] in *.
    + eapply (decodes_one _ _ _ deserialize_key _ _ CheckRequest); [done..|by apply reads_key].
    + eapply (decodes_one _ _ _ deserialize_key _ _ SimpleCheckRequest); [done..|by apply reads_key].
    + apply (decodes_intro _ _ [] _ CancelRequest); [done|]. apply reads_sequenceNumber.
    + eapply (decodes_one _ _ _ (deserialize_counted deserialize_entry) _ _ MonitorEntriesPutRequest);
        [done..|]. eapply reads_counted; [done|apply reads_entry].
    + eapply (decodes_one _ _ _ deserialize_entry _ _ MonitorEntryPutRequest); [done..|by apply reads_entry].
  - by intros r (_ & ? & ?).
Qed.

(** *** Responses of the client protocol *)

Definition client_response_body (r : Response) : string :=
  match r with
  | CancelResponse _ => fields [le_bytes 1 OpCancelResponse]
  | CheckResponse res _ => fields [le_bytes 1 OpCheckPolicyResponse; enc_result res]
  | SimpleCheckResponse ret res _ =>
      fields [le_bytes 1 OpSimpleCheckPolicyResponse; le_bytes 4 ret; enc_result res]
  | _ => ""
  end.

Definition client_response_ok (r : Response) : Prop :=
  match r with
  | CancelResponse _ => True
  | CheckResponse res _ => result_ok res
  | SimpleCheckResponse ret res _ => is_int 32 ret ∧ result_ok res
  | _ => False
  end ∧ body_fits (client_response_body r) ∧ is_uint 16 (response_sequenceNumber r).

#[global] Instance client_response_laws :
  ProtocolLaws client_executeResponse client_responseSwitch client_response_body response_sequenceNumber
    client_response_ok.
Proof.
  split.
  - intros r data (Hok & Hfit & _) Hq.
    destruct r; try done; split_ok Hok; cbn [client_executeResponse client_response_body] in *;
      (apply serializeFrame_ok; [|done..]); by write_fields.
  - intros r (Hok & Hfit & Hn).
    destruct r; try done; cbn [client_response_body response_sequenceNumber] in *.
    + eapply (decodes_one _ _ _ deserialize_result _ _ CheckResponse); [done..|by apply reads_result].
    + destruct Hok. apply (decodes_intro _ _ _ _ (SimpleCheckResponse retValue resultRef)); [done|].
      by read_fields.
    + apply (decodes_intro _ _ [] _ CancelResponse); [done|]. apply reads_sequenceNumber.
  - by intros r (_ & ? & ?).
Qed.
