(* ===== verification/ProtocolAdmin.v ===== *)
(** * The administration protocol ([common/protocol/ProtocolAdmin])

    Writers and readers of the messages between the administration library and the
    service.  [SetPolicies] carries two maps from bucket ids to lists; the reader rebuilds
    them by pushing at the back of the list of the id just read. *)
From S2P Require Import Prelude Text Types BinaryQueue Serialization Frame Messages.
From S2P Require Import ProtocolClient.

(** ** Fields *)

Section admin_fields.
Context {S : Type} `{IStream S}.

Definition serialize_policy (p : Policy) : SE S unit :=
  serialize_key (key p) ;; serialize_result (result p).
Definition deserialize_policy : SE S Policy :=
  key ← deserialize_key; result ← deserialize_result; mret (mkPolicy key result).

Definition serialize_description (d : PolicyDescription) : SE S unit :=
  serialize_u16 (type d) ;; serialize_string (name d).
Definition deserialize_description : SE S PolicyDescription :=
  type ← deserialize_u16; name ← deserialize_string; mret (mkPolicyDescription type name).

(** [map[policyBucketId].push_back(v)] *)
Definition pushBack {V} (id : PolicyBucketId) (v : V) (m : gmap PolicyBucketId (list V)) :
    gmap PolicyBucketId (list V) :=
  <[id := default [] (m !! id) ++ [v]]> m.

Definition serialize_groups {V} (serialize : V → SE S unit) (m : gmap PolicyBucketId (list V)) :
    SE S unit :=
  serialize_u16 (wrap_unsigned 16 (Z.of_nat (size m))) ;;
  forEach (stdmap_iter String.le m) (λ '(id, vs), serialize_string id ;; serialize_counted serialize vs).

(** The inner loop over [policyCount] and the outer loop over the groups. *)
Fixpoint deserialize_group {V} (policyCount : nat) (id : PolicyBucketId) (deserialize : SE S V)
    (m : gmap PolicyBucketId (list V)) : SE S (gmap PolicyBucketId (list V)) :=
  match policyCount with
  | 0 => mret m
  | Datatypes.S n =>
      v ← deserialize;
      deserialize_group n id deserialize (pushBack id v m)
  end.

Fixpoint deserialize_groupsLoop {V} (count : nat) (deserialize : SE S V)
    (m : gmap PolicyBucketId (list V)) : SE S (gmap PolicyBucketId (list V)) :=
  match count with
  | 0 => mret m
  | Datatypes.S n =>
      policyBucketId ← deserialize_string;
      policyCount ← deserialize_u16;
      m ← deserialize_group (Z.to_nat policyCount) policyBucketId deserialize m;
      deserialize_groupsLoop n deserialize m
  end.

Definition deserialize_groups {V} (deserialize : SE S V) : SE S (gmap PolicyBucketId (list V)) :=
  count ← deserialize_u16;
  deserialize_groupsLoop (Z.to_nat count) deserialize ∅.
End admin_fields.

(** ** Readers *)

Definition deserializeAdminCheckRequest : Reader Request :=
  key ← deserialize_key;
  startBucket ← deserialize_string;
  recursive ← deserialize_bool;
  seq ← sequenceNumber; mret (AdminCheckRequest key startBucket recursive seq).

Definition deserializeDescriptionListRequest : Reader Request :=
  seq ← sequenceNumber; mret (DescriptionListRequest seq).

Definition deserializeEraseRequest : Reader Request :=
  startBucket ← deserialize_string;
  recursive ← deserialize_bool;
  filter ← deserialize_key;
  seq ← sequenceNumber; mret (EraseRequest startBucket recursive filter seq).

Definition deserializeInsertOrUpdateBucketRequest : Reader Request :=
  policyBucketId ← deserialize_string;
  result ← deserialize_result;
  seq ← sequenceNumber; mret (InsertOrUpdateBucketRequest policyBucketId result seq).

Definition deserializeListRequest : Reader Request :=
  bucketId ← deserialize_string;
  filter ← deserialize_key;
  seq ← sequenceNumber; mret (ListRequest bucketId filter seq).

Definition deserializeRemoveBucketRequest : Reader Request :=
  policyBucketId ← deserialize_string;
  seq ← sequenceNumber; mret (RemoveBucketRequest policyBucketId seq).

Definition deserializeSetPoliciesRequest : Reader Request :=
  toBeInsertedOrUpdatedPolicies ← deserialize_groups deserialize_policy;
  toBeRemovedPolicies ← deserialize_groups deserialize_key;
  seq ← sequenceNumber;
  mret (SetPoliciesRequest toBeInsertedOrUpdatedPolicies toBeRemovedPolicies seq).

Definition admin_requestSwitch (opCode : Z) : Reader Request :=
  if (opCode =? OpAdminCheckRequest)%Z then deserializeAdminCheckRequest
  else if (opCode =? OpDescriptionListRequest)%Z then deserializeDescriptionListRequest
  else if (opCode =? OpEraseRequest)%Z then deserializeEraseRequest
  else if (opCode =? OpInsertOrUpdateBucket)%Z then deserializeInsertOrUpdateBucketRequest
  else if (opCode =? OpListRequest)%Z then deserializeListRequest
  else if (opCode =? OpRemoveBucket)%Z then deserializeRemoveBucketRequest
  else if (opCode =? OpSetPolicies)%Z then deserializeSetPoliciesRequest
  else throw (InvalidProtocolException WrongOpCode).

Definition admin_extractRequestFromBuffer : Reader (option Request) :=
  extractFrame admin_requestSwitch.

Definition deserializeAdminCheckResponse : Reader Response :=
  policyResult ← deserialize_result;
  bucketValid ← deserialize_bool;
  dbCorrupted ← deserialize_bool;
  seq ← sequenceNumber; mret (AdminCheckResponse policyResult bucketValid dbCorrupted seq).

Definition deserializeCodeResponse : Reader Response :=
  responseCode ← deserialize_u16;
  seq ← sequenceNumber; mret (CodeResponse responseCode seq).

Definition deserializeDescriptionListResponse : Reader Response :=
  descriptions ← deserialize_counted deserialize_description;
  dbCorrupted ← deserialize_bool;
  seq ← sequenceNumber; mret (DescriptionListResponse descriptions dbCorrupted seq).

Definition deserializeListResponse : Reader Response :=
  policies ← deserialize_counted deserialize_policy;
  bucketValid ← deserialize_bool;
  dbCorrupted ← deserialize_bool;
  seq ← sequenceNumber; mret (ListResponse policies bucketValid dbCorrupted seq).

Definition admin_responseSwitch (opCode : Z) : Reader Response :=
  if (opCode =? OpAdminCheckPolicyResponse)%Z then deserializeAdminCheckResponse
  else if (opCode =? OpCodeResponse)%Z then deserializeCodeResponse
  else if (opCode =? OpDescriptionListResponse)%Z then deserializeDescriptionListResponse
  else if (opCode =? OpListResponse)%Z then deserializeListResponse
  else throw (InvalidProtocolException WrongOpCode).

Definition admin_extractResponseFromBuffer : Reader (option Response) :=
  extractFrame admin_responseSwitch.

(** ** Writers *)

Definition admin_executeRequest (request : Request) : Writer :=
  match request with
  | AdminCheckRequest key startBucket recursive seq =>
      serializeFrame seq
        (serialize_opCode OpAdminCheckRequest ;; serialize_key key ;;
         serialize_string startBucket ;; serialize_bool recursive)
  | DescriptionListRequest seq => serializeFrame seq (serialize_opCode OpDescriptionListRequest)
  | EraseRequest startBucket recursive filter seq =>
      serializeFrame seq
        (serialize_opCode OpEraseRequest ;; serialize_string startBucket ;;
         serialize_bool recursive ;; serialize_key filter)
  | InsertOrUpdateBucketRequest bucketId result seq =>
      serializeFrame seq
        (serialize_opCode OpInsertOrUpdateBucket ;; serialize_string bucketId ;; serialize_result result)
  | ListRequest bucket filter seq =>
      serializeFrame seq
        (serialize_opCode OpListRequest ;; serialize_string bucket ;; serialize_key filter)
  | RemoveBucketRequest bucketId seq =>
      serializeFrame seq (serialize_opCode OpRemoveBucket ;; serialize_string bucketId)
  | SetPoliciesRequest toBeInsertedOrUpdated toBeRemoved seq =>
      serializeFrame seq
        (serialize_opCode OpSetPolicies ;; serialize_groups serialize_policy toBeInsertedOrUpdated ;;
         serialize_groups serialize_key toBeRemoved)
  | _ => RequestTaker_execute request
  end.

Definition admin_executeResponse (response : Response) : Writer :=
  match response with
  | AdminCheckResponse result bucketValid dbCorrupted seq =>
      serializeFrame seq
        (serialize_opCode OpAdminCheckPolicyResponse ;; serialize_result result ;;
         serialize_bool bucketValid ;; serialize_bool dbCorrupted)
  | CodeResponse code seq =>
      serializeFrame seq (serialize_opCode OpCodeResponse ;; serialize_u16 (wrap_unsigned 16 code))
  | DescriptionListResponse descriptions dbCorrupted seq =>
      serializeFrame seq
        (serialize_opCode OpDescriptionListResponse ;;
         serialize_counted serialize_description descriptions ;; serialize_bool dbCorrupted)
  | ListResponse policies bucketValid dbCorrupted seq =>
      serializeFrame seq
        (serialize_opCode OpListResponse ;; serialize_counted serialize_policy policies ;;
         serialize_bool bucketValid ;; serialize_bool dbCorrupted)
  | _ => ResponseTaker_execute response
  end.

(** ** Bytes on the wire *)

Definition enc_policy (p : Policy) : string := fields [enc_key (key p); enc_result (result p)].
Definition enc_description (d : PolicyDescription) : string :=
  fields [le_bytes 2 (type d); enc_string (name d)].
Definition enc_group {V} (enc : V → string) (g : PolicyBucketId * list V) : string :=
  fields [enc_string g.1; enc_counted enc g.2].
Definition enc_groups {V} (enc : V → string) (m : gmap PolicyBucketId (list V)) : string :=
  fields (le_bytes 2 (wrap_unsigned 16 (Z.of_nat (size m))) ::
          map (enc_group enc) (stdmap_iter String.le m)).
#[global] Arguments enc_policy : simpl never.
#[global] Arguments enc_description : simpl never.
#[global] Arguments enc_group : simpl never.

Definition policy_ok (p : Policy) : Prop := key_ok (key p) ∧ result_ok (result p).
Definition description_ok (d : PolicyDescription) : Prop := is_uint 16 (type d) ∧ id_ok (name d).
(** Groups without a policy do not survive: the reader only creates a key when it pushes. *)
Definition group_ok {V} (P : V → Prop) (id : PolicyBucketId) (vs : list V) : Prop :=
  id_ok id ∧ vs ≠ [] ∧ counted_ok P vs.
Definition groups_ok {V} (P : V → Prop) (m : gmap PolicyBucketId (list V)) : Prop :=
  (Z.of_nat (size m) < 2 ^ 16)%Z ∧ map_Forall (group_ok P) m.

#[global] Instance policy_ok_dec p : Decision (policy_ok p).
Proof. unfold policy_ok. apply _. Defined.
#[global] Instance description_ok_dec d : Decision (description_ok d).
Proof. unfold description_ok. apply _. Defined.
#[global] Instance group_ok_dec {V} (P : V → Prop) `{∀ v, Decision (P v)} id vs : Decision (group_ok P id vs).
Proof.
  unfold group_ok. apply and_dec; [apply _|]. apply and_dec; [|apply _].
  destruct vs; [right; by intros []|by left].
Defined.
#[global] Instance groups_ok_dec {V} (P : V → Prop) `{∀ v, Decision (P v)} m : Decision (groups_ok P m).
Proof. unfold groups_ok. apply _. Defined.

(** ** Lemmas *)

Section admin_reads.
Context {S T : Type} `{ReadLaws S T}.

Lemma reads_policy p : policy_ok p → reads_to deserialize_policy (enc_policy p) p.
Proof.
  intros [Hk Hr]. destruct p as [k r]; cbn in *. unfold enc_policy. cbn [key result].
  eapply reads_fields; [by apply reads_key|]. by apply (reads_last _ (mkPolicy k)), reads_result.
Qed.

Lemma reads_description d : description_ok d → reads_to deserialize_description (enc_description d) d.
Proof.
  intros [Ht Hn]. destruct d as [t n]; cbn in *. unfold enc_description. cbn [type name].
  eapply reads_fields; [by apply reads_u16|]. by apply (reads_last _ (mkPolicyDescription t)), reads_string.
Qed.

Lemma reads_group {V} (deserialize : SE S V) enc P id vs m :
  (∀ v, P v → reads_to deserialize (enc v) v) → Forall P vs →
  reads_to (deserialize_group (length vs) id deserialize m) (fields (map enc vs))
    (foldl (λ m v, pushBack id v m) m vs).
Proof.
  intros Hr HP. revert m. induction HP as [|v vs Hv HP IH]; intros m; cbn [length deserialize_group map foldl].
  - apply reads_ret.
  - eapply reads_fields; [by apply Hr|]. apply IH.
Qed.

Lemma pushBack_all {V} id (vs : list V) m :
  vs ≠ [] → foldl (λ m v, pushBack id v m) m vs = <[id := default [] (m !! id) ++ vs]> m.
Proof.
  intros Hvs. revert m. induction vs as [|v vs IH]; intros m; [done|]. cbn [foldl].
  destruct vs as [|v' vs]; [done|]. rewrite IH by done. unfold pushBack at 1 2.
  rewrite lookup_insert_eq, insert_insert_eq. cbn. by rewrite <-app_assoc.
Qed.

Lemma reads_groupsLoop {V} (deserialize : SE S V) enc P (gs : list (PolicyBucketId * list V)) m :
  (∀ v, P v → reads_to deserialize (enc v) v) →
  Forall (λ g, group_ok P g.1 g.2) gs → NoDup gs.*1 → (∀ g, g ∈ gs → m !! g.1 = None) →
  reads_to (deserialize_groupsLoop (length gs) deserialize m) (fields (map (enc_group enc) gs))
    (list_to_map gs ∪ m).
Proof.
  intros Hr HP. revert m. induction HP as [|[id vs] gs (Hid & Hne & Hc) HP IH]; intros m Hnd Hm;
    cbn [length deserialize_groupsLoop map].
  { rewrite list_to_map_nil, (left_id_L ∅ (∪)). apply reads_ret. }
  cbn [fst snd] in *. apply NoDup_cons in Hnd as [Hnin Hnd].
  destruct Hc as [Hc HPs].
  assert (fields (enc_group enc (id, vs) :: map (enc_group enc) gs) =
    fields (enc_string id :: le_bytes 2 (Z.of_nat (length vs)) :: fields (map enc vs) ::
      map (enc_group enc) gs)) as ->.
  { unfold enc_group at 1, enc_counted. cbn [fst snd]. rewrite wrap_count by done.
    unfold fields. cbn [foldr]. by rewrite !str_app_nil_r, !str_app_assoc. }
  eapply reads_fields; [by apply reads_string|].
  eapply reads_fields; [apply reads_u16; unfold is_uint; lia|]. rewrite Nat2Z.id.
  eapply reads_fields; [by eapply reads_group|]. rewrite pushBack_all by done.
  assert (m !! id = None) as -> by (apply (Hm (id, vs)); set_solver). cbn [default from_option app].
  replace (list_to_map ((id, vs) :: gs) ∪ m) with (list_to_map gs ∪ <[id:=vs]> m).
  { apply IH; [done|]. intros g Hg. rewrite lookup_insert_ne; [apply Hm; set_solver|].
    intros ->. apply Hnin. apply list_elem_of_fmap. by exists g. }
  rewrite list_to_map_cons, <-insert_union_l. rewrite insert_union_r; [done|].
  apply not_elem_of_list_to_map_1. done.
Qed.

Lemma reads_groups {V} (deserialize : SE S V) enc P m :
  (∀ v, P v → reads_to deserialize (enc v) v) → groups_ok P m →
  reads_to (deserialize_groups deserialize) (enc_groups enc m) m.
Proof.
  intros Hr [Hs HP]. unfold deserialize_groups, enc_groups. rewrite wrap_count by done.
  eapply reads_fields; [apply reads_u16; unfold is_uint; lia|]. rewrite Nat2Z.id.
  pose proof (stdmap_iter_perm String.le m) as Hp.
  assert (size m = length (stdmap_iter String.le m)) as ->.
  { rewrite Hp. by rewrite length_map_to_list. }
  assert (NoDup (stdmap_iter String.le m).*1) as Hnd.
  { rewrite Hp. apply NoDup_fst_map_to_list. }
  assert (list_to_map (stdmap_iter String.le m) ∪ (∅ : gmap string (list V)) = m) as Hm.
  { rewrite (right_id_L ∅ (∪)). rewrite <-(list_to_map_to_list m) at 2.
    by apply list_to_map_proper. }
  pose proof (reads_groupsLoop deserialize enc P (stdmap_iter String.le m) ∅ Hr) as Hl.
  rewrite Hm in Hl. apply Hl; [|done|done].
  apply Forall_forall. intros [id vs] Hin. apply elem_of_stdmap_iter in Hin. by apply HP.
Qed.
End admin_reads.

Section admin_writes.
Context {S T : Type} `{WriteLaws S T}.

Lemma writes_policy p : policy_ok p → writes (serialize_policy p) (enc_policy p).
Proof.
  intros [Hk Hr]. apply writes_fields; [by apply writes_key|]. by apply writes_last, writes_result.
Qed.

Lemma writes_description d : description_ok d → writes (serialize_description d) (enc_description d).
Proof.
  intros [Ht Hn]. apply writes_fields; [apply writes_raw|]. by apply writes_last, writes_string.
Qed.

Lemma writes_groups {V} (serialize : V → SE S unit) enc P m :
  (∀ v, P v → writes (serialize v) (enc v)) → groups_ok P m →
  writes (serialize_groups serialize m) (enc_groups enc m).
Proof.
  intros Hw [Hs HP]. apply writes_fields; [apply writes_raw|]. apply writes_forEach.
  intros [id vs] Hin. apply elem_of_stdmap_iter in Hin. apply HP in Hin as (Hid & _ & Hc).
  apply writes_fields; [by apply writes_string|]. by eapply writes_last, writes_counted.
Qed.
End admin_writes.

(** ** The laws *)

Definition admin_request_body (r : Request) : string :=
  match r with
  | AdminCheckRequest k b rec _ =>
      fields [le_bytes 1 OpAdminCheckRequest; enc_key k; enc_string b; enc_bool rec]
  | DescriptionListRequest _ => fields [le_bytes 1 OpDescriptionListRequest]
  | EraseRequest b rec f _ =>
      fields [le_bytes 1 OpEraseRequest; enc_string b; enc_bool rec; enc_key f]
  | InsertOrUpdateBucketRequest b r _ =>
      fields [le_bytes 1 OpInsertOrUpdateBucket; enc_string b; enc_result r]
  | ListRequest b f _ => fields [le_bytes 1 OpListRequest; enc_string b; enc_key f]
  | RemoveBucketRequest b _ => fields [le_bytes 1 OpRemoveBucket; enc_string b]
  | SetPoliciesRequest ins rem _ =>
      fields [le_bytes 1 OpSetPolicies; enc_groups enc_policy ins; enc_groups enc_key rem]
  | _ => ""
  end.

Definition admin_request_ok (r : Request) : Prop :=
  match r with
  | AdminCheckRequest k b _ _ => key_ok k ∧ id_ok b
  | DescriptionListRequest _ => True
  | EraseRequest b _ f _ | ListRequest b f _ => id_ok b ∧ key_ok f
  | InsertOrUpdateBucketRequest b r _ => id_ok b ∧ result_ok r
  | RemoveBucketRequest b _ => id_ok b
  | SetPoliciesRequest ins rem _ => groups_ok policy_ok ins ∧ groups_ok key_ok rem
  | _ => False
  end ∧ body_fits (admin_request_body r) ∧ is_uint 16 (request_sequenceNumber r).

Definition admin_response_body (r : Response) : string :=
  match r with
  | AdminCheckResponse r v c _ =>
      fields [le_bytes 1 OpAdminCheckPolicyResponse; enc_result r; enc_bool v; enc_bool c]
  | CodeResponse code _ => fields [le_bytes 1 OpCodeResponse; le_bytes 2 code]
  | DescriptionListResponse ds c _ =>
      fields [le_bytes 1 OpDescriptionListResponse; enc_counted enc_description ds; enc_bool c]
  | ListResponse ps v c _ =>
      fields [le_bytes 1 OpListResponse; enc_counted enc_policy ps; enc_bool v; enc_bool c]
  | _ => ""
  end.

Definition admin_response_ok (r : Response) : Prop :=
  match r with
  | AdminCheckResponse r _ _ _ => result_ok r
  | CodeResponse code _ => is_uint 16 code
  | DescriptionListResponse ds _ _ => counted_ok description_ok ds
  | ListResponse ps _ _ _ => counted_ok policy_ok ps
  | _ => False
  end ∧ body_fits (admin_response_body r) ∧ is_uint 16 (response_sequenceNumber r).

#[global] Hint Resolve writes_policy writes_description reads_policy reads_description : wire.

#[global] Instance admin_request_laws :
  ProtocolLaws admin_executeRequest admin_requestSwitch admin_request_body request_sequenceNumber
    admin_request_ok.
Proof.
  split.
  - intros r data (Hok & Hfit & _) Hq.
    destruct r; try done; split_ok Hok; cbn [admin_executeRequest admin_request_body] in *;
      (apply serializeFrame_ok; [|done..]); try by write_fields.
    apply writes_fields; [apply writes_raw|]. apply writes_fields; [by eapply writes_groups; eauto with wire|].
    eapply writes_last, writes_groups; eauto with wire.
  - intros r (Hok & Hfit & Hn).
    destruct r; try done; split_ok Hok; cbn [admin_request_body request_sequenceNumber] in *.
    + apply (decodes_intro _ _ _ _ (AdminCheckRequest key startBucket recursive)); [done|]. by read_fields.
    + apply (decodes_intro _ _ [] _ DescriptionListRequest); [done|]. apply reads_sequenceNumber.
    + apply (decodes_intro _ _ _ _ (EraseRequest startBucket recursive filter)); [done|]. by read_fields.
    + apply (decodes_intro _ _ _ _ (InsertOrUpdateBucketRequest bucketId result)); [done|]. by read_fields.
    + apply (decodes_intro _ _ _ _ (ListRequest bucket filter)); [done|]. by read_fields.
    + apply (decodes_intro _ _ _ _ (RemoveBucketRequest bucketId)); [done|]. by read_fields.
    + apply (decodes_intro _ _ _ _ (SetPoliciesRequest policiesToBeInsertedOrUpdated policiesToBeRemoved));
        [done|].
      eapply reads_fields; [eapply reads_groups; eauto with wire|].
      eapply reads_fields; [eapply reads_groups; eauto with wire|]. apply reads_sequenceNumber.
  - by intros r (_ & ? & ?).
Qed.


#[global] Instance admin_response_laws :
  ProtocolLaws admin_executeResponse admin_responseSwitch admin_response_body response_sequenceNumber
    admin_response_ok.
Proof.
  split.
  - intros r data (Hok & Hfit & _) Hq.
    destruct r; try done; cbn [admin_executeResponse admin_response_body] in *;
      (apply serializeFrame_ok; [|done..]); try by write_fields.
    + apply writes_fields; [apply writes_raw|].
      apply writes_fields; [by eapply writes_counted; eauto with wire|]. by write_fields.
    + apply writes_fields; [apply writes_raw|].
      apply writes_fields; [by eapply writes_counted; eauto with wire|]. by write_fields.
  - intros r (Hok & Hfit & Hn).
    destruct r; try done; cbn [admin_response_body response_sequenceNumber] in *.
    + apply (decodes_intro _ _ _ _ (AdminCheckResponse result bucketValid dbCorrupted)); [done|]. by read_fields.
    + apply (decodes_intro _ _ _ _ (CodeResponse code)); [done|]. by read_fields.
    + apply (decodes_intro _ _ _ _ (DescriptionListResponse descriptions dbCorrupted)); [done|].
      eapply reads_fields; [eapply reads_counted; eauto with wire|]. by read_fields.
    + apply (decodes_intro _ _ _ _ (ListResponse policies bucketValid dbCorrupted)); [done|].
      eapply reads_fields; [eapply reads_counted; eauto with wire|]. by read_fields.
  - by intros r (_ & ? & ?).
Qed.
