(* ===== verification/ProtocolAgent.v ===== *)
(** * The agent, monitor and signal protocols

    [common/protocol/ProtocolAgent], [ProtocolMonitorGet] and [ProtocolSignal].  The
    signal protocol reads fixed-size kernel records instead of frames. *)
From S2P Require Import Prelude Text Types BinaryQueue Serialization Frame Messages.
From S2P Require Import ProtocolClient.

(** ** [ProtocolAgent] *)

Definition deserializeActionRequest : Reader Request :=
  requestType ← deserialize_u8;
  data ← deserialize_vector deserialize_u8;
  seq ← sequenceNumber; mret (AgentActionRequest requestType data seq).

Definition deserializeRegisterRequest : Reader Request :=
  agentType ← deserialize_string;
  seq ← sequenceNumber; mret (AgentRegisterRequest agentType seq).

Definition agent_requestSwitch (opCode : Z) : Reader Request :=
  if (opCode =? OpAgentActionRequest)%Z then deserializeActionRequest
  else if (opCode =? OpAgentRegisterRequest)%Z then deserializeRegisterRequest
  else throw (InvalidProtocolException WrongOpCode).

Definition agent_extractRequestFromBuffer : Reader (option Request) :=
  extractFrame agent_requestSwitch.

Definition deserializeActionResponse : Reader Response :=
  responseType ← deserialize_u8;
  data ← deserialize_vector deserialize_u8;
  seq ← sequenceNumber; mret (AgentActionResponse responseType data seq).

Definition deserializeRegisterResponse : Reader Response :=
  result ← deserialize_u16;
  seq ← sequenceNumber; mret (AgentRegisterResponse result seq).

Definition agent_responseSwitch (opCode : Z) : Reader Response :=
  if (opCode =? OpAgentActionResponse)%Z then deserializeActionResponse
  else if (opCode =? OpAgentRegisterResponse)%Z then deserializeRegisterResponse
  else throw (InvalidProtocolException WrongOpCode).

Definition agent_extractResponseFromBuffer : Reader (option Response) :=
  extractFrame agent_responseSwitch.

Definition agent_executeRequest (request : Request) : Writer :=
  match request with
  | AgentActionRequest type data seq =>
      serializeFrame seq
        (serialize_opCode OpAgentActionRequest ;; serialize_u8 type ;; serialize_vector serialize_u8 data)
  | AgentRegisterRequest agentType seq =>
      serializeFrame seq (serialize_opCode OpAgentRegisterRequest ;; serialize_string agentType)
  | _ => RequestTaker_execute request
  end.

Definition agent_executeResponse (response : Response) : Writer :=
  match response with
  | AgentRegisterResponse code seq =>
      serializeFrame seq
        (serialize_opCode OpAgentRegisterResponse ;; serialize_u16 (wrap_unsigned 16 code))
  | AgentActionResponse type data seq =>
      serializeFrame seq
        (serialize_opCode OpAgentActionResponse ;; serialize_u8 type ;; serialize_vector serialize_u8 data)
  | _ => ResponseTaker_execute response
  end.

(** ** [ProtocolMonitorGet] *)

Definition deserializeMonitorGetEntriesRequest : Reader Request :=
  bufferSize ← deserialize_u64;
  seq ← sequenceNumber; mret (MonitorGetEntriesRequest bufferSize seq).

Definition deserializeMonitorGetFlushRequest : Reader Request :=
  seq ← sequenceNumber; mret (MonitorGetFlushRequest seq).

Definition monitorGet_requestSwitch (opCode : Z) : Reader Request :=
  if (opCode =? OpMonitorGetEntriesRequest)%Z then deserializeMonitorGetEntriesRequest
  else if (opCode =? OpMonitorGetFlushRequest)%Z then deserializeMonitorGetFlushRequest
  else throw (InvalidProtocolException WrongOpCode).

Definition monitorGet_extractRequestFromBuffer : Reader (option Request) :=
  extractFrame monitorGet_requestSwitch.

Definition deserializeMonitorGetEntriesResponse : Reader Response :=
  entries ← deserialize_counted deserialize_entry;
  seq ← sequenceNumber; mret (MonitorGetEntriesResponse entries seq).

Definition monitorGet_responseSwitch (opCode : Z) : Reader Response :=
  if (opCode =? OpMonitorGetEntriesResponse)%Z then deserializeMonitorGetEntriesResponse
  else throw (InvalidProtocolException WrongOpCode).

Definition monitorGet_extractResponseFromBuffer : Reader (option Response) :=
  extractFrame monitorGet_responseSwitch.

Definition monitorGet_executeRequest (request : Request) : Writer :=
  match request with
  | MonitorGetEntriesRequest bufferSize seq =>
      serializeFrame seq (serialize_opCode OpMonitorGetEntriesRequest ;; serialize_u64 bufferSize)
  | MonitorGetFlushRequest seq => serializeFrame seq (serialize_opCode OpMonitorGetFlushRequest)
  | _ => RequestTaker_execute request
  end.

Definition monitorGet_executeResponse (response : Response) : Writer :=
  match response with
  | MonitorGetEntriesResponse entries seq =>
      serializeFrame seq
        (serialize_opCode OpMonitorGetEntriesResponse ;; serialize_counted serialize_entry entries)
  | _ => ResponseTaker_execute response
  end.

(** ** [ProtocolSignal] *)

(** [sizeof(struct signalfd_siginfo)] *)
Definition siginfo_size : nat := 128.

Definition signal_extractRequestFromBuffer : SE BinaryQueue (option Request) :=
  bufferQueue ← get;
  if siginfo_size <=? queue_size bufferQueue then
    sigInfo ← flattenConsume siginfo_size;
    mret (Some (SignalRequest sigInfo))
  else mret None.

Definition signal_extractResponseFromBuffer : SE BinaryQueue (option Response) :=
  throw NotImplementedException.

Definition signal_executeRequest (request : Request) : Writer := RequestTaker_execute request.

(** ** Bytes on the wire and the laws *)

Definition enc_raw : RawBuffer → string := enc_vector (le_bytes 1).
Definition raw_ok (data : RawBuffer) : Prop :=
  length data ≤ CYNARA_MAX_VECTOR_SIZE ∧ Forall (is_uint 8) data.
#[global] Instance raw_ok_dec data : Decision (raw_ok data).
Proof. unfold raw_ok. apply _. Defined.

Lemma reads_raw_buffer {S T} `{ReadLaws S T} data :
  raw_ok data → reads_to (deserialize_vector deserialize_u8) (enc_raw data) data.
Proof.
  intros [Hl Hd]. apply reads_vector; [done|]. intros b Hb. apply reads_u8. by eapply Forall_forall.
Qed.
Lemma writes_raw_buffer {S T} `{WriteLaws S T} data :
  raw_ok data → writes (serialize_vector serialize_u8 data) (enc_raw data).
Proof. intros [Hl _]. apply writes_vector; [done|]. intros b _. apply writes_raw. Qed.
#[global] Hint Resolve reads_raw_buffer writes_raw_buffer : wire.

Definition agent_request_body (r : Request) : string :=
  match r with
  | AgentActionRequest t d _ => fields [le_bytes 1 OpAgentActionRequest; le_bytes 1 t; enc_raw d]
  | AgentRegisterRequest t _ => fields [le_bytes 1 OpAgentRegisterRequest; enc_string t]
  | _ => ""
  end.
Definition agent_request_ok (r : Request) : Prop :=
  match r with
  | AgentActionRequest t d _ => is_uint 8 t ∧ raw_ok d
  | AgentRegisterRequest t _ => id_ok t
  | _ => False
  end ∧ body_fits (agent_request_body r) ∧ is_uint 16 (request_sequenceNumber r).

Definition agent_response_body (r : Response) : string :=
  match r with
  | AgentActionResponse t d _ => fields [le_bytes 1 OpAgentActionResponse; le_bytes 1 t; enc_raw d]
  | AgentRegisterResponse c _ => fields [le_bytes 1 OpAgentRegisterResponse; le_bytes 2 c]
  | _ => ""
  end.
Definition agent_response_ok (r : Response) : Prop :=
  match r with
  | AgentActionResponse t d _ => is_uint 8 t ∧ raw_ok d
  | AgentRegisterResponse c _ => is_uint 16 c
  | _ => False
  end ∧ body_fits (agent_response_body r) ∧ is_uint 16 (response_sequenceNumber r).

#[global] Instance agent_request_laws :
  ProtocolLaws agent_executeRequest agent_requestSwitch agent_request_body request_sequenceNumber
    agent_request_ok.
Proof.
  split.
  - intros r data (Hok & Hfit & _) Hq.
    destruct r; try done; split_ok Hok; cbn [agent_executeRequest agent_request_body] in *;
      (apply serializeFrame_ok; [|done..]); by write_fields.
  - intros r (Hok & Hfit & Hn).
    destruct r; try done; split_ok Hok; cbn [agent_request_body request_sequenceNumber] in *.
    + apply (decodes_intro _ _ _ _ (AgentActionRequest type data)); [done|]. by read_fields.
    + apply (decodes_intro _ _ _ _ (AgentRegisterRequest agentType)); [done|]. by read_fields.
  - by intros r (_ & ? & ?).
Qed.

#[global] Instance agent_response_laws :
  ProtocolLaws agent_executeResponse agent_responseSwitch agent_response_body response_sequenceNumber
    agent_response_ok.
Proof.
  split.
  - intros r data (Hok & Hfit & _) Hq.
    destruct r; try done; split_ok Hok; cbn [agent_executeResponse agent_response_body] in *;
      (apply serializeFrame_ok; [|done..]); by write_fields.
  - intros r (Hok & Hfit & Hn).
    destruct r; try done; split_ok Hok; cbn [agent_response_body response_sequenceNumber] in *.
    + apply (decodes_intro _ _ _ _ (AgentActionResponse type data)); [done|]. by read_fields.
    + apply (decodes_intro _ _ _ _ (AgentRegisterResponse code)); [done|]. by read_fields.
  - by intros r (_ & ? & ?).
Qed.

Definition monitorGet_request_body (r : Request) : string :=
  match r with
  | MonitorGetEntriesRequest n _ => fields [le_bytes 1 OpMonitorGetEntriesRequest; le_bytes 8 n]
  | MonitorGetFlushRequest _ => fields [le_bytes 1 OpMonitorGetFlushRequest]
  | _ => ""
  end.
Definition monitorGet_request_ok (r : Request) : Prop :=
  match r with
  | MonitorGetEntriesRequest n _ => is_uint 64 n
  | MonitorGetFlushRequest _ => True
  | _ => False
  end ∧ body_fits (monitorGet_request_body r) ∧ is_uint 16 (request_sequenceNumber r).

Definition monitorGet_response_body (r : Response) : string :=
  match r with
  | MonitorGetEntriesResponse es _ =>
      fields [le_bytes 1 OpMonitorGetEntriesResponse; enc_counted enc_entry es]
  | _ => ""
  end.
Definition monitorGet_response_ok (r : Response) : Prop :=
  match r with
  | MonitorGetEntriesResponse es _ => counted_ok entry_ok es
  | _ => False
  end ∧ body_fits (monitorGet_response_body r) ∧ is_uint 16 (response_sequenceNumber r).

#[global] Instance monitorGet_request_laws :
  ProtocolLaws monitorGet_executeRequest monitorGet_requestSwitch monitorGet_request_body
    request_sequenceNumber monitorGet_request_ok.
Proof.
  split.
  - intros r data (Hok & Hfit & _) Hq.
    destruct r; try done; cbn [monitorGet_executeRequest monitorGet_request_body] in *;
      (apply serializeFrame_ok; [|done..]); by write_fields.
  - intros r (Hok & Hfit & Hn).
    destruct r; try done; cbn [monitorGet_request_body request_sequenceNumber] in *.
    + apply (decodes_intro _ _ _ _ (MonitorGetEntriesRequest bufferSize)); [done|]. by read_fields.
    + apply (decodes_intro _ _ [] _ MonitorGetFlushRequest); [done|]. apply reads_sequenceNumber.
  - by intros r (_ & ? & ?).
Qed.

#[global] Instance monitorGet_response_laws :
  ProtocolLaws monitorGet_executeResponse monitorGet_responseSwitch monitorGet_response_body
    response_sequenceNumber monitorGet_response_ok.
Proof.
  split.
  - intros r data (Hok & Hfit & _) Hq.
    destruct r; try done; cbn [monitorGet_executeResponse monitorGet_response_body] in *.
    apply serializeFrame_ok; [|done..].
    apply writes_fields; [apply writes_raw|]. eapply writes_last, writes_counted; eauto with wire.
  - intros r (Hok & Hfit & Hn).
    destruct r; try done; cbn [monitorGet_response_body response_sequenceNumber] in *.
    apply (decodes_intro _ _ _ _ (MonitorGetEntriesResponse entries)); [done|].
    eapply reads_fields; [eapply reads_counted; eauto with wire|]. by read_fields.
  - by intros r (_ & ? & ?).
Qed.
