(* ===== verification/Protocols.v ===== *)
(** * Protocols as objects, and byte streams of messages

    [Protocol] is the base class of the five protocols; its virtual functions dispatch on
    the dynamic type, here on [ProtocolKind].  [stream_of] gives the bytes of a sequence of
    messages; [feed] delivers bytes in pieces to a reader that extracts messages while it
    can, as the service does for every connection.  [feed_stream]: whatever the pieces, the
    messages come out complete, in order and once. *)
From S2P Require Import Prelude Text Types BinaryQueue Serialization Frame Messages.
From S2P Require Import ProtocolClient ProtocolAdmin ProtocolAgent.

Inductive ProtocolKind := PClient | PAdmin | PAgent | PMonitorGet | PSignal.
#[global] Instance ProtocolKind_eq_dec : EqDecision ProtocolKind.
Proof. solve_decision. Defined.

(** [Protocol::extractRequestFromBuffer] *)
Definition extractRequestFromBuffer (p : ProtocolKind) : Reader (option Request) :=
  match p with
  | PClient => client_extractRequestFromBuffer
  | PAdmin => admin_extractRequestFromBuffer
  | PAgent => agent_extractRequestFromBuffer
  | PMonitorGet => monitorGet_extractRequestFromBuffer
  | PSignal => onContent signal_extractRequestFromBuffer
  end.

(** [Protocol::extractResponseFromBuffer] *)
Definition extractResponseFromBuffer (p : ProtocolKind) : Reader (option Response) :=
  match p with
  | PClient => client_extractResponseFromBuffer
  | PAdmin => admin_extractResponseFromBuffer
  | PAgent => agent_extractResponseFromBuffer
  | PMonitorGet => monitorGet_extractResponseFromBuffer
  | PSignal => onContent signal_extractResponseFromBuffer
  end.

(** [request.execute(protocol, context)] *)
Definition protocol_executeRequest (p : ProtocolKind) (request : Request) : Writer :=
  match p with
  | PClient => client_executeRequest request
  | PAdmin => admin_executeRequest request
  | PAgent => agent_executeRequest request
  | PMonitorGet => monitorGet_executeRequest request
  | PSignal => signal_executeRequest request
  end.

(** [response.execute(protocol, context)]; the signal protocol keeps [ResponseTaker]'s. *)
Definition protocol_executeResponse (p : ProtocolKind) (response : Response) : Writer :=
  match p with
  | PClient => client_executeResponse response
  | PAdmin => admin_executeResponse response
  | PAgent => agent_executeResponse response
  | PMonitorGet => monitorGet_executeResponse response
  | PSignal => ResponseTaker_execute response
  end.

Definition requestSwitch (p : ProtocolKind) : Z → Reader Request :=
  match p with
  | PClient => client_requestSwitch
  | PAdmin => admin_requestSwitch
  | PAgent => agent_requestSwitch
  | PMonitorGet => monitorGet_requestSwitch
  | PSignal => λ _, throw NotImplementedException
  end.
Definition responseSwitch (p : ProtocolKind) : Z → Reader Response :=
  match p with
  | PClient => client_responseSwitch
  | PAdmin => admin_responseSwitch
  | PAgent => agent_responseSwitch
  | PMonitorGet => monitorGet_responseSwitch
  | PSignal => λ _, throw NotImplementedException
  end.

(** *** What each protocol puts on the wire *)

Definition request_body (p : ProtocolKind) : Request → string :=
  match p with
  | PClient => client_request_body
  | PAdmin => admin_request_body
  | PAgent => agent_request_body
  | PMonitorGet => monitorGet_request_body
  | PSignal => λ _, ""
  end.
Definition response_body (p : ProtocolKind) : Response → string :=
  match p with
  | PClient => client_response_body
  | PAdmin => admin_response_body
  | PAgent => agent_response_body
  | PMonitorGet => monitorGet_response_body
  | PSignal => λ _, ""
  end.

(** The whole frames. *)
Definition request_frame (p : ProtocolKind) (r : Request) : string :=
  frame_bytes (request_sequenceNumber r) (request_body p r).
Definition response_frame (p : ProtocolKind) (r : Response) : string :=
  frame_bytes (response_sequenceNumber r) (response_body p r).

(** The message belongs to the protocol and fits its fields. *)
Definition request_ok (p : ProtocolKind) : Request → Prop :=
  match p with
  | PClient => client_request_ok
  | PAdmin => admin_request_ok
  | PAgent => agent_request_ok
  | PMonitorGet => monitorGet_request_ok
  | PSignal => λ _, False
  end.
Definition response_ok (p : ProtocolKind) : Response → Prop :=
  match p with
  | PClient => client_response_ok
  | PAdmin => admin_response_ok
  | PAgent => agent_response_ok
  | PMonitorGet => monitorGet_response_ok
  | PSignal => λ _, False
  end.

#[global] Instance request_ok_dec p r : Decision (request_ok p r).
Proof.
  unfold request_ok. destruct p; [..|right; tauto];
    unfold client_request_ok, admin_request_ok, agent_request_ok, monitorGet_request_ok, body_fits;
    (apply and_dec; [destruct r; apply _|apply _]).
Defined.
#[global] Instance response_ok_dec p r : Decision (response_ok p r).
Proof.
  unfold response_ok. destruct p; [..|right; tauto];
    unfold client_response_ok, admin_response_ok, agent_response_ok, monitorGet_response_ok, body_fits;
    (apply and_dec; [destruct r; apply _|apply _]).
Defined.

#[global] Instance request_laws p :
  ProtocolLaws (protocol_executeRequest p) (requestSwitch p) (request_body p) request_sequenceNumber
    (request_ok p).
Proof. destruct p; [apply _..|]. by split. Qed.
#[global] Instance response_laws p :
  ProtocolLaws (protocol_executeResponse p) (responseSwitch p) (response_body p)
    response_sequenceNumber (response_ok p).
Proof. destruct p; [apply _..|]. by split. Qed.

(** ** Streams of messages *)

Section stream.
Context {M : Type} {execute : M → Writer} {switch : Z → Reader M} {body : M → string}
  {seq : M → Z} {ok : M → Prop} `{!ProtocolLaws execute switch body seq ok}.

Definition stream_of (ms : list M) : string := fields (map (λ m, frame_bytes (seq m) (body m)) ms).

(** Writing messages one after the other. *)
Lemma execute_all ms data :
  Forall ok ms → queue_ok data →
  ∃ data', forEach ms execute data = (Ret tt, data') ∧ queue_ok data' ∧
    bytes data' = bytes data +:+ stream_of ms.
Proof.
  intros Hms. revert data. induction Hms as [|m ms Hm Hms IH]; intros data Hq; cbn [forEach].
  - exists data. unfold stream_of. cbn. by rewrite str_app_nil_r.
  - destruct (message_written m data Hm Hq) as (d1 & H1 & Hq1 & Hb1).
    destruct (IH d1 Hq1) as (d2 & H2 & Hq2 & Hb2).
    exists d2. rewrite SE_bind_eq, H1, H2. split; [done|]. split; [done|].
    rewrite Hb2, Hb1. unfold stream_of. cbn. by rewrite str_app_assoc.
Qed.

(** The extraction loop: messages already complete are taken out, in order. *)
Fixpoint extractAll (fuel : nat) : Reader (list M) := λ h,
  match fuel with
  | 0 => (OutOfFuel, h)
  | S fuel' =>
      (message ← extractFrame switch;
       match message with
       | None => mret []
       | Some m => rest ← extractAll fuel'; mret (m :: rest)
       end) h
  end.

Lemma frame_bytes_pos n b : 0 < String.length (frame_bytes n b).
Proof.
  unfold frame_bytes. rewrite str_length_app, frame_header_length. change frameHeaderLength with 10. lia.
Qed.

(** With no byte waiting there is no message. *)
Lemma extractFrame_empty (h : ProtocolFrameHeader) : awaits h "" → extractFrame switch h = (Ret None, h).
Proof.
  intros (Hok & Hbc & Haw). unfold extractFrame.
  destruct (m_headerComplete h) eqn:Hc; [by destruct Haw as (_ & _ & [=])|].
  rewrite SE_bind_eq, deserializeHeader_short; [|done..|by rewrite <-Haw; cbn; lia].
  rewrite SE_bind_eq. cbn [get]. unfold isFrameComplete. by rewrite Hc.
Qed.

(** The first message of [ms] is not complete in [s]. *)
Definition drained (ms : list M) (s : string) : Prop :=
  match ms with [] => True | m :: _ => String.length s < String.length (frame_bytes (seq m) (body m)) end.

(** [s] waits and [rest] will follow; together they are the frames of [ms].  The loop
    takes out the frames that are complete in [s]. *)
Lemma extractAll_prefix fuel h s rest ms :
  length ms < fuel → Forall ok ms → awaits h s → s +:+ rest = stream_of ms →
  ∃ ms1 ms2 s' h', ms = ms1 ++ ms2 ∧ extractAll fuel h = (Ret ms1, h') ∧ awaits h' s' ∧
    s' +:+ rest = stream_of ms2 ∧ drained ms2 s'.
Proof.
  intros Hf Hms. revert fuel h s Hf. induction Hms as [|m ms Hm Hms IH]; intros [|fuel] h s Hf Haw Hs;
    cbn [length] in Hf; try lia; cbn [extractAll].
  - exists [], [], s, h. destruct s; [|done]. rewrite SE_bind_eq, extractFrame_empty by done. done.
  - destruct (message_fits m Hm) as [Hfit Hseq].
    unfold stream_of in Hs. cbn [map] in Hs.
    change (fields (frame_bytes (seq m) (body m) :: map (λ m, frame_bytes (seq m) (body m)) ms))
      with (frame_bytes (seq m) (body m) +:+ stream_of ms) in Hs.
    destruct (decide (String.length (frame_bytes (seq m) (body m)) ≤ String.length s)) as [Hle|Hgt].
    + assert (∃ s2, s = frame_bytes (seq m) (body m) +:+ s2) as [s2 ->].
      { exists (sdrop (String.length (frame_bytes (seq m) (body m))) s).
        apply (f_equal (stake (String.length (frame_bytes (seq m) (body m))))) in Hs.
        rewrite stake_app_le, stake_app in Hs by done. by rewrite <-Hs at 1; rewrite stake_sdrop. }
      rewrite str_app_assoc in Hs. apply str_app_inj_length in Hs as [_ Hs]; [|done].
      destruct (extractFrame_complete switch h (seq m) (body m) m s2 Hseq Hfit Haw (message_decoded m Hm))
        as (h1 & H1 & Haw1).
      destruct (IH fuel h1 s2 ltac:(lia) Haw1 Hs) as (ms1 & ms2 & s' & h' & -> & H2 & Haw2 & Hs2 & Hd2).
      exists (m :: ms1), ms2, s', h'. split; [done|]. rewrite SE_bind_eq, H1, SE_bind_eq, H2. done.
    + assert (∃ r2, s +:+ r2 = frame_bytes (seq m) (body m) ∧ r2 ≠ "") as (r2 & Hr & Hne).
      { exists (sdrop (String.length s) (frame_bytes (seq m) (body m))). split.
        - apply (f_equal (stake (String.length s))) in Hs.
          rewrite stake_app, stake_app_le in Hs by lia. rewrite Hs at 1. apply stake_sdrop.
        - intros Hd. apply (f_equal String.length) in Hd. rewrite str_length_sdrop in Hd. cbn in Hd. lia. }
      destruct (extractFrame_partial switch h s (seq m) (body m) r2 Hseq Hfit Haw Hr Hne) as (h1 & H1 & Haw1).
      exists [], (m :: ms), s, h1. rewrite SE_bind_eq, H1. split_and!; try done. cbn. lia.
Qed.

(** A piece arrives: it is appended to the read buffer, then messages are extracted. *)
Definition receive (fuel : nat) (piece : string) : Reader (list M) :=
  onContent (appendCopy piece) ;; extractAll fuel.

Fixpoint feed (fuel : nat) (pieces : list string) : Reader (list M) :=
  match pieces with
  | [] => mret []
  | piece :: pieces' =>
      ms ← receive fuel piece;
      ms' ← feed fuel pieces';
      mret (ms ++ ms')
  end.

Lemma feed_prefix fuel pieces h s rest ms :
  length ms < fuel → Forall ok ms → awaits h s → drained ms s →
  s +:+ fields pieces +:+ rest = stream_of ms →
  ∃ ms1 ms2 s' h', ms = ms1 ++ ms2 ∧ feed fuel pieces h = (Ret ms1, h') ∧ awaits h' s' ∧
    s' +:+ rest = stream_of ms2 ∧ drained ms2 s'.
Proof.
  intros Hf Hms. revert h s ms Hf Hms. induction pieces as [|piece pieces IH]; intros h s ms Hf Hms Haw Hd Hs;
    cbn [feed].
  - exists [], ms, s, h. done.
  - destruct (awaits_append h s piece Haw) as (q & Hq & Haw1).
    change (fields (piece :: pieces)) with (piece +:+ fields pieces) in Hs.
    rewrite str_app_assoc, <-str_app_assoc in Hs.
    destruct (extractAll_prefix fuel _ (s +:+ piece) (fields pieces +:+ rest) ms Hf Hms Haw1 Hs)
      as (ms1 & ms2 & s2 & h2 & -> & H2 & Haw2 & Hs2 & Hd2).
    rewrite length_app in Hf. apply Forall_app in Hms as [_ Hms2].
    destruct (IH h2 s2 ms2 ltac:(lia) Hms2 Haw2 Hd2 Hs2) as (ms3 & ms4 & s3 & h3 & -> & H3 & Haw3 & Hs3 & Hd3).
    exists (ms1 ++ ms3), ms4, s3, h3. rewrite app_assoc. split; [done|]. split; [|done].
    rewrite SE_bind_eq. unfold receive. rewrite SE_bind_eq. unfold onContent at 1. rewrite Hq, H2.
    by rewrite SE_bind_eq, H3.
Qed.

(** Whatever the pieces of a stream of messages, exactly those messages are received. *)
Lemma feed_stream fuel pieces h ms :
  length ms < fuel → Forall ok ms → awaits h "" → fields pieces = stream_of ms →
  ∃ h', feed fuel pieces h = (Ret ms, h') ∧ awaits h' "".
Proof.
  intros Hf Hms Haw Hs.
  destruct (feed_prefix fuel pieces h "" "" ms Hf Hms Haw) as (ms1 & ms2 & s & h' & -> & H & Haw' & Hs' & Hd).
  { destruct ms; [done|]. apply frame_bytes_pos. }
  { by rewrite str_app_nil_l, str_app_nil_r. }
  rewrite str_app_nil_r in Hs'. subst s. destruct ms2 as [|m ms2].
  - rewrite app_nil_r. by exists h'.
  - exfalso. cbn [drained] in Hd. unfold stream_of in Hd. cbn [map] in Hd. unfold fields in Hd. cbn [foldr] in Hd.
    rewrite str_length_app in Hd. lia.
Qed.
End stream.
