(* ===== verification/Typing.v ===== *)
(** * Decoded messages are well typed

    Whatever bytes arrive, a message the protocols decode has every integer in the range
    of its C++ type and every string and list within the limits of the protocol, and
    belongs to the protocol of its connection.  [typed Q m]: the reader [m] keeps its
    header well formed, and what it returns satisfies [Q]. *)
From S2P Require Import Prelude Text Types BinaryQueue Serialization Frame Messages.
From S2P Require Import ProtocolClient ProtocolAdmin ProtocolAgent Protocols.

(** ** Readers with a type *)

Definition header_ok (h : ProtocolFrameHeader) : Prop :=
  queue_ok (m_frameHeaderContent h) ∧ is_uint 16 (m_sequenceNumber h).

Definition typed {A} (Q : A → Prop) (m : Reader A) : Prop :=
  ∀ h, header_ok h → header_ok (m h).2 ∧ ∀ a, (m h).1 = Ret a → Q a.

Create HintDb typed.

Lemma typed_ret {A} (Q : A → Prop) a : Q a → typed Q (mret a).
Proof. intros Ha h Hh. split; [exact Hh|]. by intros b [= <-]. Qed.

Lemma typed_throw {A} (Q : A → Prop) e : typed Q (throw (A:=A) e).
Proof. intros h Hh. split; [exact Hh|]. by intros b. Qed.

Lemma typed_bind {A B} (Q : A → Prop) (R : B → Prop) (m : Reader A) (f : A → Reader B) :
  typed Q m → (∀ a, Q a → typed R (f a)) → typed R (m ≫= f).
Proof.
  intros Hm Hf h Hh. rewrite SE_bind_eq. destruct (Hm h Hh) as [Hh' Ha]. destruct (m h) as [[a|e|] h']; cbn [fst snd] in *.
  - by apply (Hf a (Ha a eq_refl)).
  - by split.
  - by split.
Qed.

Lemma typed_weaken {A} (Q R : A → Prop) (m : Reader A) : typed Q m → (∀ a, Q a → R a) → typed R m.
Proof. intros Hm HQR h Hh. destruct (Hm h Hh) as [Hh' Ha]. split; [done|]. intros a E. by apply HQR, Ha. Qed.

Lemma typed_if {A} (Q : A → Prop) (b : bool) (m m' : Reader A) : typed Q m → typed Q m' → typed Q (if b then m else m').
Proof. by destruct b. Qed.

Lemma typed_modify (f : ProtocolFrameHeader → ProtocolFrameHeader) :
  (∀ h, header_ok h → header_ok (f h)) → typed (λ _, True) (modify f).
Proof. intros Hf h Hh. split; [by apply Hf|done]. Qed.

Lemma typed_get : typed header_ok get.
Proof. intros h Hh. split; [done|]. by intros a [= <-]. Qed.

(** ** Fields *)

Lemma typed_read n : typed (λ s, String.length s = n) (stream_read n).
Proof.
  intros h [Hq Hs]. cbn [stream_read ProtocolFrameHeader_stream]. unfold onContent.
  destruct (decide (n ≤ String.length (bytes (m_frameHeaderContent h)))) as [Hn|Hn].
  - destruct (flattenConsume_ok n _ Hq Hn) as (q & -> & Hq' & _). split; [by split|].
    intros a [= <-]. rewrite str_length_stake. lia.
  - rewrite flattenConsume_short by (done || lia). split; [by split|done].
Qed.

Lemma le_value_is_uint s n : String.length s = n → is_uint (8 * Z.of_nat n) (le_value s).
Proof.
  intros <-. unfold is_uint. induction s as [|c s IH]; [cbn; lia|]. cbn [le_value String.length].
  pose proof (N_ascii_bounded c) as Hc. rewrite Nat2Z.inj_succ, Z.mul_succ_r, Z.add_comm, Z.pow_add_r by lia.
  change (2 ^ 8)%Z with 256%Z. lia.
Qed.

Lemma typed_uint n : typed (is_uint (8 * Z.of_nat n)) (bytes ← stream_read n; mret (le_value bytes)).
Proof. eapply typed_bind; [apply typed_read|]. intros s Hs. apply typed_ret. by apply le_value_is_uint. Qed.

Lemma to_signed_int w v : (0 < w)%Z → is_uint w v → is_int w (to_signed w v).
Proof.
  intros Hw [H0 H1]. unfold is_int, to_signed. assert (2 ^ w = 2 * 2 ^ (w - 1))%Z as Hp.
  { rewrite <-Z.pow_succ_r by lia. f_equal. lia. }
  destruct (Z.ltb_spec v (2 ^ (w - 1))); lia.
Qed.

Lemma typed_u8 : typed (is_uint 8) deserialize_u8.
Proof. apply (typed_uint 1). Qed.
Lemma typed_u16 : typed (is_uint 16) deserialize_u16.
Proof. apply (typed_uint 2). Qed.
Lemma typed_u32 : typed (is_uint 32) deserialize_u32.
Proof. apply (typed_uint 4). Qed.
Lemma typed_u64 : typed (is_uint 64) deserialize_u64.
Proof. apply (typed_uint 8). Qed.
Lemma typed_opCode : typed (is_uint 8) deserialize_opCode.
Proof. apply (typed_uint 1). Qed.
Lemma typed_i32 : typed (is_int 32) deserialize_i32.
Proof.
  eapply typed_bind; [apply typed_read|]. intros s Hs%le_value_is_uint. apply typed_ret. by apply to_signed_int.
Qed.
Lemma typed_i64 : typed (is_int 64) deserialize_i64.
Proof.
  eapply typed_bind; [apply typed_read|]. intros s Hs%le_value_is_uint. apply typed_ret. by apply to_signed_int.
Qed.
Lemma typed_bool : typed (λ _, True) deserialize_bool.
Proof. eapply typed_bind; [apply typed_read|]. intros s Hs. by apply typed_ret. Qed.

Lemma typed_string : typed id_ok deserialize_string.
Proof.
  unfold deserialize_string. eapply typed_bind; [apply typed_u32|]. intros n [Hn _].
  destruct (Z.ltb_spec (Z.of_nat CYNARA_MAX_ID_LENGTH) n) as [Hlt|Hle]; [apply typed_throw|].
  eapply typed_weaken; [apply typed_read|]. intros s Hs. unfold id_ok. rewrite Hs. apply Nat2Z.inj_le. rewrite Z2Nat.id by exact Hn. exact Hle.
Qed.
Lemma typed_stringNoSize n : typed (λ _, True) (deserialize_stringNoSize n).
Proof. unfold deserialize_stringNoSize. apply typed_if; [apply typed_throw|]. eapply typed_weaken; [apply typed_read|done]. Qed.

Lemma typed_times {T} (Q : T → Prop) n (m : Reader T) :
  typed Q m → typed (λ l, length l = n ∧ Forall Q l) (deserialize_times n m).
Proof.
  intros Hm. induction n as [|n IH]; cbn [deserialize_times]; [by apply typed_ret|].
  eapply typed_bind; [exact Hm|]. intros x Hx. eapply typed_bind; [exact IH|]. intros l [Hl HQ]. apply typed_ret.
  split; [cbn; by rewrite Hl|by constructor].
Qed.

Lemma typed_counted {T} (Q : T → Prop) (m : Reader T) : typed Q m → typed (counted_ok Q) (deserialize_counted m).
Proof.
  intros Hm. eapply typed_bind; [apply typed_u16|]. intros n Hn. eapply typed_weaken; [by apply typed_times|].
  intros l [Hl HQ]. unfold counted_ok, is_uint in *. split; [|done]. rewrite Hl. lia.
Qed.

Lemma typed_raw : typed raw_ok (deserialize_vector deserialize_u8).
Proof.
  unfold deserialize_vector. eapply typed_bind; [apply typed_u32|]. intros n [Hn _].
  destruct (Z.ltb_spec (Z.of_nat CYNARA_MAX_VECTOR_SIZE) n) as [Hlt|Hle]; [apply typed_throw|].
  eapply typed_weaken; [apply typed_times, typed_u8|]. intros l [Hl HQ]. split; [|done].
  rewrite Hl. apply Nat2Z.inj_le. rewrite Z2Nat.id by exact Hn. exact Hle.
Qed.

#[export] Hint Resolve typed_u8 typed_u16 typed_u32 typed_u64 typed_opCode typed_i32 typed_i64 typed_bool typed_string
  typed_stringNoSize typed_throw typed_counted typed_raw : typed.

(** Reads field after field. *)
Ltac typed_fields :=
  repeat match goal with
  | |- typed _ (mbind _ _) => eapply typed_bind; [solve [eauto with typed]|intros]
  | |- typed _ (if _ then _ else _) => apply typed_if
  | |- typed _ (throw _) => apply typed_throw
  end.

Lemma typed_key : typed key_ok deserialize_key.
Proof. unfold deserialize_key. typed_fields. by apply typed_ret. Qed.
Lemma typed_result : typed result_ok deserialize_result.
Proof. unfold deserialize_result. typed_fields. by apply typed_ret. Qed.
#[export] Hint Resolve typed_key typed_result : typed.

Lemma wrap_signed_is_int w v : (0 < w)%Z → is_int w (wrap_signed w v).
Proof.
  intros Hw. unfold wrap_signed. apply to_signed_int; [done|]. unfold is_uint. apply Z.mod_pos_bound. lia.
Qed.

Lemma typed_entry : typed entry_ok deserialize_entry.
Proof.
  unfold deserialize_entry. typed_fields. apply typed_ret. split; [done|]. split; [|done]. by apply wrap_signed_is_int.
Qed.
Lemma typed_policy : typed policy_ok deserialize_policy.
Proof. unfold deserialize_policy. typed_fields. by apply typed_ret. Qed.
Lemma typed_description : typed description_ok deserialize_description.
Proof. unfold deserialize_description. typed_fields. by apply typed_ret. Qed.
#[export] Hint Resolve typed_entry typed_policy typed_description : typed.

(** Groups as the reader builds them: none is empty. *)
Definition groups_typed {V} (Q : V → Prop) (m : gmap PolicyBucketId (list V)) : Prop :=
  map_Forall (λ id vs, id_ok id ∧ vs ≠ [] ∧ Forall Q vs) m.

Lemma groups_pushBack {V} (Q : V → Prop) id v m :
  groups_typed Q m → id_ok id → Q v → groups_typed Q (pushBack id v m).
Proof.
  intros Hm Hid Hv. apply map_Forall_insert_2; [|done]. split; [done|]. split; [by destruct (default [] _)|].
  apply Forall_app_2; [|by constructor]. destruct (m !! id) as [vs|] eqn:E; [|constructor]. by apply (Hm id vs E).
Qed.

Lemma typed_group {V} (Q : V → Prop) n id (d : Reader V) m :
  typed Q d → groups_typed Q m → id_ok id → typed (groups_typed Q) (deserialize_group n id d m).
Proof.
  intros Hd. revert m. induction n as [|n IH]; intros m Hm Hid; cbn [deserialize_group]; [by apply typed_ret|].
  eapply typed_bind; [exact Hd|]. intros v Hv. apply IH; [by apply groups_pushBack|done].
Qed.

Lemma typed_groupsLoop {V} (Q : V → Prop) n (d : Reader V) m :
  typed Q d → groups_typed Q m → typed (groups_typed Q) (deserialize_groupsLoop n d m).
Proof.
  intros Hd. revert m. induction n as [|n IH]; intros m Hm; cbn [deserialize_groupsLoop]; [by apply typed_ret|].
  typed_fields. eapply typed_bind; [by apply typed_group|]. intros m' Hm'. by apply IH.
Qed.

Lemma typed_groups {V} (Q : V → Prop) (d : Reader V) : typed Q d → typed (groups_typed Q) (deserialize_groups d).
Proof. intros Hd. unfold deserialize_groups. typed_fields. by apply typed_groupsLoop. Qed.
#[export] Hint Resolve typed_groups : typed.

Lemma typed_sequenceNumber : typed (is_uint 16) sequenceNumber.
Proof. intros h Hh. split; [done|]. intros a [= <-]. apply Hh. Qed.
#[export] Hint Resolve typed_sequenceNumber : typed.

(** ** Messages *)

(** The fields of a request, by the C++ types and the limits of the protocol; only the
    signal's record has no sequence number. *)
Definition request_fields (r : Request) : Prop :=
  match r with
  | CheckRequest k _ | SimpleCheckRequest k _ => key_ok k
  | CancelRequest _ | DescriptionListRequest _ | MonitorGetFlushRequest _ => True
  | MonitorEntriesPutRequest es _ => counted_ok entry_ok es
  | MonitorEntryPutRequest e _ => entry_ok e
  | AdminCheckRequest k b _ _ => key_ok k ∧ id_ok b
  | EraseRequest b _ f _ | ListRequest b f _ => id_ok b ∧ key_ok f
  | InsertOrUpdateBucketRequest b r _ => id_ok b ∧ result_ok r
  | RemoveBucketRequest b _ => id_ok b
  | SetPoliciesRequest ins rem _ => groups_typed policy_ok ins ∧ groups_typed key_ok rem
  | AgentActionRequest t d _ => is_uint 8 t ∧ raw_ok d
  | AgentRegisterRequest t _ => id_ok t
  | MonitorGetEntriesRequest n _ => is_uint 64 n
  | SignalRequest info => String.length info = siginfo_size
  end.
Definition request_typed (r : Request) : Prop := request_fields r ∧ is_uint 16 (request_sequenceNumber r).

Definition response_fields (r : Response) : Prop :=
  match r with
  | CheckResponse r _ => result_ok r
  | SimpleCheckResponse v r _ => is_int 32 v ∧ result_ok r
  | CancelResponse _ => True
  | AdminCheckResponse r _ _ _ => result_ok r
  | CodeResponse code _ | AgentRegisterResponse code _ => is_uint 16 code
  | DescriptionListResponse ds _ _ => counted_ok description_ok ds
  | ListResponse ps _ _ _ => counted_ok policy_ok ps
  | AgentActionResponse t d _ => is_uint 8 t ∧ raw_ok d
  | MonitorGetEntriesResponse es _ => counted_ok entry_ok es
  end.
Definition response_typed (r : Response) : Prop := response_fields r ∧ is_uint 16 (response_sequenceNumber r).

(** The protocol that carries a request. *)
Definition request_protocol (r : Request) : ProtocolKind :=
  match r with
  | CheckRequest _ _ | SimpleCheckRequest _ _ | CancelRequest _ | MonitorEntriesPutRequest _ _
  | MonitorEntryPutRequest _ _ => PClient
  | AdminCheckRequest _ _ _ _ | DescriptionListRequest _ | EraseRequest _ _ _ _ | InsertOrUpdateBucketRequest _ _ _
  | ListRequest _ _ _ | RemoveBucketRequest _ _ | SetPoliciesRequest _ _ _ => PAdmin
  | AgentActionRequest _ _ _ | AgentRegisterRequest _ _ => PAgent
  | MonitorGetEntriesRequest _ _ | MonitorGetFlushRequest _ => PMonitorGet
  | SignalRequest _ => PSignal
  end.

Definition request_of (p : ProtocolKind) (r : Request) : Prop := request_typed r ∧ request_protocol r = p.

Lemma typed_requestSwitch p opCode : typed (request_of p) (requestSwitch p opCode).
Proof.
  destruct p; cbn [requestSwitch]; [| | | |apply typed_throw];
    unfold client_requestSwitch, admin_requestSwitch, agent_requestSwitch, monitorGet_requestSwitch;
    unfold deserializeCancelRequest, deserializeCheckRequest, deserializeSimpleCheckRequest,
      deserializeMonitorEntriesPutRequest, deserializeMonitorEntryPutRequest, deserializeAdminCheckRequest,
      deserializeDescriptionListRequest, deserializeEraseRequest, deserializeInsertOrUpdateBucketRequest,
      deserializeListRequest, deserializeRemoveBucketRequest, deserializeSetPoliciesRequest, deserializeActionRequest,
      deserializeRegisterRequest, deserializeMonitorGetEntriesRequest, deserializeMonitorGetFlushRequest;
    typed_fields; apply typed_ret; by split_and!.
Qed.

Lemma typed_responseSwitch p opCode : typed response_typed (responseSwitch p opCode).
Proof.
  destruct p; cbn [responseSwitch]; [| | | |apply typed_throw];
    unfold client_responseSwitch, admin_responseSwitch, agent_responseSwitch, monitorGet_responseSwitch;
    unfold deserializeCancelResponse, deserializeCheckResponse, deserializeSimpleCheckResponse,
      deserializeAdminCheckResponse, deserializeCodeResponse, deserializeDescriptionListResponse,
      deserializeListResponse, deserializeActionResponse, deserializeRegisterResponse,
      deserializeMonitorGetEntriesResponse;
    typed_fields; apply typed_ret; by split_and!.
Qed.

Lemma typed_checkBody : typed (λ _, True) (frameHeader ← get;
    if (wrap_unsigned 64 (m_frameLength frameHeader - Z.of_nat frameHeaderLength)
          <=? Z.of_nat (queue_size (m_frameHeaderContent frameHeader)))%Z
    then modify setBodyComplete else mret tt).
Proof. eapply typed_bind; [apply typed_get|]. intros. apply typed_if; [by apply typed_modify|by apply typed_ret]. Qed.

Lemma typed_deserializeHeader : typed (λ _, True) deserializeHeader.
Proof.
  unfold deserializeHeader. eapply typed_bind; [apply typed_get|]. intros h Hh.
  apply typed_if; [apply typed_checkBody|]. apply typed_if; [by apply typed_ret|]. typed_fields.
  eapply typed_bind; [by apply (typed_modify (setFrameLength _))|]. intros [] _. typed_fields.
  eapply typed_bind; [apply (typed_modify (setSequenceNumber _)); intros h' [? ?]; by split|]. intros [] _.
  eapply typed_bind; [by apply (typed_modify setHeaderComplete)|]. intros [] _. apply typed_checkBody.
Qed.

Lemma typed_extractFrame {A} (Q : A → Prop) (switch : Z → Reader A) :
  (∀ opCode, typed Q (switch opCode)) → typed (λ r, ∀ a, r = Some a → Q a) (extractFrame switch).
Proof.
  intros Hs. unfold extractFrame. eapply typed_bind; [apply typed_deserializeHeader|]. intros [] _.
  eapply typed_bind; [apply typed_get|]. intros h Hh. apply typed_if; [|by apply typed_ret].
  eapply typed_bind; [by apply (typed_modify resetState)|]. intros [] _. typed_fields.
  apply typed_ret. by intros m [= <-].
Qed.

Lemma typed_extractRequest p : typed (λ r, ∀ a, r = Some a → request_of p a) (extractRequestFromBuffer p).
Proof.
  destruct (decide (p = PSignal)) as [->|Hp].
  - intros h' [Hq Hs]. cbn [extractRequestFromBuffer]. unfold onContent, signal_extractRequestFromBuffer.
    rewrite SE_bind_eq. cbn [get]. destruct (Nat.leb_spec siginfo_size (queue_size (m_frameHeaderContent h'))) as [Hle|Hlt].
    + unfold queue_size in Hle. rewrite (proj2 Hq) in Hle.
      destruct (flattenConsume_ok siginfo_size _ Hq Hle) as (q & Hf & Hq' & _). rewrite SE_bind_eq, Hf.
      split; [by split|]. intros a [= <-] r [= <-]. split; [|done]. split; [|by vm_compute].
      change (String.length (stake siginfo_size (bytes (m_frameHeaderContent h'))) = siginfo_size). rewrite str_length_stake. lia.
    + split; [by split|]. by intros a [= <-].
  - assert (extractRequestFromBuffer p = extractFrame (requestSwitch p)) as -> by (by destruct p).
    apply typed_extractFrame. apply typed_requestSwitch.
Qed.

(** C18: What the service decodes is well typed: whatever bytes a connection has
    received, a request extracted from them belongs to the protocol of the connection,
    has every integer within its width and every string and list within the limits, and
    the reader stays well formed; the same holds for the responses a client extracts. *)
Theorem decoded_messages_well_typed p h :
  header_ok h →
  header_ok (extractRequestFromBuffer p h).2 ∧
  (∀ r, (extractRequestFromBuffer p h).1 = Ret (Some r) → request_of p r) ∧
  header_ok (extractResponseFromBuffer p h).2 ∧
  (∀ r, (extractResponseFromBuffer p h).1 = Ret (Some r) → response_typed r).
Proof.
  intros Hh.
  pose proof (typed_extractRequest p) as Hreq.
  assert (typed (λ r, ∀ a, r = Some a → response_typed a) (extractResponseFromBuffer p)) as Hres.
  { destruct (decide (p = PSignal)) as [->|Hp]; [intros h' Hh'; split; [by destruct h'|done]|].
    assert (extractResponseFromBuffer p = extractFrame (responseSwitch p)) as -> by (by destruct p).
    apply typed_extractFrame. apply typed_responseSwitch. }
  destruct (Hreq h Hh) as [H1 H2], (Hres h Hh) as [H3 H4]. split_and!; [done| |done|].
  - intros r Hr. by apply (H2 _ Hr).
  - intros r Hr. by apply (H4 _ Hr).
Qed.

Lemma decoded_messages_well_typed_witness :
  let h s := setHeaderContent (appendCopy s BinaryQueue_new).2 (ProtocolFrameHeader_new BinaryQueue_new) in
  ∃ r, (extractRequestFromBuffer PClient (h (request_frame PClient (CheckRequest (PolicyKey_of "c" "u" "p") 5)))).1 =
      Ret (Some r) ∧ request_of PClient r.
Proof.
  intros h. set (s := request_frame PClient (CheckRequest (PolicyKey_of "c" "u" "p") 5)).
  assert (header_ok (h s)) as Hok.
  { destruct (appendUnmanaged_ok s BinaryQueue_new (proj1 queue_ok_new)) as (q & Hq & Hokq & _).
    split; [|by split]. unfold h, appendCopy. rewrite Hq. exact Hokq. }
  destruct (decoded_messages_well_typed PClient (h s) Hok) as (_ & Htyped & _).
  eexists. split; [vm_compute; reflexivity|]. apply Htyped. vm_compute. reflexivity.
Defined.
