(* ===== verification/SocketManager.v ===== *)
(** * Connections of the service ([service/sockets])

    [Descriptor] (one slot per file descriptor) and [SocketManager] (the select loop).
    The manager is modelled over a world [W] that holds everything else: the service logic
    behind [requestTaker()] and the operating system; [execute], [contextClosed] and the
    system calls are operations on the pair of both, so a request handler may change the
    manager in the middle of a read loop, as [disconnectAllClients] does.

    Null read and write queues are created on first use and are empty then; the model
    starts with empty ones.  A descriptor's read queue lives in the header of its protocol
    object (see Frame.v). *)
From S2P Require Import Prelude Text Types BinaryQueue Serialization Frame Messages.
From S2P Require Import ProtocolClient Protocols.

(** ** [Descriptor] *)

Record Descriptor := mkDescriptor {
  m_listen : bool;
  m_used : bool;
  m_client : bool;
  m_protocol : option ProtocolKind;
  m_readHeader : ProtocolFrameHeader;
  m_writeQueue : BinaryQueue;
  m_writeBuffer : string;
}.

Definition Descriptor_new : Descriptor :=
  mkDescriptor false false false None (ProtocolFrameHeader_new BinaryQueue_new) BinaryQueue_new "".

Definition hasDataToWrite (d : Descriptor) : bool :=
  negb (queue_empty (m_writeQueue d) && bool_decide (m_writeBuffer d = "")).

(** A new protocol object has a new frame header; the read queue is the descriptor's. *)
Definition setProtocol (p : option ProtocolKind) (d : Descriptor) : Descriptor :=
  mkDescriptor (m_listen d) (m_used d) (m_client d) p
    (ProtocolFrameHeader_new (m_frameHeaderContent (m_readHeader d))) (m_writeQueue d) (m_writeBuffer d).
Definition setListen (listen : bool) (d : Descriptor) : Descriptor :=
  mkDescriptor listen (m_used d) (m_client d) (m_protocol d) (m_readHeader d) (m_writeQueue d) (m_writeBuffer d).
Definition setUsed (used : bool) (d : Descriptor) : Descriptor :=
  mkDescriptor (m_listen d) used (m_client d) (m_protocol d) (m_readHeader d) (m_writeQueue d) (m_writeBuffer d).
Definition setClient (client : bool) (d : Descriptor) : Descriptor :=
  mkDescriptor (m_listen d) (m_used d) client (m_protocol d) (m_readHeader d) (m_writeQueue d) (m_writeBuffer d).
Definition setReadHeader (h : ProtocolFrameHeader) (d : Descriptor) : Descriptor :=
  mkDescriptor (m_listen d) (m_used d) (m_client d) (m_protocol d) h (m_writeQueue d) (m_writeBuffer d).
Definition setWriteQueue (q : BinaryQueue) (d : Descriptor) : Descriptor :=
  mkDescriptor (m_listen d) (m_used d) (m_client d) (m_protocol d) (m_readHeader d) q (m_writeBuffer d).
Definition setWriteBuffer (b : string) (d : Descriptor) : Descriptor :=
  mkDescriptor (m_listen d) (m_used d) (m_client d) (m_protocol d) (m_readHeader d) (m_writeQueue d) b.

Definition onReadHeader {A} (m : Reader A) : SE Descriptor A := λ d,
  let '(r, h) := m (m_readHeader d) in (r, setReadHeader h d).

Definition pushReadBuffer (readbuffer : string) : SE Descriptor unit :=
  onReadHeader (onContent (appendCopy readbuffer)).

(** Calling through a null protocol pointer is undefined. *)
Definition extractRequest : SE Descriptor (option Request) :=
  d ← get;
  match m_protocol d with
  | Some p => onReadHeader (extractRequestFromBuffer p)
  | None => throw UndefinedBehaviour
  end.

Definition prepareWriteBuffer : SE Descriptor string := λ d,
  let queuedDataSize := queue_size (m_writeQueue d) in
  match flattenConsume queuedDataSize (m_writeQueue d) with
  | (Ret data, q) =>
      let d := setWriteBuffer (m_writeBuffer d +:+ data) (setWriteQueue q d) in
      (Ret (m_writeBuffer d), d)
  | (Throw e, q) => (Throw e, setWriteQueue q d)
  | (OutOfFuel, q) => (OutOfFuel, setWriteQueue q d)
  end.

Definition Descriptor_clear (d : Descriptor) : Descriptor := Descriptor_new.

(** ** [SocketManager] *)

Record SocketManager := mkSocketManager {
  m_working : bool;
  m_maxDesc : Z;
  m_fds : list Descriptor;
  m_readSet : gset nat;
  m_writeSet : gset nat;
}.

Definition SocketManager_new : SocketManager := mkSocketManager false (-1) [] ∅ ∅.

(** [FD_SETSIZE]: [FD_SET] of a larger descriptor writes outside the set. *)
Definition FD_SETSIZE : nat := 1024.

Definition FD_SET (fd : nat) (set : gset nat) : outcome (gset nat) :=
  if fd <? FD_SETSIZE then Ret ({[fd]} ∪ set) else Throw UndefinedBehaviour.
Definition FD_CLR (fd : nat) (set : gset nat) : outcome (gset nat) :=
  if fd <? FD_SETSIZE then Ret (set ∖ {[fd]}) else Throw UndefinedBehaviour.

Definition setReadSet (s : gset nat) (m : SocketManager) : SocketManager :=
  mkSocketManager (m_working m) (m_maxDesc m) (m_fds m) s (m_writeSet m).
Definition setWriteSet (s : gset nat) (m : SocketManager) : SocketManager :=
  mkSocketManager (m_working m) (m_maxDesc m) (m_fds m) (m_readSet m) s.
Definition setFds (fds : list Descriptor) (m : SocketManager) : SocketManager :=
  mkSocketManager (m_working m) (m_maxDesc m) fds (m_readSet m) (m_writeSet m).
Definition setMaxDesc (n : Z) (m : SocketManager) : SocketManager :=
  mkSocketManager (m_working m) n (m_fds m) (m_readSet m) (m_writeSet m).
Definition setWorking (b : bool) (m : SocketManager) : SocketManager :=
  mkSocketManager b (m_maxDesc m) (m_fds m) (m_readSet m) (m_writeSet m).

(** What [read], [write] and [accept4] give. *)
Inductive ReadResult := ReadData (data : string) | ReadEof | ReadAgain | ReadError.
Inductive WriteResult := Written (n : nat) | WriteAgain | WriteError.

Section manager.
Context {W : Type}.

Abbreviation Manager := (SE (SocketManager * W)) (only parsing).

(** The request taker and the system calls. *)
Context (execute : nat → Request → SE (SocketManager * W) unit).
Context (contextClosed : nat → SE (SocketManager * W) unit).
Context (sys_read : nat → SE (SocketManager * W) ReadResult).
Context (sys_write : nat → string → SE (SocketManager * W) WriteResult).
Context (sys_accept : nat → SE (SocketManager * W) (option nat)).
Context (sys_close : nat → SE (SocketManager * W) unit).

Definition onManager (f : SocketManager → outcome SocketManager) : Manager unit := λ '(m, w),
  match f m with
  | Ret m' => (Ret tt, (m', w))
  | Throw e => (Throw e, (m, w))
  | OutOfFuel => (OutOfFuel, (m, w))
  end.

(** [m_fds[fd]]: outside the vector is undefined. *)
Definition desc (fd : nat) : Manager Descriptor := λ '(m, w),
  match m_fds m !! fd with
  | Some d => (Ret d, (m, w))
  | None => (Throw UndefinedBehaviour, (m, w))
  end.
Definition onDesc {A} (fd : nat) (op : SE Descriptor A) : Manager A := λ '(m, w),
  match m_fds m !! fd with
  | Some d => let '(r, d') := op d in (r, (setFds (<[fd := d']> (m_fds m)) m, w))
  | None => (Throw UndefinedBehaviour, (m, w))
  end.

Definition addReadSocket (fd : nat) : Manager unit :=
  onManager (λ m, s ← FD_SET fd (m_readSet m); Ret (setReadSet s m)).
Definition removeReadSocket (fd : nat) : Manager unit :=
  onManager (λ m, s ← FD_CLR fd (m_readSet m); Ret (setReadSet s m)).
Definition addWriteSocket (fd : nat) : Manager unit :=
  onManager (λ m, s ← FD_SET fd (m_writeSet m); Ret (setWriteSet s m)).
Definition removeWriteSocket (fd : nat) : Manager unit :=
  onManager (λ m, s ← FD_CLR fd (m_writeSet m); Ret (setWriteSet s m)).

Definition createDescriptor (fd : nat) (client : bool) : Manager unit :=
  onManager (λ m, Ret (
    if (m_maxDesc m <? Z.of_nat fd)%Z then
      let m := setMaxDesc (Z.of_nat fd) m in
      if length (m_fds m) <=? fd
      then setFds (m_fds m ++ replicate (fd + 20 - length (m_fds m)) Descriptor_new) m
      else m
    else m)) ;;
  onDesc fd (modify (λ d, setClient client (setUsed true d))).

(** The descriptor a listening socket gets ([createDomainSocket], its [fd] given). *)
Definition createDomainSocket (protocol : ProtocolKind) (fd : nat) (client : bool) : Manager unit :=
  createDescriptor fd client ;;
  onDesc fd (modify (λ d, setProtocol (Some protocol) (setListen true d))) ;;
  addReadSocket fd.

(** [createSignalSocket], its [fd] given *)
Definition createSignalSocket (fd : nat) : Manager unit :=
  createDescriptor fd false ;;
  onDesc fd (modify (λ d, setProtocol (Some PSignal) (setListen false d))) ;;
  addReadSocket fd.

(** [init]: the four listening sockets and the signal descriptor *)
Definition SocketManager_init (client admin agent monitor signal : nat) : Manager unit :=
  createDomainSocket PClient client true ;;
  createDomainSocket PAdmin admin false ;;
  createDomainSocket PAgent agent false ;;
  createDomainSocket PMonitorGet monitor false ;;
  createSignalSocket signal.

Definition closeSocket (fd : nat) : Manager unit :=
  contextClosed fd ;;
  removeReadSocket fd ;;
  removeWriteSocket fd ;;
  onDesc fd (modify Descriptor_clear) ;;
  sys_close fd.

(** The [while (true)] of [handleRead]. *)
Fixpoint handleReadLoop (fuel fd : nat) : Manager unit :=
  match fuel with
  | 0 => λ s, (OutOfFuel, s)
  | S fuel' =>
      req ← onDesc fd extractRequest;
      match req with
      | None => mret tt
      | Some req => execute fd req ;; handleReadLoop fuel' fd
      end
  end.

Definition handleRead (fuel fd : nat) (readbuffer : string) : Manager bool :=
  onDesc fd (pushReadBuffer readbuffer) ;;
  tryCatch (handleReadLoop fuel fd ;; mret true)
    (λ ex, if bool_decide (ex = UndefinedBehaviour) then throw ex else mret false).

Definition readyForAccept (fd : nat) : Manager unit :=
  clientFd ← sys_accept fd;
  match clientFd with
  | None => mret tt
  | Some clientFd =>
      listening ← desc fd;
      createDescriptor clientFd (m_client listening) ;;
      onDesc clientFd (modify (setListen false)) ;;
      listening ← desc fd;
      (match m_protocol listening with
       | Some p => onDesc clientFd (modify (setProtocol (Some p)))
       | None => throw UndefinedBehaviour
       end) ;;
      addReadSocket clientFd
  end.

Definition readyForRead (fuel fd : nat) : Manager unit :=
  d ← desc fd;
  if m_listen d then readyForAccept fd
  else
    result ← sys_read fd;
    match result with
    | ReadData data =>
        ok ← handleRead fuel fd data;
        if ok : bool then mret tt else closeSocket fd
    | ReadAgain => mret tt
    | ReadError | ReadEof => closeSocket fd
    end.

Definition readyForWrite (fd : nat) : Manager unit :=
  buffer ← onDesc fd prepareWriteBuffer;
  result ← sys_write fd buffer;
  match result with
  | WriteAgain => mret tt
  | WriteError => closeSocket fd
  | Written n =>
      onDesc fd (modify (λ d, setWriteBuffer (sdrop n (m_writeBuffer d)) d)) ;;
      d ← desc fd;
      if bool_decide (m_writeBuffer d = "") then removeWriteSocket fd else mret tt
  end.

Definition disconnectAllClients : Manager unit := λ s,
  (forEach (seq 0 (Z.to_nat (m_maxDesc s.1 + 1)))
    (λ i, d ← desc i;
          if m_used d && m_client d && negb (m_listen d) then closeSocket i else mret tt)) s.

Definition mainLoopStop : Manager unit := onManager (λ m, Ret (setWorking false m)).

(** The [for] over the ready descriptors: [ret] of them are left to serve. *)
Fixpoint serveReady (steps fuel i ret : nat) (readSet writeSet : gset nat) : Manager unit := λ s,
  if (Z.of_nat i <? m_maxDesc s.1 + 1)%Z && negb (ret =? 0) then
    match steps with
    | 0 => (OutOfFuel, s)
    | S steps' =>
        (ret ← (if bool_decide (i ∈ readSet) then readyForRead fuel i ;; mret (ret - 1) else mret ret);
         ret ← (if bool_decide (i ∈ writeSet) then readyForWrite i ;; mret (ret - 1) else mret ret);
         serveReady steps' fuel (S i) ret readSet writeSet) s
    end
  else (Ret tt, s).

(** Descriptors with something to send are watched for writing. *)
Definition armWriters : Manager unit := λ s,
  forEach (seq 0 (Z.to_nat (m_maxDesc s.1 + 1)))
    (λ i, d ← desc i;
          if m_used d && hasDataToWrite d then addWriteSocket i else mret tt) s.

(** One turn of [mainLoop] after [select] returned the ready sets. *)
Definition mainLoopTurn (steps fuel : nat) (readSet writeSet : gset nat) : Manager unit :=
  serveReady steps fuel 0 (size readSet + size writeSet) readSet writeSet ;;
  armWriters.
End manager.

(** ** Lemmas *)

(** A logic that only records what it is asked, in the order it is asked. *)
Definition record_request (fd : nat) (r : Request) : SE (SocketManager * list Request) unit :=
  modify (λ '(m, w), (m, w ++ [r])).

(** A descriptor of a connection that speaks [p]. *)
Definition speaks (m : SocketManager) (fd : nat) (p : ProtocolKind) (h : ProtocolFrameHeader) : Prop :=
  ∃ d, m_fds m !! fd = Some d ∧ m_protocol d = Some p ∧ m_readHeader d = h.

(** The manager with another read header at [fd]. *)
Definition with_header (m : SocketManager) (fd : nat) (h : ProtocolFrameHeader) : SocketManager :=
  match m_fds m !! fd with
  | Some d => setFds (<[fd := setReadHeader h d]> (m_fds m)) m
  | None => m
  end.

Lemma setFds_same m : setFds (m_fds m) m = m.
Proof. by destruct m. Qed.

Lemma speaks_with_header m fd p h h' : speaks m fd p h → speaks (with_header m fd h') fd p h'.
Proof.
  intros (d & Hd & Hp & _). unfold with_header. rewrite Hd. exists (setReadHeader h' d). cbn.
  rewrite list_lookup_insert_eq; [done|]. by eapply lookup_lt_Some.
Qed.

Lemma with_header_twice m fd h h' : with_header (with_header m fd h) fd h' = with_header m fd h'.
Proof.
  unfold with_header. destruct (m_fds m !! fd) as [d|] eqn:Hd; [|by rewrite Hd].
  cbn [setFds m_fds]. rewrite list_lookup_insert_eq by (by eapply lookup_lt_Some).
  unfold setFds; cbn. by rewrite list_insert_insert_eq.
Qed.

Lemma with_header_same m fd p h : speaks m fd p h → with_header m fd h = m.
Proof.
  intros (d & Hd & _ & Hh). unfold with_header. rewrite Hd.
  replace (setReadHeader h d) with d by (destruct d; cbn in *; by subst).
  rewrite list_insert_id by done. apply setFds_same.
Qed.

Lemma onDesc_header {W A} (m : SocketManager) (w : W) fd p h (op : Reader A) r h' :
  speaks m fd p h → op h = (r, h') →
  onDesc fd (onReadHeader op) (m, w) = (r, (with_header m fd h', w)).
Proof.
  intros (d & Hd & _ & Hh) Hop. unfold onDesc, with_header, onReadHeader. rewrite Hd, Hh, Hop. done.
Qed.

Lemma extractRequest_header {W} (m : SocketManager) (w : W) fd p h r h' :
  speaks m fd p h → extractRequestFromBuffer p h = (r, h') →
  onDesc fd extractRequest (m, w) = (r, (with_header m fd h', w)).
Proof.
  intros (d & Hd & Hp & Hh) Hop. unfold onDesc, with_header, extractRequest. rewrite Hd.
  rewrite SE_bind_eq. cbn [get]. rewrite Hp. unfold onReadHeader. by rewrite Hh, Hop.
Qed.

Lemma extractRequest_frame p : p ≠ PSignal → extractRequestFromBuffer p = extractFrame (requestSwitch p).
Proof. by destruct p. Qed.

Lemma handleReadLoop_records p m w fd fuel h ms h' :
  p ≠ PSignal → speaks m fd p h → extractAll (switch:=requestSwitch p) fuel h = (Ret ms, h') →
  handleReadLoop record_request fuel fd (m, w) = (Ret tt, (with_header m fd h', w ++ ms)).
Proof.
  intros Hp. revert m w h ms h'. induction fuel as [|fuel IH]; intros m w h ms h' Hs; cbn [extractAll handleReadLoop]; [done|].
  rewrite SE_bind_eq. destruct (extractFrame (requestSwitch p) h) as [[[r|]|e|] h1] eqn:He; [| |done|done].
  - rewrite SE_bind_eq. destruct (extractAll fuel h1) as [[ms1|e|] h2] eqn:Ha; intros [= <- <-].
    rewrite SE_bind_eq, (extractRequest_header m w fd p h (Ret (Some r)) h1 Hs) by (by rewrite extractRequest_frame).
    rewrite SE_bind_eq. cbn [record_request modify].
    rewrite (IH _ (w ++ [r]) h1 ms1 h2) by (done || by eapply speaks_with_header).
    rewrite with_header_twice. by rewrite <-app_assoc.
  - intros [= <- <-].
    rewrite SE_bind_eq, (extractRequest_header m w fd p h (Ret None) h1 Hs) by (by rewrite extractRequest_frame).
    by rewrite app_nil_r.
Qed.

(** [read] calls that each delivered a piece. *)
Definition handleReads {W} (execute : nat → Request → SE (SocketManager * W) unit) (fuel fd : nat)
    (pieces : list string) : SE (SocketManager * W) unit :=
  forEach pieces (λ piece, ok ← handleRead execute fuel fd piece;
    if ok : bool then mret tt else throw UndefinedBehaviour).

Lemma handleReads_records p m w fd fuel pieces h ms h' :
  p ≠ PSignal → speaks m fd p h → feed (switch:=requestSwitch p) fuel pieces h = (Ret ms, h') →
  handleReads record_request fuel fd pieces (m, w) = (Ret tt, (with_header m fd h', w ++ ms)).
Proof.
  intros Hp. revert m w h ms h'. induction pieces as [|piece pieces IH]; intros m w h ms h' Hs; cbn [feed].
  - intros [= <- <-]. unfold handleReads. cbn. by rewrite (with_header_same _ _ _ _ Hs), app_nil_r.
  - rewrite SE_bind_eq. unfold receive. rewrite SE_bind_eq.
    destruct (onContent (appendCopy piece) h) as [[[]|e|] h1] eqn:Ha; [|done|done].
    destruct (extractAll fuel h1) as [[ms1|e|] h2] eqn:He; [|done|done].
    rewrite SE_bind_eq. destruct (feed fuel pieces h2) as [[ms2|e|] h3] eqn:Hf; intros [= <- <-].
    unfold handleReads. cbn [forEach]. unfold handleRead, pushReadBuffer.
    pose proof (speaks_with_header _ _ _ _ h1 Hs) as Hs1.
    rewrite !SE_bind_eq.
    rewrite (onDesc_header m w fd p h (onContent (appendCopy piece)) (Ret tt) h1 Hs Ha).
    unfold tryCatch. rewrite SE_bind_eq, (handleReadLoop_records p _ w fd fuel h1 ms1 h2 Hp Hs1 He).
    rewrite with_header_twice. cbn -[forEach handleRead with_header].
    pose proof (speaks_with_header _ _ _ _ h2 Hs) as Hs2.
    specialize (IH _ (w ++ ms1) h2 ms2 h3 Hs2 Hf). unfold handleReads, handleRead, pushReadBuffer, tryCatch in IH. rewrite IH.
    by rewrite with_header_twice, app_assoc.
Qed.
