(* ===== verification/SocketInit.v ===== *)
(** * Sockets of the service: their creation and the main loop ([SocketManager::run])

    The four listening sockets and the signal descriptor are made, and then [select] is asked
    again and again.  The system is a class, [SocketSystem]: a call gives what the system
    answers and changes [W]; nothing is assumed of it here.  The service may be built with
    systemd ([with_systemd]), which can hand over sockets.  [rounds] bounds the turns of the
    loop, [steps] and [fuel] the work of one turn. *)
From S2P Require Import Prelude Text Types BinaryQueue Serialization Frame Messages.
From S2P Require Import ProtocolClient ProtocolAgent Protocols SocketManager.

Definition O_NONBLOCK : Z := 2048.
(** [sizeof(sun_path)] *)
Definition SUN_PATH_SIZE : nat := 108.
Definition SD_LISTEN_FDS_START : nat := 3.

(** What [select] gives: the sets of the descriptors that are ready, an interruption, or another
    error. *)
Inductive SelectResult := SelectReady (readSet writeSet : gset nat) | SelectInterrupted | SelectError (errno : Z).

(** [None] and [false] are -1; [fcntl] gives the flags. *)
Class SocketSystem (W : Type) := {
  sys_socket : W → option nat * W;
  sys_fcntl_getfl : nat → W → option Z * W;
  sys_fcntl_setfl : nat → Z → W → bool * W;
  sys_unlink : string → W → W;
  sys_umask : Z → W → Z * W;
  sys_bind : nat → string → W → bool * W;
  sys_listen : nat → W → bool * W;
  sys_close_fd : nat → W → W;
  sd_listen_fds : W → Z * W;
  sd_is_socket_unix : nat → string → W → Z * W;
  sys_sigprocmask_term : W → bool * W;
  sys_signalfd_term : W → option nat * W;
  sys_select : Z → gset nat → gset nat → W → SelectResult * W;
}.

(** ** [PathConfig::SocketPath], below [SOCKET_DIR "/"] or its default *)

Definition client_path (clientPath : string) : string := clientPath +:+ "cynara.socket".
Definition admin_path (clientPath : string) : string := clientPath +:+ "cynara-admin.socket".
Definition agent_path (clientPath : string) : string := clientPath +:+ "cynara-agent.socket".
Definition monitorGet_path (clientPath : string) : string := clientPath +:+ "cynara-monitor-get.socket".

Section run.
Context {W : Type} `{SY : !SocketSystem W}.
Context (with_systemd : bool) (clientPath : string).
Context (execute : nat → Request → SE (SocketManager * W) unit) (contextClosed : nat → SE (SocketManager * W) unit)
  (sys_read : nat → SE (SocketManager * W) ReadResult) (sys_write : nat → string → SE (SocketManager * W) WriteResult)
  (sys_accept : nat → SE (SocketManager * W) (option nat)) (sys_close : nat → SE (SocketManager * W) unit).

Abbreviation Manager := (SE (SocketManager * W)) (only parsing).

(** A call of the system. *)
Definition call {A} (f : W → A * W) : Manager A := λ '(m, w), let '(a, w') := f w in (Ret a, (m, w')).
Definition call_ (f : W → W) : Manager unit := λ '(m, w), (Ret tt, (m, f w)).

(** A path that fills [sun_path] passes the check, and the zero that [strcpy] appends falls
    outside. *)
Definition createDomainSocketHelp (path : string) (mask : Z) : Manager nat :=
  fd ← call sys_socket;
  match fd with
  | None => throw InitException
  | Some fd =>
      flags ← call (sys_fcntl_getfl fd);
      ok ← call (sys_fcntl_setfl fd (Z.lor (default 0%Z flags) O_NONBLOCK));
      if negb ok then call_ (sys_close_fd fd) ;; throw InitException
      else if SUN_PATH_SIZE <? String.length path then throw InitException
      else if String.length path =? SUN_PATH_SIZE then throw UndefinedBehaviour
      else
        call_ (sys_unlink path) ;;
        originalUmask ← call (sys_umask mask);
        ok ← call (sys_bind fd path);
        if negb ok then call_ (sys_close_fd fd) ;; throw InitException
        else
          call (sys_umask originalUmask) ;;
          ok ← call (sys_listen fd);
          if negb ok then call_ (sys_close_fd fd) ;; throw InitException
          else mret fd
  end.

(** The descriptors from [fd] on that systemd has handed over. *)
Fixpoint usable_socket (path : string) (fds : list nat) : Manager (option nat) :=
  match fds with
  | [] => mret None
  | fd :: fds' =>
      ret ← call (sd_is_socket_unix fd path);
      if (0 <? ret)%Z then mret (Some fd) else usable_socket path fds'
  end.

Definition getSocketFromSystemD (path : string) : Manager (option nat) :=
  n ← call sd_listen_fds;
  if (n <? 0)%Z then throw InitException else usable_socket path (seq SD_LISTEN_FDS_START (Z.to_nat n)).

Definition domainSocket (path : string) (mask : Z) : Manager nat :=
  fd ← (if with_systemd then getSocketFromSystemD path else mret None);
  match fd with
  | Some fd => mret fd
  | None => createDomainSocketHelp path mask
  end.

Definition makeDomainSocket (protocol : ProtocolKind) (path : string) (mask : Z) (client : bool) : Manager unit :=
  fd ← domainSocket path mask;
  createDomainSocket protocol fd client.

(** Without its signal descriptor the service goes on. *)
Definition makeSignalSocket : Manager unit :=
  ok ← call sys_sigprocmask_term;
  if negb ok then mret tt
  else
    fd ← call sys_signalfd_term;
    match fd with
    | None => mret tt
    | Some fd => createSignalSocket fd
    end.

Definition clientSocketUMask : Z := 0.
Definition adminSocketUMask : Z := 63.
Definition agentSocketUMask : Z := 0.
Definition monitorSocketUMask : Z := 0.

Definition manager_init : Manager unit :=
  makeDomainSocket PClient (client_path clientPath) clientSocketUMask true ;;
  makeDomainSocket PAdmin (admin_path clientPath) adminSocketUMask false ;;
  makeDomainSocket PAgent (agent_path clientPath) agentSocketUMask false ;;
  makeDomainSocket PMonitorGet (monitorGet_path clientPath) monitorSocketUMask false ;;
  makeSignalSocket.

(** The [while] of [mainLoop]. *)
Fixpoint mainLoop_from (rounds steps fuel : nat) : Manager unit := λ s,
  if m_working s.1 then
    match rounds with
    | 0 => (OutOfFuel, s)
    | S rounds' =>
        (ret ← call (sys_select (m_maxDesc s.1 + 1) (m_readSet s.1) (m_writeSet s.1));
         match ret with
         | SelectInterrupted => mainLoop_from rounds' steps fuel
         | SelectError err => throw (UnexpectedErrorException err)
         | SelectReady readSet writeSet =>
             (if size readSet + size writeSet =? 0 then mret tt
              else mainLoopTurn execute contextClosed sys_read sys_write sys_accept sys_close steps fuel readSet writeSet) ;;
             mainLoop_from rounds' steps fuel
         end) s
    end
  else (Ret tt, s).

Definition mainLoop (rounds steps fuel : nat) : Manager unit :=
  onManager (λ m, Ret (setWorking true m)) ;; mainLoop_from rounds steps fuel.

(** [SocketManager::run] *)
Definition manager_run (rounds steps fuel : nat) : Manager unit :=
  manager_init ;; mainLoop rounds steps fuel.
End run.
