(* ===== verification/SocketClient.v ===== *)
(** * The client's end of a connection ([common/sockets])

    [Socket] (non-blocking connection to the service) and [SocketClient] (one request, one
    response).  The system is a world [W] behind the calls [sys_*]; calls that the code
    retries on [EINTR] ([TEMP_FAILURE_RETRY]) give their final result.  Waiting for the
    socket and for a response may go on for ever, so those loops take fuel.

    The read queue of a [SocketClient] lives in the header of its protocol object (see
    Frame.v). *)
From S2P Require Import Prelude Text Types BinaryQueue Serialization Frame Messages.
From S2P Require Import ProtocolClient Protocols.

Inductive ConnectionStatus :=
| ALREADY_CONNECTED | CONNECTION_SUCCEEDED | CONNECTION_IN_PROGRESS | CONNECTION_FAILED.
Inductive SendStatus := PARTIAL_DATA_SENT | ALL_DATA_SENT | CONNECTION_LOST.
#[global] Instance ConnectionStatus_eq_dec : EqDecision ConnectionStatus.
Proof. solve_decision. Defined.
#[global] Instance SendStatus_eq_dec : EqDecision SendStatus.
Proof. solve_decision. Defined.

(** What the system calls give. *)
Inductive PollEvent := POLLIN | POLLOUT | POLLHUP.
Inductive PollResult := PollReady | PollTimeout | PollError (errno : Z).
Inductive ConnectResult := ConnectOk | ConnectInProgress | ConnectRefused | ConnectAccess | ConnectError (errno : Z).
Inductive SendResult := Sent (n : nat) | SendAgain | SendNoMem | SendPipe | SendError (errno : Z).
Inductive RecvResult := Received (data : string) | RecvEof | RecvAgain | RecvReset | RecvError (errno : Z).

(** [m_open] stands for [m_sock > -1]. *)
Record Socket := mkSocket {
  m_open : bool;
  m_connectionInProgress : bool;
  m_sendBuffer : string;
  m_sendBufferPos : nat;
  m_sendBufferEnd : nat;
  m_sendQueue : BinaryQueue;
}.

Definition Socket_new : Socket := mkSocket false false "" 0 0 BinaryQueue_new.

Definition setOpen (b : bool) (s : Socket) : Socket :=
  mkSocket b (m_connectionInProgress s) (m_sendBuffer s) (m_sendBufferPos s) (m_sendBufferEnd s) (m_sendQueue s).
Definition setInProgress (b : bool) (s : Socket) : Socket :=
  mkSocket (m_open s) b (m_sendBuffer s) (m_sendBufferPos s) (m_sendBufferEnd s) (m_sendQueue s).
Definition setSendBuffer (b : string) (pos end_ : nat) (s : Socket) : Socket :=
  mkSocket (m_open s) (m_connectionInProgress s) b pos end_ (m_sendQueue s).
Definition setSendQueue (q : BinaryQueue) (s : Socket) : Socket :=
  mkSocket (m_open s) (m_connectionInProgress s) (m_sendBuffer s) (m_sendBufferPos s) (m_sendBufferEnd s) q.

(** [Socket::close]; the flag [m_connectionInProgress] stays. *)
Definition Socket_close (s : Socket) : Socket :=
  setSendQueue BinaryQueue_new (setSendBuffer (m_sendBuffer s) 0 0 (setOpen false s)).

Section socket.
Context {W : Type}.
Context (sys_poll : PollEvent → SE W PollResult) (sys_getsockopt : SE W (Z + Z))
  (sys_socket : SE W (unit + Z)) (sys_connect : SE W ConnectResult)
  (sys_send : string → SE W SendResult) (sys_recv : SE W RecvResult).

Abbreviation Sock := (SE (Socket * W)) (only parsing).

Definition system {A} (m : SE W A) : Sock A := λ '(s, w), let '(r, w') := m w in (r, (s, w')).
Definition socket_ : Sock Socket := gets fst.
Definition onSocket (f : Socket → Socket) : Sock unit := modify (λ '(s, w), (f s, w)).

(** The timeout is the constructor's for all events but [POLLHUP]. *)
Definition waitForSocket (event : PollEvent) : Sock bool :=
  ret ← system (sys_poll event);
  match ret with
  | PollError err => throw (UnexpectedErrorException err)
  | PollTimeout => mret false
  | PollReady => mret true
  end.

Definition getSocketError : Sock Z :=
  ret ← system sys_getsockopt;
  match ret with
  | inl err => mret err
  | inr err => throw (UnexpectedErrorException err)
  end.

Definition Socket_isConnected : Sock bool :=
  s ← socket_;
  if m_connectionInProgress s then mret true
  else if negb (m_open s) then mret false
  else
    err ← getSocketError;
    if negb (err =? 0)%Z then mret false
    else hup ← waitForSocket POLLHUP; mret (negb hup).

Definition createSocket : Sock unit :=
  ret ← system sys_socket;
  match ret with
  | inl _ => onSocket (setOpen true)
  | inr err => throw (UnexpectedErrorException err)
  end.

(** The socket path is one of the constants of [PathConfig], all shorter than the limit. *)
Definition connectSocket : Sock ConnectionStatus :=
  ret ← system sys_connect;
  match ret with
  | ConnectOk => mret CONNECTION_SUCCEEDED
  | ConnectInProgress => onSocket (setInProgress true) ;; mret CONNECTION_IN_PROGRESS
  | ConnectRefused => mret CONNECTION_FAILED
  | ConnectAccess => throw AccessDeniedException
  | ConnectError err => onSocket Socket_close ;; throw (UnexpectedErrorException err)
  end.

Definition Socket_connect : Sock ConnectionStatus :=
  onSocket Socket_close ;;
  createSocket ;;
  status ← connectSocket;
  if negb (bool_decide (status = CONNECTION_SUCCEEDED)) then mret status
  else
    connected ← Socket_isConnected;
    mret (if connected : bool then CONNECTION_SUCCEEDED else CONNECTION_FAILED).

Definition completeConnection : Sock ConnectionStatus :=
  s ← socket_;
  if negb (m_connectionInProgress s) then mret ALREADY_CONNECTED
  else
    ready ← waitForSocket POLLOUT;
    if negb ready then mret CONNECTION_IN_PROGRESS
    else
      onSocket (setInProgress false) ;;
      connected ← Socket_isConnected;
      mret (if connected : bool then CONNECTION_SUCCEEDED else CONNECTION_FAILED).

Definition isDataToSend (s : Socket) : bool :=
  negb (queue_empty (m_sendQueue s)) || negb (m_sendBufferEnd s =? 0).

Fixpoint sendBuffer (fuel : nat) : Sock SendStatus :=
  match fuel with
  | 0 => λ s, (OutOfFuel, s)
  | S fuel' =>
      s ← socket_;
      if m_sendBufferEnd s =? m_sendBufferPos s then mret ALL_DATA_SENT
      else
        ready ← waitForSocket POLLOUT;
        if negb ready then mret PARTIAL_DATA_SENT
        else
          t ← system (sys_send (substr (m_sendBufferPos s) (m_sendBufferEnd s - m_sendBufferPos s) (m_sendBuffer s)));
          match t with
          | SendAgain => sendBuffer fuel'
          | SendNoMem => throw NoMemoryException
          | SendPipe => mret CONNECTION_LOST
          | SendError err => throw (UnexpectedErrorException err)
          | Sent n =>
              onSocket (λ s, setSendBuffer (m_sendBuffer s) (m_sendBufferPos s + n) (m_sendBufferEnd s) s) ;;
              sendBuffer fuel'
          end
  end.

(** [m_sendQueue.flattenConsume(m_sendBuffer.data(), m_sendQueue.size())]: the buffer only
    grows, what it held beyond the new data stays. *)
Definition flattenSendQueue : Sock unit := λ '(s, w),
  match flattenConsume (queue_size (m_sendQueue s)) (m_sendQueue s) with
  | (Ret data, q) =>
      (Ret tt, (setSendQueue q (setSendBuffer (data +:+ sdrop (String.length data) (m_sendBuffer s))
                                  (m_sendBufferPos s) (m_sendBufferEnd s) s), w))
  | (Throw e, q) => (Throw e, (setSendQueue q s, w))
  | (OutOfFuel, q) => (OutOfFuel, (setSendQueue q s, w))
  end.
Definition loadSendBuffer : Sock unit :=
  onSocket (λ s, setSendBuffer (m_sendBuffer s) 0 (queue_size (m_sendQueue s)) s) ;;
  flattenSendQueue.

(** [queue] is moved into the send queue; the caller's is empty afterwards. *)
Definition sendToServer (fuel : nat) (queue : BinaryQueue) : Sock SendStatus :=
  onSocket (λ s, setSendQueue (appendMoveFrom (m_sendQueue s) queue).1 s) ;;
  status ← sendBuffer fuel;
  if negb (bool_decide (status = ALL_DATA_SENT)) then mret status
  else loadSendBuffer ;; sendBuffer fuel.

(** The argument [queue] of [receiveFromServer] is changed in place, also when a read fails. *)
Abbreviation QueueAndSocket := (SE (BinaryQueue * (Socket * W))) (only parsing).
Definition ofSocket {A} (m : Sock A) : QueueAndSocket A := λ '(q, s), let '(r, s') := m s in (r, (q, s')).
Definition ofQueue {A} (m : SE BinaryQueue A) : QueueAndSocket A := λ '(q, s), let '(r, q') := m q in (r, (q', s)).

Fixpoint receiveLoop (fuel : nat) : QueueAndSocket bool :=
  match fuel with
  | 0 => λ s, (OutOfFuel, s)
  | S fuel' =>
      size ← ofSocket (system sys_recv);
      match size with
      | RecvEof => mret false
      | RecvAgain => mret true
      | RecvReset => mret false
      | RecvError err => throw (UnexpectedErrorException err)
      | Received data => ofQueue (appendCopy data) ;; receiveLoop fuel'
      end
  end.

Definition receiveFromServer (fuel : nat) : QueueAndSocket bool :=
  ready ← ofSocket (waitForSocket POLLIN);
  if negb ready then mret true else receiveLoop fuel.

(** ** [SocketClient] *)

Record SocketClient := mkSocketClient {
  m_socket : Socket;
  m_clientProtocol : ProtocolKind;
  m_clientHeader : ProtocolFrameHeader;
  m_clientWriteQueue : BinaryQueue;
}.

Abbreviation Client := (SE (SocketClient * W)) (only parsing).

Definition SocketClient_new (p : ProtocolKind) : SocketClient :=
  mkSocketClient Socket_new p (ProtocolFrameHeader_new BinaryQueue_new) BinaryQueue_new.

Definition withSocket {A} (m : Sock A) : Client A := λ '(c, w),
  let '(r, (s, w')) := m (m_socket c, w) in
  (r, (mkSocketClient s (m_clientProtocol c) (m_clientHeader c) (m_clientWriteQueue c), w')).
Definition withHeader {A} (m : Reader A) : Client A := λ '(c, w),
  let '(r, h) := m (m_clientHeader c) in
  (r, (mkSocketClient (m_socket c) (m_clientProtocol c) h (m_clientWriteQueue c), w)).
Definition withWriteQueue {A} (m : SE BinaryQueue A) : Client A := λ '(c, w),
  let '(r, q) := m (m_clientWriteQueue c) in
  (r, (mkSocketClient (m_socket c) (m_clientProtocol c) (m_clientHeader c) q, w)).
Definition client_ : Client SocketClient := gets fst.

(** [receiveFromServer] of the socket into the read queue. *)
Definition receiveIntoReadQueue (fuel : nat) : Client bool := λ '(c, w),
  let '(r, (q, (s, w'))) := receiveFromServer fuel (m_frameHeaderContent (m_clientHeader c), (m_socket c, w)) in
  (r, (mkSocketClient s (m_clientProtocol c) (setHeaderContent q (m_clientHeader c)) (m_clientWriteQueue c), w')).

Definition SocketClient_connect : Client bool :=
  status ← withSocket Socket_connect;
  match status with
  | CONNECTION_FAILED => mret false
  | CONNECTION_IN_PROGRESS =>
      status ← withSocket completeConnection;
      mret (negb (bool_decide (status = CONNECTION_FAILED)))
  | _ => mret true
  end.

Definition SocketClient_isConnected : Client bool := withSocket Socket_isConnected.

(** The request is written to the queue, the queue handed to the socket. *)
Definition sendRequest (fuel : nat) (request : Request) : Client SendStatus :=
  c ← client_;
  withWriteQueue (protocol_executeRequest (m_clientProtocol c) request) ;;
  queue ← withWriteQueue (λ q, (Ret q, BinaryQueue_new));
  withSocket (sendToServer fuel queue).

Definition receiveStep (fuel : nat) : Client (option (option Response)) :=
  received ← receiveIntoReadQueue fuel;
  if negb received then mret None
  else
    c ← client_;
    response ← withHeader (extractResponseFromBuffer (m_clientProtocol c)); mret (Some response).

(** The [while (true)] of [askCynaraServer]. *)
Fixpoint awaitResponse (rounds fuel : nat) : Client (option Response) :=
  match rounds with
  | 0 => λ s, (OutOfFuel, s)
  | S rounds' =>
      step ← receiveStep fuel;
      match step with
      | None => mret None
      | Some (Some response) => mret (Some response)
      | Some None => awaitResponse rounds' fuel
      end
  end.

Definition askCynaraServer (rounds fuel : nat) (request : Request) : Client (option Response) :=
  status ← sendRequest fuel request;
  if bool_decide (status = CONNECTION_LOST) then mret None
  else awaitResponse rounds fuel.

Definition sendAndForget (fuel : nat) (request : Request) : Client bool :=
  status ← sendRequest fuel request;
  mret (negb (bool_decide (status = CONNECTION_LOST))).
End socket.
