(* ===== verification/ConnectionTheorems.v ===== *)
(** * Theorems on queues, streams and connections

    The byte queue is a FIFO of bytes; messages written to a stream are received as
    written, however the transport cuts the stream; a read ends, whatever the bytes, if the
    logic behind it does (ServiceSafety.v); a connection inherits nothing from an earlier one on the same
    descriptor; what is written to a socket is what was queued. *)
From S2P Require Import Prelude Text Types BinaryQueue Serialization Frame Messages.
From S2P Require Import ProtocolClient ProtocolAdmin ProtocolAgent Protocols Typing SocketManager.

(** ** Readers only take bytes away *)

Definition pending (h : ProtocolFrameHeader) : nat := String.length (bytes (m_frameHeaderContent h)).

(** Whatever the bytes, [m] ends, has defined behaviour and never makes the buffer longer. *)
Definition shrinks {A} (m : Reader A) : Prop :=
  ∀ h, queue_ok (m_frameHeaderContent h) →
    ∃ r h', m h = (r, h') ∧ queue_ok (m_frameHeaderContent h') ∧ pending h' ≤ pending h ∧
      r ≠ OutOfFuel ∧ r ≠ Throw UndefinedBehaviour.

Lemma shrinks_ret {A} (a : A) : shrinks (mret a).
Proof. intros h Hok. by exists (Ret a), h. Qed.
Lemma shrinks_throw {A} e : e ≠ UndefinedBehaviour → shrinks (throw (A:=A) e).
Proof. intros He h Hok. exists (Throw e), h. split_and!; try done. by intros [=]. Qed.
Lemma shrinks_gets {A} (f : ProtocolFrameHeader → A) : shrinks (gets f).
Proof. intros h Hok. by exists (Ret (f h)), h. Qed.
Lemma shrinks_get : shrinks get.
Proof. intros h Hok. by exists (Ret h), h. Qed.
Lemma shrinks_modify (f : ProtocolFrameHeader → ProtocolFrameHeader) :
  (∀ h, m_frameHeaderContent (f h) = m_frameHeaderContent h) → shrinks (modify f).
Proof. intros Hf h Hok. exists (Ret tt), (f h). unfold pending. rewrite Hf. by split_and!. Qed.

Lemma shrinks_bind {A B} (m : Reader A) (k : A → Reader B) :
  shrinks m → (∀ a, shrinks (k a)) → shrinks (m ≫= k).
Proof.
  intros Hm Hk h Hok. destruct (Hm h Hok) as (r & h1 & H1 & Hok1 & Hl1 & Hf & Hu).
  rewrite SE_bind_eq, H1. destruct r as [a|e|]; [|exists (Throw e), h1; split_and!; try done|done].
  - destruct (Hk a h1 Hok1) as (r2 & h2 & H2 & Hok2 & Hl2 & Hf2 & Hu2). exists r2, h2.
    split_and!; try done. lia.
  - intros [= ->]. by apply Hu.
Qed.

Lemma shrinks_read n : shrinks (stream_read n).
Proof.
  intros h Hok. cbn [stream_read ProtocolFrameHeader_stream]. unfold onContent.
  destruct (decide (n ≤ String.length (bytes (m_frameHeaderContent h)))) as [Hn|Hn].
  - destruct (flattenConsume_ok n _ Hok Hn) as (q & Hq & Hokq & Hb). rewrite Hq.
    eexists _, _. split; [done|]. split_and!; try done. unfold pending. cbn. rewrite Hb, str_length_sdrop. lia.
  - rewrite flattenConsume_short by (done || lia). eexists _, _. split; [done|]. by split_and!.
Qed.

Lemma shrinks_times {A} n (m : Reader A) : shrinks m → shrinks (deserialize_times n m).
Proof.
  intros Hm. induction n as [|n IH]; cbn [deserialize_times]; [apply shrinks_ret|].
  apply shrinks_bind; [done|]. intros a. apply shrinks_bind; [done|]. intros l. apply shrinks_ret.
Qed.

Lemma shrinks_if {A} (b : bool) (m m' : Reader A) : shrinks m → shrinks m' → shrinks (if b then m else m').
Proof. by destruct b. Qed.

Create HintDb shrinks.
#[export] Hint Resolve shrinks_ret shrinks_gets shrinks_get shrinks_read : shrinks.

(** Follows the structure of a reader. *)
Ltac shrink :=
  repeat first
    [ progress eauto with shrinks
    | apply shrinks_throw; discriminate
    | apply shrinks_modify; intros; reflexivity
    | apply shrinks_bind; [|intros]
    | apply shrinks_if
    | apply shrinks_times ].

Lemma shrinks_u8 : shrinks deserialize_u8. Proof. unfold deserialize_u8. shrink. Qed.
Lemma shrinks_u16 : shrinks deserialize_u16. Proof. unfold deserialize_u16. shrink. Qed.
Lemma shrinks_u32 : shrinks deserialize_u32. Proof. unfold deserialize_u32. shrink. Qed.
Lemma shrinks_i32 : shrinks deserialize_i32. Proof. unfold deserialize_i32. shrink. Qed.
Lemma shrinks_u64 : shrinks deserialize_u64. Proof. unfold deserialize_u64. shrink. Qed.
Lemma shrinks_i64 : shrinks deserialize_i64. Proof. unfold deserialize_i64. shrink. Qed.
Lemma shrinks_bool : shrinks deserialize_bool. Proof. unfold deserialize_bool. shrink. Qed.
#[export] Hint Resolve shrinks_u8 shrinks_u16 shrinks_u32 shrinks_i32 shrinks_u64 shrinks_i64
  shrinks_bool : shrinks.
Lemma shrinks_string : shrinks deserialize_string. Proof. unfold deserialize_string. shrink. Qed.
#[export] Hint Resolve shrinks_string : shrinks.
Lemma shrinks_key : shrinks deserialize_key. Proof. unfold deserialize_key. shrink. Qed.
Lemma shrinks_result : shrinks deserialize_result. Proof. unfold deserialize_result. shrink. Qed.
#[export] Hint Resolve shrinks_key shrinks_result : shrinks.
Lemma shrinks_entry : shrinks deserialize_entry. Proof. unfold deserialize_entry. shrink. Qed.
Lemma shrinks_policy : shrinks deserialize_policy. Proof. unfold deserialize_policy. shrink. Qed.
Lemma shrinks_description : shrinks deserialize_description. Proof. unfold deserialize_description. shrink. Qed.
Lemma shrinks_counted {A} (m : Reader A) : shrinks m → shrinks (deserialize_counted m).
Proof. intros Hm. unfold deserialize_counted. shrink. Qed.
Lemma shrinks_vector {A} (m : Reader A) : shrinks m → shrinks (deserialize_vector m).
Proof. intros Hm. unfold deserialize_vector. shrink. Qed.
#[export] Hint Resolve shrinks_entry shrinks_policy shrinks_description shrinks_counted shrinks_vector : shrinks.

Lemma shrinks_group {V} n id (m : Reader V) acc : shrinks m → shrinks (deserialize_group n id m acc).
Proof.
  intros Hm. revert acc. induction n as [|n IH]; intros acc; cbn [deserialize_group]; shrink.
Qed.
#[export] Hint Resolve shrinks_group : shrinks.
Lemma shrinks_groupsLoop {V} n (m : Reader V) acc : shrinks m → shrinks (deserialize_groupsLoop n m acc).
Proof.
  intros Hm. revert acc. induction n as [|n IH]; intros acc; cbn [deserialize_groupsLoop]; shrink.
Qed.
#[export] Hint Resolve shrinks_groupsLoop : shrinks.
Lemma shrinks_groups {V} (m : Reader V) : shrinks m → shrinks (deserialize_groups m).
Proof. intros Hm. unfold deserialize_groups. shrink. Qed.
#[export] Hint Resolve shrinks_groups : shrinks.

Lemma shrinks_switch p op : shrinks (requestSwitch p op).
Proof.
  destruct p; cbn [requestSwitch];
    unfold client_requestSwitch, admin_requestSwitch, agent_requestSwitch, monitorGet_requestSwitch,
      deserializeCheckRequest, deserializeCancelRequest, deserializeSimpleCheckRequest,
      deserializeMonitorEntriesPutRequest, deserializeMonitorEntryPutRequest, deserializeAdminCheckRequest,
      deserializeDescriptionListRequest, deserializeEraseRequest, deserializeInsertOrUpdateBucketRequest,
      deserializeListRequest, deserializeRemoveBucketRequest, deserializeSetPoliciesRequest,
      deserializeActionRequest, deserializeRegisterRequest, deserializeMonitorGetEntriesRequest,
      deserializeMonitorGetFlushRequest, sequenceNumber; shrink.
Qed.

Lemma shrinks_deserializeHeader : shrinks deserializeHeader.
Proof. unfold deserializeHeader, deserialize_stringNoSize. cbn zeta. shrink. Qed.

(** Taking a message out of the buffer takes at least its operation code. *)
Lemma extractRequest_progress p h :
  queue_ok (m_frameHeaderContent h) →
  ∃ r h', extractRequestFromBuffer p h = (r, h') ∧ queue_ok (m_frameHeaderContent h') ∧
    r ≠ OutOfFuel ∧ r ≠ Throw UndefinedBehaviour ∧
    (match r with Ret (Some _) => S (pending h') ≤ pending h | _ => pending h' ≤ pending h end).
Proof.
  intros Hok. destruct (decide (p = PSignal)) as [->|Hp].
  - cbn [extractRequestFromBuffer]. unfold signal_extractRequestFromBuffer, onContent.
    rewrite SE_bind_eq. cbn [get]. unfold queue_size. rewrite (proj2 Hok).
    destruct (Nat.leb_spec siginfo_size (String.length (bytes (m_frameHeaderContent h)))) as [Hle|Hgt].
    + destruct (flattenConsume_ok siginfo_size _ Hok Hle) as (q & Hq & Hokq & Hb).
      rewrite SE_bind_eq, Hq. eexists _, _. split; [done|]. split_and!; try done.
      unfold pending. cbn [setHeaderContent m_frameHeaderContent]. rewrite Hb, str_length_sdrop.
      unfold siginfo_size in *. lia.
    + eexists _, _. split; [done|]. by split_and!.
  - rewrite extractRequest_frame by done. unfold extractFrame.
    destruct (shrinks_deserializeHeader h Hok) as (r1 & h1 & H1 & Hok1 & Hl1 & Hf1 & Hu1).
    rewrite SE_bind_eq, H1. destruct r1 as [[]|e|]; [|eexists _, _; split; [done|]; split_and!; try done|done].
    2:{ intros [= ->]. by apply Hu1. }
    rewrite SE_bind_eq. cbn [get]. destruct (isFrameComplete h1); [|eexists _, _; by split_and!].
    rewrite SE_bind_eq. cbn [modify]. set (h2 := resetState h1).
    assert (queue_ok (m_frameHeaderContent h2)) as Hok2 by done.
    assert (pending h2 = pending h1) as Hp2 by done.
    unfold deserialize_opCode. rewrite !SE_bind_eq. cbn [stream_read ProtocolFrameHeader_stream]. unfold onContent.
    destruct (decide (1 ≤ String.length (bytes (m_frameHeaderContent h2)))) as [Hn|Hn].
    + destruct (flattenConsume_ok 1 _ Hok2 Hn) as (q & Hq & Hokq & Hb). rewrite Hq. cbn [mret SE_ret].
      destruct (shrinks_switch p (le_value (stake 1 (bytes (m_frameHeaderContent h2)))) (setHeaderContent q h2))
        as (r3 & h3 & H3 & Hok3 & Hl3 & Hf3 & Hu3); [done|].
      rewrite SE_bind_eq, H3.
      assert (S (pending h3) ≤ pending h2) as Hlt.
      { unfold pending in *. cbn [setHeaderContent m_frameHeaderContent] in Hl3. rewrite Hb, str_length_sdrop in Hl3. lia. }
      destruct r3 as [r3|e|]; [|eexists _, _; split; [done|]; split_and!; try done|done].
      * eexists _, _. split; [done|]. split_and!; try done. lia.
      * intros [= ->]. by apply Hu3.
      * lia.
    + rewrite flattenConsume_short by (done || lia). eexists _, _. split; [done|]. split_and!; try done.
Qed.

(** ** Handling a read ends

    For a logic that serves the requests of the protocol properly, leaves the reader of the
    connection alone and preserves [K], which does not depend on that reader. *)

Section handle_read.
Context {W : Type} (execute : nat → Request → SE (SocketManager * W) unit) (fd : nat) (p : ProtocolKind).
Context (K : SocketManager * W → Prop) (Hheader : ∀ m w h, K (m, w) → K (with_header m fd h, w)).
Context (Hexec : ∀ r m w h, request_of p r → speaks m fd p h → K (m, w) →
  let run := execute fd r (m, w) in proper any run.1 ∧ speaks run.2.1 fd p h ∧ K run.2).

Lemma handleReadLoop_ends fuel m w h :
  speaks m fd p h → header_ok h → K (m, w) → pending h < fuel →
  ∃ res m' w' h', handleReadLoop execute fuel fd (m, w) = (res, (m', w')) ∧
    proper any res ∧ speaks m' fd p h' ∧ header_ok h' ∧ K (m', w').
Proof.
  revert m w h. induction fuel as [|fuel IH]; intros m w h Hs Hok HK Hf; [lia|]. cbn [handleReadLoop].
  destruct (extractRequest_progress p h (proj1 Hok)) as (r & h1 & H1 & _ & Hnf & Hnu & Hl).
  destruct (typed_extractRequest p h Hok) as [Hok1 Hof]. rewrite H1 in Hok1, Hof. cbn [fst snd] in Hok1, Hof.
  rewrite SE_bind_eq, (extractRequest_header m w fd p h r h1 Hs H1).
  pose proof (speaks_with_header m fd p h h1 Hs) as Hs1. pose proof (Hheader m w h1 HK) as HK1.
  destruct r as [[req|]|e|]; [| | |done].
  - destruct (Hexec req _ w h1 (Hof _ eq_refl _ eq_refl) Hs1 HK1) as (Hp & Hs2 & HK2).
    rewrite SE_bind_eq. destruct (execute fd req _) as [[[]|e|] [m2 w2]]; cbn [fst snd] in *; [| |done].
    + apply (IH m2 w2 h1); [done|done|done|lia].
    + by exists (Throw e), m2, w2, h1.
  - by eexists (Ret tt), _, _, h1.
  - eexists (Throw e), _, _, h1. split_and!; try done. intros ->. by apply Hnu.
Qed.

Lemma handleRead_ends fuel buf m w h :
  speaks m fd p h → header_ok h → K (m, w) → pending h + String.length buf < fuel →
  ∃ ok m' w' h', handleRead execute fuel fd buf (m, w) = (Ret ok, (m', w')) ∧
    speaks m' fd p h' ∧ header_ok h' ∧ K (m', w').
Proof.
  intros Hs Hok HK Hf. unfold handleRead, pushReadBuffer.
  destruct (appendUnmanaged_ok buf _ (proj1 Hok)) as (q & Hq & Hokq & Hb).
  assert (onContent (appendCopy buf) h = (Ret tt, setHeaderContent q h)) as Ha.
  { unfold onContent, appendCopy. by rewrite Hq. }
  rewrite SE_bind_eq, (onDesc_header m w fd p h _ _ _ Hs Ha).
  pose proof (speaks_with_header m fd p h (setHeaderContent q h) Hs) as Hs1.
  destruct (handleReadLoop_ends fuel _ w _ Hs1) as (res & m2 & w2 & h2 & H2 & Hp & Hs2 & Hok2 & HK2).
  { split; [done|]. apply Hok. }
  { by apply Hheader. }
  { unfold pending in *. cbn [setHeaderContent m_frameHeaderContent]. rewrite Hb, str_length_app. lia. }
  unfold tryCatch. rewrite SE_bind_eq, H2. destruct res as [[]|e|]; [| |done].
  - by exists true, m2, w2, h2.
  - exists false, m2, w2, h2. by rewrite bool_decide_eq_false_2.
Qed.
End handle_read.

(** ** The properties *)

(** The byte queue is a FIFO of bytes: appending adds at the end, taking [n] bytes
    gives the first [n] and keeps the others, whatever the division into buckets, and
    asking for more than there is throws and changes nothing. *)
Theorem queue_fifo q :
  queue_ok q →
  (∀ s, ∃ q', appendCopy s q = (Ret tt, q') ∧ queue_ok q' ∧ bytes q' = bytes q +:+ s ∧
     queue_size q' = queue_size q + String.length s) ∧
  (∀ n, n ≤ queue_size q → ∃ out q', flattenConsume n q = (Ret out, q') ∧ queue_ok q' ∧
     String.length out = n ∧ out +:+ bytes q' = bytes q) ∧
  (∀ n, queue_size q < n → flattenConsume n q = (Throw (OutOfDataException (queue_size q) n), q)) ∧
  (∀ other, queue_ok other →
     queue_ok (appendMoveFrom q other).1 ∧ bytes (appendMoveFrom q other).1 = bytes q +:+ bytes other ∧
     bytes (appendMoveFrom q other).2 = "" ∧
     ∃ q', appendCopyFrom other q = (Ret tt, q') ∧ queue_ok q' ∧ bytes q' = bytes q +:+ bytes other).
Proof.
  intros Hok. unfold queue_size. split_and!.
  - intros s. destruct (appendUnmanaged_ok s q Hok) as (q' & Hq & Hok' & Hb). exists q'.
    rewrite (proj2 Hok'), (proj2 Hok), Hb, str_length_app. done.
  - intros n Hn. rewrite (proj2 Hok) in Hn. destruct (flattenConsume_ok n q Hok Hn) as (q' & Hq & Hok' & Hb).
    exists (stake n (bytes q)), q'. rewrite Hb, str_length_stake, stake_sdrop. split_and!; try done. lia.
  - intros n Hn. rewrite (proj2 Hok) in Hn |- *. by apply flattenConsume_short.
  - intros other Ho. destruct (appendMoveFrom_ok q other Hok Ho) as (? & ? & ? & ?). split_and!; try done.
    by apply appendCopyFrom_ok.
Qed.

Definition example_queue : BinaryQueue :=
  mkBinaryQueue [QBucket.mk "xxab" 2 2; QBucket.mk "cde" 0 3] 5.

Lemma queue_fifo_witness :
  queue_ok example_queue ∧
  ∃ out q', flattenConsume 3 example_queue = (Ret out, q') ∧ queue_ok q' ∧
    String.length out = 3 ∧ out +:+ bytes q' = "abcde".
Proof.
  assert (queue_ok example_queue) as Hok by (split; [repeat constructor; cbn; lia|done]).
  split; [exact Hok|]. apply (proj1 (proj2 (queue_fifo example_queue Hok))). cbn. lia.
Defined.

(** C15: Requests are delivered: the bytes that a protocol writes for a sequence of
    well-formed requests, cut in arbitrary pieces and read from a connection of the
    service, make it execute exactly those requests, in order, each once; nothing of them
    stays in the buffer. *)
Theorem requests_delivered p ms data m fd h fuel pieces :
  p ≠ PSignal → Forall (request_ok p) ms → speaks m fd p h → awaits h "" → length ms < fuel →
  forEach ms (protocol_executeRequest p) BinaryQueue_new = (Ret tt, data) →
  fields pieces = bytes data →
  ∃ h', handleReads record_request fuel fd pieces (m, []) = (Ret tt, (with_header m fd h', ms)) ∧
    awaits h' "".
Proof.
  intros Hne Hms Hs Haw Hf Hex Hp.
  destruct (execute_all (ok:=request_ok p) ms BinaryQueue_new Hms (proj1 queue_ok_new)) as (d & Hd & _ & Hb).
  rewrite Hex in Hd. injection Hd as ->. rewrite (proj2 queue_ok_new), str_app_nil_l in Hb. rewrite Hb in Hp.
  destruct (feed_stream (switch:=requestSwitch p) fuel pieces h ms Hf Hms Haw Hp) as (h' & Hfeed & Haw').
  exists h'. split; [|done]. by apply (handleReads_records p m [] fd fuel pieces h ms h').
Qed.

(** A manager with one administration connection on descriptor 1. *)
Definition example_manager : SocketManager :=
  mkSocketManager true 1
    [Descriptor_new; mkDescriptor false true false (Some PAdmin) (ProtocolFrameHeader_new BinaryQueue_new)
       BinaryQueue_new ""] {[1]} ∅.

Definition example_requests : list Request :=
  [ SetPoliciesRequest
      {[ "" := [mkPolicy (PolicyKey_of "app" "*" "net") (mkPolicyResult ALLOW "")];
         "b" := [mkPolicy (PolicyKey_of "c" "u" "p") (mkPolicyResult DENY "m")] ]}
      {[ "b" := [PolicyKey_of "x" "y" "z"] ]} 7;
    EraseRequest "b" true (PolicyKey_of "#" "u" "#") 8 ].

Lemma awaits_new : awaits (ProtocolFrameHeader_new BinaryQueue_new) "".
Proof. split; [apply queue_ok_new|done]. Defined.

Lemma requests_delivered_witness :
  ∃ data, forEach example_requests (protocol_executeRequest PAdmin) BinaryQueue_new = (Ret tt, data) ∧
    String.length (bytes data) = 129 ∧
    ∃ h', handleReads record_request 3 1
            [stake 3 (bytes data); stake 100 (sdrop 3 (bytes data)); sdrop 103 (bytes data)]
            (example_manager, []) = (Ret tt, (with_header example_manager 1 h', example_requests)) ∧
      awaits h' "".
Proof.
  eexists. split; [vm_compute; reflexivity|]. split; [vm_compute; reflexivity|].
  eapply (requests_delivered PAdmin example_requests _ example_manager 1 (ProtocolFrameHeader_new BinaryQueue_new)).
  - discriminate.
  - decide_by_compute.
  - eexists. split; [reflexivity|]. split; reflexivity.
  - apply awaits_new.
  - cbn. lia.
  - vm_compute. reflexivity.
  - vm_compute. reflexivity.
Defined.

(** *** Slots *)

(** Slots that are not in use are as new, and the largest descriptor has a slot. *)
Definition slots_ok (m : SocketManager) : Prop :=
  (m_maxDesc m < Z.of_nat (length (m_fds m)))%Z ∧
  ∀ fd d, m_fds m !! fd = Some d → m_used d = false → d = Descriptor_new.

Lemma onDesc_modify {W} (m : SocketManager) (w : W) fd d f :
  m_fds m !! fd = Some d →
  onDesc fd (modify f) (m, w) = (Ret tt, (setFds (<[fd := f d]> (m_fds m)) m, w)).
Proof. intros Hd. unfold onDesc. by rewrite Hd. Qed.

(** The slots after [createDescriptor]. *)
Lemma createDescriptor_ok {W} (m : SocketManager) (w : W) fd client :
  slots_ok m → (∀ d, m_fds m !! fd = Some d → m_used d = false) →
  ∃ m', createDescriptor fd client (m, w) = (Ret tt, (m', w)) ∧ slots_ok m' ∧
    m_fds m' !! fd = Some (setClient client (setUsed true Descriptor_new)) ∧
    (∀ fd', fd' ≠ fd → fd' < length (m_fds m) → m_fds m' !! fd' = m_fds m !! fd') ∧
    m_readSet m' = m_readSet m ∧ m_writeSet m' = m_writeSet m ∧ m_maxDesc m' = Z.max (m_maxDesc m) (Z.of_nat fd).
Proof.
  intros [Hmax Hfree] Hun. unfold createDescriptor. rewrite SE_bind_eq. cbn [onManager].
  set (m1 := if (m_maxDesc m <? Z.of_nat fd)%Z then _ else m).
  assert (m_fds m1 !! fd = Some Descriptor_new ∧ slots_ok m1 ∧
    (∀ fd', fd' < length (m_fds m) → m_fds m1 !! fd' = m_fds m !! fd') ∧
    m_readSet m1 = m_readSet m ∧ m_writeSet m1 = m_writeSet m ∧ m_maxDesc m1 = Z.max (m_maxDesc m) (Z.of_nat fd))
    as (Hfd & [Hmax1 Hfree1] & Hoth & Hr & Hw & Hm).
  { assert (fd < length (m_fds m) → m_fds m !! fd = Some Descriptor_new) as Hin.
    { intros Hlt. destruct (lookup_lt_is_Some_2 (m_fds m) fd Hlt) as [d Hd]. rewrite Hd. f_equal.
      eapply Hfree; [done|]. by apply Hun. }
    unfold m1. destruct (Z.ltb_spec (m_maxDesc m) (Z.of_nat fd)) as [Hlt|Hge].
    - cbn [setMaxDesc m_fds]. destruct (Nat.leb_spec (length (m_fds m)) fd) as [Hle|Hgt].
      + cbn [setFds m_fds m_readSet m_writeSet m_maxDesc]. split_and!; try done; [| | |cbn; lia].
        * rewrite lookup_app_r by done. apply lookup_replicate_2. lia.
        * split; cbn [m_maxDesc m_fds setFds setMaxDesc]; [rewrite length_app, length_replicate; lia|].
          intros fd' d Hd Hu. apply lookup_app_Some in Hd as [Hd|[_ Hd]]; [by eapply Hfree|].
          by apply lookup_replicate_1 in Hd as [-> _].
        * intros fd' Hlt'. by rewrite lookup_app_l.
      + split_and!; [by apply Hin| |done..|cbn; lia]. split; cbn [m_maxDesc m_fds setMaxDesc]; [lia|done].
    - split_and!; [apply Hin; lia|by split|done..|lia]. }
  rewrite (onDesc_modify m1 w fd _ _ Hfd). eexists. split; [done|]. cbn [setFds m_fds m_readSet m_writeSet].
  assert (fd < length (m_fds m1)) as Hlen by (by eapply lookup_lt_Some).
  split_and!; [|by rewrite list_lookup_insert_eq| |done..].
  - split; cbn [m_maxDesc m_fds setFds]; [by rewrite length_insert|]. intros fd' d Hd Hu.
    destruct (decide (fd = fd')) as [->|Hne].
    + rewrite list_lookup_insert_eq in Hd by done. by injection Hd as <-.
    + rewrite list_lookup_insert_ne in Hd by done. by eapply Hfree1.
  - intros fd' Hne Hlt. rewrite list_lookup_insert_ne by done. by apply Hoth.
Qed.

(** A new connection inherits nothing: when the system hands out a descriptor that is
    not in use, accepting on a listening socket sets up that slot with the listener's
    protocol and client flag, an empty reader in its initial state and nothing to send,
    watches it for reading and touches no other slot.  From [FD_SETSIZE] on there is no
    guard: the watch set is written out of bounds. *)
Theorem accepted_connection_fresh {W} (m : SocketManager) (w : W) fd listening p cfd :
  slots_ok m → m_fds m !! fd = Some listening → m_protocol listening = Some p → m_used listening = true →
  (∀ d, m_fds m !! cfd = Some d → m_used d = false) →
  let accept : nat → SE (SocketManager * W) (option nat) := λ _, mret (Some cfd) in
  (FD_SETSIZE ≤ cfd → ∃ s, readyForAccept accept fd (m, w) = (Throw UndefinedBehaviour, s)) ∧
  (cfd < FD_SETSIZE → ∃ m', readyForAccept accept fd (m, w) = (Ret tt, (m', w)) ∧ slots_ok m' ∧
    m_fds m' !! cfd = Some (mkDescriptor false true (m_client listening) (Some p)
                              (ProtocolFrameHeader_new BinaryQueue_new) BinaryQueue_new "") ∧
    m_readSet m' = {[cfd]} ∪ m_readSet m ∧ m_writeSet m' = m_writeSet m ∧ m_maxDesc m' = Z.max (m_maxDesc m) (Z.of_nat cfd) ∧
    ∀ fd', fd' ≠ cfd → fd' < length (m_fds m) → m_fds m' !! fd' = m_fds m !! fd').
Proof.
  intros Hok Hl Hp Hu Hc accept.
  assert (fd ≠ cfd) as Hne by (intros ->; specialize (Hc _ Hl); congruence).
  assert (fd < length (m_fds m)) as Hlt by (by eapply lookup_lt_Some).
  destruct (createDescriptor_ok m w cfd (m_client listening) Hok Hc)
    as (m1 & H1 & [Hmax1 Hfree1] & Hcfd & Hoth & Hr & Hw & Hm1).
  pose proof (lookup_lt_Some _ _ _ Hcfd) as Hlen.
  assert (∀ s, readyForAccept accept fd (m, w) = s ↔
    addReadSocket cfd (setFds (<[cfd := mkDescriptor false true (m_client listening) (Some p)
      (ProtocolFrameHeader_new BinaryQueue_new) BinaryQueue_new ""]> (m_fds m1)) m1, w) = s) as Hstep.
  { intros s. unfold readyForAccept. rewrite SE_bind_eq. cbn [accept mret SE_ret].
    rewrite SE_bind_eq. cbn [desc]. rewrite Hl. rewrite SE_bind_eq, H1.
    rewrite SE_bind_eq, (onDesc_modify m1 w cfd _ _ Hcfd), SE_bind_eq. cbn [desc setFds m_fds].
    rewrite list_lookup_insert_ne by done. rewrite Hoth by done. rewrite Hl, Hp, SE_bind_eq.
    erewrite (onDesc_modify _ w cfd) by (cbn; by rewrite list_lookup_insert_eq).
    cbn [setFds m_fds]. by rewrite list_insert_insert_eq. }
  split.
  - intros Hge. eexists. apply Hstep. unfold addReadSocket, onManager, FD_SET. cbn [setFds m_readSet].
    destruct (Nat.ltb_spec cfd FD_SETSIZE); [lia|]. done.
  - intros Hfs. eexists. split.
    { apply Hstep. unfold addReadSocket, onManager, FD_SET.
      destruct (Nat.ltb_spec cfd FD_SETSIZE); [|lia]. done. }
    cbn [setReadSet setFds m_fds m_readSet m_writeSet m_maxDesc].
    split_and!; [|by rewrite list_lookup_insert_eq|by rewrite Hr|done|done|].
    + split; cbn [setReadSet setFds m_fds m_maxDesc]; [by rewrite length_insert|]. intros fd' d Hd Hun.
      destruct (decide (cfd = fd')) as [->|Hne'].
      * rewrite list_lookup_insert_eq in Hd by done. by injection Hd as <-.
      * rewrite list_lookup_insert_ne in Hd by done. by eapply Hfree1.
    + intros fd' Hne' Hlt'. rewrite list_lookup_insert_ne by done. by apply Hoth.
Qed.

Definition example_listening : SocketManager :=
  mkSocketManager true 0
    [mkDescriptor true true true (Some PClient) (ProtocolFrameHeader_new BinaryQueue_new) BinaryQueue_new ""]
    {[0]} ∅.

Lemma accepted_connection_fresh_witness :
  let accept : nat → SE (SocketManager * unit) (option nat) := λ _, mret (Some 5) in
  ∃ m', readyForAccept accept 0 (example_listening, tt) = (Ret tt, (m', tt)) ∧ slots_ok m' ∧
    m_fds m' !! 5 = Some (mkDescriptor false true true (Some PClient)
                            (ProtocolFrameHeader_new BinaryQueue_new) BinaryQueue_new "").
Proof.
  intros accept.
  assert (slots_ok example_listening) as Hok.
  { split; [cbn; lia|]. intros [|fd] d Hd Hu; [|done]. cbn in Hd. injection Hd as <-. done. }
  destruct (proj2 (accepted_connection_fresh example_listening tt 0 _ PClient 5 Hok eq_refl eq_refl eq_refl
    ltac:(intros d Hd; discriminate Hd)) ltac:(unfold FD_SETSIZE; lia)) as (m' & H1 & H2 & H3 & _).
  exists m'. repeat split; [exact H1|exact (proj1 H2)|exact (proj2 H2)|exact H3].
Defined.

Lemma removeReadSocket_ok {W} (m : SocketManager) (w : W) fd :
  fd < FD_SETSIZE → removeReadSocket fd (m, w) = (Ret tt, (setReadSet (m_readSet m ∖ {[fd]}) m, w)).
Proof.
  intros Hfs. unfold removeReadSocket, onManager, FD_CLR.
  by destruct (Nat.ltb_spec fd FD_SETSIZE); [|lia].
Qed.
Lemma removeWriteSocket_ok {W} (m : SocketManager) (w : W) fd :
  fd < FD_SETSIZE → removeWriteSocket fd (m, w) = (Ret tt, (setWriteSet (m_writeSet m ∖ {[fd]}) m, w)).
Proof.
  intros Hfs. unfold removeWriteSocket, onManager, FD_CLR.
  by destruct (Nat.ltb_spec fd FD_SETSIZE); [|lia].
Qed.

(** Closing a connection leaves nothing behind: after the logic was told, the slot is
    as new, the descriptor is watched neither for reading nor for writing, every other slot
    is as the logic left it, and the manager stays well formed. *)
Theorem closeSocket_clears {W} contextClosed (sys_close : nat → SE (SocketManager * W) unit)
    m w fd m1 w1 :
  contextClosed fd (m, w) = (Ret tt, (m1, w1)) → slots_ok m1 → fd < length (m_fds m1) → fd < FD_SETSIZE →
  (∀ fd s, sys_close fd s = (Ret tt, s)) →
  ∃ m2, closeSocket contextClosed sys_close fd (m, w) = (Ret tt, (m2, w1)) ∧ slots_ok m2 ∧
    m_fds m2 !! fd = Some Descriptor_new ∧ (fd ∉ m_readSet m2) ∧ (fd ∉ m_writeSet m2) ∧
    ∀ fd', fd' ≠ fd → m_fds m2 !! fd' = m_fds m1 !! fd'.
Proof.
  intros Hcc [Hmax Hfree] Hlt Hfs Hcl. destruct (lookup_lt_is_Some_2 (m_fds m1) fd Hlt) as [d Hd].
  unfold closeSocket.
  rewrite SE_bind_eq, Hcc, SE_bind_eq, removeReadSocket_ok by done.
  rewrite SE_bind_eq, removeWriteSocket_ok by done.
  rewrite SE_bind_eq. erewrite onDesc_modify by done. rewrite Hcl.
  eexists. split; [done|]. cbn [setReadSet setWriteSet setFds m_fds m_readSet m_writeSet m_maxDesc].
  split_and!; [|by rewrite list_lookup_insert_eq|set_solver|set_solver|].
  - split; cbn; [by rewrite length_insert|]. intros fd' d' Hd' Hu.
    destruct (decide (fd = fd')) as [->|Hne].
    + rewrite list_lookup_insert_eq in Hd' by done. by injection Hd' as <-.
    + rewrite list_lookup_insert_ne in Hd' by done. by eapply Hfree.
  - intros fd' Hne. by rewrite list_lookup_insert_ne.
Qed.

Lemma closeSocket_clears_witness :
  ∃ m2, closeSocket (W:=unit) (λ _, mret tt) (λ _ s, (Ret tt, s)) 0 (example_listening, tt) = (Ret tt, (m2, tt)) ∧
    slots_ok m2 ∧ m_fds m2 !! 0 = Some Descriptor_new ∧ (0 ∉ m_readSet m2) ∧ (0 ∉ m_writeSet m2) ∧
    ∀ fd', fd' ≠ 0 → m_fds m2 !! fd' = m_fds example_listening !! fd'.
Proof.
  apply (closeSocket_clears (W:=unit) (λ _, mret tt) (λ _ s, (Ret tt, s)) example_listening tt 0
    example_listening tt).
  - reflexivity.
  - split; [cbn; lia|]. intros [|fd] d Hd Hu; [|done]. cbn in Hd. injection Hd as <-. done.
  - cbn. lia.
  - unfold FD_SETSIZE. lia.
  - reflexivity.
Defined.

(** What is still to be sent on a connection: the rest of the last [write], then the queue. *)
Definition outgoing (d : Descriptor) : string := m_writeBuffer d +:+ bytes (m_writeQueue d).

(** A system that accepts [n] bytes of a [write] and records them. *)
Definition record_write (n : nat) (fd : nat) (buffer : string) : SE (SocketManager * string) WriteResult :=
  λ '(m, w), (Ret (Written (n `min` String.length buffer)), (m, w +:+ stake n buffer)).

(** One [write] of which the system takes at most [n] bytes: the rest waits, and is watched for. *)
Lemma readyForWrite_takes {W} contextClosed (sys_write : nat → string → SE (SocketManager * W) WriteResult) sys_close
    (written : string → W → W) n m w fd d :
  (∀ buffer m w, sys_write fd buffer (m, w) = (Ret (Written (n `min` String.length buffer)), (m, written buffer w))) →
  m_fds m !! fd = Some d → queue_ok (m_writeQueue d) → fd < FD_SETSIZE →
  ∃ q ws, readyForWrite contextClosed sys_write sys_close fd (m, w) =
      (Ret tt, (setWriteSet ws (setFds (<[fd := setWriteBuffer (sdrop n (outgoing d)) (setWriteQueue q d)]> (m_fds m)) m), written (outgoing d) w)) ∧
    queue_ok q ∧ bytes q = "" ∧ (if decide (sdrop n (outgoing d) = "") then ws = m_writeSet m ∖ {[fd]} else ws = m_writeSet m).
Proof.
  intros Hwrite Hd Hok Hfs. pose proof (lookup_lt_Some _ _ _ Hd) as Hlen.
  destruct (flattenConsume_ok (queue_size (m_writeQueue d)) _ Hok) as (q & Hq & Hokq & Hb).
  { unfold queue_size. by rewrite (proj2 Hok). }
  unfold queue_size in Hq, Hb. rewrite (proj2 Hok), stake_all in Hq. rewrite (proj2 Hok), sdrop_all in Hb.
  unfold readyForWrite. rewrite SE_bind_eq. unfold onDesc at 1, prepareWriteBuffer. rewrite Hd.
  unfold queue_size. rewrite (proj2 Hok), Hq. cbn [m_writeBuffer setWriteBuffer setWriteQueue].
  change (m_writeBuffer d +:+ bytes (m_writeQueue d)) with (outgoing d).
  rewrite SE_bind_eq, Hwrite, SE_bind_eq.
  erewrite (onDesc_modify _ _ fd) by (cbn [setFds m_fds]; by apply list_lookup_insert_eq).
  cbn [setFds m_fds m_writeBuffer setWriteBuffer]. rewrite list_insert_insert_eq.
  assert (sdrop (n `min` String.length (outgoing d)) (outgoing d) = sdrop n (outgoing d)) as Hdrop.
  { destruct (decide (n ≤ String.length (outgoing d))); [by rewrite Nat.min_l|].
    rewrite Nat.min_r, sdrop_all by lia. symmetry. rewrite <-(str_app_nil_r (outgoing d)).
    rewrite sdrop_app_ge; [|lia]. by destruct (n - _). }
  rewrite Hdrop, SE_bind_eq. cbn [desc setFds m_fds]. rewrite list_lookup_insert_eq by done. cbn [m_writeBuffer setWriteBuffer].
  case_decide as He.
  - rewrite bool_decide_eq_true_2 by done. rewrite removeWriteSocket_ok by done. by eexists q, _.
  - rewrite bool_decide_eq_false_2 by done. exists q, (m_writeSet m). done.
Qed.

(** Sending is in order and complete: a [write] that the system accepts only in part
    keeps the rest, in order, for the next one; the bytes accepted followed by the bytes
    still waiting are the bytes that waited before, and the descriptor stops being watched
    for writing exactly when nothing waits. *)
Theorem readyForWrite_in_order contextClosed sys_close n m sent fd d :
  m_fds m !! fd = Some d → queue_ok (m_writeQueue d) → fd < FD_SETSIZE → fd ∈ m_writeSet m →
  ∃ m' sent' d', readyForWrite contextClosed (record_write n) sys_close fd (m, sent) = (Ret tt, (m', sent')) ∧
    m_fds m' !! fd = Some d' ∧ queue_ok (m_writeQueue d') ∧
    sent' +:+ outgoing d' = sent +:+ outgoing d ∧
    String.length sent' = String.length sent + n `min` String.length (outgoing d) ∧
    (fd ∈ m_writeSet m' ↔ outgoing d' ≠ "").
Proof.
  intros Hd Hok Hfs Hin. pose proof (lookup_lt_Some _ _ _ Hd) as Hlen.
  destruct (readyForWrite_takes contextClosed (record_write n) sys_close (λ buffer sent, sent +:+ stake n buffer) n m sent fd d)
    as (q & ws & H1 & Hokq & Hb & Hws); [done..|].
  set (d' := setWriteBuffer (sdrop n (outgoing d)) (setWriteQueue q d)) in *.
  assert (outgoing d' = sdrop n (outgoing d)) as Hout.
  { unfold outgoing at 1, d'. cbn. by rewrite Hb, str_app_nil_r. }
  eexists _, _, d'. split; [exact H1|]. split; [cbn; by apply list_lookup_insert_eq|]. split; [done|].
  split; [by rewrite Hout, str_app_assoc, stake_sdrop|]. split; [by rewrite str_length_app, str_length_stake|].
  cbn [m_writeSet setWriteSet]. rewrite Hout. case_decide; subst ws; set_solver.
Qed.

Lemma readyForWrite_in_order_witness :
  let d := mkDescriptor false true true (Some PClient) (ProtocolFrameHeader_new BinaryQueue_new)
             (mkBinaryQueue [QBucket.mk "cde" 0 3] 3) "ab" in
  let m := mkSocketManager true 0 [d] ∅ {[0]} in
  ∃ m' sent' d', readyForWrite (λ _, mret tt) (record_write 3) (λ _, mret tt) 0 (m, "") = (Ret tt, (m', sent')) ∧
    m_fds m' !! 0 = Some d' ∧ queue_ok (m_writeQueue d') ∧ sent' +:+ outgoing d' = "" +:+ "abcde" ∧
    String.length sent' = 3 ∧ (0 ∈ m_writeSet m' ↔ outgoing d' ≠ "").
Proof.
  intros d m. apply (readyForWrite_in_order (λ _, mret tt) (λ _, mret tt) 3 m "" 0 d).
  - reflexivity.
  - split; [repeat constructor; cbn; lia|reflexivity].
  - unfold FD_SETSIZE. lia.
  - decide_by_compute.
Defined.

(** ** Turns of the main loop *)

(** Descriptors with something to send are watched for it; nothing else changes. *)
Lemma armWriters_arms {W} (m : SocketManager) (w : W) :
  slots_ok m → (m_maxDesc m < Z.of_nat FD_SETSIZE)%Z →
  ∃ ws, armWriters (m, w) = (Ret tt, (setWriteSet ws m, w)) ∧ m_writeSet m ⊆ ws ∧
    ∀ i d, (Z.of_nat i <= m_maxDesc m)%Z → m_fds m !! i = Some d → m_used d && hasDataToWrite d = true → i ∈ ws.
Proof.
  intros [Hmax _] Hfs. unfold armWriters. cbn [fst].
  assert (∀ l ws1, (∀ i, i ∈ l → i < length (m_fds m) ∧ i < FD_SETSIZE) →
    ∃ ws, forEach l (λ i, d ← desc i; if m_used d && hasDataToWrite d then addWriteSocket i else mret tt) (setWriteSet ws1 m, w) =
        (Ret tt, (setWriteSet ws m, w)) ∧ ws1 ⊆ ws ∧
      ∀ i d, i ∈ l → m_fds m !! i = Some d → m_used d && hasDataToWrite d = true → i ∈ ws) as Hloop.
  { induction l as [|i l IH]; intros ws1 Hl; [exists ws1; split_and!; [done|done|]; intros i d Hi; by apply elem_of_nil in Hi|].
    destruct (Hl i ltac:(by left)) as [Hi Hifs]. destruct (lookup_lt_is_Some_2 (m_fds m) i Hi) as [d Hd].
    set (ws2 := if m_used d && hasDataToWrite d then {[i]} ∪ ws1 else ws1).
    destruct (IH ws2) as (ws & H1 & Hsub & Hin); [intros i' Hi'; apply Hl; by right|]. exists ws. split_and!.
    - cbn [forEach]. rewrite SE_bind_eq, SE_bind_eq. unfold desc at 1. cbn [m_fds setWriteSet]. rewrite Hd. unfold ws2 in H1.
      destruct (m_used d && hasDataToWrite d); [|exact H1]. unfold addWriteSocket, onManager, FD_SET. destruct (Nat.ltb_spec i FD_SETSIZE); [exact H1|lia].
    - transitivity ws2; [|done]. unfold ws2. case_match; set_solver.
    - intros i' d' [->|Hi']%elem_of_cons Hd' Hu; [|by eapply Hin]. rewrite Hd in Hd'. injection Hd' as ->. apply Hsub. unfold ws2. rewrite Hu. set_solver. }
  destruct (Hloop (seq 0 (Z.to_nat (m_maxDesc m + 1))) (m_writeSet m)) as (ws & H1 & Hsub & Hin).
  { intros i Hi. apply elem_of_seq in Hi. unfold FD_SETSIZE in *. lia. }
  exists ws. split; [|split; [done|]].
  - rewrite <-H1. f_equal. by destruct m.
  - intros i d Hi Hd Hu. eapply Hin; [|done..]. apply elem_of_seq. lia.
Qed.

Section serve.
Context {W : Type}.
Context (execute : nat → Request → SE (SocketManager * W) unit) (contextClosed : nat → SE (SocketManager * W) unit)
  (sys_read : nat → SE (SocketManager * W) ReadResult) (sys_write : nat → string → SE (SocketManager * W) WriteResult)
  (sys_accept : nat → SE (SocketManager * W) (option nat)) (sys_close : nat → SE (SocketManager * W) unit).

Abbreviation serve := (serveReady execute contextClosed sys_read sys_write sys_accept sys_close) (only parsing).

(** One descriptor is ready: the others are passed over. *)
Lemma serve_one (rs ws : gset nat) fuel fd steps i (s s' : SocketManager * W) :
  i ≤ fd → fd - i < steps → (Z.of_nat fd <= m_maxDesc s.1)%Z → (∀ j, j ≠ fd → (j ∉ rs) ∧ (j ∉ ws)) →
  (∀ n, (ret ← (if bool_decide (fd ∈ rs) then readyForRead execute contextClosed sys_read sys_accept sys_close fuel fd ;; mret (1 - 1) else mret 1);
         ret ← (if bool_decide (fd ∈ ws) then readyForWrite contextClosed sys_write sys_close fd ;; mret (ret - 1) else mret ret);
         serve n fuel (S fd) ret rs ws) s = (Ret tt, s')) →
  serve steps fuel i 1 rs ws s = (Ret tt, s').
Proof.
  intros Hi Hsteps Hmax Hno Hread. revert i Hi Hsteps. induction steps as [|steps IH]; intros i Hi Hsteps; [lia|]. cbn [serveReady].
  destruct (Z.ltb_spec (Z.of_nat i) (m_maxDesc s.1 + 1)); [|lia]. cbn [Nat.eqb negb andb].
  destruct (decide (i = fd)) as [->|Hne]; [apply Hread|]. destruct (Hno i Hne). rewrite SE_bind_eq, bool_decide_eq_false_2 by done.
  cbn [mret SE_ret]. rewrite SE_bind_eq, bool_decide_eq_false_2 by done. cbn [mret SE_ret]. apply IH; lia.
Qed.

Lemma serve_none n fuel i rs ws (s : SocketManager * W) : serve n fuel i 0 rs ws s = (Ret tt, s).
Proof. destruct n; cbn [serveReady Nat.eqb negb]; by rewrite andb_false_r. Qed.

Lemma serve_reader fuel fd steps i (s s' : SocketManager * W) :
  i ≤ fd → fd - i < steps → (Z.of_nat fd <= m_maxDesc s.1)%Z →
  readyForRead execute contextClosed sys_read sys_accept sys_close fuel fd s = (Ret tt, s') →
  serve steps fuel i 1 {[fd]} ∅ s = (Ret tt, s').
Proof.
  intros Hi Hs Hm Hr. apply (serve_one _ _ fuel fd); [done|done|done|set_solver|]. intros n.
  rewrite SE_bind_eq, bool_decide_eq_true_2, SE_bind_eq, Hr by set_solver. cbn [mret SE_ret]. rewrite SE_bind_eq, bool_decide_eq_false_2 by set_solver.
  apply serve_none.
Qed.

Lemma serve_writer fuel fd steps i (s s' : SocketManager * W) :
  i ≤ fd → fd - i < steps → (Z.of_nat fd <= m_maxDesc s.1)%Z → readyForWrite contextClosed sys_write sys_close fd s = (Ret tt, s') →
  serve steps fuel i 1 ∅ {[fd]} s = (Ret tt, s').
Proof.
  intros Hi Hs Hm Hw. apply (serve_one _ _ fuel fd); [done|done|done|set_solver|]. intros n.
  rewrite SE_bind_eq, bool_decide_eq_false_2 by set_solver. cbn [mret SE_ret]. rewrite SE_bind_eq, bool_decide_eq_true_2, SE_bind_eq, Hw by set_solver.
  cbn [mret SE_ret]. apply serve_none.
Qed.
End serve.
