(* ===== verification/SocketInitTheorems.v ===== *)
(** * Theorems on the start and the main loop of the service

    The listening sockets are made with the intended access rights, and the signal to
    terminate ends the main loop. *)
From S2P Require Import Prelude Text Types BinaryQueue Serialization Frame Messages.
From S2P Require Import ProtocolClient ProtocolAgent Protocols SocketManager SocketInit ConnectionTheorems.

(** ** The system *)

(** What the calls have to do with the mask of the process, its open descriptors, the paths
    that sockets are bound to ([named]), and the sockets the process has bound itself, each
    with the mask at that time.  A new descriptor is the lowest that is not open.
    [sd_listen_fds] and [sd_is_socket_unix] only look: the second answers with a positive
    number for a socket that is bound to the path. *)
Class SocketSystemLaws (W : Type) `{SocketSystem W} := {
  mask_of : W → Z;
  opened : W → gset nat;
  named : W → gmap nat string;
  bound : W → list (nat * string * Z);
  same (w w' : W) : Prop :=
    mask_of w' = mask_of w ∧ opened w' = opened w ∧ named w' = named w ∧ bound w' = bound w;
  opens (fd : option nat) (w w' : W) : Prop :=
    mask_of w' = mask_of w ∧ named w' = named w ∧ bound w' = bound w ∧
    match fd with
    | Some fd => (fd ∉ opened w) ∧ (∀ n, n < fd → n ∈ opened w) ∧ opened w' = {[fd]} ∪ opened w
    | None => opened w' = opened w
    end;
  law_socket w : opens (sys_socket w).1 w (sys_socket w).2;
  law_signalfd w : opens (sys_signalfd_term w).1 w (sys_signalfd_term w).2;
  law_getfl fd w : same w (sys_fcntl_getfl fd w).2;
  law_setfl fd flags w : same w (sys_fcntl_setfl fd flags w).2;
  law_unlink path w : same w (sys_unlink path w);
  law_sigprocmask w : same w (sys_sigprocmask_term w).2;
  law_listen fd w : same w (sys_listen fd w).2;
  law_listen_fds w : same w (sd_listen_fds w).2;
  law_is_socket fd path w : same w (sd_is_socket_unix fd path w).2 ∧
    ((0 < (sd_is_socket_unix fd path w).1)%Z → named w !! fd = Some path);
  law_umask mask w : (sys_umask mask w).1 = mask_of w ∧ mask_of (sys_umask mask w).2 = mask ∧
    opened (sys_umask mask w).2 = opened w ∧ named (sys_umask mask w).2 = named w ∧
    bound (sys_umask mask w).2 = bound w;
  law_bind fd path w : mask_of (sys_bind fd path w).2 = mask_of w ∧ opened (sys_bind fd path w).2 = opened w ∧
    named (sys_bind fd path w).2 = (if (sys_bind fd path w).1 then <[fd := path]> (named w) else named w) ∧
    bound (sys_bind fd path w).2 = (bound w ++ (if (sys_bind fd path w).1 then [(fd, path, mask_of w)] else []))%list;
}.

(** The system refuses nothing that the sockets need. *)
Definition granted (W : Type) `{SocketSystem W} : Prop :=
  (∀ w, (sys_socket w).1 ≠ None) ∧ (∀ fd flags w, (sys_fcntl_setfl fd flags w).1 = true) ∧
  (∀ fd path w, (sys_bind fd path w).1 = true) ∧ (∀ fd w, (sys_listen fd w).1 = true) ∧
  (∀ w, (0 ≤ (sd_listen_fds w).1)%Z).

(** A descriptor that listens for connections of a protocol. *)
Definition listens (m : SocketManager) (fd : nat) (p : ProtocolKind) (client : bool) : Prop :=
  m_fds m !! fd = Some (mkDescriptor true true client (Some p) (ProtocolFrameHeader_new BinaryQueue_new) BinaryQueue_new "") ∧
  fd ∈ m_readSet m.

Section init.
Context {W : Type} `{SL : SocketSystemLaws W}.
Context (with_systemd : bool) (clientPath : string).

(** Only open descriptors have names, all fit into an [fd_set], and so will [k] more. *)
Record started (k : nat) (w : W) : Prop := {
  st_names : dom (named w) ⊆ opened w;
  st_small fd : fd ∈ opened w → fd < FD_SETSIZE;
  st_room : size (opened w) + k ≤ FD_SETSIZE;
}.

Lemma started_same k w w' : same w w' → started k w → started k w'.
Proof. intros (_ & Ho & Hn & _) [H1 H2 H3]. split; rewrite ?Ho, ?Hn; auto. Qed.

(** The lowest free descriptor is at most the number of open ones. *)
Lemma opens_small k fd w w' : opens (Some fd) w w' → started (S k) w → fd < FD_SETSIZE ∧ started k w'.
Proof.
  intros (_ & Hn & _ & Hf & Hlow & Ho) [H1 H2 H3].
  assert (fd ≤ size (opened w)) as Hle.
  { rewrite <-(size_set_seq (C:=gset nat) 0 fd). apply subseteq_size. intros n Hin%elem_of_set_seq. apply Hlow. lia. }
  split; [lia|]. split.
  - rewrite Hn, Ho. set_solver.
  - intros fd'. rewrite Ho. intros [->%elem_of_singleton|Hin]%elem_of_union; [lia|auto].
  - rewrite Ho, size_union, size_singleton by set_solver. lia.
Qed.

Lemma call_eq {A} (f : W → A * W) m w : call f (m, w) = (Ret (f w).1, (m, (f w).2)).
Proof. unfold call. by destruct (f w). Qed.

Ltac step := rewrite ?SE_bind_eq, ?call_eq; cbn [call_ mret SE_ret throw].

(** A socket of the process: bound with the mask, and the mask put back. *)
Definition own_socket (fd : nat) (path : string) (mask : Z) (w w' : W) : Prop :=
  (fd ∉ opened w) ∧ opened w' = {[fd]} ∪ opened w ∧ named w' = <[fd := path]> (named w) ∧
  mask_of w' = mask_of w ∧ bound w' = (bound w ++ [(fd, path, mask)])%list.

Lemma help_spec k path mask m (w : W) r m' w' :
  String.length path < SUN_PATH_SIZE → started (S k) w → createDomainSocketHelp path mask (m, w) = (r, (m', w')) →
  m' = m ∧
  ((∃ fd, r = Ret fd ∧ fd < FD_SETSIZE ∧ started k w' ∧ own_socket fd path mask w w') ∨
   r = Throw InitException ∧ ¬ granted W).
Proof.
  intros Hp Hst. unfold createDomainSocketHelp. step.
  pose proof (law_socket w) as Hs. destruct (sys_socket w) as [[fd|] w1] eqn:E1; cbn [fst snd] in *.
  2: { intros [= <- <- <-]. split; [done|]. right. split; [done|]. intros (Hg & _). apply (Hg w). by rewrite E1. }
  destruct (opens_small k fd w w1 Hs Hst) as [Hlt Hst1]. destruct Hs as (Hm1 & Hn1 & Hb1 & Hf & _ & Ho1).
  step. pose proof (law_getfl fd w1) as H2. destruct (sys_fcntl_getfl fd w1) as [flags w2]; cbn [fst snd] in *.
  step. pose proof (law_setfl fd (Z.lor (default 0%Z flags) O_NONBLOCK) w2) as H3.
  destruct (sys_fcntl_setfl fd _ w2) as [ok w3] eqn:E3; cbn [fst snd] in *. destruct ok; cbn [negb].
  2: { step. intros [= <- <- <-]. split; [done|]. right. split; [done|]. intros (_ & Hg & _).
       specialize (Hg fd (Z.lor (default 0%Z flags) O_NONBLOCK) w2). by rewrite E3 in Hg. }
  destruct (Nat.ltb_spec SUN_PATH_SIZE (String.length path)); [lia|]. destruct (Nat.eqb_spec (String.length path) SUN_PATH_SIZE); [lia|].
  step. pose proof (law_unlink path w3) as H4. set (w4 := sys_unlink path w3) in *.
  step. pose proof (law_umask mask w4) as H5. destruct (sys_umask mask w4) as [original w5]; cbn [fst snd] in *.
  step. pose proof (law_bind fd path w5) as H6. destruct (sys_bind fd path w5) as [ok w6] eqn:E6; cbn [fst snd] in *.
  destruct ok; cbn [negb].
  2: { step. intros [= <- <- <-]. split; [done|]. right. split; [done|]. intros (_ & _ & Hg & _). specialize (Hg fd path w5). by rewrite E6 in Hg. }
  step. pose proof (law_umask original w6) as H7. destruct (sys_umask original w6) as [? w7]; cbn [fst snd] in *.
  step. pose proof (law_listen fd w7) as H8. destruct (sys_listen fd w7) as [ok w8] eqn:E8; cbn [fst snd] in *.
  destruct ok; cbn [negb].
  2: { step. intros [= <- <- <-]. split; [done|]. right. split; [done|]. intros (_ & _ & _ & Hg & _). specialize (Hg fd w7). by rewrite E8 in Hg. }
  step. intros [= <- <- <-]. split; [done|]. left. exists fd. unfold same in H2, H3, H4, H8. split_and!; [done|done| |].
  - assert (opened w8 = opened w1 ∧ named w8 = <[fd := path]> (named w1)) as [Ho Hn] by intuition congruence.
    destruct Hst1 as [S1 S2 S3]. split; rewrite ?Ho; [|done|done]. rewrite Hn, dom_insert. set_solver.
  - unfold own_socket. intuition congruence.
Qed.

(** A socket of systemd: it is bound to the path, and nothing changes. *)
Lemma usable_socket_spec path fds m (w : W) r m' w' :
  usable_socket path fds (m, w) = (r, (m', w')) →
  m' = m ∧ same w w' ∧ ((∃ fd, r = Ret (Some fd) ∧ named w !! fd = Some path) ∨ r = Ret None).
Proof.
  revert w. induction fds as [|fd fds IH]; intros w; cbn [usable_socket].
  { intros [= <- <- <-]. unfold same. auto 10. }
  step. destruct (law_is_socket fd path w) as [Hs Hn]. destruct (sd_is_socket_unix fd path w) as [ret w1]; cbn [fst snd] in *.
  destruct (Z.ltb_spec 0 ret).
  - intros [= <- <- <-]. split_and!; [done|done|]. left. exists fd. auto.
  - intros E. destruct (IH w1 E) as (-> & Hs1 & Hr). unfold same in *. destruct Hs as (? & ? & Hn1 & ?). rewrite Hn1 in Hr.
    intuition congruence.
Qed.

Lemma domainSocket_spec k path mask m (w : W) r m' w' :
  String.length path < SUN_PATH_SIZE → started (S k) w → domainSocket with_systemd path mask (m, w) = (r, (m', w')) →
  m' = m ∧
  ((∃ fd, r = Ret fd ∧ fd < FD_SETSIZE ∧ started k w' ∧
      (own_socket fd path mask w w' ∨ with_systemd = true ∧ same w w' ∧ named w !! fd = Some path)) ∨
   r = Throw InitException ∧ ¬ granted W).
Proof.
  intros Hp Hst. unfold domainSocket. destruct with_systemd.
  2: { rewrite SE_bind_eq. cbn [mret SE_ret]. intros E. destruct (help_spec k path mask m w r m' w' Hp Hst E) as [-> [(fd & ? & ? & ? & ?)|]]; eauto 10. }
  unfold getSocketFromSystemD. step. pose proof (law_listen_fds w) as Hl. destruct (sd_listen_fds w) as [n w1] eqn:E1; cbn [fst snd] in *.
  destruct (Z.ltb_spec n 0).
  { intros [= <- <- <-]. split; [done|]. right. split; [done|]. intros (_ & _ & _ & _ & Hg). specialize (Hg w). rewrite E1 in Hg. cbn in Hg. lia. }
  destruct (usable_socket path _ (m, w1)) as [r2 [m2 w2]] eqn:E2. apply usable_socket_spec in E2 as (-> & Hs & Hr).
  assert (same w w2) as Hsame by (unfold same in *; intuition congruence).
  pose proof (started_same _ _ _ Hsame Hst) as Hst2.
  destruct Hr as [(fd & -> & Hfd)| ->].
  - intros [= <- <- <-]. split; [done|]. left. exists fd. assert (named w !! fd = Some path) as Hn by (unfold same in Hl; intuition congruence).
    split_and!; [done| |by destruct Hst2; split; [..|lia]|by right].
    apply (st_small _ _ Hst), (st_names _ _ Hst). by apply elem_of_dom_2 in Hn.
  - intros E. destruct (help_spec k path mask m w2 r m' w' Hp Hst2 E) as [-> [(fd & Hr & Hlt & Hk & Hown)|Hr]]; [|by split; [|right]].
    split; [done|]. left. exists fd. split_and!; [done..|]. left. unfold own_socket, same in *.
    destruct Hsame as (Hm & Ho & Hn & Hb). rewrite Hm, Ho, Hn, Hb in Hown. exact Hown.
Qed.

Lemma createDescriptor_used m (w : W) fd client m' w' :
  createDescriptor fd client (m, w) = (Ret tt, (m', w')) →
  ∀ fd' d, fd' ≠ fd → m_fds m' !! fd' = Some d → m_used d = true → m_fds m !! fd' = Some d.
Proof.
  unfold createDescriptor. rewrite SE_bind_eq. cbn [onManager]. set (m1 := if (m_maxDesc m <? Z.of_nat fd)%Z then _ else m).
  unfold onDesc. destruct (m_fds m1 !! fd) as [d0|]; [|done]. cbn [modify]. intros [= <- <-] fd' d Hne Hd Hu. cbn [setFds m_fds] in Hd.
  rewrite list_lookup_insert_ne in Hd by done. unfold m1 in Hd. destruct (_ <? _)%Z; [|done]. cbn [setMaxDesc m_fds] in Hd.
  destruct (_ <=? fd); [|done]. cbn [setFds m_fds] in Hd. apply lookup_app_Some in Hd as [Hd|[_ Hd]]; [done|].
  apply lookup_replicate in Hd as [-> _]. done.
Qed.

(** A slot for an open descriptor, watched for reading. *)
Definition slot_for (listening : bool) (client : bool) (p : ProtocolKind) : Descriptor :=
  mkDescriptor listening true client (Some p) (ProtocolFrameHeader_new BinaryQueue_new) BinaryQueue_new "".

Lemma new_slot listening client p fd m (w : W) :
  slots_ok m → (∀ d, m_fds m !! fd = Some d → m_used d = false) → fd < FD_SETSIZE →
  ∃ m', (createDescriptor fd client ;; onDesc fd (modify (λ d, setProtocol (Some p) (setListen listening d))) ;; addReadSocket fd) (m, w) =
      (Ret tt, (m', w)) ∧ slots_ok m' ∧ m_fds m' !! fd = Some (slot_for listening client p) ∧ m_readSet m' = {[fd]} ∪ m_readSet m ∧
    (∀ fd' d, fd' ≠ fd → m_fds m !! fd' = Some d → m_fds m' !! fd' = Some d) ∧
    (∀ fd' d, fd' ≠ fd → m_fds m' !! fd' = Some d → m_used d = true → m_fds m !! fd' = Some d).
Proof.
  intros Hok Hun Hlt. destruct (createDescriptor_ok m w fd client Hok Hun) as (m1 & H1 & [Hmax Hfree] & Hfd & Hoth & Hr & _).
  pose proof (createDescriptor_used _ _ _ _ _ _ H1) as Hback. pose proof (lookup_lt_Some _ _ _ Hfd) as Hlen.
  exists (setReadSet ({[fd]} ∪ m_readSet m) (setFds (<[fd := slot_for listening client p]> (m_fds m1)) m1)). split.
  { rewrite SE_bind_eq, H1, SE_bind_eq, (onDesc_modify m1 w fd _ _ Hfd). unfold addReadSocket, onManager, FD_SET.
    destruct (Nat.ltb_spec fd FD_SETSIZE); [|lia]. cbn. by rewrite Hr. }
  cbn [setReadSet setFds m_fds m_readSet]. split_and!.
  - split; cbn [setReadSet setFds m_fds m_maxDesc]; [by rewrite length_insert|]. intros fd' d Hd Hu. destruct (decide (fd = fd')) as [<-|Hne].
    + rewrite list_lookup_insert_eq in Hd by done. by injection Hd as <-.
    + rewrite list_lookup_insert_ne in Hd by done. by eapply Hfree.
  - by apply list_lookup_insert_eq.
  - done.
  - intros fd' d Hne Hd. rewrite list_lookup_insert_ne by done. rewrite Hoth; [done..|]. by eapply lookup_lt_Some.
  - intros fd' d Hne Hd Hu. rewrite list_lookup_insert_ne in Hd by done. by eapply Hback.
Qed.

(** The slots in use are the sockets of the given paths. *)
Definition slots_for (paths : list string) (m : SocketManager) (w : W) : Prop :=
  slots_ok m ∧ ∀ fd d, m_fds m !! fd = Some d → m_used d = true → ∃ path, path ∈ paths ∧ named w !! fd = Some path.

(** Where the socket of a path comes from, and what making it adds to the sockets the process
    has bound: nothing if it was handed over. *)
Definition handed_over (path : string) (fd : nat) (w : W) : Prop := with_systemd = true ∧ named w !! fd = Some path.
Definition bound_here (fd : nat) (path : string) (mask : Z) (w : W) : list (nat * string * Z) :=
  if decide (fd ∈ opened w) then [] else [(fd, path, mask)].

(** What making a socket does. *)
Lemma makeDomainSocket_spec k paths p path mask client m (w : W) r m' w' :
  String.length path < SUN_PATH_SIZE → path ∉ paths → slots_for paths m w → started (S k) w →
  makeDomainSocket with_systemd p path mask client (m, w) = (r, (m', w')) →
  (∃ fd, r = Ret tt ∧ slots_for (path :: paths) m' w' ∧ started k w' ∧ mask_of w' = mask_of w ∧
     named w' = <[fd := path]> (named w) ∧ named w !! fd ∈ [None; Some path] ∧ opened w' = {[fd]} ∪ opened w ∧
     bound w' = (bound w ++ bound_here fd path mask w)%list ∧ (fd ∈ opened w → handed_over path fd w) ∧
     listens m' fd p client ∧ ∀ fd' p' client', fd' ≠ fd → listens m fd' p' client' → listens m' fd' p' client') ∨
  r = Throw InitException ∧ ¬ granted W.
Proof.
  intros Hp Hnew [Hok Hslots] Hst. unfold makeDomainSocket. rewrite SE_bind_eq.
  destruct (domainSocket with_systemd path mask (m, w)) as [r1 [m1 w1]] eqn:E. apply (domainSocket_spec k) in E as [-> Hr]; [|done|done].
  destruct Hr as [(fd & -> & Hlt & Hst1 & Hfrom)|[-> Hg]]; [|intros [= <- <- <-]; by right].
  assert (named w !! fd ∈ [None; Some path] ∧ named w1 = <[fd := path]> (named w) ∧ opened w1 = {[fd]} ∪ opened w ∧ mask_of w1 = mask_of w ∧
    bound w1 = (bound w ++ bound_here fd path mask w)%list ∧ (fd ∈ opened w → handed_over path fd w)) as (Hold & Hn & Ho & Hm & Hb & Hhand).
  { pose proof (st_names _ _ Hst) as Hdom. unfold bound_here, handed_over. destruct Hfrom as [(Hf & Ho & Hn & Hm & Hb)|(Hsd & (Hm & Ho & Hn & Hb) & Hfd)].
    - rewrite decide_False by done. split_and!; try done.
      assert (named w !! fd = None) as ->; [|set_solver]. apply not_elem_of_dom. set_solver.
    - assert (fd ∈ opened w) by (apply Hdom; by apply elem_of_dom_2 in Hfd). rewrite decide_True by done. rewrite Hfd, app_nil_r.
      rewrite insert_id by done. split_and!; try done; [set_solver|]. rewrite Ho. set_solver. }
  destruct (new_slot true client p fd m w1 Hok) as (m2 & H2 & Hok2 & Hfd & Hrs & Hfw & Hbw); [|done|].
  { intros d Hd. destruct (m_used d) eqn:Hu; [|done]. destruct (Hslots fd d Hd Hu) as (q & Hq & Hqn). rewrite Hqn in Hold. set_solver. }
  unfold createDomainSocket. rewrite H2. intros [= <- <- <-]. left. exists fd. split_and!; try done.
  - split; [done|]. intros fd' d Hd Hu. rewrite Hn. destruct (decide (fd = fd')) as [<-|Hne].
    + exists path. rewrite lookup_insert_eq. set_solver.
    + rewrite lookup_insert_ne by done. destruct (Hslots fd' d) as (q & ? & ?); [by apply Hbw|done|]. exists q. set_solver.
  - split; [done|]. rewrite Hrs. set_solver.
  - intros fd' p' client' Hne [Hl Hrd]. split; [by apply Hfw|]. rewrite Hrs. set_solver.
Qed.

Lemma makeSignalSocket_spec paths m (w : W) r m' w' :
  slots_for paths m w → started 1 w → makeSignalSocket (m, w) = (r, (m', w')) →
  r = Ret tt ∧ mask_of w' = mask_of w ∧ named w' = named w ∧ bound w' = bound w ∧
  ∀ fd' p' client', fd' ∈ opened w → listens m fd' p' client' → listens m' fd' p' client'.
Proof.
  intros [Hok Hslots] Hst. unfold makeSignalSocket. step. pose proof (law_sigprocmask w) as H1.
  destruct (sys_sigprocmask_term w) as [ok w1]; cbn [fst snd] in *. pose proof (started_same _ _ _ H1 Hst) as Hst1. unfold same in H1.
  destruct ok; cbn [negb]; [|step; intros [= <- <- <-]; intuition].
  step. pose proof (law_signalfd w1) as H2. destruct (sys_signalfd_term w1) as [[fd|] w2]; cbn [fst snd] in *; [|step; intros [= <- <- <-]; unfold opens in H2; intuition congruence].
  destruct (opens_small 0 fd w1 w2 H2 Hst1) as [Hlt _]. destruct H2 as (Hm2 & Hn2 & Hb2 & Hf & _).
  assert (∀ d, m_fds m !! fd = Some d → m_used d = false) as Hfree.
  { intros d Hd. destruct (m_used d) eqn:Hu; [|done]. destruct Hf. destruct (Hslots fd d Hd Hu) as (q & _ & Hq%elem_of_dom_2).
    apply (st_names _ _ Hst1). destruct H1 as (_ & _ & -> & _). done. }
  destruct (new_slot false false PSignal fd m w2 Hok Hfree Hlt) as (m2 & H3 & _ & _ & Hrs & Hfw & _).
  unfold createSignalSocket. rewrite H3. intros [= <- <- <-]. split_and!; [done|intuition congruence..|].
  destruct H1 as (_ & Ho1 & _). rewrite Ho1 in Hf.
  intros fd' p' client' Hin [Hl Hrd]. split; [apply Hfw; [by intros ->|done]|]. rewrite Hrs. set_solver.
Qed.

(** A socket of the service, and what the list of those made so far has come to. *)
Record Listener := mkListener { l_fd : nat; l_path : string; l_mask : Z; l_protocol : ProtocolKind; l_client : bool }.

Definition protected (w : W) (m : SocketManager) (w' : W) (l : Listener) : Prop :=
  (l_fd l ∈ opened w → handed_over (l_path l) (l_fd l) w) ∧
  named w' !! l_fd l = Some (l_path l) ∧ listens m (l_fd l) (l_protocol l) (l_client l).

Record made (k : nat) (w : W) (ls : list Listener) (m : SocketManager) (w' : W) : Prop := {
  md_slots : slots_for (l_path <$> ls) m w';
  md_started : started k w';
  md_mask : mask_of w' = mask_of w;
  md_distinct : NoDup (l_fd <$> ls);
  md_bound : bound w' = (bound w ++ (ls ≫= λ l, bound_here (l_fd l) (l_path l) (l_mask l) w))%list;
  md_protected l : l ∈ ls → protected w m w' l;
  md_others fd : fd ∉ l_fd <$> ls → named w' !! fd = named w !! fd ∧ (fd ∈ opened w' ↔ fd ∈ opened w);
}.

Lemma made_next k w ls p path mask client m w1 r m' w' :
  made (S k) w ls m w1 → String.length path < SUN_PATH_SIZE → path ∉ l_path <$> ls →
  makeDomainSocket with_systemd p path mask client (m, w1) = (r, (m', w')) →
  (∃ fd, r = Ret tt ∧ made k w (ls ++ [mkListener fd path mask p client])%list m' w') ∨ r = Throw InitException ∧ ¬ granted W.
Proof.
  intros [Hsl Hst Hm Hnd Hb Hpr Hoth] Hp Hnew E. apply (makeDomainSocket_spec k (l_path <$> ls)) in E; [|done..].
  destruct E as [(fd & -> & Hsl' & Hst' & Hm' & Hn & Hold & Ho & Hb' & Hh & Hl & Hls)|Hr]; [left|by right]. exists fd. split; [done|].
  assert (∀ l, l ∈ ls → l_fd l ≠ fd) as Hne.
  { intros l Hin <-. destruct (Hpr l Hin) as (_ & Hnm & _). rewrite Hnm in Hold. apply Hnew, list_elem_of_fmap. exists l. set_solver. }
  assert (fd ∉ l_fd <$> ls) as Hfd by (intros (l & -> & Hin)%list_elem_of_fmap; by apply (Hne l)).
  destruct (Hoth fd Hfd) as [Hnm Hop]. split; rewrite ?fmap_app; cbn [fmap list_fmap l_path l_fd].
  - destruct Hsl' as [? Hu]. split; [done|]. intros fd' d Hd Hud. destruct (Hu fd' d Hd Hud) as (q & ? & ?). exists q. set_solver.
  - done.
  - congruence.
  - apply NoDup_app. split_and!; [done|set_solver|apply NoDup_singleton].
  - rewrite bind_app. cbn [mbind list_bind l_fd l_path l_mask]. rewrite Hb', Hb, app_nil_r, <-app_assoc. unfold bound_here.
    by rewrite (decide_ext (fd ∈ opened w1) (fd ∈ opened w)).
  - intros l [Hin| ->%list_elem_of_singleton]%elem_of_app.
    + destruct (Hpr l Hin) as (H1 & H2 & H3). split_and!; [done| |by apply Hls, H3; apply Hne]. rewrite Hn, lookup_insert_ne; [done|]. intros ->. by eapply Hne.
    + split_and!; cbn [l_fd l_path l_protocol l_client]; [|by rewrite Hn, lookup_insert_eq|done].
      intros Hin. unfold handed_over in *. rewrite <-Hnm. apply Hh. by apply Hop.
  - intros fd' [Hf1 Hf2]%not_elem_of_app. assert (fd ≠ fd') by set_solver. rewrite Hn, lookup_insert_ne, Ho by done.
    destruct (Hoth fd' Hf1) as [-> ?]. set_solver.
Qed.

(** The four sockets of the service. *)
Definition listeners (c a g e : nat) : list Listener :=
  [mkListener c (clientPath +:+ "cynara.socket") 0 PClient true; mkListener a (clientPath +:+ "cynara-admin.socket") 63 PAdmin false;
   mkListener g (clientPath +:+ "cynara-agent.socket") 0 PAgent false;
   mkListener e (clientPath +:+ "cynara-monitor-get.socket") 0 PMonitorGet false].

Lemma path_new s (l : list string) : s ∉ l → clientPath +:+ s ∉ (λ s, clientPath +:+ s) <$> l.
Proof. intros Hs (s' & Heq%(inj (String.append clientPath)) & Hin)%list_elem_of_fmap. by subst. Qed.

(** C28: The sockets of the service have the intended rights, with and without systemd.  Started
    with paths that are short enough and with few enough open descriptors for an [fd_set],
    [init] either fails with [InitException], and only when the system refuses something, or
    it leaves the mask of the process as it was, and there are four different descriptors, for
    the four paths, on each of which it listens for connections of the right protocol, only
    those of the first counting as clients.  A descriptor that was open before is a socket
    that systemd handed over, bound to this very path already; every other one, and nothing
    else, has been bound by [init], the one of the administrators with mask 077 and the
    others with mask 0. *)
Theorem sockets_protected m (w : W) r w' :
  String.length clientPath < 83 → started 5 w →
  manager_init with_systemd clientPath (SocketManager_new, w) = (r, (m, w')) →
  r = Throw InitException ∧ ¬ granted W ∨
  r = Ret tt ∧ mask_of w' = mask_of w ∧
  ∃ c a g e, NoDup [c; a; g; e] ∧
    bound w' = (bound w ++ (listeners c a g e ≫= λ l, bound_here (l_fd l) (l_path l) (l_mask l) w))%list ∧
    ∀ l, l ∈ listeners c a g e → protected w m w' l.
Proof.
  intros Hp Hst. assert (∀ s, String.length s ≤ 25 → String.length (clientPath +:+ s) < SUN_PATH_SIZE) as Hlen.
  { intros s Hs. rewrite str_length_app. unfold SUN_PATH_SIZE. lia. }
  assert (made 5 w [] SocketManager_new w) as H0.
  { split; [split; [split|]| | |apply NoDup_nil_2| |intros l ?%not_elem_of_nil|]; try done. by rewrite app_nil_r. }
  unfold manager_init.
  rewrite SE_bind_eq. destruct (makeDomainSocket _ PClient _ _ _ _) as [r1 [m1 w1]] eqn:E1.
  eapply made_next in E1 as [(c & -> & H1)|[-> Hg]]; [|intros [= <- <- <-]; by left|exact H0|by apply Hlen; cbn; lia|set_solver].
  rewrite SE_bind_eq. destruct (makeDomainSocket _ PAdmin _ _ _ _) as [r2 [m2 w2]] eqn:E2.
  eapply made_next in E2 as [(a & -> & H2)|[-> Hg]]; [|intros [= <- <- <-]; by left|exact H1|by apply Hlen; cbn; lia|by apply (path_new "cynara-admin.socket" ["cynara.socket"]); set_solver].
  rewrite SE_bind_eq. destruct (makeDomainSocket _ PAgent _ _ _ _) as [r3 [m3 w3]] eqn:E3.
  eapply made_next in E3 as [(g & -> & H3)|[-> Hg]]; [|intros [= <- <- <-]; by left|exact H2|by apply Hlen; cbn; lia|by apply (path_new "cynara-agent.socket" ["cynara.socket"; "cynara-admin.socket"]); set_solver].
  rewrite SE_bind_eq. destruct (makeDomainSocket _ PMonitorGet _ _ _ _) as [r4 [m4 w4]] eqn:E4.
  eapply made_next in E4 as [(e & -> & H4)|[-> Hg]]; [|intros [= <- <- <-]; by left|exact H3|by apply Hlen; cbn; lia|by apply (path_new "cynara-monitor-get.socket" ["cynara.socket"; "cynara-admin.socket"; "cynara-agent.socket"]); set_solver].
  destruct H4 as [Hsl4 Hst4 Hm4 Hnd4 Hb4 Hpr4 _].
  intros E5. apply (makeSignalSocket_spec _ _ _ _ _ _ Hsl4 Hst4) in E5 as (-> & Hm5 & Hn5 & Hb5 & Hk5). right. split_and!; [done|congruence|].
  exists c, a, g, e. split_and!; [exact Hnd4|by rewrite Hb5, Hb4|].
  intros l Hin. destruct (Hpr4 l Hin) as (Hop & Hnm & Hl). split_and!; [done|by rewrite Hn5|].
  apply Hk5; [|done]. apply (st_names _ _ Hst4). by apply elem_of_dom_2 in Hnm.
Qed.
End init.
