(* ===== verification/ClientTheorems.v ===== *)
(** * Theorems on the client's end of a connection

    A client asks over a wire that accepts requests in pieces of any size and delivers the
    response in pieces of any size: it gets the response that was written, and is then
    ready for the next request.  Its read buffer survives a reconnection: bytes of the old
    connection are taken for the answer to the next request. *)
From S2P Require Import Prelude Text Types BinaryQueue Serialization Frame Messages.
From S2P Require Import ProtocolClient ProtocolAdmin ProtocolAgent Protocols SocketClient.

Lemma extractResponse_frame p :
  p ≠ PSignal → extractResponseFromBuffer p = extractFrame (responseSwitch p).
Proof. by destruct p. Qed.

Lemma response_ok_frame p r : response_ok p r → p ≠ PSignal.
Proof. by intros H ->. Qed.

(** ** A wire to the service *)

(** What was sent, and what the coming calls of [read] give. *)
Record Wire := mkWire { w_sent : string; w_reads : list RecvResult }.

Definition wire_poll (event : PollEvent) : SE Wire PollResult :=
  mret (match event with POLLHUP => PollTimeout | _ => PollReady end).
Definition wire_getsockopt : SE Wire (Z + Z) := mret (inl 0%Z).
Definition wire_socket : SE Wire (unit + Z) := mret (inl tt).
Definition wire_connect : SE Wire ConnectResult := mret ConnectOk.
(** [send] takes at most [n] bytes at a time. *)
Definition wire_send (n : nat) (data : string) : SE Wire SendResult := λ w,
  (Ret (Sent (n `min` String.length data)), mkWire (w_sent w +:+ stake n data) (w_reads w)).
Definition wire_recv : SE Wire RecvResult := λ w,
  match w_reads w with
  | [] => (Ret RecvAgain, w)
  | r :: reads => (Ret r, mkWire (w_sent w) reads)
  end.

Abbreviation wire_ask n := (askCynaraServer wire_poll (wire_send n) wire_recv) (only parsing).
Abbreviation reconnect :=
  (SocketClient_connect wire_poll wire_getsockopt wire_socket wire_connect) (only parsing).

(** One wake-up of the client: the pieces that are there, then nothing for now. *)
Definition arrivals (rounds : list (list string)) : list RecvResult :=
  concat (map (λ pieces, map Received pieces ++ [RecvAgain]) rounds).

(** Nothing is waiting to be sent. *)
Definition socket_idle (s : Socket) : Prop :=
  m_sendBufferPos s = m_sendBufferEnd s ∧ queue_ok (m_sendQueue s) ∧ bytes (m_sendQueue s) = "".

(** Between two requests, [s] being the bytes received and not decoded. *)
Definition client_ready (c : SocketClient) (p : ProtocolKind) (s : string) : Prop :=
  m_clientProtocol c = p ∧ socket_idle (m_socket c) ∧ queue_ok (m_clientWriteQueue c) ∧
  bytes (m_clientWriteQueue c) = "" ∧ awaits (m_clientHeader c) s.

(** ** Sending *)

Lemma stake_plus n m s : stake (n + m) s = stake n s +:+ stake m (sdrop n s).
Proof.
  rewrite <-(stake_sdrop n (stake (n + m) s)). by rewrite stake_stake, sdrop_stake by lia.
Qed.

(** A string that starts with [a ++ b] either contains [a] in its first part or cuts it. *)
Lemma app_split (s t a b : string) :
  s +:+ t = a +:+ b →
  (∃ u, s = a +:+ u ∧ u +:+ t = b) ∨ (∃ u, s +:+ u = a ∧ u ≠ "" ∧ t = u +:+ b).
Proof.
  intros H. destruct (decide (String.length a ≤ String.length s)) as [Hle|Hgt].
  - left. exists (sdrop (String.length a) s).
    assert (s = a +:+ sdrop (String.length a) s) as Hs.
    { rewrite <-(stake_sdrop (String.length a) s) at 1. f_equal.
      apply (f_equal (stake (String.length a))) in H. by rewrite stake_app_le, stake_app in H. }
    split; [done|]. rewrite Hs, str_app_assoc in H. by apply str_app_inj_length in H as [_ ?].
  - right. exists (sdrop (String.length s) a).
    assert (s +:+ sdrop (String.length s) a = a) as Ha.
    { rewrite <-(stake_sdrop (String.length s) a) at 2. f_equal.
      apply (f_equal (stake (String.length s))) in H. by rewrite stake_app, stake_app_le in H by lia. }
    split; [done|]. split.
    + intros Hd. apply (f_equal String.length) in Hd. rewrite str_length_sdrop in Hd. cbn in Hd. lia.
    + rewrite <-Ha, str_app_assoc in H. by apply str_app_inj_length in H as [_ ?].
Qed.

(** ** A system that transports bytes *)

(** Sending: from a state that is [good], [send] takes at most [n] bytes, and what it takes is
    [push]ed. *)
Record sends_in_pieces {W : Type} (sys_poll : PollEvent → SE W PollResult) (sys_send : string → SE W SendResult)
    (good : W → Prop) (push : string → W → W) (n : nat) : Prop := {
  sends_some : 0 < n;
  sends_poll w : good w → sys_poll POLLOUT w = (Ret PollReady, w);
  sends_push data w : good w → sys_send data w = (Ret (Sent (n `min` String.length data)), push (stake n data) w);
  push_good s w : good w → good (push s w);
  push_nil w : push "" w = w;
  push_app s t w : push t (push s w) = push (s +:+ t) w;
}.
Arguments sends_some {W sys_poll sys_send good push n} _.
Arguments sends_poll {W sys_poll sys_send good push n} _ w _.
Arguments sends_push {W sys_poll sys_send good push n} _ data w _.
Arguments push_good {W sys_poll sys_send good push n} _ s w _.
Arguments push_nil {W sys_poll sys_send good push n} _ w.
Arguments push_app {W sys_poll sys_send good push n} _ s t w.

(** Receiving: the results of the coming calls of [recv]. *)
Inductive delivers {W : Type} (sys_recv : SE W RecvResult) : W → list RecvResult → W → Prop :=
| delivers_nil w : delivers sys_recv w [] w
| delivers_cons w r w1 l w2 : sys_recv w = (Ret r, w1) → delivers sys_recv w1 l w2 → delivers sys_recv w (r :: l) w2.

Lemma delivers_app {W} (sys_recv : SE W RecvResult) w l1 l2 w2 :
  delivers sys_recv w (l1 ++ l2) w2 ↔ ∃ w1, delivers sys_recv w l1 w1 ∧ delivers sys_recv w1 l2 w2.
Proof.
  split.
  - revert w. induction l1 as [|r l1 IH]; intros w H; [exists w; split; [constructor|done]|].
    inversion_clear H as [|? ? w1 ? ? Hr Hl]. destruct (IH w1 Hl) as (w3 & H1 & H2). exists w3. split; [|done]. by econstructor.
  - intros (w1 & H1 & H2). induction H1 as [|? ? ? ? ? Hr _ IH]; [done|]. econstructor; [done|]. by apply IH.
Qed.

Lemma delivers_unique {W} (sys_recv : SE W RecvResult) w l w1 w2 :
  delivers sys_recv w l w1 → delivers sys_recv w l w2 → w1 = w2.
Proof.
  induction 1 as [|? ? ? ? ? Hr _ IH]; intros H2; inversion_clear H2 as [|? ? ? ? ? Hr' H2']; [done|].
  rewrite Hr in Hr'. injection Hr' as ->. by apply IH.
Qed.

Section transport.
Context {W : Type} (sys_poll : PollEvent → SE W PollResult) (sys_send : string → SE W SendResult) (sys_recv : SE W RecvResult).
Context (good : W → Prop) (push : string → W → W) (n : nat).
Context (L : sends_in_pieces sys_poll sys_send good push n).

Lemma sendBuffer_pushes fuel s w :
  good w → m_sendBufferPos s ≤ m_sendBufferEnd s → m_sendBufferEnd s ≤ String.length (m_sendBuffer s) →
  m_sendBufferEnd s - m_sendBufferPos s < fuel →
  sendBuffer sys_poll sys_send fuel (s, w) =
    (Ret ALL_DATA_SENT,
     (setSendBuffer (m_sendBuffer s) (m_sendBufferEnd s) (m_sendBufferEnd s) s,
      push (substr (m_sendBufferPos s) (m_sendBufferEnd s - m_sendBufferPos s) (m_sendBuffer s)) w)).
Proof.
  revert s w. induction fuel as [|fuel IH]; intros s w Hg Hle Hlen Hf; [lia|]. cbn [sendBuffer].
  pose proof (sends_some L) as Hn. rewrite SE_bind_eq. unfold socket_, gets. cbn [fst].
  destruct (Nat.eqb_spec (m_sendBufferEnd s) (m_sendBufferPos s)) as [He|Hne].
  - rewrite He, Nat.sub_diag. unfold substr. cbn [stake]. rewrite (push_nil L), <-He. destruct s. cbn in *. by rewrite He.
  - set (todo := m_sendBufferEnd s - m_sendBufferPos s) in *.
    set (data := substr (m_sendBufferPos s) todo (m_sendBuffer s)).
    assert (String.length data = todo) as Hd.
    { unfold data, substr. rewrite str_length_stake, str_length_sdrop. lia. }
    rewrite SE_bind_eq. unfold waitForSocket. rewrite SE_bind_eq. unfold system at 1. rewrite (sends_poll L w Hg). cbn [negb mret SE_ret].
    fold todo. fold data. rewrite SE_bind_eq. unfold system. rewrite (sends_push L data w Hg), Hd.
    rewrite SE_bind_eq. unfold onSocket, modify.
    rewrite IH; cbn [setSendBuffer m_sendBufferPos m_sendBufferEnd m_sendBuffer]; [|by apply (push_good L)|lia..].
    rewrite (push_app L). do 3 f_equal. unfold data, substr.
    destruct (decide (n ≤ todo)) as [Hnt|Hnt].
    + rewrite Nat.min_l by done. rewrite stake_stake by done.
      replace todo with (n + (m_sendBufferEnd s - (m_sendBufferPos s + n))) by lia.
      by rewrite <-sdrop_sdrop, stake_plus.
    + rewrite Nat.min_r by lia. rewrite stake_ge by (rewrite str_length_stake; lia).
      replace (m_sendBufferEnd s - (m_sendBufferPos s + todo)) with 0 by lia. cbn [stake]. by rewrite str_app_nil_r.
Qed.

Lemma flattenSendQueue_loads s (w : W) :
  queue_ok (m_sendQueue s) →
  ∃ q, flattenSendQueue (s, w) = (Ret tt,
         (setSendQueue q (setSendBuffer (bytes (m_sendQueue s) +:+
            sdrop (String.length (bytes (m_sendQueue s))) (m_sendBuffer s))
            (m_sendBufferPos s) (m_sendBufferEnd s) s), w)) ∧ queue_ok q ∧ bytes q = "".
Proof.
  intros Hok. destruct (flattenConsume_ok (queue_size (m_sendQueue s)) _ Hok) as (q & Hq & Hokq & Hb).
  { unfold queue_size. by rewrite (proj2 Hok). }
  exists q. unfold flattenSendQueue. rewrite Hq. unfold queue_size in *.
  rewrite (proj2 Hok), stake_all. rewrite (proj2 Hok), sdrop_all in Hb. done.
Qed.

(** An idle socket sends the whole queue and is idle again. *)
Lemma sendToServer_pushes fuel s w queue :
  good w → socket_idle s → queue_ok queue → String.length (bytes queue) < fuel →
  ∃ s', sendToServer sys_poll sys_send fuel queue (s, w) = (Ret ALL_DATA_SENT, (s', push (bytes queue) w)) ∧ socket_idle s' ∧
    m_open s' = m_open s ∧ m_connectionInProgress s' = m_connectionInProgress s.
Proof.
  intros Hg (Hpos & Hokq & Hbq) Hqueue Hf. unfold sendToServer.
  rewrite SE_bind_eq. unfold onSocket at 1, modify.
  destruct (appendMoveFrom_ok (m_sendQueue s) queue Hokq Hqueue) as (Hok1 & Hb1 & _).
  rewrite Hbq, str_app_nil_l in Hb1. set (q1 := (appendMoveFrom (m_sendQueue s) queue).1) in *.
  rewrite SE_bind_eq. assert (sendBuffer sys_poll sys_send fuel (setSendQueue q1 s, w) =
    (Ret ALL_DATA_SENT, (setSendQueue q1 s, w))) as ->.
  { destruct fuel; [lia|]. cbn [sendBuffer]. rewrite SE_bind_eq. unfold socket_, gets. cbn. by rewrite Hpos, Nat.eqb_refl. }
  rewrite bool_decide_eq_true_2 by done. cbn [negb].
  unfold loadSendBuffer. rewrite SE_bind_eq, SE_bind_eq. unfold onSocket, modify.
  cbn [setSendQueue m_sendBuffer m_sendQueue].
  destruct (flattenSendQueue_loads (setSendBuffer (m_sendBuffer s) 0 (queue_size q1) (setSendQueue q1 s)) w)
    as (q2 & H2 & Hok2 & Hb2); [done|].
  unfold setSendBuffer, setSendQueue in H2 |- *. cbn [m_open m_connectionInProgress m_sendBuffer m_sendBufferPos m_sendBufferEnd m_sendQueue] in H2 |- *.
  rewrite H2, sendBuffer_pushes; cbn [m_sendBufferPos m_sendBufferEnd m_sendBuffer]; unfold queue_size;
    rewrite ?(proj2 Hok1), ?Hb1, ?str_length_app; [|done|lia..].
  unfold substr. rewrite sdrop_0, Nat.sub_0_r, stake_app.
  eexists. split; [done|by split_and!].
Qed.

(** The request is written and sent. *)
Lemma sendRequest_pushes fuel c w p s request :
  good w → client_ready c p s → request_ok p request → String.length (request_frame p request) < fuel →
  ∃ c', sendRequest sys_poll sys_send fuel request (c, w) = (Ret ALL_DATA_SENT, (c', push (request_frame p request) w)) ∧
    client_ready c' p s ∧ m_open (m_socket c') = m_open (m_socket c) ∧
    m_connectionInProgress (m_socket c') = m_connectionInProgress (m_socket c).
Proof.
  intros Hg (Hp & Hidle & Hokw & Hbw & Haw) Hreq Hf. unfold sendRequest.
  rewrite SE_bind_eq. unfold client_, gets. cbn [fst]. rewrite Hp.
  destruct (message_written (ProtocolLaws:=request_laws p) request (m_clientWriteQueue c) Hreq Hokw)
    as (data & Hd & Hokd & Hbd). rewrite Hbw, str_app_nil_l in Hbd.
  rewrite SE_bind_eq. unfold withWriteQueue at 1. rewrite Hd. rewrite SE_bind_eq.
  unfold withWriteQueue. cbn [m_clientWriteQueue]. unfold withSocket. cbn [m_socket m_clientProtocol m_clientHeader m_clientWriteQueue].
  unfold request_frame in *. rewrite <-Hbd in Hf. destruct (sendToServer_pushes fuel (m_socket c) w data Hg Hidle Hokd Hf) as (s' & Hs & Hidle' & ? & ?).
  rewrite Hs, Hbd. eexists. split; [done|]. split; [by split_and!|done].
Qed.

(** The client with another header. *)
Definition withHeaderOf (c : SocketClient) (h : ProtocolFrameHeader) : SocketClient :=
  mkSocketClient (m_socket c) (m_clientProtocol c) h (m_clientWriteQueue c).

Lemma client_ready_header c p s h s' : client_ready c p s → awaits h s' → client_ready (withHeaderOf c h) p s'.
Proof. intros (? & ? & ? & ? & _) Haw. by split_and!. Qed.

Lemma awaits_grow h s t q :
  awaits h s → queue_ok q → bytes q = bytes (m_frameHeaderContent h) +:+ t →
  awaits (setHeaderContent q h) (s +:+ t).
Proof.
  intros (Hok & Hbc & Haw) Hq Hb. split; [done|]. split; [done|]. cbn. destruct (m_headerComplete h).
  - destruct Haw as (? & ? & ->). rewrite Hb. by rewrite <-str_app_assoc.
  - by rewrite Haw, Hb.
Qed.

(** The pieces that are there are read, up to the end of the connection or of the data. *)
Lemma receiveLoop_delivers fuel q (s : Socket) w pieces (more : bool) w' :
  queue_ok q → delivers sys_recv w (map Received pieces ++ [if more then RecvAgain else RecvEof]) w' → length pieces < fuel →
  ∃ q', receiveLoop sys_recv fuel (q, (s, w)) = (Ret more, (q', (s, w'))) ∧ queue_ok q' ∧ bytes q' = bytes q +:+ fields pieces.
Proof.
  revert fuel q w. induction pieces as [|piece pieces IH]; intros [|fuel] q w Hok Hw Hf; cbn [length] in Hf; try lia;
    cbn [receiveLoop]; rewrite SE_bind_eq; unfold ofSocket, system; cbn [map app] in Hw;
    inversion_clear Hw as [|? ? w1 ? ? Hr Hw1]; rewrite Hr.
  - inversion_clear Hw1. exists q. unfold fields. cbn [foldr]. rewrite str_app_nil_r. by destruct more.
  - destruct (appendUnmanaged_ok piece q Hok) as (q1 & H1 & Hok1 & Hb1). rewrite SE_bind_eq.
    unfold ofQueue, appendCopy. rewrite H1. destruct (IH fuel q1 w1 Hok1 Hw1) as (q2 & H2 & Hok2 & Hb2); [lia|].
    exists q2. split; [exact H2|]. split; [done|]. rewrite Hb2, Hb1, str_app_assoc. done.
Qed.

Context (Hin : ∀ w, sys_poll POLLIN w = (Ret PollReady, w)).

Lemma receive_delivers fuel c w p s pieces (more : bool) w' :
  client_ready c p s → delivers sys_recv w (map Received pieces ++ [if more then RecvAgain else RecvEof]) w' → length pieces < fuel →
  ∃ h, receiveIntoReadQueue sys_poll sys_recv fuel (c, w) = (Ret more, (withHeaderOf c h, w')) ∧ awaits h (s +:+ fields pieces).
Proof.
  intros (_ & _ & _ & _ & Haw) Hw Hf. unfold receiveIntoReadQueue, receiveFromServer. rewrite SE_bind_eq.
  assert (∀ q sk, ofSocket (waitForSocket sys_poll POLLIN) (q, (sk, w)) = (Ret true, (q, (sk, w)))) as ->.
  { intros q sk. unfold ofSocket, waitForSocket. rewrite SE_bind_eq. unfold system. by rewrite Hin. }
  cbn [negb]. destruct (receiveLoop_delivers fuel _ (m_socket c) w pieces more w' (proj1 Haw) Hw Hf) as (q & Hq & Hokq & Hbq).
  rewrite Hq. eexists. split; [done|]. by apply awaits_grow.
Qed.

Lemma receiveStep_delivers fuel c w p s pieces w' r s' :
  client_ready c p s → delivers sys_recv w (map Received pieces ++ [RecvAgain]) w' → length pieces < fuel →
  (∀ h, awaits h (s +:+ fields pieces) → ∃ h', extractResponseFromBuffer p h = (Ret r, h') ∧ awaits h' s') →
  ∃ h, receiveStep sys_poll sys_recv fuel (c, w) = (Ret (Some r), (withHeaderOf c h, w')) ∧ awaits h s'.
Proof.
  intros Hc Hw Hf Hex. destruct (receive_delivers fuel c w p s pieces true w' Hc Hw Hf) as (h & Hq & Haw).
  destruct (Hex _ Haw) as (h1 & H1 & Haw1).
  unfold receiveStep. rewrite SE_bind_eq, Hq. cbn [negb]. rewrite SE_bind_eq. unfold client_, gets. cbn [fst].
  rewrite SE_bind_eq. unfold withHeader, withHeaderOf. cbn [m_clientHeader m_clientProtocol].
  rewrite (proj1 Hc), H1. exists h1. split; [by rewrite <-(proj1 Hc)|done].
Qed.

Lemma arrivals_cons pieces rounds : arrivals (pieces :: rounds) = (map Received pieces ++ [RecvAgain]) ++ arrivals rounds.
Proof. done. Qed.

(** The bytes waiting and arriving start with a response: it is what the client gets. *)
Lemma awaitResponse_delivers p r later rounds k fuel c w s w' :
  response_ok p r → client_ready c p s → rounds ≠ [] →
  s +:+ fields (concat rounds) = response_frame p r +:+ later →
  delivers sys_recv w (arrivals rounds) w' → Forall (λ pieces, length pieces < fuel) rounds → length rounds ≤ k →
  ∃ h w1 used rounds' s', awaitResponse sys_poll sys_recv k fuel (c, w) = (Ret (Some r), (withHeaderOf c h, w1)) ∧
    awaits h s' ∧ s' +:+ fields (concat rounds') = later ∧ used ≠ [] ∧ rounds = used ++ rounds' ∧
    delivers sys_recv w (arrivals used) w1 ∧ delivers sys_recv w1 (arrivals rounds') w'.
Proof.
  intros Hr. revert k c w s. induction rounds as [|pieces rounds IH]; intros k c w s Hc Hne Hs Hw Hf Hn; [done|].
  destruct k as [|k]; cbn [length] in Hn; [lia|]. cbn [awaitResponse].
  apply Forall_cons in Hf as [Hp Hf].
  assert (fields (concat (pieces :: rounds)) = fields pieces +:+ fields (concat rounds)) as Hcat by (cbn [concat]; apply fields_app).
  rewrite Hcat, <-str_app_assoc in Hs. rewrite arrivals_cons in Hw. apply delivers_app in Hw as (w1 & Hw1 & Hw2).
  pose proof (message_fits (ProtocolLaws:=response_laws p) r Hr) as [Hfit Hseq].
  pose proof (message_decoded (ProtocolLaws:=response_laws p) r Hr) as Hdec.
  pose proof (response_ok_frame p r Hr) as Hsig.
  destruct (app_split _ _ _ _ Hs) as [(u & Hu & Hlater)|(u & Hu & Hne' & Hrest)].
  - destruct (receiveStep_delivers fuel c w p s pieces w1 (Some r) u Hc Hw1 Hp) as (h & H1 & Hh).
    { intros h Haw. rewrite extractResponse_frame by done. rewrite Hu in Haw.
      by apply (extractFrame_complete _ h _ _ r u Hseq Hfit Haw). }
    rewrite SE_bind_eq, H1. exists h, w1, [pieces], rounds, u. split; [done|]. split_and!; try done. by rewrite arrivals_cons, app_nil_r.
  - destruct (receiveStep_delivers fuel c w p s pieces w1 None (s +:+ fields pieces) Hc Hw1 Hp) as (h & H1 & Hh).
    { intros h Haw. rewrite extractResponse_frame by done.
      by apply (extractFrame_partial _ h _ _ (response_body p r) u Hseq Hfit Haw). }
    rewrite SE_bind_eq, H1. pose proof (client_ready_header c p s h _ Hc Hh) as Hc'.
    destruct (IH k _ w1 _ Hc') as (h2 & w2 & used & rounds' & s' & H2 & Hh2 & Hl & _ & -> & Hd1 & Hd2); [| |done|done|lia|].
    + intros ->. cbn in Hrest. by destruct u.
    + by rewrite Hrest, <-Hu, !str_app_assoc.
    + exists h2, w2, (pieces :: used), rounds', s'. split; [exact H2|]. split_and!; try done.
      rewrite arrivals_cons. apply delivers_app. by exists w1.
Qed.

Lemma ask_delivers p request rounds r later fuel k c w s w' :
  good w → request_ok p request → response_ok p r → client_ready c p s → rounds ≠ [] →
  s +:+ fields (concat rounds) = response_frame p r +:+ later →
  delivers sys_recv (push (request_frame p request) w) (arrivals rounds) w' →
  Forall (λ pieces, length pieces < fuel) rounds → length rounds ≤ k → String.length (request_frame p request) < fuel →
  ∃ c' w1 used rounds' s', askCynaraServer sys_poll sys_send sys_recv k fuel request (c, w) = (Ret (Some r), (c', w1)) ∧
    client_ready c' p s' ∧ m_open (m_socket c') = m_open (m_socket c) ∧
    m_connectionInProgress (m_socket c') = m_connectionInProgress (m_socket c) ∧
    s' +:+ fields (concat rounds') = later ∧ used ≠ [] ∧ rounds = used ++ rounds' ∧
    delivers sys_recv (push (request_frame p request) w) (arrivals used) w1 ∧ delivers sys_recv w1 (arrivals rounds') w'.
Proof.
  intros Hg Hreq Hr Hc Hne Hs Hw Hp Hk Hf. unfold askCynaraServer.
  destruct (sendRequest_pushes fuel c w p s request Hg Hc Hreq Hf) as (c1 & H1 & Hc1 & Ho & Hi).
  rewrite SE_bind_eq, H1, bool_decide_eq_false_2 by done.
  destruct (awaitResponse_delivers p r later rounds k fuel c1 _ s w' Hr Hc1 Hne Hs Hw Hp Hk)
    as (h & w1 & used & rounds' & s' & H2 & Hh & ?). exists (withHeaderOf c1 h), w1, used, rounds', s'.
  split; [exact H2|]. split; [by apply (client_ready_header c1 p s)|done].
Qed.
End transport.

(** ** The wire *)

Lemma wire_sends n : 0 < n → sends_in_pieces wire_poll (wire_send n) (λ _, True) (λ s w, mkWire (w_sent w +:+ s) (w_reads w)) n.
Proof.
  intros Hn. split; try done.
  - intros [? ?]. cbn. by rewrite str_app_nil_r.
  - intros s t [? ?]. cbn. by rewrite str_app_assoc.
Qed.

Lemma wire_delivers w l rest : w_reads w = l ++ rest → delivers wire_recv w l (mkWire (w_sent w) rest).
Proof.
  revert w. induction l as [|r l IH]; intros [sent reads] Hw; cbn in Hw; rewrite Hw; [constructor|].
  econstructor; [reflexivity|]. exact (IH (mkWire sent (l ++ rest)) eq_refl).
Qed.

Lemma sendToServer_sends n fuel s w queue :
  0 < n → socket_idle s → queue_ok queue → String.length (bytes queue) < fuel →
  ∃ s', sendToServer wire_poll (wire_send n) fuel queue (s, w) =
      (Ret ALL_DATA_SENT, (s', mkWire (w_sent w +:+ bytes queue) (w_reads w))) ∧ socket_idle s' ∧
    m_open s' = m_open s ∧ m_connectionInProgress s' = m_connectionInProgress s.
Proof. intros Hn. by apply (sendToServer_pushes _ _ _ _ _ (wire_sends n Hn)). Qed.

Lemma sendRequest_sends n fuel c w p s request :
  0 < n → client_ready c p s → request_ok p request →
  String.length (frame_bytes (request_sequenceNumber request) (request_body p request)) < fuel →
  ∃ c', sendRequest wire_poll (wire_send n) fuel request (c, w) =
      (Ret ALL_DATA_SENT, (c', mkWire (w_sent w +:+
         frame_bytes (request_sequenceNumber request) (request_body p request)) (w_reads w))) ∧
    client_ready c' p s.
Proof.
  intros Hn Hc Hreq Hf. destruct (sendRequest_pushes _ _ _ _ _ (wire_sends n Hn) fuel c w p s request I Hc Hreq Hf) as (c' & ? & ? & _).
  by exists c'.
Qed.

Abbreviation wire_step := (receiveStep wire_poll wire_recv) (only parsing).

Lemma receive_reads fuel c w p s pieces (more : bool) rest :
  client_ready c p s → w_reads w = map Received pieces ++ (if more then RecvAgain else RecvEof) :: rest →
  length pieces < fuel →
  ∃ h, receiveIntoReadQueue wire_poll wire_recv fuel (c, w) = (Ret more, (withHeaderOf c h, mkWire (w_sent w) rest)) ∧
    awaits h (s +:+ fields pieces).
Proof.
  intros Hc Hw. apply (receive_delivers wire_poll wire_recv ltac:(done) fuel c w p); [done|]. apply wire_delivers. by rewrite Hw, <-app_assoc.
Qed.

(** A connection that ends: no response, but what was received stays. *)
Lemma receiveStep_eof fuel c w p s pieces rest :
  client_ready c p s → w_reads w = map Received pieces ++ RecvEof :: rest → length pieces < fuel →
  ∃ c', wire_step fuel (c, w) = (Ret None, (c', mkWire (w_sent w) rest)) ∧
    client_ready c' p (s +:+ fields pieces).
Proof.
  intros Hc Hw Hf. destruct (receive_reads fuel c w p s pieces false rest Hc Hw Hf) as (h & Hq & Haw).
  unfold receiveStep. rewrite SE_bind_eq, Hq. eexists. split; [done|]. by apply (client_ready_header c p s).
Qed.

(** On the wire, the results that were used are gone. *)
Lemma wire_used w used rounds' rest w1 :
  w_reads w = arrivals (used ++ rounds') ++ rest → delivers wire_recv w (arrivals used) w1 →
  w1 = mkWire (w_sent w) (arrivals rounds' ++ rest).
Proof.
  intros Hw Hd. apply (delivers_unique _ _ _ _ _ Hd), wire_delivers. rewrite Hw. unfold arrivals. by rewrite map_app, concat_app, <-app_assoc.
Qed.

Lemma awaitResponse_gets p r later rounds n fuel c w s rest :
  response_ok p r → client_ready c p s → rounds ≠ [] →
  s +:+ fields (concat rounds) = response_frame p r +:+ later →
  w_reads w = arrivals rounds ++ rest → Forall (λ pieces, length pieces < fuel) rounds → length rounds ≤ n →
  ∃ c' rounds' s', awaitResponse wire_poll wire_recv n fuel (c, w) =
      (Ret (Some r), (c', mkWire (w_sent w) (arrivals rounds' ++ rest))) ∧
    client_ready c' p s' ∧ s' +:+ fields (concat rounds') = later ∧ (∃ used, used ≠ [] ∧ rounds = used ++ rounds').
Proof.
  intros Hr Hc Hne Hs Hw Hp Hn.
  destruct (awaitResponse_delivers wire_poll wire_recv ltac:(done) p r later rounds n fuel c w s _ Hr Hc Hne Hs
    (wire_delivers w _ rest Hw) Hp Hn) as (h & w1 & used & rounds' & s' & H1 & Hh & Hl & Hu & -> & Hd & _).
  rewrite (wire_used w used rounds' rest w1 Hw Hd) in H1. exists (withHeaderOf c h), rounds', s'. split; [exact H1|].
  split; [by apply (client_ready_header c p s)|]. split; [done|]. by exists used.
Qed.

Lemma awaits_nil h s : awaits h s → s = "" → awaits h "".
Proof. by intros H ->. Qed.

Lemma client_ready_nil c p s : client_ready c p s → s = "" → client_ready c p "".
Proof. by intros H ->. Qed.

(** What a protocol writes into an empty queue. *)
Lemma executeRequest_bytes p request data :
  request_ok p request → protocol_executeRequest p request BinaryQueue_new = (Ret tt, data) →
  bytes data = frame_bytes (request_sequenceNumber request) (request_body p request).
Proof.
  intros Hreq Hd. destruct (message_written (ProtocolLaws:=request_laws p) request _ Hreq (proj1 queue_ok_new))
    as (d & Hd' & _ & Hb). rewrite Hd in Hd'. by injection Hd' as <-.
Qed.
Lemma executeResponse_bytes p response data :
  response_ok p response → protocol_executeResponse p response BinaryQueue_new = (Ret tt, data) →
  bytes data = response_frame p response.
Proof.
  intros Hreq Hd. destruct (message_written (ProtocolLaws:=response_laws p) response _ Hreq (proj1 queue_ok_new))
    as (d & Hd' & _ & Hb). rewrite Hd in Hd'. by injection Hd' as <-.
Qed.

Lemma askCynaraServer_gets p request n rounds r later fuel k c w s rest :
  0 < n → request_ok p request → response_ok p r → client_ready c p s → rounds ≠ [] →
  s +:+ fields (concat rounds) = response_frame p r +:+ later →
  w_reads w = arrivals rounds ++ rest → Forall (λ pieces, length pieces < fuel) rounds → length rounds ≤ k →
  String.length (frame_bytes (request_sequenceNumber request) (request_body p request)) < fuel →
  ∃ c' rounds' s', wire_ask n k fuel request (c, w) =
      (Ret (Some r), (c', mkWire (w_sent w +:+ frame_bytes (request_sequenceNumber request) (request_body p request))
                            (arrivals rounds' ++ rest))) ∧
    client_ready c' p s' ∧ s' +:+ fields (concat rounds') = later ∧ (∃ used, used ≠ [] ∧ rounds = used ++ rounds').
Proof.
  intros Hn Hreq Hr Hc Hne Hs Hw Hp Hk Hf.
  destruct (ask_delivers wire_poll (wire_send n) wire_recv _ _ _ (wire_sends n Hn) ltac:(done) p request rounds r later fuel k c w s
    _ I Hreq Hr Hc Hne Hs (wire_delivers (mkWire (w_sent w +:+ request_frame p request) (w_reads w)) _ rest Hw) Hp Hk Hf)
    as (c' & w1 & used & rounds' & s' & H1 & Hc' & _ & _ & Hl & Hu & -> & Hd & _).
  rewrite (wire_used (mkWire _ (w_reads w)) used rounds' rest w1 Hw Hd) in H1. exists c', rounds', s'. split; [exact H1|]. split; [done|]. split; [done|]. by exists used.
Qed.

(** The response arrives, then the connection ends before the client has looked. *)
Lemma askCynaraServer_eof p request n pieces fuel k c w s rest :
  0 < n → 0 < k → request_ok p request → client_ready c p s →
  w_reads w = map Received pieces ++ RecvEof :: rest → length pieces < fuel →
  String.length (frame_bytes (request_sequenceNumber request) (request_body p request)) < fuel →
  ∃ c', wire_ask n k fuel request (c, w) =
      (Ret None, (c', mkWire (w_sent w +:+ frame_bytes (request_sequenceNumber request) (request_body p request)) rest)) ∧
    client_ready c' p (s +:+ fields pieces).
Proof.
  intros Hn Hk Hreq Hc Hw Hp Hf. unfold askCynaraServer.
  destruct (sendRequest_sends n fuel c w p s request Hn Hc Hreq Hf) as (c1 & H1 & Hc1).
  rewrite SE_bind_eq, H1, bool_decide_eq_false_2 by done.
  set (w1 := mkWire _ (w_reads w)).
  destruct (receiveStep_eof fuel c1 w1 p s pieces rest Hc1 Hw Hp) as (c2 & H2 & Hc2).
  destruct k as [|k]; [lia|]. cbn [awaitResponse]. rewrite SE_bind_eq, H2. by exists c2.
Qed.

(** Connecting starts with an idle socket; the read buffer is the one of before. *)
Lemma reconnect_opens c (w : Wire) p s :
  client_ready c p s → ∃ c', reconnect (c, w) = (Ret true, (c', w)) ∧ client_ready c' p s ∧ m_open (m_socket c') = true.
Proof.
  intros (Hp & _ & Hok & Hb & Haw). destruct c as [sk cp h wq]. unfold SocketClient_connect, Socket_connect.
  destruct sk as [op [] sb pos end_ sq];
    (eexists; split; [vm_compute; reflexivity|]; split; [split_and!; try done; split; done|done]).
Qed.

Lemma reconnect_keeps c (w : Wire) p s :
  client_ready c p s → ∃ c', reconnect (c, w) = (Ret true, (c', w)) ∧ client_ready c' p s.
Proof. intros Hc. destruct (reconnect_opens c w p s Hc) as (c' & ? & ? & _). by exists c'. Qed.

(** Asking does not close the socket. *)
Lemma wire_ask_open n k fuel request : keeps (λ cw : SocketClient * Wire, m_open (m_socket cw.1) = true) (wire_ask n k fuel request).
Proof.
  assert (∀ {A} (m : SE (Socket * Wire) A), keeps (λ sw, m_open sw.1 = true) m →
    keeps (λ cw : SocketClient * Wire, m_open (m_socket cw.1) = true) (withSocket m)) as Hsocket.
  { intros A m Hm [c w] Hc. unfold withSocket. specialize (Hm (m_socket c, w) Hc). by destruct (m _) as [r [s w']]. }
  assert (∀ {A} (m : Reader A), keeps (λ cw : SocketClient * Wire, m_open (m_socket cw.1) = true) (withHeader m)) as Hheader.
  { intros A m [c w] Hc. unfold withHeader. by destruct (m _). }
  assert (∀ {A} (m : SE BinaryQueue A), keeps (λ cw : SocketClient * Wire, m_open (m_socket cw.1) = true) (withWriteQueue m)) as Hqueue.
  { intros A m [c w] Hc. unfold withWriteQueue. by destruct (m _). }
  assert (∀ {A} (m : SE Wire A), keeps (λ sw : Socket * Wire, m_open sw.1 = true) (system m)) as Hsystem.
  { intros A m [s w] Hc. unfold system. by destruct (m _). }
  assert (∀ f, (∀ s, m_open (f s) = m_open s) → keeps (λ sw : Socket * Wire, m_open sw.1 = true) (onSocket f)) as Hon.
  { intros f Hf. apply keeps_modify. intros [s w] Hs. cbn. by rewrite Hf. }
  assert (∀ e, keeps (λ sw : Socket * Wire, m_open sw.1 = true) (waitForSocket wire_poll e)) as Hwait.
  { intros e. unfold waitForSocket. keep. }
  assert (∀ fl, keeps (λ sw : Socket * Wire, m_open sw.1 = true) (sendBuffer wire_poll (wire_send n) fl)) as Hsend.
  { intros fl. induction fl as [|fl IH]; cbn [sendBuffer]; [apply keeps_fuel|]. unfold socket_. keep. }
  assert (∀ {A} (m : SE (Socket * Wire) A), keeps (λ sw, m_open sw.1 = true) m →
    keeps (λ qsw : BinaryQueue * (Socket * Wire), m_open qsw.2.1 = true) (ofSocket m)) as HofSocket.
  { intros A m Hm [q sw] Hc. unfold ofSocket. specialize (Hm sw Hc). by destruct (m sw). }
  assert (∀ {A} (m : SE BinaryQueue A), keeps (λ qsw : BinaryQueue * (Socket * Wire), m_open qsw.2.1 = true) (ofQueue m)) as HofQueue.
  { intros A m [q sw] Hc. unfold ofQueue. by destruct (m q). }
  assert (∀ fl, keeps (λ qsw : BinaryQueue * (Socket * Wire), m_open qsw.2.1 = true) (receiveLoop wire_recv fl)) as Hrecv.
  { intros fl. induction fl as [|fl IH]; cbn [receiveLoop]; [apply keeps_fuel|]. keep. }
  assert (∀ fl, keeps (λ cw : SocketClient * Wire, m_open (m_socket cw.1) = true) (receiveIntoReadQueue wire_poll wire_recv fl)) as Hinto.
  { intros fl [c w] Hc. unfold receiveIntoReadQueue.
    assert (keeps (λ qsw : BinaryQueue * (Socket * Wire), m_open qsw.2.1 = true) (receiveFromServer wire_poll wire_recv fl)) as Hf.
    { unfold receiveFromServer. keep. }
    specialize (Hf (m_frameHeaderContent (m_clientHeader c), (m_socket c, w)) Hc). by destruct (receiveFromServer _ _ _ _) as [r [q [s w']]]. }
  assert (keeps (λ sw : Socket * Wire, m_open sw.1 = true) flattenSendQueue) as Hflat.
  { intros [s w] Hs. unfold flattenSendQueue. by destruct (flattenConsume _ _) as [[] ?]. }
  unfold askCynaraServer, sendRequest, sendToServer, loadSendBuffer, client_. keep; try by apply Hsocket; keep; apply Hon.
  induction k as [|k IH]; cbn [awaitResponse]; [apply keeps_fuel|].
  unfold receiveStep, client_. keep.
Qed.

(** ** The properties *)

(** C16: Responses are delivered: a client between two requests sends exactly the bytes
    its protocol writes for the request, however little each [send] accepts, and gets the
    response whose bytes the service wrote, in whatever pieces and wake-ups they arrive; it
    is then between two requests again. *)
Theorem responses_delivered p request r n rounds fuel k c w reqdata data :
  0 < n → request_ok p request → response_ok p r → client_ready c p "" →
  protocol_executeRequest p request BinaryQueue_new = (Ret tt, reqdata) →
  protocol_executeResponse p r BinaryQueue_new = (Ret tt, data) →
  fields (concat rounds) = bytes data → w_reads w = arrivals rounds →
  Forall (λ pieces, length pieces < fuel) rounds → length rounds ≤ k → String.length (bytes reqdata) < fuel →
  ∃ c' rounds', wire_ask n k fuel request (c, w) =
      (Ret (Some r), (c', mkWire (w_sent w +:+ bytes reqdata) (arrivals rounds'))) ∧
    client_ready c' p "" ∧ fields (concat rounds') = "".
Proof.
  intros Hn Hreq Hr Hc Hrd Hd Hs Hw Hp Hk Hf.
  pose proof (executeRequest_bytes p request reqdata Hreq Hrd) as Eq.
  pose proof (executeResponse_bytes p r data Hr Hd) as Er. rewrite Eq in Hf |- *. rewrite Er in Hs.
  destruct (askCynaraServer_gets p request n rounds r "" fuel k c w "" [] Hn Hreq Hr Hc)
    as (c' & rounds' & s' & H1 & Hc' & Hl & _); try done.
  - intros ->. by apply (f_equal String.length) in Hs.
  - by rewrite str_app_nil_l, str_app_nil_r.
  - by rewrite app_nil_r.
  - rewrite app_nil_r in H1. exists c', rounds'. split; [done|].
    destruct s'; [|done]. by split.
Qed.

Definition example_client : SocketClient :=
  mkSocketClient (mkSocket true false "" 0 0 BinaryQueue_new) PClient
    (ProtocolFrameHeader_new BinaryQueue_new) BinaryQueue_new.
Definition example_check : Request := CheckRequest (PolicyKey_of "app" "1000" "camera") 1.
Definition example_allow : Response := CheckResponse (mkPolicyResult ALLOW "") 1.
Definition frame_pieces (r : Response) : list string :=
  [stake 3 (response_frame PClient r); sdrop 3 (response_frame PClient r)].

Lemma example_client_ready : client_ready example_client PClient "".
Proof. split_and!; try done; by split_and!. Defined.

Lemma responses_delivered_witness :
  ∃ reqdata data, protocol_executeRequest PClient example_check BinaryQueue_new = (Ret tt, reqdata) ∧
    protocol_executeResponse PClient example_allow BinaryQueue_new = (Ret tt, data) ∧
    ∃ c' rounds', wire_ask 7 3 100 example_check
        (example_client, mkWire "" (arrivals [[stake 3 (bytes data)]; []; [sdrop 3 (bytes data)]])) =
      (Ret (Some example_allow), (c', mkWire ("" +:+ bytes reqdata) (arrivals rounds'))) ∧
    client_ready c' PClient "" ∧ fields (concat rounds') = "".
Proof.
  eexists _, _. split; [vm_compute; reflexivity|]. split; [vm_compute; reflexivity|].
  eapply (responses_delivered PClient example_check example_allow 7
    [[stake 3 (response_frame PClient example_allow)]; []; [sdrop 3 (response_frame PClient example_allow)]]).
  - lia.
  - decide_by_compute.
  - decide_by_compute.
  - apply example_client_ready.
  - vm_compute; reflexivity.
  - vm_compute; reflexivity.
  - vm_compute; reflexivity.
  - reflexivity.
  - decide_by_compute.
  - cbn. lia.
  - apply Nat.ltb_lt. vm_compute. reflexivity.
Defined.

(** A client whose connection ended while a response was waiting: it reconnects, asks
    again, and asks something else. *)
Definition ask_again (n k fuel : nat) (request request2 : Request) :
    SE (SocketClient * Wire) (option Response * bool * option Response * option Response) :=
  first ← wire_ask n k fuel request;
  connected ← reconnect;
  second ← wire_ask n k fuel request;
  third ← wire_ask n k fuel request2;
  mret (first, connected, second, third).

(** The read buffer of a client survives a reconnection, and sequence numbers are not
    compared: if the service wrote [r1] and the connection ended before the client read,
    the request sent again on the new connection is answered from the old one with [r1],
    and the next request, whatever it asks, gets [r2], the answer to the request before it;
    its own answer [r3] stays in the buffer for the request after it. *)
Theorem stale_response_after_reconnect p request request2 r1 r2 r3 n k fuel c w :
  0 < n → 0 < k → request_ok p request → request_ok p request2 →
  response_ok p r1 → response_ok p r2 → response_ok p r3 → client_ready c p "" →
  w_reads w = Received (response_frame p r1) :: RecvEof ::
    arrivals [[response_frame p r2]; [response_frame p r3]] →
  1 < fuel → String.length (frame_bytes (request_sequenceNumber request) (request_body p request)) < fuel →
  String.length (frame_bytes (request_sequenceNumber request2) (request_body p request2)) < fuel →
  ∃ c' w', ask_again n k fuel request request2 (c, w) = (Ret (None, true, Some r1, Some r2), (c', w')) ∧
    client_ready c' p (response_frame p r3) ∧ w_reads w' = [].
Proof.
  intros Hn Hk Hq Hq2 H1 H2 H3 Hc Hw Hf1 Hf Hf2. unfold ask_again.
  destruct (askCynaraServer_eof p request n [response_frame p r1] fuel k c w "" _ Hn Hk Hq Hc Hw Hf1 Hf)
    as (c1 & E1 & Hc1).
  rewrite SE_bind_eq, E1. clear Hw E1 Hc. unfold fields in Hc1. cbn [foldr] in Hc1.
  rewrite str_app_nil_r, str_app_nil_l in Hc1. set (w1 := mkWire _ _).
  destruct (reconnect_keeps c1 w1 p _ Hc1) as (c2 & E2 & Hc2). rewrite SE_bind_eq, E2.
  destruct (askCynaraServer_gets p request n [[response_frame p r2]] r1 (response_frame p r2) fuel k c2 w1 _
    (arrivals [[response_frame p r3]]) Hn Hq H1 Hc2) as (c3 & rs & s3 & E3 & Hc3 & Hs3 & used & Hne & Hu); try done.
  { unfold fields. cbn. by rewrite str_app_nil_r. }
  { by constructor. }
  destruct used as [|? [|]], rs; try done. rewrite SE_bind_eq, E3. set (w3 := mkWire _ _).
  unfold fields in Hs3. cbn [concat foldr] in Hs3. rewrite str_app_nil_r in Hs3. subst s3.
  destruct (askCynaraServer_gets p request2 n [[response_frame p r3]] r2 (response_frame p r3) fuel k c3 w3 _
    [] Hn Hq2 H2 Hc3) as (c4 & rs & s4 & E4 & Hc4 & Hs4 & used & Hne4 & Hu4); try done.
  { unfold fields. cbn. by rewrite str_app_nil_r. }
  { by constructor. }
  destruct used as [|? [|]], rs; try done. rewrite SE_bind_eq, E4.
  unfold fields in Hs4. cbn [concat foldr] in Hs4. rewrite str_app_nil_r in Hs4. subst s4.
  by eexists _, _.
Qed.

Lemma stale_response_after_reconnect_witness :
  let camera := CheckRequest (PolicyKey_of "app" "1000" "camera") 1 in
  let location := CheckRequest (PolicyKey_of "app" "1000" "location") 2 in
  let allow n := CheckResponse (mkPolicyResult ALLOW "") n in
  let deny n := CheckResponse (mkPolicyResult DENY "") n in
  ∃ c' w', ask_again 7 1 100 camera location (example_client, mkWire ""
      (Received (response_frame PClient (allow 1%Z)) :: RecvEof ::
       arrivals [[response_frame PClient (allow 1%Z)]; [response_frame PClient (deny 2%Z)]])) =
    (Ret (None, true, Some (allow 1%Z), Some (allow 1%Z)), (c', w')) ∧
    client_ready c' PClient (response_frame PClient (deny 2%Z)) ∧ w_reads w' = [].
Proof.
  intros camera location allow deny.
  apply (stale_response_after_reconnect PClient camera location (allow 1%Z) (allow 1%Z) (deny 2%Z) 7 1 100).
  - lia.
  - lia.
  - decide_by_compute.
  - decide_by_compute.
  - decide_by_compute.
  - decide_by_compute.
  - decide_by_compute.
  - apply example_client_ready.
  - reflexivity.
  - lia.
  - apply Nat.ltb_lt. vm_compute. reflexivity.
  - apply Nat.ltb_lt. vm_compute. reflexivity.
Defined.
