(* ===== verification/EntriesQueue.v ===== *)
(** * The queue of monitored accesses ([service/monitor/EntriesQueue])

    A ring of buckets of entries, addressed by entry ids: bucket [id / m_maxBucketSize],
    offset [id % m_maxBucketSize].  Integers are [int]s that stay far below their bounds;
    accesses outside a vector are undefined. *)
From S2P Require Import Prelude Text Types Serialization Messages.

(** [EntriesQueue::EntriesBucket] *)
Record EntriesBucket := mkEntriesBucket { b_entries : list MonitorEntry; b_offset : Z }.
Definition EntriesBucket_new : EntriesBucket := mkEntriesBucket [] 0.

Record EntriesQueue := mkEntriesQueue {
  m_entries : list EntriesBucket;
  m_firstBucketId : Z;
  m_lastBucketId : Z;
  eq_size : Z;
  m_maxQueueSize : Z;
  m_maxBucketSize : Z;
}.

Definition MAX_QUEUE_SIZE : Z := 2 * 65535.
Definition MAX_BUCKET_SIZE : Z := 2 * 255.

(** [clear] *)
Definition EntriesQueue_clear (q : EntriesQueue) : EntriesQueue :=
  mkEntriesQueue (replicate (Z.to_nat (m_maxQueueSize q ÷ m_maxBucketSize q + 1)) EntriesBucket_new)
    0 0 0 (m_maxQueueSize q) (m_maxBucketSize q).
Definition EntriesQueue_of (maxQueueSize maxBucketSize : Z) : EntriesQueue :=
  EntriesQueue_clear (mkEntriesQueue [] 0 0 0 maxQueueSize maxBucketSize).

(** Setters of the model. *)
Definition setEntries (es : list EntriesBucket) (q : EntriesQueue) : EntriesQueue :=
  mkEntriesQueue es (m_firstBucketId q) (m_lastBucketId q) (eq_size q) (m_maxQueueSize q) (m_maxBucketSize q).
Definition setFirst (b : Z) (q : EntriesQueue) : EntriesQueue :=
  mkEntriesQueue (m_entries q) b (m_lastBucketId q) (eq_size q) (m_maxQueueSize q) (m_maxBucketSize q).
Definition setLast (b : Z) (q : EntriesQueue) : EntriesQueue :=
  mkEntriesQueue (m_entries q) (m_firstBucketId q) b (eq_size q) (m_maxQueueSize q) (m_maxBucketSize q).
Definition setSize (n : Z) (q : EntriesQueue) : EntriesQueue :=
  mkEntriesQueue (m_entries q) (m_firstBucketId q) (m_lastBucketId q) n (m_maxQueueSize q) (m_maxBucketSize q).

(** [m_entries[bucketId]] *)
Definition bucketAt (q : EntriesQueue) (bucketId : Z) : outcome EntriesBucket :=
  if (bucketId <? 0)%Z then Throw UndefinedBehaviour
  else match m_entries q !! Z.to_nat bucketId with
       | Some b => Ret b
       | None => Throw UndefinedBehaviour
       end.
Definition onBucket (bucketId : Z) (f : EntriesBucket → EntriesBucket) : SE EntriesQueue unit :=
  b ← reads (λ q, bucketAt q bucketId);
  modify (λ q, setEntries (<[Z.to_nat bucketId := f b]> (m_entries q)) q).

Definition getFrontEntryId (q : EntriesQueue) : outcome Z :=
  b ← bucketAt q (m_firstBucketId q);
  Ret (m_firstBucketId q * m_maxBucketSize q + b_offset b)%Z.
Definition getBackEntryId (q : EntriesQueue) : outcome Z :=
  b ← bucketAt q (m_lastBucketId q);
  Ret (m_lastBucketId q * m_maxBucketSize q + Z.of_nat (length (b_entries b)))%Z.

Definition sizeFrom (q : EntriesQueue) (fromEntryId : Z) : outcome Z :=
  frontId ← getFrontEntryId q;
  backId ← getBackEntryId q;
  Ret (if (fromEntryId <? frontId)%Z then backId - fromEntryId else eq_size q - (fromEntryId - frontId))%Z.

Definition countBucketId (q : EntriesQueue) (entryId : Z) : Z := (entryId ÷ m_maxBucketSize q)%Z.
Definition countBucketOffset (q : EntriesQueue) (entryId : Z) : Z := Z.rem entryId (m_maxBucketSize q).
Definition nextBucketId (q : EntriesQueue) (bucketId : Z) : Z :=
  ((bucketId + 1) mod Z.of_nat (length (m_entries q)))%Z.

(** Only the offset is set: the entries of an earlier use would stay. *)
Definition eq_createBucket (bucketId : Z) : SE EntriesQueue unit :=
  onBucket bucketId (λ b, mkEntriesBucket (b_entries b) 0).
Definition eraseBucket (bucketId : Z) : SE EntriesQueue unit :=
  b ← reads (λ q, bucketAt q bucketId);
  modify (λ q, setSize (eq_size q - (Z.of_nat (length (b_entries b)) - b_offset b))%Z q) ;;
  onBucket bucketId (λ _, EntriesBucket_new).

Definition checkSize : SE EntriesQueue bool :=
  q ← get;
  if (eq_size q <=? m_maxQueueSize q)%Z then mret false
  else
    onBucket (m_firstBucketId q) (λ b, mkEntriesBucket (b_entries b) (b_offset b + 1)) ;;
    modify (λ q, setSize (eq_size q - 1)%Z q) ;;
    firstBucket ← reads (λ q, bucketAt q (m_firstBucketId q));
    (if (m_maxBucketSize q <=? b_offset firstBucket)%Z
     then eraseBucket (m_firstBucketId q) ;; modify (λ q, setFirst (nextBucketId q (m_firstBucketId q)) q)
     else mret tt) ;;
    mret true.

(** [true] when the oldest entry had to go. *)
Definition push (entry : MonitorEntry) : SE EntriesQueue bool :=
  q ← get;
  onBucket (m_lastBucketId q) (λ b, mkEntriesBucket (b_entries b ++ [entry]) (b_offset b)) ;;
  lastBucket ← reads (λ q, bucketAt q (m_lastBucketId q));
  (if (Z.of_nat (length (b_entries lastBucket)) =? m_maxBucketSize q)%Z
   then
     modify (λ q, setLast (nextBucketId q (m_lastBucketId q)) q) ;;
     q ← get;
     eq_createBucket (m_lastBucketId q)
   else mret tt) ;;
  modify (λ q, setSize (eq_size q + 1)%Z q) ;;
  checkSize.

(** The loop of [copyEntries]; a range that ends before its start is undefined, and the
    comparison is on [unsigned]. *)
Fixpoint copyEntries_loop (fuel : nat) (q : EntriesQueue) (bucketId offset amount toFetch : Z)
    (entries : list MonitorEntry) : outcome (list MonitorEntry) :=
  match fuel with
  | 0 => OutOfFuel
  | S fuel' =>
      if (Z.of_nat (length entries) <? wrap_unsigned 32 amount)%Z then
        bucket ← bucketAt q bucketId;
        let bucketAmount := Z.min (offset + toFetch) (Z.of_nat (length (b_entries bucket))) in
        if (offset <? 0)%Z || (bucketAmount <? offset)%Z then Throw UndefinedBehaviour
        else
          copyEntries_loop fuel' q (nextBucketId q bucketId) 0 amount (toFetch - (bucketAmount - offset))
            (entries ++ take (Z.to_nat (bucketAmount - offset)) (drop (Z.to_nat offset) (b_entries bucket)))
      else Ret entries
  end.
Definition copyEntries (fuel : nat) (q : EntriesQueue) (bucketId offset amount : Z) : outcome (list MonitorEntry) :=
  copyEntries_loop fuel q bucketId offset amount amount [].

(** The next id and the entries fetched, into an empty vector. *)
Definition fetch (fuel : nat) (q : EntriesQueue) (fromEntryId amount : Z) : outcome (Z * list MonitorEntry) :=
  size ← sizeFrom q fromEntryId;
  if (size <? amount)%Z then Ret (-1, [])%Z
  else
    entries ← copyEntries fuel q (countBucketId q fromEntryId) (countBucketOffset q fromEntryId) amount;
    Ret (wrap_unsigned 64 (fromEntryId + amount) mod (Z.of_nat (length (m_entries q)) * m_maxBucketSize q), entries)%Z.

(** The loop of [removeEntries]: once around the ring reaches every bucket there is. *)
Fixpoint eraseUntil (fuel : nat) (bucketId endBucketId : Z) : SE EntriesQueue Z :=
  match fuel with
  | 0 => λ q, (OutOfFuel, q)
  | S fuel' =>
      if (bucketId =? endBucketId)%Z then mret bucketId
      else
        eraseBucket bucketId ;;
        q ← get;
        eraseUntil fuel' (nextBucketId q bucketId) endBucketId
  end.

Definition removeEntries (endBucketId endOffset : Z) : SE EntriesQueue unit :=
  q ← get;
  bucketId ← eraseUntil (S (length (m_entries q))) (m_firstBucketId q) endBucketId;
  b ← reads (λ q, bucketAt q bucketId);
  modify (λ q, setSize (eq_size q - (endOffset - b_offset b))%Z q) ;;
  onBucket bucketId (λ b, mkEntriesBucket (b_entries b) endOffset) ;;
  modify (setFirst bucketId).

Definition popUntil (entryId : Z) : SE EntriesQueue unit :=
  q ← get;
  removeEntries (countBucketId q entryId) (countBucketOffset q entryId).

(** ** A queue that nobody has fetched from

    [linear q K xs] is the queue of [q + 1] buckets of [K] entries after the entries [xs],
    as long as they have not filled every bucket. *)

Definition slice (K : nat) (xs : list MonitorEntry) (i : nat) : list MonitorEntry := take K (drop (i * K) xs).
Definition linear_bucket (K : nat) (xs : list MonitorEntry) (off : Z) (i : nat) : EntriesBucket :=
  mkEntriesBucket (slice K xs i) (if i =? 0 then off else 0).
Definition linear_buckets (q K : nat) (xs : list MonitorEntry) (off : Z) : list EntriesBucket :=
  linear_bucket K xs off <$> seq 0 (S q).
Definition linear (q K : nat) (xs : list MonitorEntry) (off last size : nat) : EntriesQueue :=
  mkEntriesQueue (linear_buckets q K xs (Z.of_nat off)) 0 (Z.of_nat last) (Z.of_nat size)
    (Z.of_nat (q * K)) (Z.of_nat K).

Definition pushAll (xs : list MonitorEntry) : SE EntriesQueue unit := forEach xs (λ x, push x ;; mret tt).

Lemma length_linear q K xs off : length (linear_buckets q K xs off) = S q.
Proof. unfold linear_buckets. by rewrite length_fmap, length_seq. Qed.

Lemma linear_lookup q K xs off i : i ≤ q → linear_buckets q K xs off !! i = Some (linear_bucket K xs off i).
Proof.
  intros Hi. unfold linear_buckets. rewrite list_lookup_fmap, lookup_seq_lt by lia. done.
Qed.

Lemma linear_insert q K xs off xs' off' i b :
  i ≤ q → b = linear_bucket K xs' off' i →
  (∀ j, j ≤ q → j ≠ i → linear_bucket K xs off j = linear_bucket K xs' off' j) →
  <[i := b]> (linear_buckets q K xs off) = linear_buckets q K xs' off'.
Proof.
  intros Hi -> Hj. apply list_eq. intros j. destruct (decide (j ≤ q)) as [Hjq|Hjq].
  - rewrite (linear_lookup q K xs' off') by done. destruct (decide (j = i)) as [->|Hne].
    + by rewrite list_lookup_insert_eq by (rewrite length_linear; lia).
    + by rewrite list_lookup_insert_ne, linear_lookup, Hj by done.
  - rewrite !lookup_ge_None_2; [done|rewrite length_linear; lia|rewrite length_insert, length_linear; lia].
Qed.

Lemma length_slice K xs i : length (slice K xs i) = K `min` (length xs - i * K).
Proof. unfold slice. by rewrite length_take, length_drop. Qed.

Lemma slice_snoc_here K xs x : 0 < K →
  slice K (xs ++ [x]) (length xs / K) = slice K xs (length xs / K) ++ [x].
Proof.
  intros HK. pose proof (Nat.div_mod_eq (length xs) K). pose proof (Nat.mod_upper_bound (length xs) K).
  unfold slice. rewrite drop_app_le by nia. rewrite !take_ge; [done|rewrite length_drop; nia|].
  rewrite length_app, length_drop. cbn. nia.
Qed.

Lemma slice_snoc_other K xs x i : 0 < K → i ≠ length xs / K → slice K (xs ++ [x]) i = slice K xs i.
Proof.
  intros HK Hne. pose proof (Nat.div_mod_eq (length xs) K). pose proof (Nat.mod_upper_bound (length xs) K).
  unfold slice. destruct (decide (i < length xs / K)).
  - rewrite drop_app_le by nia. rewrite take_app_le; [done|]. rewrite length_drop. nia.
  - rewrite !drop_ge; [done|nia|rewrite length_app; cbn; nia].
Qed.

(** An operation on one bucket of a linear queue. *)
Lemma onBucket_linear q K xs off last size i f :
  i ≤ q →
  onBucket (Z.of_nat i) f (linear q K xs off last size) =
    (Ret tt, setEntries (<[i := f (linear_bucket K xs (Z.of_nat off) i)]> (linear_buckets q K xs (Z.of_nat off)))
               (linear q K xs off last size)).
Proof.
  intros Hi. unfold onBucket. rewrite SE_bind_eq. unfold reads, bucketAt.
  destruct (Z.ltb_spec (Z.of_nat i) 0); [lia|]. rewrite Nat2Z.id. cbn [linear m_entries].
  by rewrite linear_lookup by done.
Qed.

Lemma bucketAt_linear q K xs off last size i :
  i ≤ q → bucketAt (linear q K xs off last size) (Z.of_nat i) = Ret (linear_bucket K xs (Z.of_nat off) i).
Proof.
  intros Hi. unfold bucketAt. destruct (Z.ltb_spec (Z.of_nat i) 0); [lia|].
  rewrite Nat2Z.id. cbn [linear m_entries]. by rewrite linear_lookup.
Qed.

Lemma snoc_buckets q K xs x off : 0 < K → length xs / K ≤ q →
  <[length xs / K := mkEntriesBucket (slice K xs (length xs / K) ++ [x])
      (b_offset (linear_bucket K xs off (length xs / K)))]> (linear_buckets q K xs off) =
  linear_buckets q K (xs ++ [x]) off.
Proof.
  intros HK Hq. apply linear_insert; [done| |].
  - unfold linear_bucket. by rewrite slice_snoc_here.
  - intros j _ Hj. unfold linear_bucket. by rewrite slice_snoc_other.
Qed.

(** [checkSize], when an entry too many does not empty the first bucket. *)
Lemma checkSize_linear q K xs off last size :
  0 < K → size ≤ S (q * K) → (size = S (q * K) → S off < K) →
  checkSize (linear q K xs off last size) =
    if decide (size ≤ q * K) then (Ret false, linear q K xs off last size)
    else (Ret true, linear q K xs (S off) last (q * K)).
Proof.
  intros HK Hs Hoff. unfold checkSize. rewrite SE_bind_eq. cbn [get].
  cbn [linear eq_size m_maxQueueSize]. case_decide as Hd.
  - by destruct (Z.leb_spec (Z.of_nat size) (Z.of_nat (q * K))); [|lia].
  - destruct (Z.leb_spec (Z.of_nat size) (Z.of_nat (q * K))); [lia|]. assert (size = S (q * K)) as -> by lia.
    rewrite SE_bind_eq. change (m_firstBucketId (linear q K xs off last (S (q * K)))) with (Z.of_nat 0). rewrite onBucket_linear by lia.
    rewrite (linear_insert q K xs (Z.of_nat off) xs (Z.of_nat (S off))); [|lia| |].
    2:{ unfold linear_bucket. cbn. f_equal. lia. }
    2:{ intros [|j] _ Hj; [done|]. done. }
    rewrite SE_bind_eq. cbn [modify]. rewrite SE_bind_eq. unfold reads.
    assert (setSize (eq_size (setEntries (linear_buckets q K xs (Z.of_nat (S off))) (linear q K xs off last (S (q * K)))) - 1)
      (setEntries (linear_buckets q K xs (Z.of_nat (S off))) (linear q K xs off last (S (q * K)))) =
      linear q K xs (S off) last (q * K)) as ->.
    { unfold setSize, setEntries, linear. cbn [eq_size m_firstBucketId m_lastBucketId m_maxQueueSize m_maxBucketSize m_entries].
      f_equal. lia. }
    change (m_firstBucketId (linear q K xs (S off) last (q * K))) with (Z.of_nat 0).
    rewrite bucketAt_linear by lia. unfold linear_bucket. cbn [b_offset Nat.eqb m_maxBucketSize linear].
    destruct (Z.leb_spec (Z.of_nat K) (Z.of_nat (S off))); [lia|]. done.
Qed.

(** What [push] does to the last bucket and to the number of the last bucket. *)
Lemma rotate_linear q K ys off last size :
  0 < K → last ≤ q → length (slice K ys last) ≤ K →
  (if (Z.of_nat (length (slice K ys last)) =? Z.of_nat K)%Z
   then modify (λ q, setLast (nextBucketId q (m_lastBucketId q)) q) ;;
        q ← get; eq_createBucket (m_lastBucketId q)
   else mret tt) (linear q K ys off last size) =
  (Ret tt,
   if decide (length (slice K ys last) = K)
   then (if decide (last = q) then linear q K ys 0 0 size else linear q K ys off (S last) size)
   else linear q K ys off last size).
Proof.
  intros HK Hl Hs. destruct (Z.eqb_spec (Z.of_nat (length (slice K ys last))) (Z.of_nat K)) as [He|Hne];
    (case_decide as Hd; [|]); try lia; [|done].
  rewrite SE_bind_eq. cbn [modify]. rewrite SE_bind_eq. cbn [get].
  assert (setLast (nextBucketId (linear q K ys off last size) (m_lastBucketId (linear q K ys off last size)))
    (linear q K ys off last size) = linear q K ys off (if decide (last = q) then 0 else S last) size) as ->.
  { unfold setLast, nextBucketId, linear. cbn [m_entries m_lastBucketId m_firstBucketId eq_size m_maxQueueSize m_maxBucketSize].
    f_equal. rewrite length_linear. replace (Z.of_nat last + 1)%Z with (Z.of_nat (S last)) by lia.
    case_decide as Hq; [subst; by rewrite Z_mod_same_full|]. by rewrite Z.mod_small by lia. }
  set (l := if decide (last = q) then 0 else S last).
  change (m_lastBucketId (linear q K ys off l size)) with (Z.of_nat l).
  unfold eq_createBucket. rewrite onBucket_linear by (unfold l; case_decide; lia). f_equal.
  unfold l. case_decide as Hq.
  - rewrite (linear_insert q K ys (Z.of_nat off) ys 0); [done|lia|done|]. by intros [|j].
  - rewrite (linear_insert q K ys (Z.of_nat off) ys (Z.of_nat off)); [done|lia|done|done].
Qed.

(** The queue after one entry more: a bucket starts over once all are full. *)
Lemma push_linear q K xs x :
  2 ≤ K → length xs < S q * K →
  let n := S (length xs) in
  push x (linear q K xs (length xs - q * K) (length xs / K) (length xs `min` (q * K))) =
    (Ret (bool_decide (q * K < n)),
     if decide (n = S q * K) then linear q K (xs ++ [x]) 1 0 (q * K)
     else linear q K (xs ++ [x]) (n - q * K) (n / K) (n `min` (q * K))).
Proof.
  intros HK Hn. cbn zeta. set (n := length xs) in *.
  pose proof (Nat.div_mod_eq n K) as Hdm. pose proof (Nat.mod_upper_bound n K ltac:(lia)) as Hmod.
  assert (n / K ≤ q) as Hq by nia.
  unfold push. rewrite SE_bind_eq. cbn [get]. rewrite SE_bind_eq.
  change (m_lastBucketId (linear q K xs (n - q * K) (n / K) (n `min` (q * K)))) with (Z.of_nat (n / K)).
  rewrite onBucket_linear by done.
  change (b_entries (linear_bucket K xs (Z.of_nat (n - q * K)) (n / K))) with (slice K xs (n / K)).
  pose proof (snoc_buckets q K xs x (Z.of_nat (n - q * K)) ltac:(lia) Hq) as Hsnoc. fold n in Hsnoc.
  rewrite Hsnoc.
  change (setEntries (linear_buckets q K (xs ++ [x]) (Z.of_nat (n - q * K))) (linear q K xs (n - q * K) (n / K) (n `min` (q * K))))
    with (linear q K (xs ++ [x]) (n - q * K) (n / K) (n `min` (q * K))).
  rewrite SE_bind_eq. unfold reads.
  change (m_lastBucketId (linear q K (xs ++ [x]) (n - q * K) (n / K) (n `min` (q * K)))) with (Z.of_nat (n / K)).
  rewrite bucketAt_linear by done.
  assert (length (slice K (xs ++ [x]) (n / K)) = S (n mod K)) as Hlen.
  { rewrite length_slice, length_app. cbn. fold n. nia. }
  unfold linear_bucket. cbn [b_entries m_maxBucketSize linear].
  rewrite SE_bind_eq, rotate_linear by lia. rewrite Hlen.
  assert (∀ off last size, size = n `min` (q * K) → (q * K ≤ n → S off < K) →
    (modify (λ q, setSize (eq_size q + 1) q) ;; checkSize) (linear q K (xs ++ [x]) off last size) =
    (Ret (bool_decide (q * K < S n)), linear q K (xs ++ [x])
       (if decide (q * K < S n) then S off else off) last (S n `min` (q * K)))) as Hcheck.
  { intros off last size -> Hoff. rewrite SE_bind_eq. cbn [modify].
    assert (setSize (eq_size (linear q K (xs ++ [x]) off last (n `min` (q * K))) + 1) (linear q K (xs ++ [x]) off last (n `min` (q * K)))
      = linear q K (xs ++ [x]) off last (S (n `min` (q * K)))) as ->.
    { unfold setSize, linear. cbn [eq_size m_entries m_firstBucketId m_lastBucketId m_maxQueueSize m_maxBucketSize]. f_equal. lia. }
    rewrite checkSize_linear by lia. case_bool_decide; repeat case_decide; try lia; repeat f_equal; lia. }
  assert ((if decide (q * K < S n) then S (n - q * K) else n - q * K) = S n - q * K) as Hoff by (case_decide; lia).
  destruct (decide (S (n mod K) = K)) as [Hfull|Hfull].
  - assert (S n / K = S (n / K)) as HSn by (symmetry; apply (Nat.div_unique _ _ _ 0); nia).
    destruct (decide (n / K = q)) as [Hlast|Hlast].
    + assert (S n = S q * K) as Hwrap by nia. rewrite decide_True by done.
      rewrite Hcheck by (done || lia). rewrite decide_True by nia. by replace (S n `min` (q * K)) with (q * K) by nia.
    + rewrite (decide_False (P:=S n = S q * K)) by nia. rewrite HSn.
      rewrite Hcheck by (done || nia). by rewrite Hoff.
  - assert (S n / K = n / K) as HSn by (symmetry; apply (Nat.div_unique _ _ _ (S (n mod K))); nia).
    assert (S n ≠ S q * K) as Hne.
    { intros He. apply Hfull. assert (n / K = q) as Hl; [|nia]. symmetry. apply (Nat.div_unique _ _ _ (K - 1)); nia. }
    rewrite (decide_False (P:=S n = S q * K)) by done. rewrite HSn.
    rewrite Hcheck by (done || nia). by rewrite Hoff.
Qed.

Definition initial (q K : nat) : EntriesQueue := linear q K [] 0 0 0.

Lemma EntriesQueue_of_linear q K : 0 < K →
  EntriesQueue_of (Z.of_nat (q * K)) (Z.of_nat K) = initial q K.
Proof.
  intros HK. unfold EntriesQueue_of, EntriesQueue_clear, initial, linear. cbn [m_maxQueueSize m_maxBucketSize].
  f_equal. rewrite Nat2Z.inj_mul, Z.quot_mul by lia.
  replace (Z.to_nat (Z.of_nat q + 1)) with (S q) by lia.
  apply list_eq. intros i. destruct (decide (i ≤ q)).
  - rewrite linear_lookup by done. rewrite lookup_replicate_2 by lia. f_equal.
    unfold linear_bucket, slice. rewrite drop_nil, take_nil. by case_match.
  - rewrite !lookup_ge_None_2; [done|rewrite length_linear; lia|rewrite length_replicate; lia].
Qed.

(** All entries but the one that fills the last bucket. *)
Lemma pushAll_linear q K xs : 2 ≤ K → length xs < S q * K →
  pushAll xs (initial q K) = (Ret tt, linear q K xs (length xs - q * K) (length xs / K) (length xs `min` (q * K))).
Proof.
  intros HK. induction xs as [|x xs IH] using rev_ind; intros Hn.
  - cbn [length]. by rewrite Nat.Div0.div_0_l.
  - rewrite length_app in Hn |- *. cbn [length] in Hn |- *. rewrite Nat.add_1_r in Hn |- *.
    unfold pushAll in *. rewrite forEach_app, SE_bind_eq. rewrite IH by lia.
    cbn [forEach]. rewrite SE_bind_eq, SE_bind_eq. rewrite push_linear by lia.
    rewrite decide_False by lia. done.
Qed.

(** The entry that fills the last bucket. *)
Lemma pushAll_wrap q K xs : 2 ≤ K → length xs = S q * K →
  pushAll xs (initial q K) = (Ret tt, linear q K xs 1 0 (q * K)).
Proof.
  intros HK Hn. destruct xs as [|x xs _] using rev_ind; [cbn in Hn; nia|].
  rewrite length_app in Hn. cbn [length] in Hn. rewrite Nat.add_1_r in Hn.
  unfold pushAll. rewrite forEach_app, SE_bind_eq. fold (pushAll xs). rewrite pushAll_linear by lia.
  cbn [forEach]. rewrite SE_bind_eq, SE_bind_eq. rewrite push_linear by lia. by rewrite decide_True.
Qed.


(** ** Fetching from a linear queue *)

Lemma copy_done fuel Q b o (acc : list MonitorEntry) :
  0 < fuel → (Z.of_nat (length acc) < 2 ^ 32)%Z →
  copyEntries_loop fuel Q b o (Z.of_nat (length acc)) 0 acc = Ret acc.
Proof.
  intros Hf Hl. destruct fuel as [|fuel]; [lia|]. cbn [copyEntries_loop].
  unfold wrap_unsigned. rewrite Z.mod_small by lia. by rewrite Z.ltb_irrefl.
Qed.

Lemma slice_part K ys b o m : o + m ≤ K →
  take m (drop o (slice K ys b)) = take m (drop (b * K + o) ys).
Proof.
  intros H. unfold slice. rewrite skipn_firstn_comm, take_take, drop_drop. f_equal. lia.
Qed.

Lemma copy_linear q K ys off last size fuel b o t acc :
  o < K → b ≤ q → b * K + o + t ≤ length ys → length ys ≤ S q * K → S (q - b) < fuel →
  (Z.of_nat (length acc + t) < 2 ^ 32)%Z →
  copyEntries_loop fuel (linear q K ys off last size) (Z.of_nat b) (Z.of_nat o)
    (Z.of_nat (length acc + t)) (Z.of_nat t) acc = Ret (acc ++ take t (drop (b * K + o) ys)).
Proof.
  revert b o t acc. induction fuel as [|fuel IH]; intros b o t acc Ho Hb Ht Hys Hf Hmax; [lia|].
  destruct (decide (t = 0)) as [->|Hnz].
  { rewrite Nat.add_0_r in *. rewrite copy_done by lia. cbn [take]. by rewrite app_nil_r. }
  cbn [copyEntries_loop]. unfold wrap_unsigned. rewrite Z.mod_small by lia.
  destruct (Z.ltb_spec (Z.of_nat (length acc)) (Z.of_nat (length acc + t))); [|lia].
  rewrite bucketAt_linear by done. cbn [mbind outcome_bind]. unfold linear_bucket. cbn [b_entries].
  rewrite length_slice.
  set (m := t `min` (K - o)).
  assert (Z.min (Z.of_nat o + Z.of_nat t) (Z.of_nat (K `min` (length ys - b * K))) = Z.of_nat (o + m)) as -> by lia.
  destruct (Z.ltb_spec (Z.of_nat o) 0); [lia|]. destruct (Z.ltb_spec (Z.of_nat (o + m)) (Z.of_nat o)); [lia|]. cbn [orb].
  replace (Z.to_nat (Z.of_nat (o + m) - Z.of_nat o)) with m by lia. rewrite Nat2Z.id, slice_part by lia.
  replace (Z.of_nat t - (Z.of_nat (o + m) - Z.of_nat o))%Z with (Z.of_nat (t - m)) by lia.
  assert (length (take m (drop (b * K + o) ys)) = m) as Hm by (rewrite length_take, length_drop; lia).
  set (acc' := acc ++ take m (drop (b * K + o) ys)).
  assert (length acc' = length acc + m) as Hacc by (unfold acc'; by rewrite length_app, Hm).
  destruct (decide (t - m = 0)) as [Hz|Hz].
  - rewrite Hz. replace (length acc + t) with (length acc') by lia.
    change (Z.of_nat 0) with 0%Z. rewrite copy_done by lia. unfold acc'. by replace m with t by lia.
  - assert (S b ≤ q) as Hb' by nia.
    assert (nextBucketId (linear q K ys off last size) (Z.of_nat b) = Z.of_nat (S b)) as ->.
    { unfold nextBucketId, linear. cbn [m_entries]. rewrite length_linear, Z.mod_small by lia. lia. }
    replace (length acc + t) with (length acc' + (t - m)) by lia.
    change 0%Z with (Z.of_nat 0). rewrite IH by lia. f_equal. unfold acc'. rewrite <-app_assoc. f_equal.
    replace (S b * K + 0) with (b * K + o + m) by lia. rewrite <-(drop_drop _ m (b * K + o)).
    replace t with (m + (t - m)) at 2 by lia. apply take_take_drop.
Qed.

Lemma front_linear q K ys off last size :
  getFrontEntryId (linear q K ys off last size) = Ret (Z.of_nat off).
Proof.
  unfold getFrontEntryId. change (m_firstBucketId (linear q K ys off last size)) with (Z.of_nat 0).
  rewrite bucketAt_linear by lia. cbn. done.
Qed.

Lemma sizeFrom_front q K ys off last size : last ≤ q →
  sizeFrom (linear q K ys off last size) (Z.of_nat off) = Ret (Z.of_nat size).
Proof.
  intros Hl. unfold sizeFrom. rewrite front_linear. unfold getBackEntryId.
  change (m_lastBucketId (linear q K ys off last size)) with (Z.of_nat last).
  rewrite bucketAt_linear by done. cbn [mbind outcome_bind]. rewrite Z.ltb_irrefl. f_equal. cbn. lia.
Qed.

(** Everything from the front on. *)
Lemma fetch_linear q K ys off last size fuel :
  off < K → last ≤ q → off + size ≤ length ys → length ys ≤ S q * K → S q < fuel →
  (Z.of_nat (off + size) < 2 ^ 32)%Z →
  fetch fuel (linear q K ys off last size) (Z.of_nat off) (Z.of_nat size) =
    Ret (Z.of_nat (off + size) mod (Z.of_nat (S q) * Z.of_nat K), take size (drop off ys))%Z.
Proof.
  intros Ho Hl Hs Hys Hf Hmax. unfold fetch. rewrite sizeFrom_front by done. cbn [mbind outcome_bind].
  rewrite Z.ltb_irrefl. unfold copyEntries, countBucketId, countBucketOffset. cbn [linear m_maxBucketSize].
  rewrite Z.quot_small, Z.rem_small by lia. change (mkEntriesQueue _ 0 _ _ _ _) with (linear q K ys off last size).
  pose proof (copy_linear q K ys off last size fuel 0 off size [] Ho ltac:(lia) ltac:(lia) Hys ltac:(lia)) as Hc.
  cbn [length Nat.add Nat.mul app] in Hc. change (Z.of_nat 0) with 0%Z in Hc. rewrite Hc by lia.
  f_equal. unfold linear. cbn [m_entries]. rewrite length_linear. unfold wrap_unsigned.
  rewrite <-Nat2Z.inj_add, (Z.mod_small (Z.of_nat (off + size))); [done|].
  split; [lia|]. eapply Z.lt_trans; [done|]. done.
Qed.

(** The entries that a client registered from the start would be given. *)
Definition contents (fuel : nat) (Q : EntriesQueue) : outcome (list MonitorEntry) :=
  front ← getFrontEntryId Q;
  size ← sizeFrom Q front;
  r ← fetch fuel Q front size;
  Ret r.2.

(** C35: The monitor queue keeps the newest entries, in order of arrival, oldest dropped
    first, until its last bucket is full.  The entry that fills the last bucket makes the
    queue reuse its first bucket without emptying it: entries dropped long ago come back
    and the newest ones are gone.  The sizes the service uses are of this kind, a multiple
    of the bucket size. *)
Theorem monitor_queue_contents q K xs fuel :
  2 ≤ K → S q < fuel → (Z.of_nat (S q * K) < 2 ^ 31)%Z → length xs ≤ S q * K →
  ∃ Q, pushAll xs (EntriesQueue_of (Z.of_nat (q * K)) (Z.of_nat K)) = (Ret tt, Q) ∧
    eq_size Q = Z.of_nat (length xs `min` (q * K)) ∧
    contents fuel Q = Ret (if decide (length xs < S q * K)
                           then drop (length xs - q * K) xs
                           else take (q * K) (drop 1 xs)) ∧
    MAX_QUEUE_SIZE = (257 * MAX_BUCKET_SIZE)%Z.
Proof.
  intros HK Hf Hmax Hn. rewrite EntriesQueue_of_linear by lia. case_decide as Hlt.
  - rewrite pushAll_linear by done. eexists. split; [done|]. split; [done|]. split; [|done].
    pose proof (Nat.div_mod_eq (length xs) K). pose proof (Nat.mod_upper_bound (length xs) K ltac:(lia)).
    unfold contents. rewrite front_linear. cbn [mbind outcome_bind]. rewrite sizeFrom_front by nia.
    cbn [mbind outcome_bind]. rewrite fetch_linear by nia. cbn. f_equal. apply take_ge.
    rewrite length_drop. lia.
  - rewrite pushAll_wrap by lia. eexists. split; [done|]. split; [cbn; lia|]. split; [|done].
    unfold contents. rewrite front_linear. cbn [mbind outcome_bind]. rewrite sizeFrom_front by lia.
    cbn [mbind outcome_bind]. by rewrite fetch_linear by lia.
Qed.

Definition example_entry (n : nat) : MonitorEntry :=
  MonitorEntry.mk (PolicyKey_of "client" "user" "privilege") (Z.of_nat n) (mkTimespec 0 0).

Lemma monitor_queue_contents_witness :
  ∃ Q, pushAll (map example_entry (seq 0 9)) (EntriesQueue_of 6 3) = (Ret tt, Q) ∧ eq_size Q = 6%Z ∧
    contents 4 Q = Ret (map example_entry [1; 2; 3; 4; 5; 6]) ∧
    MAX_QUEUE_SIZE = (257 * MAX_BUCKET_SIZE)%Z.
Proof.
  apply (monitor_queue_contents 2 3 (map example_entry (seq 0 9)) 4).
  - lia.
  - lia.
  - reflexivity.
  - cbn. lia.
Defined.
