(* ===== verification/Monitor.v ===== *)
(** * Monitoring ([service/monitor]: [EntriesManager], [MonitorLogic])

    [EntriesManager] keeps, for every monitor client, the id of the entry it waits from;
    [MonitorLogic] turns entries and clients into responses.  The iterators into
    [m_clients] that the code keeps in its other maps are the client ids here: the code
    takes a client out of them before it erases it.  Ordered maps are [gmap]s, walked in the order
    of their keys; a dereferenced [end()] is undefined. *)
From S2P Require Import Prelude Text Types Serialization Messages EntriesQueue.

(** The keys of an ordered map with integer keys, in order. *)
Definition ordered_keys {A} (m : gmap Z A) : list Z := merge_sort Z.le (elements (dom m)).

Record ClientInfo := mkClientInfo { clientId : Z; from : Z; bufferSize : Z }.

Record EntriesManager := mkEntriesManager {
  m_container : EntriesQueue;
  em_clients : gmap Z ClientInfo;
  m_registeredClients : gset Z;
  m_entryCountMap : gmap Z (list Z);
}.

Definition EntriesManager_new : EntriesManager :=
  mkEntriesManager (EntriesQueue_of MAX_QUEUE_SIZE MAX_BUCKET_SIZE) ∅ ∅ ∅.

(** Setters of the model. *)
Definition setContainer (q : EntriesQueue) (m : EntriesManager) : EntriesManager :=
  mkEntriesManager q (em_clients m) (m_registeredClients m) (m_entryCountMap m).
Definition setClients (c : gmap Z ClientInfo) (m : EntriesManager) : EntriesManager :=
  mkEntriesManager (m_container m) c (m_registeredClients m) (m_entryCountMap m).
Definition setRegistered (r : gset Z) (m : EntriesManager) : EntriesManager :=
  mkEntriesManager (m_container m) (em_clients m) r (m_entryCountMap m).
Definition setEntryCountMap (c : gmap Z (list Z)) (m : EntriesManager) : EntriesManager :=
  mkEntriesManager (m_container m) (em_clients m) (m_registeredClients m) c.

Definition onContainer {A} (m : SE EntriesQueue A) : SE EntriesManager A := λ em,
  let '(r, q) := m (m_container em) in (r, setContainer q em).

(** A client that another map says there is. *)
Definition clientAt (em : EntriesManager) (id : Z) : outcome ClientInfo :=
  match em_clients em !! id with Some c => Ret c | None => Throw UndefinedBehaviour end.
Definition setFrom (id entryId : Z) (em : EntriesManager) : EntriesManager :=
  setClients (alter (λ c, mkClientInfo (clientId c) entryId (bufferSize c)) id (em_clients em)) em.

Definition isClientFilled_info (em : EntriesManager) (client : ClientInfo) : outcome bool :=
  size ← sizeFrom (m_container em) (from client); Ret (bufferSize client <=? size)%Z.

Definition isClientFilled (em : EntriesManager) (id : Z) : outcome bool :=
  if bool_decide (id ∈ m_registeredClients em)
  then c ← clientAt em id; isClientFilled_info em c
  else Ret false.

(** The registered clients in order; [-1] when none is filled. *)
Fixpoint getFilled_from (em : EntriesManager) (ids : list Z) : outcome Z :=
  match ids with
  | [] => Ret (-1)%Z
  | id :: ids' =>
      c ← clientAt em id;
      size ← sizeFrom (m_container em) (from c);
      if (bufferSize c <=? size)%Z then Ret (clientId c) else getFilled_from em ids'
  end.
Definition getFilledClientId (em : EntriesManager) : outcome Z :=
  getFilled_from em (merge_sort Z.le (elements (m_registeredClients em))).

Definition addEntryCount (entryId : Z) (client : Z) (em : EntriesManager) : EntriesManager :=
  setEntryCountMap (<[entryId := default [] (m_entryCountMap em !! entryId) ++ [client]]> (m_entryCountMap em)) em.

Definition registerClient (id : Z) (em : EntriesManager) : EntriesManager :=
  setRegistered ({[id]} ∪ m_registeredClients em) em.
Definition unregisterClient (id : Z) (em : EntriesManager) : EntriesManager :=
  setRegistered (m_registeredClients em ∖ {[id]}) em.

(** Erases the first element that is [client]; there has to be one. *)
Fixpoint erase_first (client : Z) (l : list Z) : option (list Z) :=
  match l with
  | [] => None
  | c :: l' => if (c =? client)%Z then Some l' else cons c <$> erase_first client l'
  end.

Definition removeEntryCount (entryId client : Z) : SE EntriesManager unit :=
  em ← get;
  match m_entryCountMap em !! entryId with
  | None => throw UndefinedBehaviour
  | Some clientList =>
      if length clientList =? 1
      then modify (setEntryCountMap (delete entryId (m_entryCountMap em)))
      else
        match erase_first client clientList with
        | None => throw UndefinedBehaviour
        | Some l => modify (setEntryCountMap (<[entryId := l]> (m_entryCountMap em)))
        end
  end.

Definition updateClient (client entryId : Z) : SE EntriesManager unit :=
  c ← reads (λ em, clientAt em client);
  removeEntryCount (from c) (clientId c) ;;
  modify (setFrom client entryId) ;;
  modify (addEntryCount entryId client).

Definition cleanup : SE EntriesManager unit :=
  em ← get;
  if bool_decide (em_clients em = ∅) then onContainer (modify EntriesQueue_clear)
  else
    match ordered_keys (m_entryCountMap em) with
    | [] => mret tt
    | lowest :: _ => onContainer (popUntil lowest)
    end.

(** [squashEntries] on the keys of a range, in order, up to the first one that fails [p]:
    the clients of each are moved to [newId], and the range is erased.  A list that is
    appended to itself has no end. *)
Fixpoint squashEntries (keys : list Z) (newId : Z) (p : Z → bool) : SE EntriesManager unit :=
  match keys with
  | [] => mret tt
  | key :: keys' =>
      if p key then
        em ← get;
        (if (key =? newId)%Z && negb (bool_decide (default [] (m_entryCountMap em !! key) = []))
         then λ em, (OutOfFuel, em) else mret tt) ;;
        forEach (default [] (m_entryCountMap em !! key))
          (λ client, modify (setFrom client newId) ;; modify (addEntryCount newId client)) ;;
        modify (λ em, setEntryCountMap (delete key (m_entryCountMap em)) em) ;;
        squashEntries keys' newId p
      else mret tt
  end.

Definition squashRequests : SE EntriesManager unit :=
  em ← get;
  frontId ← reads (λ em, getFrontEntryId (m_container em));
  backId ← reads (λ em, getBackEntryId (m_container em));
  modify (λ em, setEntryCountMap (<[frontId := default [] (m_entryCountMap em !! frontId)]> (m_entryCountMap em)) em) ;;
  em ← get;
  let keysFrom (em : EntriesManager) id := filter (λ k, id ≤ k)%Z (ordered_keys (m_entryCountMap em)) in
  if (backId <? frontId)%Z
  then squashEntries (keysFrom em backId) frontId (λ k, k <? frontId)%Z
  else
    squashEntries (ordered_keys (m_entryCountMap em)) frontId (λ k, k <? frontId)%Z ;;
    em ← get;
    squashEntries (keysFrom em backId) frontId (λ _, true).

Definition addEntry (entry : MonitorEntry) : SE EntriesManager bool :=
  em ← get;
  if bool_decide (em_clients em = ∅) then mret false
  else
    overflow ← onContainer (push entry);
    (if overflow : bool then squashRequests else mret tt) ;;
    mret true.

Definition fetchEntriesForClient (fuel : nat) (id : Z) (force : bool) : SE EntriesManager (list MonitorEntry) :=
  em ← get;
  if negb (bool_decide (id ∈ m_registeredClients em)) then mret []
  else
    clientInfo ← reads (λ em, clientAt em id);
    filled ← (if force then mret true else reads (λ em, isClientFilled_info em clientInfo));
    if negb filled then mret []
    else
      size ← reads (λ em, sizeFrom (m_container em) (from clientInfo));
      let entriesToFetch := Z.min size (bufferSize clientInfo) in
      fetched ← reads (λ em, fetch fuel (m_container em) (from clientInfo) entriesToFetch);
      updateClient id fetched.1 ;;
      modify (unregisterClient id) ;;
      cleanup ;;
      mret fetched.2.

Definition em_addClient (id bufferSize : Z) : SE EntriesManager bool :=
  em ← get;
  if (id =? InvalidClientId)%Z then mret false
  else if bool_decide (is_Some (em_clients em !! id)) then mret false
  else
    startPoint ← reads (λ em, getBackEntryId (m_container em));
    modify (λ em, setClients (<[id := mkClientInfo id startPoint bufferSize]> (em_clients em)) em) ;;
    modify (addEntryCount startPoint id) ;;
    modify (registerClient id) ;;
    mret true.

Definition em_removeClient (id : Z) : SE EntriesManager bool :=
  em ← get;
  match em_clients em !! id with
  | None => mret false
  | Some c =>
      modify (unregisterClient id) ;;
      removeEntryCount (from c) (clientId c) ;;
      modify (λ em, setClients (delete id (em_clients em)) em) ;;
      cleanup ;;
      mret true
  end.

Definition modifyClient (id bufferSize : Z) : SE EntriesManager bool :=
  em ← get;
  match em_clients em !! id with
  | None => mret false
  | Some c =>
      modify (λ em, setClients (<[id := mkClientInfo (clientId c) (from c) bufferSize]> (em_clients em)) em) ;;
      modify (registerClient id) ;;
      mret true
  end.

(** ** [MonitorLogic] *)

Record MonitorResponseInfo := mkMonitorResponseInfo { info_context : RequestContext; info_seq : Z }.
Record MonitorResponse := mkMonitorResponse { info : MonitorResponseInfo; response_entries : list MonitorEntry }.

Record MonitorLogic := mkMonitorLogic {
  m_manager : EntriesManager;
  m_responseCache : gmap Z MonitorResponse;
  m_clients : gmap Z MonitorResponseInfo;
}.

Definition MonitorLogic_new : MonitorLogic := mkMonitorLogic EntriesManager_new ∅ ∅.

Definition setResponseCache (c : gmap Z MonitorResponse) (m : MonitorLogic) : MonitorLogic :=
  mkMonitorLogic (m_manager m) c (m_clients m).
Definition setMonitorClients (c : gmap Z MonitorResponseInfo) (m : MonitorLogic) : MonitorLogic :=
  mkMonitorLogic (m_manager m) (m_responseCache m) c.

Definition onEntries {A} (m : SE EntriesManager A) : SE MonitorLogic A := λ l,
  let '(r, em) := m (m_manager l) in (r, mkMonitorLogic em (m_responseCache l) (m_clients l)).

(** [m_responseCache.emplace]: an entry already there stays. *)
Definition emplaceResponse (id : Z) (r : MonitorResponse) : SE MonitorLogic unit :=
  modify (λ l, match m_responseCache l !! id with
               | Some _ => l
               | None => setResponseCache (<[id := r]> (m_responseCache l)) l
               end).

Definition ml_addClient (fuel : nat) (context : RequestContext) (seq bufferSize : Z) : SE MonitorLogic unit :=
  let id := m_clientId context in
  l ← get;
  added ←
    match m_clients l !! id with
    | None =>
        ok ← onEntries (em_addClient id bufferSize);
        (if ok : bool
         then modify (λ l, setMonitorClients (<[id := mkMonitorResponseInfo context seq]> (m_clients l)) l)
         else mret tt) ;;
        mret ok
    | Some i =>
        ok ← onEntries (modifyClient id bufferSize);
        (if ok : bool
         then modify (λ l, setMonitorClients (<[id := mkMonitorResponseInfo (info_context i) seq]> (m_clients l)) l)
         else mret tt) ;;
        mret ok
    end;
  if negb added then mret tt
  else
    filled ← onEntries (reads (λ em, isClientFilled em id));
    if filled : bool
    then
      entries ← onEntries (fetchEntriesForClient fuel id false);
      emplaceResponse id (mkMonitorResponse (mkMonitorResponseInfo context seq) entries)
    else mret tt.

(** The [while] of [addEntry]: every round takes a client out of the registered ones. *)
Fixpoint serveFilled (rounds fuel : nat) : SE MonitorLogic unit :=
  match rounds with
  | 0 => λ l, (OutOfFuel, l)
  | S rounds' =>
      id ← onEntries (reads getFilledClientId);
      if (id =? -1)%Z then mret tt
      else
        l ← get;
        match m_clients l !! id with
        | None => mret tt
        | Some i =>
            entries ← onEntries (fetchEntriesForClient fuel id false);
            emplaceResponse id (mkMonitorResponse i entries) ;;
            serveFilled rounds' fuel
        end
  end.

Definition ml_addEntry (fuel : nat) (e : MonitorEntry) : SE MonitorLogic unit :=
  added ← onEntries (addEntry e);
  if negb added then mret tt
  else
    l ← get;
    serveFilled (S (size (m_registeredClients (m_manager l)))) fuel.

Definition ml_removeClient (context : RequestContext) : SE MonitorLogic unit :=
  let id := m_clientId context in
  _ ← onEntries (em_removeClient id);
  modify (λ l, mkMonitorLogic (m_manager l) (delete id (m_responseCache l)) (delete id (m_clients l))).

Definition flushClient (fuel : nat) (context : RequestContext) : SE MonitorLogic unit :=
  let id := m_clientId context in
  l ← get;
  match m_clients l !! id with
  | None => mret tt
  | Some i =>
      entries ← onEntries (fetchEntriesForClient fuel id true);
      emplaceResponse id (mkMonitorResponse i entries)
  end.

Definition shouldSend (l : MonitorLogic) : bool := negb (bool_decide (m_responseCache l = ∅)).

(** In the order of the client ids; the cache is emptied. *)
Definition getResponses : SE MonitorLogic (list MonitorResponse) := λ l,
  (Ret (omap (λ id, m_responseCache l !! id) (ordered_keys (m_responseCache l))), setResponseCache ∅ l).
