(* ===== verification/PluginManager.v ===== *)
(** * Plugins ([common/plugin/PluginManager])

    The manager maps policy types to plugins.  The plugins are external code: [Plugin] is
    a pointer to one, [P] the state of all of them, and the calls the code makes are
    parameters.  The map is keyed by descriptions, which compare by type (Types.v); a null
    pointer is [None]. *)
From S2P Require Import Prelude Text Types.

Record PluginManager (Plugin : Type) := mkPluginManager {
  m_plugins : gmap PolicyType (string * option Plugin);
}.
Arguments mkPluginManager {Plugin} _.
Arguments m_plugins {Plugin} _.

Section PluginManager.
Context {Plugin P : Type}.
Context (getSupportedPolicyDescr : Plugin → list PolicyDescription).
Context (plugin_invalidate : Plugin → P → P).

Definition PluginManager_new : PluginManager Plugin := mkPluginManager ∅.

(** [m_plugins[pType]]: a type that is not there is inserted, with a null pointer. *)
Definition getPlugin (pType : PolicyType) : SE (PluginManager Plugin) (option Plugin) := λ m,
  match m_plugins m !! pType with
  | Some (_, plugin) => (Ret plugin, m)
  | None => (Ret None, mkPluginManager (<[pType := ("", None)]> (m_plugins m)))
  end.

(** The types in order. *)
Definition plugin_types (m : PluginManager Plugin) : list PolicyType :=
  merge_sort Z.le (elements (dom (m_plugins m))).

Definition getPolicyDescriptions (m : PluginManager Plugin) : list PolicyDescription :=
  omap (λ t, (λ np, mkPolicyDescription t np.1) <$> m_plugins m !! t) (plugin_types m).

(** [plugin.second->invalidate()] through a null pointer is undefined. *)
Definition invalidateAll (m : PluginManager Plugin) : SE P unit :=
  forEach (plugin_types m) (λ t,
    match m_plugins m !! t with
    | Some (_, Some plugin) => modify (plugin_invalidate plugin)
    | _ => throw UndefinedBehaviour
    end).

Definition checkPolicyType (m : PluginManager Plugin) (pType : PolicyType) : outcome unit :=
  match m_plugins m !! pType with
  | Some (_, Some _) => Ret tt
  | _ => Throw (UnknownPolicyTypeException pType)
  end.

(** [insert]: the first plugin of a type stays. *)
Definition insertPlugin (plugin : Plugin) (desc : PolicyDescription) (m : PluginManager Plugin) : PluginManager Plugin :=
  match m_plugins m !! type desc with
  | Some _ => m
  | None => mkPluginManager (<[type desc := (name desc, Some plugin)]> (m_plugins m))
  end.

(** A library that can not be opened or creates no plugin is [None]. *)
Definition openPlugin (library : option Plugin) : SE (PluginManager Plugin) unit :=
  match library with
  | None => mret tt
  | Some plugin => forEach (getSupportedPolicyDescr plugin) (λ desc, modify (insertPlugin plugin desc))
  end.

(** The libraries of the directory in alphabetical order; none when it can not be read. *)
Definition loadPlugins (libraries : list (option Plugin)) : SE (PluginManager Plugin) unit :=
  forEach libraries openPlugin.

(** ** Null pointers *)

(** The table has an entry without a plugin for [t]. *)
Definition null_entry (t : PolicyType) (m : PluginManager Plugin) : Prop := ∃ n, m_plugins m !! t = Some (n, None).

Lemma getPlugin_null t m : m_plugins m !! t = None → (getPlugin t m).1 = Ret None ∧ null_entry t (getPlugin t m).2.
Proof. intros Ht. unfold getPlugin. rewrite Ht. split; [done|]. exists "". cbn. by rewrite lookup_insert_eq. Qed.

Lemma getPlugin_keeps_null t t' m : null_entry t m → null_entry t (getPlugin t' m).2.
Proof.
  intros [n Ht]. unfold getPlugin. destruct (m_plugins m !! t') as [[? ?]|] eqn:E; [by exists n|].
  exists n. cbn. rewrite lookup_insert_ne; [done|]. intros ->. by rewrite E in Ht.
Qed.

Lemma invalidateAll_null t m p : null_entry t m → (invalidateAll m p).1 = Throw UndefinedBehaviour.
Proof.
  intros [n Ht]. unfold invalidateAll.
  assert (t ∈ plugin_types m) as Hin.
  { unfold plugin_types. rewrite merge_sort_Permutation. apply elem_of_elements, elem_of_dom. by eexists. }
  revert p Hin. induction (plugin_types m) as [|t' ts IH]; intros p Hin; [by apply elem_of_nil in Hin|].
  cbn [forEach]. rewrite SE_bind_eq. apply elem_of_cons in Hin as [<-|Hin]; [by rewrite Ht|].
  destruct (m_plugins m !! t') as [[? [pl|]]|]; [|done..]. by apply IH.
Qed.
End PluginManager.
