(* ===== verification/CapacityCache.v ===== *)
(** * The client's cache of decisions ([client-common/cache], [client-common/plugins])

    [CapacityCache] keeps the last decisions of the service, the least recently used going
    first.  The list [m_keyUsage] has an identity per node, since [m_keyValue] points into
    it: an iterator is the number of its node, and using one whose node is gone is
    undefined.  [NaiveInterpreter] is the built-in plugin; the others are external code, [E]
    a pointer to one and [P] the state of all of them. *)
From S2P Require Import Prelude Text Types Api PluginManager.

Definition CACHE_DEFAULT_CAPACITY : nat := Z.to_nat 10000.

(** [typedef std::string ClientSession] *)
Abbreviation ClientSession := string (only parsing).

(** A plugin of the client: the built-in one or one from a library. *)
Inductive ClientPlugin (E : Type) := NaiveInterpreter | External (e : E).
Arguments NaiveInterpreter {E}.
Arguments External {E} _.

(** [ClientPluginInterface] of the external plugins; [isUsable] also gives its two output
    arguments, [toResult] its second one.  [isClientPlugin] is the [dynamic_pointer_cast]. *)
Class ClientPlugins (E P : Type) := {
  client_descr : E → list PolicyDescription;
  client_invalidate : E → P → P;
  isClientPlugin : E → bool;
  ext_isUsable : E → ClientSession → ClientSession → PolicyResult → P → (bool * bool * PolicyResult) * P;
  ext_isCacheable : E → ClientSession → PolicyResult → P → bool * P;
  ext_toResult : E → ClientSession → PolicyResult → P → (Z * PolicyResult) * P;
}.

(** A value of [m_keyValue]; [usageIt] is an iterator into [m_keyUsage]. *)
Record CachedValue := mkCachedValue { cachedResult : PolicyResult; prevSession : ClientSession; usageIt : nat }.

Record CapacityCache (E P : Type) := mkCapacityCache {
  m_capacity : nat;
  m_keyUsage : list (nat * string);
  m_keyValue : gmap string CachedValue;
  nextNode : nat;
  m_clientPlugins : gmap PolicyType (ClientPlugin E);
  m_clientPluginManager : PluginManager E;
  clientPluginState : P;
}.
Arguments mkCapacityCache {E P}.
Arguments m_capacity {E P} _.
Arguments m_keyUsage {E P} _.
Arguments m_keyValue {E P} _.
Arguments nextNode {E P} _.
Arguments m_clientPlugins {E P} _.
Arguments m_clientPluginManager {E P} _.
Arguments clientPluginState {E P} _.

Definition keyToString (key : PolicyKey) : string :=
  let separator := Ascii.ascii_of_nat 1 in
  let clientStr := value (client key) in
  let privilegeStr := value (privilege key) in
  let userStr := value (user key) in
  clientStr +:+ privilegeStr +:+ userStr +:+ String separator
    (to_string (String.length clientStr) +:+ String separator
      (to_string (String.length privilegeStr) +:+ String separator
        (to_string (String.length userStr)))).

Section cache.
Context {E P : Type} `{CP : !ClientPlugins E P}.

Abbreviation Cache := (SE (CapacityCache E P)) (only parsing).
Implicit Types c : CapacityCache E P.

(** Setters of the model. *)
Definition setUsage (u : list (nat * string)) c : CapacityCache E P :=
  mkCapacityCache (m_capacity c) u (m_keyValue c) (nextNode c) (m_clientPlugins c) (m_clientPluginManager c) (clientPluginState c).
Definition setKeyValue (m : gmap string CachedValue) c : CapacityCache E P :=
  mkCapacityCache (m_capacity c) (m_keyUsage c) m (nextNode c) (m_clientPlugins c) (m_clientPluginManager c) (clientPluginState c).
Definition setNextNode (n : nat) c : CapacityCache E P :=
  mkCapacityCache (m_capacity c) (m_keyUsage c) (m_keyValue c) n (m_clientPlugins c) (m_clientPluginManager c) (clientPluginState c).
Definition setClientPlugins (ps : gmap PolicyType (ClientPlugin E)) c : CapacityCache E P :=
  mkCapacityCache (m_capacity c) (m_keyUsage c) (m_keyValue c) (nextNode c) ps (m_clientPluginManager c) (clientPluginState c).
Definition setClientPluginManager (pm : PluginManager E) c : CapacityCache E P :=
  mkCapacityCache (m_capacity c) (m_keyUsage c) (m_keyValue c) (nextNode c) (m_clientPlugins c) pm (clientPluginState c).
Definition setClientPluginState (p : P) c : CapacityCache E P :=
  mkCapacityCache (m_capacity c) (m_keyUsage c) (m_keyValue c) (nextNode c) (m_clientPlugins c) (m_clientPluginManager c) p.

(** [std::list]: the node of an iterator moves to the front, or is erased. *)
Definition spliceFront (it : nat) : Cache unit := λ c,
  match filter (λ n, n.1 = it) (m_keyUsage c) with
  | n :: _ => (Ret tt, setUsage (n :: filter (λ n, n.1 ≠ it) (m_keyUsage c)) c)
  | [] => (Throw UndefinedBehaviour, c)
  end.
Definition eraseUsage (it : nat) : Cache unit := λ c,
  match filter (λ n, n.1 = it) (m_keyUsage c) with
  | _ :: _ => (Ret tt, setUsage (filter (λ n, n.1 ≠ it) (m_keyUsage c)) c)
  | [] => (Throw UndefinedBehaviour, c)
  end.
Definition pushFront (key : string) : Cache nat := λ c,
  (Ret (nextNode c), setNextNode (S (nextNode c)) (setUsage ((nextNode c, key) :: m_keyUsage c) c)).
Definition eraseKey (key : string) : Cache unit := modify (λ c, setKeyValue (delete key (m_keyValue c)) c).
Definition setValue (key : string) (v : CachedValue) : Cache unit :=
  modify (λ c, setKeyValue (<[key := v]> (m_keyValue c)) c).

(** The methods of a plugin. *)
Definition onPlugins {A} (f : P → A * P) : Cache A := λ c,
  let '(a, p) := f (clientPluginState c) in (Ret a, setClientPluginState p c).
Definition isUsable (plugin : ClientPlugin E) (session prev : ClientSession) (r : PolicyResult) :
    P → (bool * bool * PolicyResult) * P :=
  match plugin with
  | NaiveInterpreter => λ p, ((true, false, r), p)
  | External e => ext_isUsable e session prev r
  end.
Definition isCacheable (plugin : ClientPlugin E) (session : ClientSession) (r : PolicyResult) : P → bool * P :=
  match plugin with
  | NaiveInterpreter => λ p, (true, p)
  | External e => ext_isCacheable e session r
  end.
Definition naive_toResult (r : PolicyResult) : Z :=
  if (policyType r =? ALLOW)%Z then CYNARA_API_ACCESS_ALLOWED else CYNARA_API_ACCESS_DENIED.
Definition toResult (plugin : ClientPlugin E) (session : ClientSession) (r : PolicyResult) : P → (Z * PolicyResult) * P :=
  match plugin with
  | NaiveInterpreter => λ p, ((naive_toResult r, r), p)
  | External e => ext_toResult e session r
  end.

Definition findPlugin (policyType : PolicyType) : Cache (option (ClientPlugin E)) := λ c,
  match m_clientPlugins c !! policyType with
  | Some plugin => (Ret (Some plugin), c)
  | None =>
      let '(r, pm) := getPlugin policyType (m_clientPluginManager c) in
      ((plugin ← r; Ret (e ← plugin; if isClientPlugin e then Some (External e) else None)),
       setClientPluginManager pm c)
  end.

Definition registerPlugin (descr : PolicyDescription) (plugin : ClientPlugin E) : Cache unit :=
  modify (λ c, setClientPlugins (<[type descr := plugin]> (m_clientPlugins c)) c).

Definition cache_get (session : ClientSession) (key : PolicyKey) : Cache Z :=
  let cacheKey := keyToString key in
  c ← get;
  match m_keyValue c !! cacheKey with
  | None => mret CYNARA_API_CACHE_MISS
  | Some v =>
      plugin ← findPlugin (policyType (cachedResult v));
      match plugin with
      | None => mret CYNARA_API_ACCESS_DENIED
      | Some plugin =>
          answer ← onPlugins (isUsable plugin session (prevSession v) (cachedResult v));
          let '(usable, updateSession, r) := answer in
          setValue cacheKey (mkCachedValue r (prevSession v) (usageIt v)) ;;
          if usable : bool then
            spliceFront (usageIt v) ;;
            let prev := if updateSession : bool then session else prevSession v in
            setValue cacheKey (mkCachedValue r prev (usageIt v)) ;;
            result ← onPlugins (toResult plugin session r);
            setValue cacheKey (mkCachedValue result.2 prev (usageIt v)) ;;
            mret result.1
          else
            eraseUsage (usageIt v) ;;
            eraseKey cacheKey ;;
            mret CYNARA_API_CACHE_MISS
      end
  end.

(** The last plugins' [invalidate]: the built-in one does nothing. *)
Definition cache_clear : Cache unit :=
  modify (λ c, setKeyValue ∅ (setUsage [] c)) ;;
  (λ c, let '(r, p) := invalidateAll client_invalidate (m_clientPluginManager c) (clientPluginState c) in
        (r, setClientPluginState p c)) ;;
  c ← get;
  forEach (merge_sort Z.le (elements (dom (m_clientPlugins c)))) (λ t,
    match m_clientPlugins c !! t with
    | Some (External e) => modify (λ c, setClientPluginState (client_invalidate e (clientPluginState c)) c)
    | _ => mret tt
    end).

(** [back()] of an empty list, [erase(end())]: undefined *)
Definition evict : Cache unit := λ c,
  match last (m_keyUsage c) with
  | None => (Throw UndefinedBehaviour, c)
  | Some (_, lastUsedKey) =>
      let c := setUsage (removelast (m_keyUsage c)) c in
      match m_keyValue c !! lastUsedKey with
      | None => (Throw UndefinedBehaviour, c)
      | Some _ => (Ret tt, setKeyValue (delete lastUsedKey (m_keyValue c)) c)
      end
  end.

(** The part of [update] for a cacheable result; [resultIt], looked up before [evict], is
    [found]. *)
Definition store (session : ClientSession) (cacheKey : string) (found : bool) (storedResult : PolicyResult) : Cache unit :=
  c ← get;
  (if size (m_keyValue c) =? m_capacity c then evict else mret tt) ;;
  c ← get;
  front ← (if found then
             match m_keyValue c !! cacheKey with
             | Some v => spliceFront (usageIt v) ;; mret (usageIt v)
             | None => throw UndefinedBehaviour
             end
           else pushFront cacheKey);
  setValue cacheKey (mkCachedValue storedResult session front).

Definition cache_update (session : ClientSession) (key : PolicyKey) (result : PolicyResult) : Cache Z :=
  plugin ← findPlugin (policyType result);
  match plugin with
  | None => mret CYNARA_API_ACCESS_DENIED
  | Some plugin =>
      c ← get;
      (if 0 <? m_capacity c then
         let cacheKey := keyToString key in
         let resultIt := m_keyValue c !! cacheKey in
         cacheable ← onPlugins (isCacheable plugin session result);
         if cacheable : bool then store session cacheKey (bool_decide (is_Some resultIt)) result
         else
           match resultIt with
           | Some v => eraseUsage (usageIt v) ;; eraseKey cacheKey
           | None => mret tt
           end
       else mret tt) ;;
      answer ← onPlugins (toResult plugin session result);
      mret answer.1
  end.

(** The constructor, with the libraries of the plugin directory. *)
Definition CapacityCache_new (capacity : nat) (libraries : list (option E)) (p : P) : CapacityCache E P :=
  mkCapacityCache capacity [] ∅ 0 ∅ (loadPlugins client_descr libraries PluginManager_new).2 p.
End cache.
