(* ===== verification/CacheTheorems.v ===== *)
(** * The cache is a least-recently-used list

    The abstract cache is a list of keys with their values, the last used first.  Under
    [cache_ok] every operation of the code on its map, list and iterators is the operation
    on that list, and none uses an iterator that is gone. *)
From S2P Require Import Prelude Text Types Api PluginManager CapacityCache.

(** ** Keys *)

Lemma lacks_split_inj_r c a b a' b' :
  lacks c b → lacks c b' → a +:+ String c b = a' +:+ String c b' → a = a' ∧ b = b'.
Proof.
  intros Hb Hb'. revert a'. induction a as [|x a IH]; intros [|y a']; rewrite ?str_app_nil_l, ?str_app_cons; intros E.
  - by injection E.
  - injection E as <- ->. apply lacks_app in Hb as [_ Hb]. by apply lacks_cons in Hb as [? _].
  - injection E as -> <-. apply lacks_app in Hb' as [_ Hb']. by apply lacks_cons in Hb' as [? _].
  - injection E as <- E. by destruct (IH a' E) as [-> ->].
Qed.

(** Keys do not collide: two keys with the same string in the cache have the same client,
    user and privilege, whatever characters they consist of. *)
Lemma keyToString_inj k1 k2 : keyToString k1 = keyToString k2 → k1 = k2.
Proof.
  destruct k1 as [[c1] [u1] [p1]], k2 as [[c2] [u2] [p2]]. unfold keyToString. cbn [value client user privilege].
  intros E. set (sep := Ascii.ascii_of_nat 1) in *.
  assert (∀ n, lacks sep (to_string n)) as Hlacks by (intros n; by apply to_string_lacks).
  assert (∀ c u p, c +:+ p +:+ u +:+ String sep (to_string (String.length c) +:+ String sep
      (to_string (String.length p) +:+ String sep (to_string (String.length u)))) =
    (((c +:+ p +:+ u) +:+ String sep (to_string (String.length c))) +:+ String sep (to_string (String.length p))) +:+
      String sep (to_string (String.length u))) as Hshape.
  { intros. by rewrite !str_app_assoc, !str_app_cons. }
  rewrite !Hshape in E. repeat (apply lacks_split_inj_r in E as [E ?%to_string_inj]; [|done..]).
  apply str_app_inj_length in E as [-> E]; [|done]. by apply str_app_inj_length in E as [-> ->].
Qed.

(** ** The abstract cache *)

Section lru.
Context {E P : Type} `{CP : !ClientPlugins E P}.
Implicit Types (c : CapacityCache E P) (l : list (string * (PolicyResult * string))).

(** Nodes have identities of their own, and keys and nodes point to each other. *)
Record cache_ok c : Prop := {
  ok_ids : NoDup (m_keyUsage c).*1;
  ok_next : ∀ n, n ∈ m_keyUsage c → n.1 < nextNode c;
  ok_keys : NoDup (m_keyUsage c).*2;
  ok_nodes : ∀ it k, (it, k) ∈ m_keyUsage c ↔ ∃ v, m_keyValue c !! k = Some v ∧ usageIt v = it;
  ok_size : size (m_keyValue c) ≤ m_capacity c;
}.

(** The entries, the last used first. *)
Definition entry (m : gmap string CachedValue) (k : string) : option (string * (PolicyResult * string)) :=
  (λ v, (k, (cachedResult v, prevSession v))) <$> m !! k.
Definition lru c : list (string * (PolicyResult * string)) := omap (entry (m_keyValue c)) (m_keyUsage c).*2.

Definition without (k : string) l := filter (λ x, x.1 ≠ k) l.
Definition lru_find (k : string) l : option (PolicyResult * string) := snd <$> head (filter (λ x, x.1 = k) l).

Lemma filter_ext_elem {A} (P1 P2 : A → Prop) `{!∀ x, Decision (P1 x), !∀ x, Decision (P2 x)} (xs : list A) :
  (∀ x, x ∈ xs → P1 x ↔ P2 x) → filter P1 xs = filter P2 xs.
Proof.
  induction xs as [|x xs IH]; intros H12; [done|]. rewrite !filter_cons.
  rewrite IH by (intros y Hy; apply H12; by right). specialize (H12 x ltac:(by left)).
  repeat case_decide; tauto.
Qed.

Lemma filter_all {A} (P1 : A → Prop) `{!∀ x, Decision (P1 x)} (xs : list A) : (∀ x, x ∈ xs → P1 x) → filter P1 xs = xs.
Proof.
  induction xs as [|x xs IH]; intros Hall; [done|]. rewrite filter_cons_True by (apply Hall; by left).
  f_equal. apply IH. intros y Hy. apply Hall. by right.
Qed.

Lemma node_of c it k k' : cache_ok c → (it, k) ∈ m_keyUsage c → (it, k') ∈ m_keyUsage c → k = k'.
Proof.
  intros Hok (v & Hv & Hi)%(ok_nodes c Hok) Hin'. pose proof (ok_ids c Hok) as Hnd.
  assert ((it, k) ∈ m_keyUsage c) as Hin by (apply (ok_nodes c Hok); by exists v).
  apply list_elem_of_lookup in Hin as [i Hn]; apply list_elem_of_lookup in Hin' as [j Hj].
  assert (i = j) as -> by (apply (NoDup_lookup _ i j it Hnd); by rewrite list_lookup_fmap, ?Hn, ?Hj). congruence.
Qed.

Lemma key_node c it it' k : cache_ok c → (it, k) ∈ m_keyUsage c → (it', k) ∈ m_keyUsage c → it = it'.
Proof. intros Hok (v & Hv & <-)%(ok_nodes c Hok) (v' & Hv' & <-)%(ok_nodes c Hok). congruence. Qed.

(** An iterator of the map is a node of its own, and leaving it out leaves out its key. *)
Lemma filter_node c k v : cache_ok c → m_keyValue c !! k = Some v →
  (∃ rest, filter (λ n, n.1 = usageIt v) (m_keyUsage c) = (usageIt v, k) :: rest) ∧
  filter (λ n, n.1 ≠ usageIt v) (m_keyUsage c) = filter (λ n, n.2 ≠ k) (m_keyUsage c).
Proof.
  intros Hok Hv. assert ((usageIt v, k) ∈ m_keyUsage c) as Hin by (apply (ok_nodes c Hok); by exists v). split.
  - destruct (filter (λ n, n.1 = usageIt v) (m_keyUsage c)) as [|[it' k'] rest] eqn:Hf.
    + exfalso. apply (not_elem_of_nil (usageIt v, k)). rewrite <-Hf. by apply list_elem_of_filter.
    + assert ((it', k') ∈ filter (λ n, n.1 = usageIt v) (m_keyUsage c)) as Hin' by (rewrite Hf; by left).
      apply list_elem_of_filter in Hin' as [Hit Hin']. cbn in Hit. subst it'. exists rest.
      by rewrite (node_of c _ _ _ Hok Hin' Hin).
  - apply filter_ext_elem. intros [it' k'] Hin'. cbn. split; intros Hne ->; apply Hne.
    + by eapply key_node.
    + by eapply node_of.
Qed.

Lemma omap_without m k (ks : list string) : omap (entry m) (filter (λ x, x ≠ k) ks) = without k (omap (entry m) ks).
Proof.
  induction ks as [|x ks IH]; [done|].
  assert (∀ ks, omap (entry m) (x :: ks) =
    match m !! x with Some v => (x, (cachedResult v, prevSession v)) :: omap (entry m) ks | None => omap (entry m) ks end) as Hc.
  { intros ks'. cbn [omap list_omap]. unfold entry at 1. by destruct (m !! x). }
  rewrite filter_cons, Hc. unfold without in *. case_decide as Hx.
  - rewrite Hc, IH. destruct (m !! x); [|done]. by rewrite filter_cons_True.
  - rewrite IH. destruct (m !! x); [|done]. rewrite filter_cons_False; [done|]. cbn. tauto.
Qed.

Lemma omap_ext_notin m m' (ks : list string) : (∀ k, k ∈ ks → m !! k = m' !! k) → omap (entry m) ks = omap (entry m') ks.
Proof.
  induction ks as [|x ks IH]; intros Hm; [done|]. cbn [omap list_omap]. unfold entry. rewrite (Hm x) by (by left).
  destruct (m' !! x); cbn; [f_equal|]; apply IH; intros; apply Hm; by right.
Qed.

Lemma keys_filter (u : list (nat * string)) k : (filter (λ n, n.2 ≠ k) u).*2 = filter (λ x, x ≠ k) u.*2.
Proof. induction u as [|[i x] u IH]; [done|]. rewrite fmap_cons, !filter_cons. cbn. case_decide; by rewrite ?fmap_cons, IH. Qed.

Lemma not_in_filtered (u : list (nat * string)) k it : (it, k) ∉ filter (λ n, n.2 ≠ k) u.
Proof. intros [Hne _]%list_elem_of_filter. by apply Hne. Qed.

(** ** The operations *)

Lemma remove_ok c k :
  cache_ok c →
  let c' := setKeyValue (delete k (m_keyValue c)) (setUsage (filter (λ n, n.2 ≠ k) (m_keyUsage c)) c) in
  cache_ok c' ∧ lru c' = without k (lru c).
Proof.
  intros Hok c'. split.
  - split; cbn.
    + eapply sublist_NoDup; [apply (ok_ids c Hok)|]. apply fmap_sublist, sublist_filter.
    + intros n [_ Hn]%list_elem_of_filter. by apply (ok_next c Hok).
    + rewrite keys_filter. apply NoDup_filter, (ok_keys c Hok).
    + intros it k'. rewrite list_elem_of_filter, (ok_nodes c Hok). cbn. setoid_rewrite lookup_delete_Some. naive_solver.
    + pose proof (ok_size c Hok). rewrite map_size_delete. destruct (m_keyValue c !! k); cbn; lia.
  - unfold lru. cbn. rewrite keys_filter, <-!omap_without. apply omap_ext_notin.
    intros k' [Hne _]%list_elem_of_filter. by rewrite lookup_delete_ne.
Qed.

(** A value that keeps its node. *)
Lemma revalue_ok c k v r s :
  cache_ok c → m_keyValue c !! k = Some v →
  let c' := setKeyValue (<[k := mkCachedValue r s (usageIt v)]> (m_keyValue c)) c in
  cache_ok c' ∧ m_keyValue c' !! k = Some (mkCachedValue r s (usageIt v)) ∧ without k (lru c') = without k (lru c).
Proof.
  intros Hok Hv c'. split; [|split].
  - destruct Hok as [H1 H2 H3 H4 H5]. split; cbn; try done.
    + intros it k'. rewrite H4. destruct (decide (k' = k)) as [->|Hne].
      * rewrite lookup_insert_eq. split; [intros (v' & Hv' & <-)|intros (v' & [= <-] & <-)].
        -- eexists. split; [done|]. cbn. congruence.
        -- by exists v.
      * by rewrite lookup_insert_ne.
    + by rewrite map_size_insert_Some by (by exists v).
  - cbn. by rewrite lookup_insert_eq.
  - unfold lru. cbn [m_keyValue m_keyUsage setKeyValue]. rewrite <-!omap_without. apply omap_ext_notin.
    intros k' [Hne _]%list_elem_of_filter. unfold c'. cbn [m_keyValue setKeyValue]. by rewrite lookup_insert_ne.
Qed.

Lemma splice_ok c k v :
  cache_ok c → m_keyValue c !! k = Some v →
  ∃ c', spliceFront (usageIt v) c = (Ret tt, c') ∧ cache_ok c' ∧ m_keyValue c' = m_keyValue c ∧
    lru c' = (k, (cachedResult v, prevSession v)) :: without k (lru c) ∧
    ∃ u, c' = setUsage u c ∧ head u = Some (usageIt v, k).
Proof.
  intros Hok Hv. destruct (filter_node c k v Hok Hv) as [[rest Hf] Hne]. unfold spliceFront. rewrite Hf, Hne.
  eexists. split; [done|]. split; [|split; [done|split; [|by eexists]]].
  - split; cbn.
    + apply NoDup_cons. split; [|eapply sublist_NoDup; [apply (ok_ids c Hok)|apply fmap_sublist, sublist_filter]].
      intros ([it k'] & Heq & [Hk Hin]%list_elem_of_filter)%list_elem_of_fmap. cbn in *. subst it. apply Hk.
      eapply node_of; [done|exact Hin|]. apply (ok_nodes c Hok). by exists v.
    + intros n [->|[_ Hn]%list_elem_of_filter]%elem_of_cons; [|by apply (ok_next c Hok)].
      apply (ok_next c Hok), (ok_nodes c Hok). by exists v.
    + apply NoDup_cons. rewrite keys_filter. split; [|apply NoDup_filter, (ok_keys c Hok)].
      intros [Hk _]%list_elem_of_filter. by apply Hk.
    + intros it k'. rewrite elem_of_cons, list_elem_of_filter, (ok_nodes c Hok). cbn. split.
      * intros [[= -> ->]|[_ ?]]; [by exists v|done].
      * intros (v' & Hv' & <-). destruct (decide (k' = k)) as [->|Hk]; [|right; eauto].
        left. congruence.
    + apply (ok_size c Hok).
  - unfold lru. cbn. rewrite keys_filter, omap_without. unfold entry at 1. by rewrite Hv.
Qed.

Lemma erase_ok c k v :
  cache_ok c → m_keyValue c !! k = Some v →
  ∃ c', (∀ A (f : SE (CapacityCache E P) A), (eraseUsage (usageIt v) ;; eraseKey k ;; f) c = f c') ∧ cache_ok c' ∧
    lru c' = without k (lru c).
Proof.
  intros Hok Hv. destruct (filter_node c k v Hok Hv) as [[rest Hf] Hne]. eexists. split.
  { intros A f. rewrite SE_bind_eq. unfold eraseUsage. rewrite Hf, Hne. reflexivity. }
  exact (remove_ok c k Hok).
Qed.

Lemma length_usage c : cache_ok c → length (m_keyUsage c) = size (m_keyValue c).
Proof.
  intros Hok. rewrite <-size_dom, <-(length_fmap snd). rewrite <-(size_list_to_set (C:=gset string)) by apply (ok_keys c Hok).
  f_equal. apply set_eq. intros k. rewrite elem_of_list_to_set, elem_of_dom, list_elem_of_fmap. split.
  - intros ([it k'] & -> & (v & Hv & _)%(ok_nodes c Hok)). by exists v.
  - intros [v Hv]. exists (usageIt v, k). split; [done|]. apply (ok_nodes c Hok). by exists v.
Qed.

Lemma evict_ok c :
  cache_ok c → m_keyUsage c ≠ [] →
  ∃ c' k, evict c = (Ret tt, c') ∧ cache_ok c' ∧ lru c' = removelast (lru c) ∧
    (∃ it u, m_keyUsage c = u ++ [(it, k)]) ∧ m_keyValue c' = delete k (m_keyValue c) ∧ m_capacity c' = m_capacity c ∧
    size (m_keyValue c') < size (m_keyValue c).
Proof.
  intros Hok Hne. destruct (exists_last Hne) as (u & [it k] & Hu).
  assert ((it, k) ∈ m_keyUsage c) as Hin by (rewrite Hu; apply elem_of_app; right; by left).
  destruct (proj1 (ok_nodes c Hok it k) Hin) as (v & Hv & Hit).
  unfold evict. rewrite Hu, last_snoc, removelast_last. cbn [m_keyValue setUsage]. rewrite Hv.
  destruct (remove_ok c k Hok) as [Hok' Hlru'].
  assert (filter (λ n, n.2 ≠ k) (m_keyUsage c) = u) as Hfu.
  { pose proof (ok_keys c Hok) as Hnd. rewrite Hu, fmap_app in Hnd. apply NoDup_app in Hnd as (_ & Hd & _).
    rewrite Hu, filter_app, filter_cons_False, app_nil_r by (cbn; tauto). apply filter_all.
    intros n Hn Heq. apply (Hd n.2); [by apply list_elem_of_fmap_2|]. rewrite Heq. by left. }
  rewrite Hfu in *. eexists _, k. split; [reflexivity|]. split; [done|]. split; [|split; [by exists it, u|split; [done|split; [done|]]]].
  - change (lru (setKeyValue (delete k (m_keyValue c)) (setUsage u c)) = removelast (lru c)). unfold lru. cbn.
    rewrite Hu, fmap_app, omap_app. cbn. unfold entry at 3. rewrite Hv. cbn. rewrite removelast_last.
    apply omap_ext_notin. intros k' Hk'. rewrite lookup_delete_ne; [done|]. intros <-.
    pose proof (ok_keys c Hok) as Hnd. rewrite Hu, fmap_app in Hnd. apply NoDup_app in Hnd as (_ & Hd & _).
    apply (Hd k Hk'). by left.
  - cbn. rewrite map_size_delete, Hv. cbn. assert (size (m_keyValue c) ≠ 0) as Hs; [|lia].
    intros Hz%map_size_empty_inv. by rewrite Hz, lookup_empty in Hv.
Qed.

Lemma push_ok c k r s :
  cache_ok c → m_keyValue c !! k = None → size (m_keyValue c) < m_capacity c →
  let c' := setKeyValue (<[k := mkCachedValue r s (nextNode c)]> (m_keyValue c))
              (setNextNode (S (nextNode c)) (setUsage ((nextNode c, k) :: m_keyUsage c) c)) in
  cache_ok c' ∧ lru c' = (k, (r, s)) :: lru c.
Proof.
  intros Hok Hk Hsize c'. assert (∀ it, (it, k) ∉ m_keyUsage c) as Hnot.
  { intros it (v & Hv & _)%(ok_nodes c Hok). by rewrite Hk in Hv. }
  split.
  - split; cbn.
    + apply NoDup_cons. split; [|apply (ok_ids c Hok)]. intros ([it k'] & Heq & Hin)%list_elem_of_fmap.
      apply (ok_next c Hok) in Hin. cbn in *. lia.
    + intros n [->|Hn]%elem_of_cons; [cbn; lia|]. apply (ok_next c Hok) in Hn. lia.
    + apply NoDup_cons. split; [|apply (ok_keys c Hok)]. intros ([it k'] & -> & Hin)%list_elem_of_fmap. by eapply Hnot.
    + intros it k'. rewrite elem_of_cons, (ok_nodes c Hok). destruct (decide (k' = k)) as [->|Hne].
      * rewrite lookup_insert_eq, Hk. split.
        -- intros [[= ->]|(v & Hv & _)]; [|done]. by eexists.
        -- intros (v & [= <-] & <-). by left.
      * rewrite lookup_insert_ne by done. split; [intros [[= _ ->]|?]; done|by right].
    + rewrite map_size_insert, Hk. cbn. lia.
  - unfold lru. cbn. unfold entry at 1. rewrite lookup_insert_eq. cbn. f_equal. apply omap_ext_notin.
    intros k' ([it k''] & -> & Hin)%list_elem_of_fmap. cbn. rewrite lookup_insert_ne; [done|]. intros ->. by eapply Hnot.
Qed.

(** ** The whole operations *)

(** The plugin for a type, [None] for a null pointer. *)
Definition plugin_for c (t : PolicyType) : option (ClientPlugin E) :=
  match m_clientPlugins c !! t with
  | Some plugin => Some plugin
  | None =>
      match m_plugins (m_clientPluginManager c) !! t with
      | Some (_, Some e) => if isClientPlugin e then Some (External e) else None
      | _ => None
      end
  end.

(** Changes that do not concern the entries. *)
Definition same_entries c c' : Prop :=
  m_capacity c' = m_capacity c ∧ m_keyUsage c' = m_keyUsage c ∧ m_keyValue c' = m_keyValue c ∧ nextNode c' = nextNode c.

Lemma same_entries_ok c c' : same_entries c c' → cache_ok c → cache_ok c' ∧ lru c' = lru c.
Proof.
  intros (H1 & H2 & H3 & H4) [? ? ? ? ?]. split; [|unfold lru; by rewrite H2, H3].
  split; rewrite ?H1, ?H2, ?H3, ?H4; done.
Qed.

Lemma findPlugin_eq t c : ∃ c1, findPlugin t c = (Ret (plugin_for c t), c1) ∧ same_entries c c1 ∧
  clientPluginState c1 = clientPluginState c.
Proof.
  unfold findPlugin, plugin_for, getPlugin. destruct (m_clientPlugins c !! t); [by eexists|].
  destruct (m_plugins (m_clientPluginManager c) !! t) as [[n [e|]]|]; (eexists; split; [reflexivity|]); done.
Qed.

(** What [get] answers and leaves. *)
Definition lru_get (plugin : PolicyType → option (ClientPlugin E)) (p : P) (session : string) (k : string) l :
    Z * list (string * (PolicyResult * string)) :=
  match lru_find k l with
  | None => (CYNARA_API_CACHE_MISS, l)
  | Some (r, prev) =>
      match plugin (policyType r) with
      | None => (CYNARA_API_ACCESS_DENIED, l)
      | Some plugin =>
          let '((usable, updateSession, r), p) := isUsable plugin session prev r p in
          if usable : bool then
            let '((answer, r), p) := toResult plugin session r p in
            (answer, (k, (r, if updateSession : bool then session else prev)) :: without k l)
          else (CYNARA_API_CACHE_MISS, without k l)
      end
  end.

(** What [update] leaves of a cacheable result; [None]: an iterator to an evicted entry. *)
Definition lru_store (capacity : nat) (k : string) (e : PolicyResult * string) l :
    option (list (string * (PolicyResult * string))) :=
  let l' := if length l =? capacity then removelast l else l in
  match lru_find k l, lru_find k l' with
  | Some _, None => None
  | _, _ => Some ((k, e) :: without k l')
  end.

Definition lru_update (plugin : PolicyType → option (ClientPlugin E)) (p : P) (capacity : nat) (session : string)
    (k : string) (result : PolicyResult) l : option (Z * list (string * (PolicyResult * string))) :=
  match plugin (policyType result) with
  | None => Some (CYNARA_API_ACCESS_DENIED, l)
  | Some plugin =>
      if capacity =? 0 then Some ((toResult plugin session result p).1.1, l)
      else
        let '(cacheable, p) := isCacheable plugin session result p in
        let answer := (toResult plugin session result p).1.1 in
        if cacheable : bool then pair answer <$> lru_store capacity k (result, session) l
        else Some (answer, without k l)
  end.

Lemma lru_find_lookup c k : cache_ok c → lru_find k (lru c) = (λ v, (cachedResult v, prevSession v)) <$> m_keyValue c !! k.
Proof.
  intros Hok. unfold lru_find.
  assert (∀ x, x ∈ filter (λ x, x.1 = k) (lru c) ↔ ∃ v, m_keyValue c !! k = Some v ∧ x = (k, (cachedResult v, prevSession v))) as Hmem.
  { intros x. rewrite list_elem_of_filter. unfold lru. rewrite list_elem_of_omap. unfold entry. split.
    - intros [Hk (k' & Hin & Hx)]. destruct (m_keyValue c !! k') as [v|] eqn:Hv; [|done]. injection Hx as <-. cbn in Hk.
      subst k'. by exists v.
    - intros (v & Hv & ->). split; [done|]. exists k. rewrite Hv. split; [|done]. apply list_elem_of_fmap.
      exists (usageIt v, k). split; [done|]. apply (ok_nodes c Hok). by exists v. }
  destruct (filter (λ x, x.1 = k) (lru c)) as [|x rest] eqn:Hf.
  - cbn. destruct (m_keyValue c !! k) as [v|] eqn:Hv; [|done]. exfalso. apply (not_elem_of_nil (k, (cachedResult v, prevSession v))).
    apply Hmem. by exists v.
  - destruct (proj1 (Hmem x) ltac:(by left)) as (v & -> & ->). done.
Qed.

Lemma onPlugins_eq {A} (f : P → A * P) c : onPlugins f c = (Ret (f (clientPluginState c)).1, setClientPluginState (f (clientPluginState c)).2 c).
Proof. unfold onPlugins. by destruct (f _). Qed.


Lemma lru_head c it k v : cache_ok c → head (m_keyUsage c) = Some (it, k) → m_keyValue c !! k = Some v →
  lru c = (k, (cachedResult v, prevSession v)) :: without k (lru c).
Proof.
  intros Hok Hh Hv. destruct (m_keyUsage c) as [|n u] eqn:Hu; [done|]. injection Hh as ->.
  pose proof (ok_keys c Hok) as Hnd. rewrite Hu in Hnd. apply NoDup_cons in Hnd as [Hk Hnd]. cbn in Hk.
  unfold lru. rewrite <-omap_without, Hu. cbn [fmap list_fmap snd]. rewrite filter_cons_False by (cbn; tauto).
  rewrite filter_all by (intros k' Hk' ->; by apply Hk). cbn [omap list_omap]. unfold entry at 1. by rewrite Hv.
Qed.

(** The end of a use of an entry: its node is in front, its value set twice. *)
Lemma use_ok c k v r prev r' prev' p :
  cache_ok c → m_keyValue c !! k = Some v →
  let it := usageIt v in
  ∃ c1, (∀ A (f : SE (CapacityCache E P) A),
      (setValue k (mkCachedValue r prev it) ;; spliceFront it ;; setValue k (mkCachedValue r prev' it) ;; f) c = f c1) ∧
    clientPluginState c1 = clientPluginState c ∧
    ∃ c2, setValue k (mkCachedValue r' prev' it) (setClientPluginState p c1) = (Ret tt, c2) ∧ cache_ok c2 ∧
      lru c2 = (k, (r', prev')) :: without k (lru c).
Proof.
  intros Hok Hv it. destruct (revalue_ok c k v r prev Hok Hv) as (Hok1 & Hv1 & Hw1).
  set (c1 := setKeyValue (<[k := mkCachedValue r prev it]> (m_keyValue c)) c) in *.
  destruct (splice_ok c1 k _ Hok1 Hv1) as (c2 & Hsp & Hok2 & Hkv2 & Hl2 & u & -> & Hu). cbn [usageIt] in *.
  assert (m_keyValue (setUsage u c1) !! k = Some (mkCachedValue r prev it)) as Hv2 by (by rewrite Hkv2).
  destruct (revalue_ok _ k _ r prev' Hok2 Hv2) as (Hok3 & Hv3 & Hw3). cbn [usageIt] in *.
  set (c3 := setKeyValue (<[k := mkCachedValue r prev' it]> (m_keyValue (setUsage u c1))) (setUsage u c1)) in *.
  exists c3. split; [|split; [done|]].
  - intros A f. rewrite SE_bind_eq. unfold setValue at 1, modify at 1. fold c1. rewrite SE_bind_eq. unfold it. by rewrite Hsp.
  - assert (cache_ok (setClientPluginState p c3) ∧ lru (setClientPluginState p c3) = lru c3) as [Hok4 Hl4].
    { by apply same_entries_ok. }
    destruct (revalue_ok (setClientPluginState p c3) k _ r' prev' Hok4 Hv3) as (Hok5 & Hv5 & Hw5). cbn [usageIt] in *.
    eexists. split; [reflexivity|]. split; [exact Hok5|]. rewrite (lru_head _ it k (mkCachedValue r' prev' it) Hok5 Hu Hv5).
    cbn [cachedResult prevSession]. rewrite Hw5, Hl4, Hw3, Hl2. unfold without. rewrite filter_cons_False by (cbn; tauto).
    rewrite list_filter_filter_l by done. f_equal. exact Hw1.
Qed.

Lemma cache_get_lru c session key : cache_ok c →
  let a := lru_get (plugin_for c) (clientPluginState c) session (keyToString key) (lru c) in
  ∃ c', cache_get session key c = (Ret a.1, c') ∧ cache_ok c' ∧ lru c' = a.2.
Proof.
  intros Hok. unfold lru_get, cache_get. set (k := keyToString key). rewrite (lru_find_lookup c k Hok), SE_bind_eq. cbn [get].
  destruct (m_keyValue c !! k) as [v|] eqn:Hv; cbn [fmap option_fmap option_map]; [|by exists c].
  destruct (findPlugin_eq (policyType (cachedResult v)) c) as (c1 & Hf & Hsame & Hp). rewrite SE_bind_eq, Hf.
  destruct (same_entries_ok _ _ Hsame Hok) as [Hok1 Hl1].
  destruct (plugin_for c _) as [pl|]; [|by exists c1]. rewrite SE_bind_eq, onPlugins_eq, Hp.
  destruct (isUsable pl session (prevSession v) (cachedResult v) (clientPluginState c)) as [[[usable upd] r] p1]. cbn [fst snd].
  assert (cache_ok (setClientPluginState p1 c1) ∧ lru (setClientPluginState p1 c1) = lru c1) as [Hok2 Hl2] by (by apply same_entries_ok).
  assert (m_keyValue (setClientPluginState p1 c1) !! k = Some v) as Hv2.
  { destruct Hsame as (_ & _ & Hkv & _). cbn. by rewrite Hkv. }
  destruct usable.
  - set (prev' := if upd then session else prevSession v).
    destruct (toResult pl session r p1) as [[answer r'] p2] eqn:Htr. cbn [fst snd].
    destruct (use_ok _ k v r (prevSession v) r' prev' p2 Hok2 Hv2) as (c3 & Hrun & Hp3 & c4 & Hset & Hok4 & Hl4).
    exists c4. split; [|split; [done|by rewrite Hl4, Hl2, Hl1]].
    etransitivity; [apply Hrun|]. rewrite SE_bind_eq, onPlugins_eq, Hp3. cbn [clientPluginState setClientPluginState].
    rewrite Htr. cbn [fst snd]. by rewrite SE_bind_eq, Hset.
  - cbn [fst snd]. destruct (revalue_ok _ k v r (prevSession v) Hok2 Hv2) as (Hok3 & Hv3 & Hw3).
    destruct (erase_ok _ k _ Hok3 Hv3) as (c4 & Hrun & Hok4 & Hl4). exists c4. split; [|by rewrite Hl4, Hw3, Hl2, Hl1].
    rewrite SE_bind_eq. unfold setValue at 1, modify at 1. exact (Hrun _ (mret CYNARA_API_CACHE_MISS)).
Qed.

Lemma length_lru c : cache_ok c → length (lru c) = size (m_keyValue c).
Proof.
  intros Hok. rewrite <-length_usage by done. unfold lru.
  assert (∀ k, k ∈ (m_keyUsage c).*2 → is_Some (m_keyValue c !! k)) as Hall.
  { intros k ([it k'] & -> & (v & Hv & _)%(ok_nodes c Hok))%list_elem_of_fmap. cbn. by exists v. }
  rewrite <-(length_fmap snd (m_keyUsage c)). induction (m_keyUsage c).*2 as [|k ks IH]; [done|].
  cbn [omap list_omap]. unfold entry at 1. destruct (Hall k ltac:(by left)) as [v ->]. cbn. f_equal.
  apply IH. intros k' Hk'. apply Hall. by right.
Qed.

Lemma lru_find_None c k : cache_ok c → m_keyValue c !! k = None → without k (lru c) = lru c.
Proof.
  intros Hok Hk. unfold without. apply filter_all. intros x Hx Heq.
  pose proof (lru_find_lookup c k Hok) as Hf. rewrite Hk in Hf. unfold lru_find in Hf.
  assert (x ∈ filter (λ x, x.1 = k) (lru c)) as Hin by (by apply list_elem_of_filter).
  destruct (filter (λ x, x.1 = k) (lru c)); [by apply elem_of_nil in Hin|done].
Qed.

(** Making room: a full cache loses its last entry. *)
Lemma make_room c : cache_ok c → 0 < m_capacity c →
  ∃ c', (if size (m_keyValue c) =? m_capacity c then evict else mret tt) c = (Ret tt, c') ∧ cache_ok c' ∧
    lru c' = (if length (lru c) =? m_capacity c then removelast (lru c) else lru c) ∧
    m_capacity c' = m_capacity c ∧ size (m_keyValue c') < m_capacity c ∧
    ∀ k, m_keyValue c !! k = None → m_keyValue c' !! k = None.
Proof.
  intros Hok Hcap. rewrite length_lru by done. pose proof (ok_size c Hok) as Hs.
  destruct (Nat.eqb_spec (size (m_keyValue c)) (m_capacity c)) as [Heq|Hne].
  - destruct (evict_ok c Hok) as (c' & k & He & Hok' & Hl & _ & Hkv & Hc & Hlt).
    { intros Hnil. apply (f_equal length) in Hnil. rewrite length_usage in Hnil by done. cbn in Hnil. lia. }
    exists c'. split; [done|]. split; [done|]. split; [done|]. split; [done|]. split; [lia|].
    intros k' Hk'. rewrite Hkv. destruct (decide (k = k')) as [->|?]; [by rewrite lookup_delete_eq|by rewrite lookup_delete_ne].
  - exists c. split; [done|]. split; [done|]. split; [done|]. split; [done|]. split; [lia|done].
Qed.

Lemma store_lru c session k r : cache_ok c → 0 < m_capacity c →
  match lru_store (m_capacity c) k (r, session) (lru c) with
  | Some l => ∃ c', store session k (bool_decide (is_Some (m_keyValue c !! k))) r c = (Ret tt, c') ∧ cache_ok c' ∧ lru c' = l
  | None => (store session k (bool_decide (is_Some (m_keyValue c !! k))) r c).1 = Throw UndefinedBehaviour
  end.
Proof.
  intros Hok Hcap. unfold lru_store, store. rewrite !SE_bind_eq. cbn [get].
  destruct (make_room c Hok Hcap) as (c1 & Hroom & Hok1 & Hl1 & Hc1 & Hlt & Hnone). rewrite <-Hl1.
  rewrite !lru_find_lookup by done. rewrite SE_bind_eq, Hroom, SE_bind_eq. cbn [get].
  destruct (m_keyValue c !! k) as [v|] eqn:Hv; cbn [fmap option_fmap option_map].
  - rewrite bool_decide_eq_true_2 by (by exists v).
    destruct (m_keyValue c1 !! k) as [v1|] eqn:Hv1; cbn [fmap option_fmap option_map]; [|done].
    destruct (splice_ok c1 k v1 Hok1 Hv1) as (c2 & Hsp & Hok2 & Hkv2 & Hl2 & u & -> & Hu).
    assert (m_keyValue (setUsage u c1) !! k = Some v1) as Hv2 by (by rewrite Hkv2).
    destruct (revalue_ok _ k v1 r session Hok2 Hv2) as (Hok3 & Hv3 & Hw3).
    eexists. rewrite SE_bind_eq, SE_bind_eq, Hsp. split; [reflexivity|]. split; [exact Hok3|].
    rewrite (lru_head _ (usageIt v1) k (mkCachedValue r session (usageIt v1)) Hok3 Hu Hv3). cbn [cachedResult prevSession].
    f_equal. rewrite Hw3, Hl2. unfold without. rewrite filter_cons_False by (cbn; tauto). by apply list_filter_filter_l.
  - rewrite bool_decide_eq_false_2 by (by intros [? ?]). rewrite (lru_find_None c1 k Hok1) by (by apply Hnone).
    destruct (push_ok c1 k r session Hok1 (Hnone k Hv)) as [Hok2 Hl2]; [lia|].
    eexists. split; [reflexivity|]. split; [exact Hok2|exact Hl2].
Qed.

(** The plugins do not take part in the bookkeeping. *)
Lemma bookkeeping_state p session k found r it :
  keeps (λ c, clientPluginState c = p) (store session k found r) ∧
  keeps (λ c, clientPluginState c = p) (eraseUsage it) ∧ keeps (λ c, clientPluginState c = p) (eraseKey k).
Proof.
  assert (∀ it, keeps (λ c, clientPluginState c = p) (spliceFront it)) as Hs.
  { intros it' c Hc. unfold spliceFront. by destruct (filter _ _). }
  assert (keeps (λ c, clientPluginState c = p) evict) as He.
  { intros c Hc. unfold evict. destruct (last _) as [[? ?]|]; [|done]. by destruct (m_keyValue _ !! _). }
  split_and!.
  - unfold store, setValue. keep; done.
  - intros c Hc. unfold eraseUsage. by destruct (filter _ _).
  - by apply keeps_modify.
Qed.

Lemma cache_update_lru c session key result : cache_ok c →
  match lru_update (plugin_for c) (clientPluginState c) (m_capacity c) session (keyToString key) result (lru c) with
  | Some a => ∃ c', cache_update session key result c = (Ret a.1, c') ∧ cache_ok c' ∧ lru c' = a.2
  | None => (cache_update session key result c).1 = Throw UndefinedBehaviour
  end.
Proof.
  intros Hok. unfold lru_update, cache_update. set (k := keyToString key).
  destruct (findPlugin_eq (policyType result) c) as (c1 & Hf & Hsame & Hp). rewrite SE_bind_eq, Hf.
  destruct (same_entries_ok _ _ Hsame Hok) as [Hok1 Hl1]. destruct Hsame as (Hc1 & _ & Hk1 & _).
  destruct (plugin_for c _) as [pl|]; [|by exists c1]. rewrite SE_bind_eq. cbn [get].
  rewrite Hc1, <-Hl1. destruct (Nat.eqb_spec (m_capacity c) 0) as [Hz|Hz].
  { rewrite Hz. cbn [Nat.ltb Nat.leb]. rewrite SE_bind_eq. cbn [mret SE_ret]. rewrite SE_bind_eq, onPlugins_eq, Hp.
    eexists. split; [reflexivity|]. by apply same_entries_ok. }
  destruct (Nat.ltb_spec 0 (m_capacity c)) as [_|]; [|lia].
  destruct (isCacheable pl session result (clientPluginState c)) as [cacheable p1] eqn:Hca.
  set (c2 := setClientPluginState p1 c1).
  assert (cache_ok c2 ∧ lru c2 = lru c1) as [Hok2 Hl2] by (by apply same_entries_ok).
  assert (∀ c3, clientPluginState c3 = p1 → cache_ok c3 →
    ∃ c', (answer ← onPlugins (toResult pl session result); mret answer.1) c3 =
      (Ret (toResult pl session result p1).1.1, c') ∧ cache_ok c' ∧ lru c' = lru c3) as Hend.
  { intros c3 Hp3 Hok3. rewrite SE_bind_eq, onPlugins_eq, Hp3. eexists. split; [reflexivity|]. by apply same_entries_ok. }
  rewrite SE_bind_eq, SE_bind_eq, onPlugins_eq, Hp, Hca. cbn [fst snd]. fold c2. rewrite <-Hl2.
  destruct cacheable.
  - pose proof (store_lru c2 session k result Hok2 ltac:(cbn; lia)) as Hst.
    change (m_capacity c2) with (m_capacity c1) in Hst. change (m_keyValue c2) with (m_keyValue c1) in Hst. rewrite Hc1 in Hst.
    pose proof (proj1 (bookkeeping_state p1 session k (bool_decide (is_Some (m_keyValue c1 !! k))) result 0) c2 eq_refl) as Hkp.
    destruct (lru_store _ _ _ _) as [l|]; cbn [fmap option_fmap option_map].
    + destruct Hst as (c3 & Hst & Hok3 & Hl3). rewrite Hst in Hkp |- *.
      destruct (Hend c3 Hkp Hok3) as (c4 & Hrun & Hok4 & Hl4). exists c4. cbn [fst snd]. by rewrite Hl4.
    + destruct (store _ _ _ _ _) as [r0 c3]. cbn [fst] in Hst. by subst r0.
  - change (m_keyValue c1) with (m_keyValue c2). destruct (m_keyValue c2 !! k) as [v|] eqn:Hv.
    + destruct (erase_ok c2 k v Hok2 Hv) as (c3 & Hrun & Hok3 & Hl3). specialize (Hrun unit (mret tt)).
      destruct (bookkeeping_state p1 session k true result (usageIt v)) as (_ & Hk2 & Hk3).
      pose proof (keeps_bind _ _ (λ _, eraseKey k ;; mret tt) Hk2
        (λ _, keeps_bind _ _ (λ _, mret tt) Hk3 (λ _, keeps_ret _ tt)) c2 eq_refl) as Hkp.
      rewrite Hrun in Hkp. destruct (Hend c3 Hkp Hok3) as (c4 & Hrun4 & Hok4 & Hl4). exists c4.
      split; [|split; [done|by rewrite Hl4, Hl3]]. rewrite SE_bind_eq in Hrun |- *.
      destruct (eraseUsage (usageIt v) c2) as [[[]|e|] c5]; [|done..]. rewrite SE_bind_eq in Hrun.
      unfold eraseKey, modify in Hrun |- *. cbn in Hrun. injection Hrun as ->. exact Hrun4.
    + destruct (Hend c2 eq_refl Hok2) as (c4 & Hrun4 & Hok4 & Hl4). exists c4. split; [exact Hrun4|]. split; [done|].
      by rewrite Hl4, lru_find_None.
Qed.
End lru.

(** C17: The cache is a least-recently-used list of bounded length: [get] answers from the
    entry of the key, moving it to the front or dropping it as its plugin says, and
    [update] puts the new result in front, dropping the last entry of a full cache first.
    The one case in which an iterator is used after its entry is gone is described: an
    update for a key that is itself the entry dropped. *)
Theorem cache_is_lru {E P : Type} `{CP : !ClientPlugins E P} (c : CapacityCache E P) session key :
  cache_ok c →
  let k := keyToString key in
  length (lru c) ≤ m_capacity c ∧
  (let a := lru_get (plugin_for c) (clientPluginState c) session k (lru c) in
   ∃ c', cache_get session key c = (Ret a.1, c') ∧ cache_ok c' ∧ lru c' = a.2) ∧
  (∀ result,
   match lru_update (plugin_for c) (clientPluginState c) (m_capacity c) session k result (lru c) with
   | Some a => ∃ c', cache_update session key result c = (Ret a.1, c') ∧ cache_ok c' ∧ lru c' = a.2
   | None => (cache_update session key result c).1 = Throw UndefinedBehaviour
   end).
Proof.
  intros Hok k. split; [rewrite length_lru by done; apply (ok_size c Hok)|].
  split; [by apply cache_get_lru|]. intros result. by apply cache_update_lru.
Qed.

(** A client without plugins of its own. *)
#[export] Instance no_client_plugins : ClientPlugins Empty_set unit := {
  client_descr e := match e with end;
  client_invalidate e := match e with end;
  isClientPlugin e := match e with end;
  ext_isUsable e := match e with end;
  ext_isCacheable e := match e with end;
  ext_toResult e := match e with end;
}.

(** A cache for one entry that holds it: the next update of the same key uses the entry it
    has just dropped. *)
Definition example_cache : CapacityCache Empty_set unit :=
  (cache_update "s" (PolicyKey_of "c" "u" "p") (PolicyResult_of ALLOW)
     (setClientPlugins {[ ALLOW := NaiveInterpreter ]} (CapacityCache_new 1 [] tt))).2.

Lemma example_cache_ok : cache_ok example_cache.
Proof.
  split.
  - vm_compute. repeat constructor; set_solver.
  - vm_compute. intros n Hn. apply list_elem_of_singleton in Hn as ->. cbn. lia.
  - vm_compute. repeat constructor; set_solver.
  - intros it k.
    assert (m_keyUsage example_cache = [(0, keyToString (PolicyKey_of "c" "u" "p"))]) as -> by (vm_compute; reflexivity).
    assert (m_keyValue example_cache = {[ keyToString (PolicyKey_of "c" "u" "p") := mkCachedValue (PolicyResult_of ALLOW) "s" 0 ]})
      as -> by (vm_compute; reflexivity).
    rewrite list_elem_of_singleton. setoid_rewrite lookup_singleton_Some. naive_solver.
  - vm_compute. lia.
Qed.

Lemma cache_is_lru_witness :
  (cache_update "s" (PolicyKey_of "c" "u" "p") (PolicyResult_of ALLOW) example_cache).1 = Throw UndefinedBehaviour ∧
  ∃ c', cache_update "s" (PolicyKey_of "d" "u" "p") (PolicyResult_of ALLOW) example_cache = (Ret CYNARA_API_ACCESS_ALLOWED, c') ∧
    lru c' = [(keyToString (PolicyKey_of "d" "u" "p"), (PolicyResult_of ALLOW, "s"))].
Proof.
  split.
  - exact (proj2 (proj2 (cache_is_lru example_cache "s" (PolicyKey_of "c" "u" "p") example_cache_ok)) (PolicyResult_of ALLOW)).
  - destruct (proj2 (proj2 (cache_is_lru example_cache "s" (PolicyKey_of "d" "u" "p") example_cache_ok)) (PolicyResult_of ALLOW))
      as (c' & Hrun & _ & Hl).
    exists c'. split; [exact Hrun|]. rewrite Hl. vm_compute. reflexivity.
Defined.
