(* ===== verification/ClientLogic.v ===== *)
(** * The client library ([client/logic], [client/api], [client-common/cache/MonitorCache])

    [Logic] answers a check from its cache or asks the service, and collects monitor
    entries.  Its state is the [ClientState]: the socket client, the cache, the monitor
    cache and the counter of sequence numbers (a static variable of the process); [W] is
    the system.  [fuel] bounds the waiting on the socket, [rounds] the wake-ups without a
    whole response and [tries] the reconnections. *)
From S2P Require Import Prelude Text Types Api BinaryQueue Serialization Frame Messages.
From S2P Require Import ProtocolClient Protocols SocketClient PluginManager CapacityCache.

(** ** [MonitorCache] *)

Record MonitorCache := mkMonitorCache {
  m_monitorEntries : list MonitorEntry;
  m_cacheAgeSec : Z;
}.
Definition MonitorCache_new : MonitorCache := mkMonitorCache [] 0.

Definition MAX_LOG_AGE_SEC : Z := 120.
Definition CACHE_CAPACITY : nat := 100.

(** The clock may fail. *)
Definition mc_update (now : option timespec) (policyKey : PolicyKey) (result : Z) (c : MonitorCache) : MonitorCache :=
  match now with
  | None => c
  | Some ts =>
      let result := if negb (result =? CYNARA_API_ACCESS_ALLOWED)%Z then CYNARA_API_ACCESS_DENIED else result in
      let entries := m_monitorEntries c ++ [MonitorEntry.mk policyKey result ts] in
      mkMonitorCache entries
        (match entries with e :: _ => tv_sec ts - tv_sec (MonitorEntry.timestamp e) | [] => m_cacheAgeSec c end)%Z
  end.

Definition mc_clear (c : MonitorCache) : MonitorCache := MonitorCache_new.

Definition shouldFlush (c : MonitorCache) : bool :=
  if length (m_monitorEntries c) =? 0 then false
  else (CACHE_CAPACITY <=? length (m_monitorEntries c)) || (MAX_LOG_AGE_SEC <=? m_cacheAgeSec c)%Z.

(** ** [Logic] *)

Record ClientState (E P W : Type) := mkClientState {
  m_socketClient : SocketClient;
  m_cache : CapacityCache E P;
  m_monitorCache : MonitorCache;
  sequenceNumber : Z;
  system_ : W;
}.
Arguments mkClientState {E P W}.
Arguments m_socketClient {E P W} _.
Arguments m_cache {E P W} _.
Arguments m_monitorCache {E P W} _.
Arguments sequenceNumber {E P W} _.
Arguments system_ {E P W} _.

Section logic.
Context {E P : Type} `{CP : !ClientPlugins E P} {W : Type}.
Context (sys_poll : PollEvent → SE W PollResult) (sys_getsockopt : SE W (Z + Z))
  (sys_socket : SE W (unit + Z)) (sys_connect : SE W ConnectResult)
  (sys_send : string → SE W SendResult) (sys_recv : SE W RecvResult)
  (sys_clock : SE W (option timespec)).
Context (m_monitoringEnabled : bool).
Context (tries rounds fuel : nat).

Abbreviation Logic := (SE (ClientState E P W)) (only parsing).

(** Calls of the members. *)
Definition onSocketClient {A} (m : SE (SocketClient * W) A) : Logic A := λ s,
  let '(r, (c, w)) := m (m_socketClient s, system_ s) in
  (r, mkClientState c (m_cache s) (m_monitorCache s) (sequenceNumber s) w).
Definition onCache {A} (m : SE (CapacityCache E P) A) : Logic A := λ s,
  let '(r, c) := m (m_cache s) in (r, mkClientState (m_socketClient s) c (m_monitorCache s) (sequenceNumber s) (system_ s)).
Definition onMonitorCache (f : MonitorCache → MonitorCache) : Logic unit := modify (λ s,
  mkClientState (m_socketClient s) (m_cache s) (f (m_monitorCache s)) (sequenceNumber s) (system_ s)).
Definition clock : Logic (option timespec) := onSocketClient (λ '(c, w), let '(r, w) := sys_clock w in (r, (c, w))).

(** [return ++sequenceNumber], on 16 bits *)
Definition generateSequenceNumber : Logic Z :=
  modify (λ s, mkClientState (m_socketClient s) (m_cache s) (m_monitorCache s) ((sequenceNumber s + 1) mod 2 ^ 16) (system_ s)) ;;
  gets sequenceNumber.

Definition isConnected : Logic bool := onSocketClient (SocketClient_isConnected sys_poll sys_getsockopt).
Definition connect : Logic bool :=
  onSocketClient (SocketClient_connect sys_poll sys_getsockopt sys_socket sys_connect).
Definition ask (request : Request) : Logic (option Response) :=
  onSocketClient (askCynaraServer sys_poll sys_send sys_recv rounds fuel request).

Definition onDisconnected : Logic unit := onCache cache_clear.

Definition ensureConnection : Logic bool :=
  connected ← isConnected;
  if connected : bool then mret true
  else
    onDisconnected ;;
    connect.

(** The loop of [requestResponse]: ask, and connect again until there is an answer. *)
Fixpoint askAgain (tries : nat) (request : Request) : Logic (option Response) :=
  match tries with
  | 0 => λ s, (OutOfFuel, s)
  | S tries' =>
      response ← ask request;
      match response with
      | Some response => mret (Some response)
      | None =>
          onDisconnected ;;
          connected ← connect;
          if connected : bool then askAgain tries' request else mret None
      end
  end.

Definition requestResponse (request : Z → Request) : Logic (option Response) :=
  sequenceNumber ← generateSequenceNumber;
  askAgain tries (request sequenceNumber).

(** A response of another class is as none ([dynamic_pointer_cast]). *)
Definition requestResult (key : PolicyKey) : Logic (Z + PolicyResult) :=
  response ← requestResponse (CheckRequest key);
  match response with
  | Some (CheckResponse resultRef _) => mret (inr resultRef)
  | _ => mret (inl CYNARA_API_SERVICE_NOT_AVAILABLE)
  end.

Definition requestSimpleResult (key : PolicyKey) : Logic (Z + PolicyResult) :=
  response ← requestResponse (SimpleCheckRequest key);
  match response with
  | Some (SimpleCheckResponse retValue resultRef _) =>
      if negb (retValue =? CYNARA_API_SUCCESS)%Z then mret (inl retValue) else mret (inr resultRef)
  | _ => mret (inl CYNARA_API_SERVICE_NOT_AVAILABLE)
  end.

Definition requestMonitorEntriesPut : Logic bool :=
  sequenceNumber ← generateSequenceNumber;
  s ← get;
  onSocketClient (sendAndForget sys_poll sys_send fuel (MonitorEntriesPutRequest (m_monitorEntries (m_monitorCache s)) sequenceNumber)).

Definition flushMonitor : Logic unit :=
  if negb m_monitoringEnabled then mret tt
  else
    s ← get;
    if length (m_monitorEntries (m_monitorCache s)) =? 0 then mret tt
    else
      connected ← ensureConnection;
      if negb connected then mret tt
      else
        flushSuccess ← requestMonitorEntriesPut;
        if flushSuccess : bool then onMonitorCache mc_clear else mret tt.

Definition updateMonitor (policyKey : PolicyKey) (result : Z) : Logic unit :=
  if negb m_monitoringEnabled then mret tt
  else
    now ← clock;
    onMonitorCache (mc_update now policyKey result) ;;
    s ← get;
    if shouldFlush (m_monitorCache s) then flushMonitor else mret tt.

Definition check (client_ session user_ privilege_ : string) : Logic Z :=
  connected ← ensureConnection;
  if negb connected then mret CYNARA_API_SERVICE_NOT_AVAILABLE
  else
    let key := PolicyKey_of client_ user_ privilege_ in
    ret ← onCache (cache_get session key);
    if negb (ret =? CYNARA_API_CACHE_MISS)%Z then updateMonitor key ret ;; mret ret
    else
      result ← requestResult key;
      match result with
      | inl ret => mret ret
      | inr result =>
          updateMonitor key CYNARA_API_SUCCESS ;;
          onCache (cache_update session key result)
      end.

Definition simpleCheck (client_ session user_ privilege_ : string) : Logic Z :=
  connected ← ensureConnection;
  if negb connected then mret CYNARA_API_SERVICE_NOT_AVAILABLE
  else
    let key := PolicyKey_of client_ user_ privilege_ in
    ret ← onCache (cache_get session key);
    if negb (ret =? CYNARA_API_CACHE_MISS)%Z then mret ret
    else
      result ← requestSimpleResult key;
      match result with
      | inl ret => mret ret
      | inr result => onCache (cache_update session key result)
      end.

(** The constructor: a cache of the configured size, the built-in plugin for the
    predefined types. *)
Definition Logic_new (cacheSize : nat) (libraries : list (option E)) (p : P) (w : W) : ClientState E P W :=
  let cache := CapacityCache_new cacheSize libraries p in
  let cache := (forEach predefinedPolicyDescr (λ descr, registerPlugin descr NaiveInterpreter) cache).2 in
  mkClientState (SocketClient_new PClient) cache MonitorCache_new 0 w.

(** ** The interface ([client-api.cpp]) *)

(** [p_cynara] is not null where these run; a null handle gives [CYNARA_API_INVALID_PARAM]. *)
Definition cynara_check (client_ session user_ privilege_ : option string) : Logic Z :=
  if negb (isStringValid client_) || negb (isStringValid session) then mret CYNARA_API_INVALID_PARAM
  else if negb (isStringValid user_) || negb (isStringValid privilege_) then mret CYNARA_API_INVALID_PARAM
  else api_tryCatch (check (default "" client_) (default "" session) (default "" user_) (default "" privilege_)).

Definition cynara_simple_check (client_ session user_ privilege_ : option string) : Logic Z :=
  if negb (isStringValid client_) || negb (isStringValid session) then mret CYNARA_API_INVALID_PARAM
  else if negb (isStringValid user_) || negb (isStringValid privilege_) then mret CYNARA_API_INVALID_PARAM
  else api_tryCatch (simpleCheck (default "" client_) (default "" session) (default "" user_) (default "" privilege_)).

Definition cynara_finish : Logic Z :=
  _ ← api_tryCatch (flushMonitor ;; mret CYNARA_API_SUCCESS);
  mret CYNARA_API_SUCCESS.
End logic.
