(* ===== verification/ClientLogicTheorems.v ===== *)
(** * Theorems on the client library

    Where a check's answer comes from, and what a policy type without plugin and the
    monitor make of it. *)
From S2P Require Import Prelude Text Types Api BinaryQueue Serialization Frame Messages.
From S2P Require Import ProtocolClient Protocols SocketClient ClientTheorems PluginManager CapacityCache CacheTheorems ClientLogic.

Section cache.
Context {E P : Type} `{CP : !ClientPlugins E P}.
Implicit Types c : CapacityCache E P.

(** Clearing empties the cache whether or not the plugins let it return. *)
Lemma cache_clear_entries c :
  cache_ok (cache_clear c).2 ∧ lru (cache_clear c).2 = [].
Proof.
  assert (keeps (λ c : CapacityCache E P, cache_ok c ∧ lru c = []) (λ c, let '(r, p) := invalidateAll client_invalidate
    (m_clientPluginManager c) (clientPluginState c) in (r, setClientPluginState p c))) as H1.
  { intros c0 [Hok Hl]. destruct (invalidateAll _ _ _) as [r p]. cbn [snd].
    destruct (same_entries_ok c0 (setClientPluginState p c0)) as [? ->]; done. }
  unfold cache_clear. rewrite SE_bind_eq. cbn [modify].
  refine (keeps_bind _ _ _ H1 _ _ _).
  - intros _. keep. apply keeps_modify. intros cx [Hok Hl].
    destruct (same_entries_ok cx (setClientPluginState (client_invalidate e (clientPluginState cx)) cx)) as [? ->]; done.
  - split; [|done]. split; cbn.
    + constructor.
    + intros n Hn. by apply elem_of_nil in Hn.
    + constructor.
    + intros it k. split; [intros Hn; by apply elem_of_nil in Hn|]. intros (v & Hv & _). by rewrite lookup_empty in Hv.
    + rewrite map_size_empty. lia.
Qed.

(** A null pointer among the plugins makes clearing undefined. *)
Lemma cache_clear_null c t : null_entry t (m_clientPluginManager c) → (cache_clear c).1 = Throw UndefinedBehaviour.
Proof.
  intros Ht. unfold cache_clear. rewrite SE_bind_eq. cbn [modify]. rewrite SE_bind_eq.
  cbn [m_clientPluginManager clientPluginState setUsage setKeyValue].
  pose proof (invalidateAll_null client_invalidate t _ (clientPluginState c) Ht) as Hi.
  destruct (invalidateAll _ _ _) as [r p]. cbn in Hi. by subst r.
Qed.
End cache.

Section logic.
Context {E P : Type} `{CP : !ClientPlugins E P} {W : Type}.
Context (sys_poll : PollEvent → SE W PollResult) (sys_getsockopt : SE W (Z + Z))
  (sys_socket : SE W (unit + Z)) (sys_connect : SE W ConnectResult)
  (sys_send : string → SE W SendResult) (sys_recv : SE W RecvResult)
  (sys_clock : SE W (option timespec)) (monitoring : bool).
Context (tries rounds fuel : nat).
Implicit Types s : ClientState E P W.

Let checkL := check sys_poll sys_getsockopt sys_socket sys_connect sys_send sys_recv sys_clock monitoring tries rounds fuel (CP:=CP).
Let connectedL := isConnected (E:=E) (P:=P) sys_poll sys_getsockopt.
Let connectL := connect (E:=E) (P:=P) sys_poll sys_getsockopt sys_socket sys_connect.
Let resultL := requestResult sys_poll sys_getsockopt sys_socket sys_connect sys_send sys_recv tries rounds fuel (CP:=CP).
Let monitorL := updateMonitor sys_poll sys_getsockopt sys_socket sys_connect sys_send sys_clock monitoring fuel (CP:=CP).

(** The state with another cache. *)
Definition withCache (c : CapacityCache E P) s : ClientState E P W :=
  mkClientState (m_socketClient s) c (m_monitorCache s) (sequenceNumber s) (system_ s).

Lemma onCache_eq {A} (m : SE (CapacityCache E P) A) s : onCache m s = ((m (m_cache s)).1, withCache (m (m_cache s)).2 s).
Proof. unfold onCache. by destruct (m (m_cache s)). Qed.

(** The socket's operations leave the cache alone. *)
Lemma cache_untouched {A} (m : SE (SocketClient * W) A) s : m_cache (onSocketClient m s).2 = m_cache s.
Proof. unfold onSocketClient. by destruct (m _) as [r [c w]]. Qed.

(** The two ways in which [ensureConnection] gives a connection. *)
Definition still_connected s s1 : Prop := connectedL s = (Ret true, s1).
Definition connected_anew s s1 : Prop := ∃ s2 s3,
  connectedL s = (Ret false, s2) ∧ onDisconnected (CP:=CP) s2 = (Ret tt, s3) ∧ connectL s3 = (Ret true, s1).

Lemma ensureConnection_ok s s1 : still_connected s s1 ∨ connected_anew s s1 →
  ensureConnection sys_poll sys_getsockopt sys_socket sys_connect s = (Ret true, s1).
Proof.
  unfold ensureConnection, still_connected, connected_anew, connectedL, connectL.
  rewrite SE_bind_eq. intros [Hc|(s2 & s3 & H1 & H2 & H3)].
  - by rewrite Hc.
  - rewrite H1, SE_bind_eq, H2. exact H3.
Qed.

(** The paths of a check, from the connection on. *)
Lemma check_paths s s1 client_ session user_ privilege_ :
  cache_ok (m_cache s) → still_connected s s1 ∨ connected_anew s s1 →
  let key := PolicyKey_of client_ user_ privilege_ in
  let c1 := m_cache s1 in
  let a := lru_get (plugin_for c1) (clientPluginState c1) session (keyToString key) (lru c1) in
  cache_ok c1 ∧ (connected_anew s s1 → lru c1 = []) ∧
  ∃ c2, cache_get session key c1 = (Ret a.1, c2) ∧ cache_ok c2 ∧ lru c2 = a.2 ∧
    checkL client_ session user_ privilege_ s =
      (if (a.1 =? CYNARA_API_CACHE_MISS)%Z
       then result ← resultL key;
            match result with
            | inl ret => mret ret
            | inr result => monitorL key CYNARA_API_SUCCESS ;; onCache (cache_update session key result)
            end
       else monitorL key a.1 ;; mret a.1) (withCache c2 s1).
Proof.
  intros Hok Hcon key c1 a. pose proof (ensureConnection_ok s s1 Hcon) as Hens.
  assert (cache_ok c1 ∧ (connected_anew s s1 → lru c1 = [])) as [Hok1 Hnew].
  { assert (∀ x, still_connected s x → cache_ok (m_cache x)) as Hs.
    { intros x Hx. pose proof (cache_untouched (SocketClient_isConnected sys_poll sys_getsockopt) s) as Hu.
      unfold still_connected, connectedL, isConnected in Hx. rewrite Hx in Hu. cbn [snd] in Hu. by rewrite Hu. }
    assert (∀ x, connected_anew s x → cache_ok (m_cache x) ∧ lru (m_cache x) = []) as Hn.
    { intros x (s2 & s3 & _ & H2 & H3).
      pose proof (cache_untouched (SocketClient_connect sys_poll sys_getsockopt sys_socket sys_connect) s3) as Hu.
      unfold connectL, connect in H3. rewrite H3 in Hu. cbn [snd] in Hu. rewrite Hu.
      unfold onDisconnected in H2. rewrite onCache_eq in H2. injection H2 as _ <-. apply cache_clear_entries. }
    split; [destruct Hcon as [?|?]; [by apply Hs|by apply Hn]|]. intros Hx. by apply Hn. }
  destruct (cache_get_lru c1 session key Hok1) as (c2 & Hget & Hok2 & Hl2).
  split; [done|]. split; [done|]. exists c2. split; [done|]. split; [done|]. split; [exact Hl2|].
  unfold checkL, check. rewrite SE_bind_eq, Hens. cbn [negb]. rewrite SE_bind_eq, onCache_eq. fold key c1. rewrite Hget.
  cbn [fst snd]. fold a. by destruct (a.1 =? CYNARA_API_CACHE_MISS)%Z.
Qed.

(** C25: Where a check's answer comes from.  On a connection that is still there, the cache
    answers if it can, and then the service is sent nothing for the check; else the service
    is asked and its result stored.  When the connection was lost, every cached result is
    dropped before the new connection is used: the service is asked. *)
Theorem check_from_cache_or_service s s1 client_ session user_ privilege_ :
  cache_ok (m_cache s) → still_connected s s1 ∨ connected_anew s s1 →
  let key := PolicyKey_of client_ user_ privilege_ in
  let c1 := m_cache s1 in
  let a := lru_get (plugin_for c1) (clientPluginState c1) session (keyToString key) (lru c1) in
  (connected_anew s s1 → a.1 = CYNARA_API_CACHE_MISS) ∧
  ∃ c2, cache_ok c2 ∧ lru c2 = a.2 ∧
    checkL client_ session user_ privilege_ s =
      (if (a.1 =? CYNARA_API_CACHE_MISS)%Z
       then result ← resultL key;
            match result with
            | inl ret => mret ret
            | inr result => monitorL key CYNARA_API_SUCCESS ;; onCache (cache_update session key result)
            end
       else monitorL key a.1 ;; mret a.1) (withCache c2 s1).
Proof.
  intros Hok Hcon key c1 a. destruct (check_paths s s1 client_ session user_ privilege_ Hok Hcon) as (_ & Hnew & c2 & _ & Hok2 & Hl2 & Hrun).
  split; [|by exists c2]. intros Hx. unfold a, c1, lru_get. by rewrite (Hnew Hx).
Qed.

(** ** A result without a plugin *)

Lemma check_null s s1 t client_ session user_ privilege_ :
  connectedL s = (Ret false, s1) → null_entry t (m_clientPluginManager (m_cache s)) →
  (checkL client_ session user_ privilege_ s).1 = Throw UndefinedBehaviour.
Proof.
  intros Hc Hn. unfold checkL, check, ensureConnection. rewrite SE_bind_eq, SE_bind_eq.
  unfold connectedL in Hc. rewrite Hc, SE_bind_eq. unfold onDisconnected. rewrite onCache_eq.
  pose proof (cache_untouched (SocketClient_isConnected sys_poll sys_getsockopt) s) as Hu.
  unfold isConnected in Hc. rewrite Hc in Hu. cbn [snd] in Hu. rewrite Hu, (cache_clear_null _ t Hn). done.
Qed.

(** A policy type the client has no plugin for: the check is denied, but the look-up
    has left a null pointer among the client's plugins, and the next check that finds the
    connection lost calls through it.  The library's exception barrier does not help. *)
Theorem unknown_type_breaks_client s s1 s2 s3 c2 client_ session user_ privilege_ result :
  cache_ok (m_cache s) → still_connected s s1 ∨ connected_anew s s1 →
  let key := PolicyKey_of client_ user_ privilege_ in
  cache_get session key (m_cache s1) = (Ret CYNARA_API_CACHE_MISS, c2) →
  resultL key (withCache c2 s1) = (Ret (inr result), s2) → monitorL key CYNARA_API_SUCCESS s2 = (Ret tt, s3) →
  m_clientPlugins (m_cache s3) !! policyType result = None →
  m_plugins (m_clientPluginManager (m_cache s3)) !! policyType result = None →
  ∃ s4, checkL client_ session user_ privilege_ s = (Ret CYNARA_API_ACCESS_DENIED, s4) ∧
    ∀ s5 client_' session' user_' privilege_', connectedL s4 = (Ret false, s5) →
      (api_tryCatch (checkL client_' session' user_' privilege_') s4).1 = Throw UndefinedBehaviour.
Proof.
  intros Hok Hcon key Hget Hres Hmon Hp1 Hp2.
  destruct (check_paths s s1 client_ session user_ privilege_ Hok Hcon) as (_ & _ & c2' & Hget' & _ & _ & Hrun).
  fold key in Hget', Hrun. rewrite Hget in Hget'. injection Hget' as Hmiss <-. rewrite <-Hmiss in Hrun.
  change ((CYNARA_API_CACHE_MISS =? CYNARA_API_CACHE_MISS)%Z) with true in Hrun. cbn iota in Hrun.
  rewrite SE_bind_eq, Hres, SE_bind_eq, Hmon, onCache_eq in Hrun.
  unfold cache_update in Hrun. rewrite SE_bind_eq in Hrun. unfold findPlugin in Hrun. rewrite Hp1 in Hrun.
  destruct (getPlugin_null _ _ Hp2) as [Hg Hn].
  destruct (getPlugin (policyType result) (m_clientPluginManager (m_cache s3))) as [g pm]. cbn [fst snd] in Hg, Hn. subst g.
  eexists. split; [exact Hrun|]. intros s5 client_' session' user_' privilege_' Hlost. unfold api_tryCatch, tryCatch.
  pose proof (check_null _ _ (policyType result) client_' session' user_' privilege_' Hlost Hn) as Hub.
  destruct (checkL client_' session' user_' privilege_' _) as [r s6]. cbn [fst] in Hub. by subst r.
Qed.

(** ** What the monitor sees *)

(** An entry is recorded and nothing needs to be sent yet. *)
Lemma monitor_records s key result ts w :
  monitoring = true → sys_clock (system_ s) = (Ret (Some ts), w) →
  shouldFlush (mc_update (Some ts) key result (m_monitorCache s)) = false →
  monitorL key result s = (Ret tt, mkClientState (m_socketClient s) (m_cache s)
    (mc_update (Some ts) key result (m_monitorCache s)) (sequenceNumber s) w).
Proof.
  intros Hm Hclock Hno. unfold monitorL, updateMonitor. rewrite Hm. cbn [negb]. rewrite SE_bind_eq. unfold clock, onSocketClient.
  rewrite Hclock, SE_bind_eq. unfold onMonitorCache, modify. cbn [m_socketClient m_cache m_monitorCache sequenceNumber system_].
  rewrite SE_bind_eq. cbn [get m_monitorCache]. by rewrite Hno.
Qed.

(** What the monitor learns of a check: an answer from the cache is recorded as it was
    given; but the answer of the service to the first check of a key is recorded as denied,
    also when access was allowed. *)
Theorem monitored_result s s1 client_ session user_ privilege_ :
  cache_ok (m_cache s) → still_connected s s1 ∨ connected_anew s s1 → monitoring = true →
  let key := PolicyKey_of client_ user_ privilege_ in
  (∀ a c2 ts w, cache_get session key (m_cache s1) = (Ret a, c2) → a ≠ CYNARA_API_CACHE_MISS →
     (a = CYNARA_API_ACCESS_ALLOWED ∨ a = CYNARA_API_ACCESS_DENIED) → sys_clock (system_ s1) = (Ret (Some ts), w) →
     shouldFlush (mc_update (Some ts) key a (m_monitorCache s1)) = false →
     ∃ s', checkL client_ session user_ privilege_ s = (Ret a, s') ∧
       m_monitorEntries (m_monitorCache s') = m_monitorEntries (m_monitorCache s1) ++ [MonitorEntry.mk key a ts]) ∧
  (∀ c2 ts w result s2, cache_get session key (m_cache s1) = (Ret CYNARA_API_CACHE_MISS, c2) →
     resultL key (withCache c2 s1) = (Ret (inr result), s2) → sys_clock (system_ s2) = (Ret (Some ts), w) →
     shouldFlush (mc_update (Some ts) key CYNARA_API_ACCESS_DENIED (m_monitorCache s2)) = false →
     ∃ s', (checkL client_ session user_ privilege_ s).2 = s' ∧
       (checkL client_ session user_ privilege_ s).1 = (cache_update session key result (m_cache s2)).1 ∧
       m_monitorEntries (m_monitorCache s') =
         m_monitorEntries (m_monitorCache s2) ++ [MonitorEntry.mk key CYNARA_API_ACCESS_DENIED ts]).
Proof.
  intros Hok Hcon Hmon key.
  destruct (check_paths s s1 client_ session user_ privilege_ Hok Hcon) as (_ & _ & c2' & Hget' & _ & _ & Hrun).
  fold key in Hget', Hrun. split.
  - intros a c2 ts w Hget Hne Ha Hclock Hno. rewrite Hget in Hget'. injection Hget' as Ha' <-. rewrite <-Ha' in Hrun.
    apply Z.eqb_neq in Hne. rewrite Hne in Hrun. rewrite SE_bind_eq in Hrun.
    rewrite (monitor_records (withCache c2 s1) key a ts w Hmon Hclock Hno) in Hrun. eexists. split; [exact Hrun|].
    cbn [m_monitorCache m_monitorEntries mc_update withCache]. by destruct Ha as [-> | ->].
  - intros c2 ts w result s2 Hget Hres Hclock Hno. rewrite Hget in Hget'. injection Hget' as Hmiss <-. rewrite <-Hmiss in Hrun.
    change ((CYNARA_API_CACHE_MISS =? CYNARA_API_CACHE_MISS)%Z) with true in Hrun. cbn iota in Hrun.
    rewrite SE_bind_eq, Hres, SE_bind_eq in Hrun.
    rewrite (monitor_records s2 key CYNARA_API_SUCCESS ts w Hmon Hclock Hno) in Hrun. rewrite onCache_eq in Hrun.
    eexists. split; [reflexivity|]. rewrite Hrun. done.
Qed.
End logic.

(** ** Runs over the wire of ClientTheorems.v *)

Definition camera : PolicyKey := PolicyKey_of "app" "1000" "camera".
Definition location : PolicyKey := PolicyKey_of "app" "1000" "location".

(** A client whose service answers its first check with [r]. *)
Definition answered_client (r : PolicyResult) : ClientState Empty_set unit Wire :=
  let w := mkWire "" [Received (response_frame PClient (CheckResponse r 1)); RecvAgain] in
  mkClientState example_client (m_cache (Logic_new 10 [] tt w)) MonitorCache_new 0 w.
Definition wire_clock : SE Wire (option timespec) := mret (Some (mkTimespec 1000 0)).
Definition monitored_check := check (E:=Empty_set) (P:=unit) wire_poll wire_getsockopt wire_socket wire_connect (wire_send 7)
  wire_recv wire_clock true 2 3 100.

Lemma new_cache_ok (w : Wire) : cache_ok (m_cache (Logic_new (E:=Empty_set) 10 [] tt w)).
Proof. exact (proj1 (cache_clear_entries (m_cache (Logic_new (E:=Empty_set) 10 [] tt w)))). Qed.
Lemma answered_client_cache r : cache_ok (m_cache (answered_client r)).
Proof. apply new_cache_ok. Qed.
Lemma example_client_connected (c : CapacityCache Empty_set unit) mc q (w : Wire) :
  isConnected wire_poll wire_getsockopt (mkClientState example_client c mc q w) = (Ret true, mkClientState example_client c mc q w).
Proof. reflexivity. Qed.
Lemma answered_client_connected r :
  isConnected wire_poll wire_getsockopt (answered_client r) = (Ret true, answered_client r).
Proof. apply example_client_connected. Qed.

Lemma check_from_cache_or_service_witness : ∃ c2, lru c2 = [] ∧
  monitored_check "app" "s" "1000" "camera" (answered_client (PolicyResult_of ALLOW)) =
    (result ← requestResult wire_poll wire_getsockopt wire_socket wire_connect (wire_send 7) wire_recv 2 3 100 camera;
     match result with
     | inl ret => mret ret
     | inr result =>
         updateMonitor wire_poll wire_getsockopt wire_socket wire_connect (wire_send 7) wire_clock true 100 camera CYNARA_API_SUCCESS ;;
         onCache (cache_update "s" camera result)
     end) (withCache c2 (answered_client (PolicyResult_of ALLOW))).
Proof.
  destruct (check_from_cache_or_service wire_poll wire_getsockopt wire_socket wire_connect (wire_send 7) wire_recv wire_clock true
    2 3 100 (answered_client (PolicyResult_of ALLOW)) (answered_client (PolicyResult_of ALLOW)) "app" "s" "1000" "camera")
    as (_ & c2 & _ & Hl & Hrun).
  - apply answered_client_cache.
  - left. apply answered_client_connected.
  - exists c2. split; [rewrite Hl; vm_compute; reflexivity|].
    cbv zeta in Hrun. destruct (Z.eqb _ CYNARA_API_CACHE_MISS) eqn:Hb in Hrun; [exact Hrun|].
    exfalso. revert Hb. vm_compute. discriminate.
Defined.

Lemma unknown_type_breaks_client_witness : ∃ s4,
  monitored_check "app" "s" "1000" "camera" (answered_client (mkPolicyResult 10 "")) = (Ret CYNARA_API_ACCESS_DENIED, s4).
Proof.
  epose proof (unknown_type_breaks_client wire_poll wire_getsockopt wire_socket wire_connect (wire_send 7) wire_recv wire_clock true
    2 3 100 (answered_client (mkPolicyResult 10 "")) (answered_client (mkPolicyResult 10 "")) _ _ _ "app" "s" "1000" "camera"
    (mkPolicyResult 10 "")) as Hbreaks.
  edestruct Hbreaks as (s4 & Hrun & _).
  - apply answered_client_cache.
  - left. apply answered_client_connected.
  - vm_compute. reflexivity.
  - vm_compute. reflexivity.
  - vm_compute. reflexivity.
  - vm_compute. reflexivity.
  - vm_compute. reflexivity.
  - exists s4. exact Hrun.
Defined.

Lemma monitored_result_witness : ∃ s',
  monitored_check "app" "s" "1000" "camera" (answered_client (PolicyResult_of ALLOW)) = (Ret CYNARA_API_ACCESS_ALLOWED, s') ∧
  m_monitorEntries (m_monitorCache s') = [MonitorEntry.mk camera CYNARA_API_ACCESS_DENIED (mkTimespec 1000 0)].
Proof.
  destruct (monitored_result wire_poll wire_getsockopt wire_socket wire_connect (wire_send 7) wire_recv wire_clock true
    2 3 100 (answered_client (PolicyResult_of ALLOW)) (answered_client (PolicyResult_of ALLOW)) "app" "s" "1000" "camera")
    as [_ Hmiss].
  - apply answered_client_cache.
  - left. apply answered_client_connected.
  - reflexivity.
  - edestruct Hmiss as (s' & Hs & Hret & Hentries).
    + vm_compute. reflexivity.
    + vm_compute. reflexivity.
    + reflexivity.
    + vm_compute. reflexivity.
    + exists s'. split; [|exact Hentries]. rewrite (surjective_pairing (monitored_check _ _ _ _ _)).
      apply (f_equal2 pair); [etransitivity; [exact Hret|vm_compute; reflexivity]|exact Hs].
Defined.
