(* ===== verification/StaleDecisions.v ===== *)
(** * A wrong decision in the cache

    The client library over the wire of ClientTheorems.v: what the read buffer that
    survives a reconnection does to the cache. *)
From S2P Require Import Prelude Text Types Api BinaryQueue Serialization Frame Messages.
From S2P Require Import ProtocolClient Protocols SocketClient ClientTheorems PluginManager.
From S2P Require Import CapacityCache CacheTheorems ClientLogic ClientLogicTheorems.

Section stale.
Context {E P : Type} `{CP : !ClientPlugins E P}.
Context (n k fuel : nat).

Definition no_clock : SE Wire (option timespec) := mret None.
Definition wire_check (tries : nat) := check (E:=E) (P:=P) wire_poll wire_getsockopt wire_socket wire_connect (wire_send n) wire_recv
  no_clock false tries k fuel.

(** A cache with the built-in plugin only. *)
Definition plain_cache (capacity : nat) (usage : list (nat * string)) (kv : gmap string CachedValue) (next : nat) (p : P) :
    CapacityCache E P :=
  mkCapacityCache capacity usage kv next
    (<[DENY := NaiveInterpreter]> (<[ALLOW := NaiveInterpreter]> ∅)) (mkPluginManager ∅) p.

Lemma Logic_new_cache capacity p (w : Wire) : m_cache (Logic_new (E:=E) capacity [] p w) = plain_cache capacity [] ∅ 0 p.
Proof. done. Qed.

Lemma clear_plain capacity p : cache_clear (plain_cache capacity [] ∅ 0 p) = (Ret tt, plain_cache capacity [] ∅ 0 p).
Proof. done. Qed.

Lemma naive_plugin capacity u kv m p t : t = ALLOW ∨ t = DENY →
  findPlugin t (plain_cache capacity u kv m p) = (Ret (Some NaiveInterpreter), plain_cache capacity u kv m p).
Proof. intros [-> | ->]; done. Qed.

Lemma get_plain_miss capacity u kv m p session key : kv !! keyToString key = None →
  cache_get session key (plain_cache capacity u kv m p) = (Ret CYNARA_API_CACHE_MISS, plain_cache capacity u kv m p).
Proof. intros Hk. unfold cache_get. rewrite SE_bind_eq. cbn [get m_keyValue plain_cache]. by rewrite Hk. Qed.

(** A new key, while there is room. *)
Lemma update_plain capacity u kv m p session key r :
  kv !! keyToString key = None → size kv < capacity → policyType r = ALLOW ∨ policyType r = DENY →
  cache_update session key r (plain_cache capacity u kv m p) =
    (Ret (naive_toResult r),
     plain_cache capacity ((m, keyToString key) :: u) (<[keyToString key := mkCachedValue r session m]> kv) (S m) p).
Proof.
  intros Hk Hroom Ht. unfold cache_update. rewrite SE_bind_eq, naive_plugin by done. rewrite SE_bind_eq. cbn [get].
  rewrite SE_bind_eq. cbn [m_capacity plain_cache]. destruct (Nat.ltb_spec 0 capacity) as [_|]; [|lia].
  rewrite SE_bind_eq. cbn [onPlugins isCacheable clientPluginState plain_cache m_keyValue]. rewrite Hk.
  rewrite bool_decide_eq_false_2 by (by intros [? ?]). unfold store. rewrite SE_bind_eq. cbn [get].
  cbn [m_keyValue m_capacity setClientPluginState plain_cache].
  destruct (Nat.eqb_spec (size kv) capacity) as [|_]; [lia|]. done.
Qed.

Lemma get_plain_hit capacity u kv m p session key v rest :
  kv !! keyToString key = Some v → filter (λ x, x.1 = usageIt v) u = rest → rest ≠ [] →
  policyType (cachedResult v) = ALLOW ∨ policyType (cachedResult v) = DENY →
  ∃ c', cache_get session key (plain_cache capacity u kv m p) = (Ret (naive_toResult (cachedResult v)), c').
Proof.
  intros Hk Hf Hne Ht. unfold cache_get. rewrite SE_bind_eq. cbn [get m_keyValue plain_cache]. rewrite Hk.
  rewrite SE_bind_eq, naive_plugin by done. rewrite SE_bind_eq. cbn [onPlugins isUsable clientPluginState plain_cache].
  rewrite SE_bind_eq. unfold setValue at 1, modify at 1. rewrite SE_bind_eq. unfold spliceFront.
  cbn [m_keyUsage setKeyValue setClientPluginState plain_cache]. rewrite Hf. destruct rest as [|x rest]; [done|].
  eexists. reflexivity.
Qed.

(** ** Steps of the logic on the wire *)

Implicit Types s : ClientState E P Wire.

Lemma wire_connected s : m_open (m_socket (m_socketClient s)) = true →
  ensureConnection wire_poll wire_getsockopt wire_socket wire_connect s = (Ret true, s).
Proof.
  intros Ho. unfold ensureConnection. rewrite SE_bind_eq.
  assert (isConnected wire_poll wire_getsockopt s = (Ret true, s)) as ->; [|done].
  destruct s as [[[op ip sb pos en sq] cp h wq] c mc q w]. cbn in Ho. subst op. by destruct ip.
Qed.

(** A check on an open connection that the cache can not answer. *)
Lemma wire_check_miss tries s session c u p :
  m_open (m_socket (m_socketClient s)) = true →
  cache_get session (PolicyKey_of c u p) (m_cache s) = (Ret CYNARA_API_CACHE_MISS, m_cache s) →
  wire_check tries c session u p s =
    (result ← requestResult wire_poll wire_getsockopt wire_socket wire_connect (wire_send n) wire_recv tries k fuel (PolicyKey_of c u p);
     match result with
     | inl ret => mret ret
     | inr result => onCache (cache_update session (PolicyKey_of c u p) result)
     end) s.
Proof.
  intros Ho Hget. unfold wire_check, check. rewrite SE_bind_eq, wire_connected by done. cbn [negb]. rewrite SE_bind_eq.
  unfold onCache at 1. rewrite Hget.
  change ((CYNARA_API_CACHE_MISS =? CYNARA_API_CACHE_MISS)%Z) with true. cbn [negb].
  destruct s as [sc ca mc q w]. cbn [m_socketClient m_cache m_monitorCache sequenceNumber system_].
  rewrite SE_bind_eq, (SE_bind_eq (requestResult _ _ _ _ _ _ _ _ _ _)). by destruct (requestResult _ _ _ _ _ _ _ _ _ _ _) as [[[?|?]|?|] ?].
Qed.

Lemma onSocketClient_eq {A} (m : SE (SocketClient * Wire) A) c ca mc q w r c' w' :
  m (c, w) = (r, (c', w')) →
  onSocketClient m (mkClientState c ca mc q w : ClientState E P Wire) = (r, mkClientState c' ca mc q w').
Proof. intros Hm. unfold onSocketClient. cbn [m_socketClient system_]. by rewrite Hm. Qed.

(** A check of a key without an entry, given how the request for it ends. *)
Lemma wire_check_asks tries sc capacity u kv m p mc q w sc' w' session c1 u1 p1 r q' :
  let key := PolicyKey_of c1 u1 p1 in
  m_open (m_socket sc) = true → kv !! keyToString key = None → size kv < capacity → policyType r = ALLOW ∨ policyType r = DENY →
  askAgain wire_poll wire_getsockopt wire_socket wire_connect (wire_send n) wire_recv k fuel tries
      (CheckRequest key ((q + 1) mod 2 ^ 16)) (mkClientState sc (plain_cache capacity u kv m p) mc ((q + 1) mod 2 ^ 16) w) =
    (Ret (Some (CheckResponse r q')), mkClientState sc' (plain_cache capacity u kv m p) mc ((q + 1) mod 2 ^ 16) w') →
  wire_check tries c1 session u1 p1 (mkClientState sc (plain_cache capacity u kv m p) mc q w) =
    (Ret (naive_toResult r),
     mkClientState sc' (plain_cache capacity ((m, keyToString key) :: u) (<[keyToString key := mkCachedValue r session m]> kv) (S m) p)
       mc ((q + 1) mod 2 ^ 16) w').
Proof.
  intros key Ho Hkv Hroom Ht Hask. rewrite wire_check_miss; [|exact Ho|by apply get_plain_miss].
  rewrite SE_bind_eq. unfold requestResult. rewrite SE_bind_eq. unfold requestResponse, generateSequenceNumber.
  rewrite SE_bind_eq, SE_bind_eq. cbn [modify gets sequenceNumber m_socketClient m_cache m_monitorCache system_]. fold key.
  rewrite Hask. cbn [mret SE_ret]. unfold onCache. cbn [m_cache]. by rewrite update_plain.
Qed.

(** A check of a key with an entry. *)
Lemma wire_check_hit tries s session c1 u1 p1 capacity u kv m p v rest :
  m_open (m_socket (m_socketClient s)) = true → m_cache s = plain_cache capacity u kv m p →
  kv !! keyToString (PolicyKey_of c1 u1 p1) = Some v → filter (λ x, x.1 = usageIt v) u = rest → rest ≠ [] →
  policyType (cachedResult v) = ALLOW ∨ policyType (cachedResult v) = DENY →
  ∃ s', wire_check tries c1 session u1 p1 s = (Ret (naive_toResult (cachedResult v)), s').
Proof.
  intros Ho Hc Hkv Hf Hrest Ht. unfold wire_check, check. rewrite SE_bind_eq, (wire_connected s Ho). cbn [negb].
  rewrite SE_bind_eq. unfold onCache at 1. rewrite Hc.
  destruct (get_plain_hit capacity u kv m p session (PolicyKey_of c1 u1 p1) v rest) as [ch Hhit]; [done..|]. rewrite Hhit.
  destruct (Z.eqb_spec (naive_toResult (cachedResult v)) CYNARA_API_CACHE_MISS) as [Hm|_].
  { unfold naive_toResult in Hm. by destruct (_ =? _)%Z in Hm. }
  cbn [negb]. by eexists.
Qed.

(** A key of a request, and what the service would say of it. *)
Definition sendable (key : PolicyKey) : Prop := ∀ q, is_uint 16 q →
  request_ok PClient (CheckRequest key q) ∧
  String.length (frame_bytes q (request_body PClient (CheckRequest key q))) < fuel.

Lemma ask_frame c w key q r later rest :
  0 < n → 0 < k → 1 < fuel → is_uint 16 q → sendable key → response_ok PClient r →
  client_ready c PClient (response_frame PClient r) → m_open (m_socket c) = true →
  w_reads w = Received later :: RecvAgain :: rest →
  ∃ c' w', wire_ask n k fuel (CheckRequest key q) (c, w) = (Ret (Some r), (c', w')) ∧ client_ready c' PClient later ∧
    m_open (m_socket c') = true ∧ w_reads w' = rest.
Proof.
  intros Hn Hk Hf Hq Hkey Hr Hc Ho Hw. destruct (Hkey q Hq) as [Hreq Hlen].
  destruct (askCynaraServer_gets PClient (CheckRequest key q) n [[later]] r later fuel k c w _ rest Hn Hreq Hr Hc)
    as (c' & rs & s' & Hask & Hc' & Hs' & used & Hu & Hrs).
  { done. }
  { unfold fields. cbn [concat app foldr]. by rewrite str_app_nil_r. }
  { rewrite Hw. done. }
  { constructor; [cbn; lia|constructor]. }
  { cbn. lia. }
  { exact Hlen. }
  destruct used as [|? [|]], rs; try done. cbn in Hs'. unfold fields in Hs'. cbn [concat foldr] in Hs'.
  rewrite str_app_nil_r in Hs'. subst s'. eexists c', _. split; [exact Hask|]. split; [done|]. split; [|done].
  pose proof (wire_ask_open n k fuel (CheckRequest key q) (c, w) Ho) as Hopen. by rewrite Hask in Hopen.
Qed.

Lemma next_uint q : is_uint 16 ((q + 1) mod 2 ^ 16).
Proof. unfold is_uint. apply Z.mod_pos_bound. lia. Qed.

(** A lost connection can leave a wrong decision in the cache.  The service has written
    its answer [r1] to the check of [key1] when the connection ends; the client connects
    again and asks again.  It takes [r1] from its old buffer for the answer, so that the
    service's second answer, [r2], is taken for the answer to the next check, of [key2],
    and goes into the cache as such: later checks of [key2] are answered with the decision
    on [key1], and the decision [r3] on [key2] is not looked at. *)
Theorem stale_decision_cached tries capacity p c mc q w session c1 u1 p1 c2 u2 p2 r1 r2 r3 q1 q2 q3 :
  let key1 := PolicyKey_of c1 u1 p1 in
  let key2 := PolicyKey_of c2 u2 p2 in
  let response r q := response_frame PClient (CheckResponse r q) in
  0 < n → 0 < k → 1 < fuel → 1 < tries → 1 < capacity → key1 ≠ key2 → sendable key1 → sendable key2 →
  (policyType r1 = ALLOW ∨ policyType r1 = DENY) → (policyType r2 = ALLOW ∨ policyType r2 = DENY) →
  response_ok PClient (CheckResponse r1 q1) → response_ok PClient (CheckResponse r2 q2) →
  response_ok PClient (CheckResponse r3 q3) →
  client_ready c PClient "" → m_open (m_socket c) = true →
  w_reads w = [Received (response r1 q1); RecvEof;
               Received (response r2 q2); RecvAgain; Received (response r3 q3); RecvAgain] →
  let s := mkClientState c (m_cache (Logic_new capacity [] p w)) mc q w in
  ∃ s1 s2 s3,
    wire_check tries c1 session u1 p1 s = (Ret (naive_toResult r1), s1) ∧
    wire_check tries c2 session u2 p2 s1 = (Ret (naive_toResult r2), s2) ∧
    wire_check tries c2 session u2 p2 s2 = (Ret (naive_toResult r2), s3).
Proof.
  intros key1 key2 response Hn Hk Hf Htries Hcap Hneq Hk1 Hk2 Ht1 Ht2 Hr1 Hr2 Hr3 Hc Ho Hw s.
  destruct tries as [|[|tries']]; [lia..|]. unfold s. rewrite Logic_new_cache. clear s.
  assert (keyToString key1 ≠ keyToString key2) as Hks by (intros Heq%keyToString_inj; by apply Hneq).
  (* the first check: the connection ends *)
  destruct (Hk1 _ (next_uint q)) as [Hreq1 Hlen1].
  destruct (askCynaraServer_eof PClient (CheckRequest key1 ((q + 1) mod 2 ^ 16)) n [response r1 q1] fuel k c w "" _ Hn Hk Hreq1 Hc Hw)
    as (ca & Ha & Hca); [cbn; lia|exact Hlen1|].
  unfold fields in Hca. cbn [foldr] in Hca. rewrite str_app_nil_r, str_app_nil_l in Hca. set (wa := mkWire _ _) in Ha.
  (* the new connection and the old answer *)
  destruct (reconnect_opens ca wa PClient _ Hca) as (cb & Hb & Hcb & Hob).
  destruct (ask_frame cb wa key1 _ _ (response r2 q2) [Received (response r3 q3); RecvAgain] Hn Hk Hf (next_uint q) Hk1 Hr1 Hcb Hob)
    as (cd & wd & Hd & Hcd & Hod & Hwd); [done|].
  (* the second check *)
  set (q' := ((q + 1) mod 2 ^ 16)%Z) in *.
  destruct (ask_frame cd wd key2 _ _ (response r3 q3) [] Hn Hk Hf (next_uint q') Hk2 Hr2 Hcd Hod Hwd) as (ce & we & He & _ & Hoe & _).
  set (kv := <[keyToString key2 := mkCachedValue r2 session 1]> (<[keyToString key1 := mkCachedValue r1 session 0]> ∅ : gmap string CachedValue)).
  set (se := mkClientState ce (plain_cache capacity [(1, keyToString key2); (0, keyToString key1)] kv 2 p) mc ((q' + 1) mod 2 ^ 16) we).
  destruct (wire_check_hit (S (S tries')) se session c2 u2 p2 capacity _ kv 2 p (mkCachedValue r2 session 1) [(1, keyToString key2)]
    Hoe eq_refl) as [s3 H3]; [unfold kv; by rewrite lookup_insert_eq|done..|].
  eexists _, se, s3. split; [|split; [|exact H3]].
  - apply wire_check_asks with (q' := q1) (sc' := cd) (w' := wd);
      [exact Ho|apply lookup_empty|rewrite map_size_empty; lia|done|].
    cbn [askAgain]. rewrite SE_bind_eq. unfold ask at 1. rewrite (onSocketClient_eq _ _ _ _ _ _ _ _ _ Ha).
    rewrite SE_bind_eq. unfold onDisconnected, onCache at 1. cbn [m_cache]. rewrite clear_plain.
    cbn [m_socketClient m_cache m_monitorCache sequenceNumber system_].
    rewrite SE_bind_eq. unfold connect. rewrite (onSocketClient_eq _ _ _ _ _ _ _ _ _ Hb).
    rewrite SE_bind_eq. unfold ask. by rewrite (onSocketClient_eq _ _ _ _ _ _ _ _ _ Hd).
  - apply wire_check_asks with (q' := q2) (sc' := ce) (w' := we);
      [exact Hod|by rewrite lookup_insert_ne|rewrite map_size_insert, lookup_empty, map_size_empty; cbn; lia|done|].
    cbn [askAgain]. rewrite SE_bind_eq. unfold ask at 1. by rewrite (onSocketClient_eq _ _ _ _ _ _ _ _ _ He).
Qed.
End stale.

(** ** A run: access to the camera is allowed, access to the location is not *)

Lemma sendable_example key : key = camera ∨ key = location → sendable 100 key.
Proof.
  intros Hkey q Hq.
  destruct Hkey as [-> | ->]; (split; [split; [decide_by_compute|split; [vm_compute; reflexivity|exact Hq]]|]);
    apply Nat.ltb_lt; vm_compute; reflexivity.
Qed.

Definition late_answers : list RecvResult :=
  [Received (response_frame PClient (CheckResponse (PolicyResult_of ALLOW) 1)); RecvEof;
   Received (response_frame PClient (CheckResponse (PolicyResult_of ALLOW) 1)); RecvAgain;
   Received (response_frame PClient (CheckResponse (PolicyResult_of DENY) 2)); RecvAgain].

Definition example_logic : ClientState Empty_set unit Wire :=
  mkClientState example_client (m_cache (Logic_new 10 [] tt (mkWire "" late_answers))) MonitorCache_new 0
    (mkWire "" late_answers).

Lemma stale_decision_cached_witness : ∃ s1 s2 s3,
  wire_check 7 3 100 2 "app" "s" "1000" "camera" example_logic = (Ret CYNARA_API_ACCESS_ALLOWED, s1) ∧
  wire_check 7 3 100 2 "app" "s" "1000" "location" s1 = (Ret CYNARA_API_ACCESS_ALLOWED, s2) ∧
  wire_check 7 3 100 2 "app" "s" "1000" "location" s2 = (Ret CYNARA_API_ACCESS_ALLOWED, s3).
Proof.
  apply (stale_decision_cached 7 3 100 2 10 tt example_client MonitorCache_new 0 (mkWire "" late_answers) "s"
    "app" "1000" "camera" "app" "1000" "location" (PolicyResult_of ALLOW) (PolicyResult_of ALLOW) (PolicyResult_of DENY) 1 1 2).
  - lia.
  - lia.
  - lia.
  - lia.
  - lia.
  - discriminate.
  - apply sendable_example. by left.
  - apply sendable_example. by right.
  - by left.
  - by left.
  - decide_by_compute.
  - decide_by_compute.
  - decide_by_compute.
  - apply example_client_ready.
  - reflexivity.
  - reflexivity.
Defined.
