(* ===== verification/SequenceContainer.v ===== *)
(** * Numbers of pending checks ([client-async/sequence])

    The numbers that are free are the set bits of a vector of 2048 integers.  An [int] is
    the number of its 32 bits. *)
From S2P Require Import Prelude Serialization.

Definition INT_BITS : nat := 32.
Definition WORDS : nat := 2048.

Record SequenceContainer := mkSequenceContainer { m_sequenceVector : list Z }.

(** All bits are set: -1. *)
Definition SequenceContainer_new : SequenceContainer := mkSequenceContainer (replicate WORDS (2 ^ 32 - 1)%Z).

(** [ffs]: the position of the least set bit, from 1; 0 when there is none. *)
Definition ffs (word : Z) : nat :=
  match list_find (λ i, Z.testbit word (Z.of_nat i) = true) (seq 0 INT_BITS) with
  | Some (_, i) => S i
  | None => 0
  end.

(** The loop of [get] from word [index]. *)
Fixpoint sequence_get_from (index : nat) (words : list Z) : option (Z * list Z) :=
  match words with
  | [] => None
  | word :: words' =>
      let pos := ffs word in
      if negb (pos =? 0) then
        Some ((Z.of_nat (index * INT_BITS) - 1 + Z.of_nat pos) mod 2 ^ 16,
              Z.lxor word (Z.shiftl 1 (Z.of_nat pos - 1)) :: words')%Z
      else
        match sequence_get_from (S index) words' with
        | Some (n, words') => Some (n, word :: words')
        | None => None
        end
  end.
Definition sequence_get : SE SequenceContainer (option Z) := λ c,
  match sequence_get_from 0 (m_sequenceVector c) with
  | Some (n, words) => (Ret (Some n), mkSequenceContainer words)
  | None => (Ret None, c)
  end.

Definition sequence_release (sequenceNumber : Z) : SE SequenceContainer bool := λ c,
  let index := Z.to_nat (sequenceNumber / Z.of_nat INT_BITS) in
  let pos := (sequenceNumber mod Z.of_nat INT_BITS)%Z in
  match m_sequenceVector c !! index with
  | None => (Throw UndefinedBehaviour, c)
  | Some word =>
      let i := Z.lor word (Z.shiftl 1 pos) in
      if (i =? word)%Z then (Ret false, c)
      else (Ret true, mkSequenceContainer (<[index := i]> (m_sequenceVector c)))
  end.

Definition sequence_clear : SE SequenceContainer unit := λ c,
  (Ret tt, mkSequenceContainer (replicate (length (m_sequenceVector c)) (2 ^ 32 - 1)%Z)).

(** ** The numbers that are free *)

Definition words_ok (words : list Z) : Prop := Forall (λ w, is_uint 32 w) words.
Definition container_ok (c : SequenceContainer) : Prop := length (m_sequenceVector c) = WORDS ∧ words_ok (m_sequenceVector c).

(** Bit [n] of the words. *)
Definition free_in (words : list Z) (n : nat) : bool :=
  match words !! (n / INT_BITS) with
  | Some w => Z.testbit w (Z.of_nat (n mod INT_BITS))
  | None => false
  end.
Definition is_free (c : SequenceContainer) (n : Z) : bool := free_in (m_sequenceVector c) (Z.to_nat n).

Lemma ffs_0 w i : ffs w = 0 → i < INT_BITS → Z.testbit w (Z.of_nat i) = false.
Proof.
  unfold ffs. case_match eqn:E; [by destruct p|]. intros _ Hi. apply list_find_None in E.
  rewrite Forall_forall in E. apply not_true_is_false, E, elem_of_seq. lia.
Qed.

Lemma ffs_S w i :
  ffs w = S i → i < INT_BITS ∧ Z.testbit w (Z.of_nat i) = true ∧ ∀ j, j < i → Z.testbit w (Z.of_nat j) = false.
Proof.
  unfold ffs. case_match eqn:E; [|done]. destruct p as [k x]. intros [= ->].
  apply list_find_Some in E as (Hk & Hx & Hlt). apply lookup_seq in Hk as [-> Hk]. split; [lia|]. split; [done|].
  intros j Hj. apply not_true_is_false, (Hlt j); [|lia]. by apply lookup_seq; lia.
Qed.

Lemma free_in_0 w words n : n < INT_BITS → free_in (w :: words) n = Z.testbit w (Z.of_nat n).
Proof. intros Hn. unfold free_in. by rewrite Nat.div_small, Nat.mod_small. Qed.
Lemma free_in_S w words n : free_in (w :: words) (INT_BITS + n) = free_in words n.
Proof.
  unfold free_in. replace (INT_BITS + n) with (n + 1 * INT_BITS) by lia.
  rewrite Nat.div_add, Nat.Div0.mod_add by done. by rewrite Nat.add_comm.
Qed.

(** By the word that holds the bit. *)
Lemma bit_cases n : n < INT_BITS ∨ ∃ m, n = INT_BITS + m.
Proof. destruct (decide (n < INT_BITS)); [by left|right]. exists (n - INT_BITS). lia. Qed.

Lemma word_bits w : is_uint 32 w ↔ (0 ≤ w)%Z ∧ ∀ l, (32 ≤ l)%Z → Z.testbit w l = false.
Proof.
  unfold is_uint. split.
  - intros [H0 H1]. split; [done|]. by apply Z.bounded_iff_bits_nonneg.
  - intros [H0 H1]. split; [done|]. by apply Z.bounded_iff_bits_nonneg.
Qed.

Lemma one_bit i l : (0 ≤ i)%Z → (0 ≤ l)%Z → Z.testbit (Z.shiftl 1 i) l = bool_decide (l = i).
Proof.
  intros Hi Hl. rewrite Z.shiftl_1_l. case_bool_decide; [subst; by apply Z.pow2_bits_true|]. by apply Z.pow2_bits_false.
Qed.

(** Clearing a set bit, and setting a bit. *)
Lemma lxor_bit w i :
  is_uint 32 w → i < INT_BITS → Z.testbit w (Z.of_nat i) = true →
  is_uint 32 (Z.lxor w (Z.shiftl 1 (Z.of_nat i))) ∧
  ∀ j, Z.testbit (Z.lxor w (Z.shiftl 1 (Z.of_nat i))) (Z.of_nat j) = Z.testbit w (Z.of_nat j) && negb (bool_decide (j = i)).
Proof.
  intros [H0 Hw]%word_bits Hi Hb. split.
  - apply word_bits. split.
    + apply Z.lxor_nonneg. split; intros _; [by apply Z.shiftl_nonneg|done].
    + intros l Hl. rewrite Z.lxor_spec, Hw, one_bit by lia. rewrite bool_decide_eq_false_2; [done|].
      unfold INT_BITS in Hi. lia.
  - intros j. rewrite Z.lxor_spec, one_bit by lia. repeat case_bool_decide; try lia.
    + subst. by rewrite Hb.
    + by rewrite xorb_false_r, andb_true_r.
Qed.
Lemma lor_bit w i :
  is_uint 32 w → i < INT_BITS →
  is_uint 32 (Z.lor w (Z.shiftl 1 (Z.of_nat i))) ∧
  ∀ j, Z.testbit (Z.lor w (Z.shiftl 1 (Z.of_nat i))) (Z.of_nat j) = Z.testbit w (Z.of_nat j) || bool_decide (j = i).
Proof.
  intros [H0 Hw]%word_bits Hi. split.
  - apply word_bits. split.
    + apply Z.lor_nonneg. split; [done|by apply Z.shiftl_nonneg].
    + intros l Hl. rewrite Z.lor_spec, Hw, one_bit by lia. rewrite bool_decide_eq_false_2; [done|].
      unfold INT_BITS in Hi. lia.
  - intros j. rewrite Z.lor_spec, one_bit by lia. f_equal. apply bool_decide_ext. lia.
Qed.

(** ** The loop of [get] takes the least free number *)

Lemma sequence_get_from_ok index words :
  words_ok words → index + length words ≤ WORDS →
  match sequence_get_from index words with
  | Some (n, words') => ∃ k, n = Z.of_nat (index * INT_BITS + k) ∧ k < INT_BITS * length words ∧
      free_in words k = true ∧ (∀ j, j < k → free_in words j = false) ∧
      words_ok words' ∧ length words' = length words ∧
      ∀ j, free_in words' j = free_in words j && negb (bool_decide (j = k))
  | None => ∀ j, free_in words j = false
  end.
Proof.
  revert index. induction words as [|w words IH]; intros index Hok Hlen; cbn [sequence_get_from length] in *; [done|].
  apply Forall_cons in Hok as [Hw Hok]. destruct (ffs w) as [|i] eqn:E; cbn [Nat.eqb negb].
  - specialize (IH (S index) Hok ltac:(lia)). destruct (sequence_get_from (S index) words) as [[n words']|].
    + destruct IH as (k & -> & Hk & Hf & Hlt & Hok' & Hl & Hfree). exists (INT_BITS + k). split; [f_equal; lia|].
      split; [lia|]. split; [by rewrite free_in_S|]. split_and!; [| by constructor|cbn; lia|].
      * intros j Hj. destruct (bit_cases j) as [Hj'|[m ->]]; [rewrite free_in_0 by done; by apply ffs_0|].
        rewrite free_in_S. apply Hlt. lia.
      * intros j. destruct (bit_cases j) as [Hj'|[m ->]].
        -- rewrite !free_in_0 by done. rewrite bool_decide_eq_false_2 by lia. by rewrite andb_true_r.
        -- rewrite !free_in_S, Hfree. do 2 f_equal. apply bool_decide_ext. lia.
    + intros j. destruct (bit_cases j) as [Hj'|[m ->]]; [rewrite free_in_0 by done; by apply ffs_0|].
      by rewrite free_in_S.
  - apply ffs_S in E as (Hi & Hb & Hlt). destruct (lxor_bit w i Hw Hi Hb) as [Hx Hbits].
    replace (Z.of_nat (S i) - 1)%Z with (Z.of_nat i) by lia. exists i.
    split; [|split; [lia|split; [by rewrite free_in_0|split_and!; [|by constructor|done|]]]].
    + rewrite Z.mod_small; unfold INT_BITS, WORDS in *; lia.
    + intros j Hj. rewrite free_in_0 by lia. by apply Hlt.
    + intros j. destruct (bit_cases j) as [Hj'|[m ->]]; [by rewrite !free_in_0 by done|].
      rewrite !free_in_S, bool_decide_eq_false_2 by lia. by rewrite andb_true_r.
Qed.

(** ** The operations on the set of free numbers *)

Lemma container_new_ok : container_ok SequenceContainer_new.
Proof. split; [apply length_replicate|]. apply Forall_replicate. by unfold is_uint. Qed.

Lemma all_free words : (∀ w, w ∈ words → w = (2 ^ 32 - 1)%Z) → ∀ n, n < INT_BITS * length words → free_in words n = true.
Proof.
  intros Hw n Hn. unfold free_in. destruct (lookup_lt_is_Some_2 words (n / INT_BITS)) as [w Hl].
  { apply Nat.Div0.div_lt_upper_bound. lia. }
  rewrite Hl. rewrite (Hw w) by by eapply list_elem_of_lookup_2. change (2 ^ 32 - 1)%Z with (Z.ones 32).
  apply Z.ones_spec_low. pose proof (Nat.mod_upper_bound n INT_BITS). unfold INT_BITS in *. lia.
Qed.

Lemma is_free_new n : is_uint 16 n → is_free SequenceContainer_new n = true.
Proof.
  intros Hn. apply all_free.
  - intros w Hw. by apply elem_of_replicate in Hw as [-> _].
  - cbn [m_sequenceVector SequenceContainer_new]. rewrite length_replicate. unfold is_uint, INT_BITS, WORDS in *. lia.
Qed.

Lemma sequence_clear_ok c : container_ok c → sequence_clear c = (Ret tt, SequenceContainer_new).
Proof. intros [Hl _]. unfold sequence_clear. by rewrite Hl. Qed.

(** [get] takes the least free number, if there is one. *)
Lemma sequence_get_ok c :
  container_ok c →
  (∃ n c', sequence_get c = (Ret (Some n), c') ∧ is_uint 16 n ∧ is_free c n = true ∧
     (∀ m, (0 ≤ m < n)%Z → is_free c m = false) ∧ container_ok c' ∧
     ∀ m, is_uint 16 m → is_free c' m = is_free c m && negb (bool_decide (m = n))) ∨
  (sequence_get c = (Ret None, c) ∧ ∀ m, is_free c m = false).
Proof.
  intros [Hl Hok]. pose proof (sequence_get_from_ok 0 (m_sequenceVector c) Hok ltac:(lia)) as H. unfold sequence_get.
  destruct (sequence_get_from 0 (m_sequenceVector c)) as [[n words]|]; [left|right; split; [done|intros m; apply H]].
  destruct H as (k & -> & Hk & Hf & Hlt & Hok' & Hl' & Hfree). rewrite Hl in Hk.
  eexists _, _. split; [done|]. split; [unfold is_uint, INT_BITS, WORDS in *; lia|].
  split; [unfold is_free; by rewrite Nat2Z.id|]. split_and!.
  - intros m Hm. apply Hlt. lia.
  - split; cbn [m_sequenceVector]; [by rewrite Hl'|done].
  - intros m Hm. unfold is_free, is_uint in *. cbn [m_sequenceVector]. rewrite Hfree. do 2 f_equal. apply bool_decide_ext. lia.
Qed.

(** [release] frees the number and tells whether it was in use. *)
Lemma sequence_release_ok c n :
  container_ok c → is_uint 16 n →
  ∃ c', sequence_release n c = (Ret (negb (is_free c n)), c') ∧ container_ok c' ∧
    ∀ m, is_uint 16 m → is_free c' m = is_free c m || bool_decide (m = n).
Proof.
  intros [Hl Hok] Hn. unfold sequence_release, is_uint in *.
  assert (∃ k, n = Z.of_nat k) as [k ->] by (exists (Z.to_nat n); lia).
  rewrite <-Nat2Z.inj_div, <-Nat2Z.inj_mod, Nat2Z.id.
  destruct (lookup_lt_is_Some_2 (m_sequenceVector c) (k / INT_BITS)) as [w Hw].
  { rewrite Hl. apply Nat.Div0.div_lt_upper_bound. unfold INT_BITS, WORDS. lia. }
  rewrite Hw. pose proof (Nat.mod_upper_bound k INT_BITS ltac:(done)) as Hmod.
  pose proof (proj1 (Forall_lookup _ _) Hok _ _ Hw) as Hword.
  destruct (lor_bit w (k mod INT_BITS) Hword Hmod) as [Hor Hbits].
  assert (is_free c (Z.of_nat k) = Z.testbit w (Z.of_nat (k mod INT_BITS))) as Hfk.
  { unfold is_free, free_in. by rewrite Nat2Z.id, Hw. }
  assert (∀ m, m / INT_BITS = k / INT_BITS → bool_decide (m = k) = bool_decide (m mod INT_BITS = k mod INT_BITS)) as Hsame.
  { intros m Hm. apply bool_decide_ext. rewrite (Nat.div_mod_eq m INT_BITS), (Nat.div_mod_eq k INT_BITS) at 1. lia. }
  destruct (Z.eqb_spec (Z.lor w (Z.shiftl 1 (Z.of_nat (k mod INT_BITS)))) w) as [He|Hne].
  - exists c. assert (is_free c (Z.of_nat k) = true) as Hf.
    { rewrite Hfk, <-He, Hbits, bool_decide_eq_true_2 by done. apply orb_true_r. }
    rewrite Hf. split; [done|]. split; [done|]. intros m Hm. case_bool_decide; subst; by rewrite ?Hf, ?orb_false_r.
  - exists (mkSequenceContainer (<[k / INT_BITS := Z.lor w (Z.shiftl 1 (Z.of_nat (k mod INT_BITS)))]> (m_sequenceVector c))).
    assert (is_free c (Z.of_nat k) = false) as Hf.
    { rewrite Hfk. apply not_true_is_false. intros Hb. destruct Hne. apply Z.bits_inj'. intros l Hlp.
      replace l with (Z.of_nat (Z.to_nat l)) by lia. rewrite Hbits. case_bool_decide as E; [by rewrite E, Hb|by rewrite orb_false_r]. }
    rewrite Hf. split; [done|]. split; [split; cbn; [by rewrite length_insert|by apply Forall_insert]|].
    intros m Hm. assert (∃ j, m = Z.of_nat j) as [j ->] by (exists (Z.to_nat m); unfold is_uint in Hm; lia).
    unfold is_free, free_in. cbn [m_sequenceVector]. rewrite !Nat2Z.id.
    rewrite (bool_decide_ext (Z.of_nat j = Z.of_nat k) (j = k)) by lia.
    destruct (decide (j / INT_BITS = k / INT_BITS)) as [E|E].
    + rewrite E, list_lookup_insert_eq by (by eapply lookup_lt_Some). by rewrite Hw, Hbits, Hsame.
    + rewrite list_lookup_insert_ne by done. rewrite bool_decide_eq_false_2 by (by intros ->). by rewrite orb_false_r.
Qed.

(** ** The container as a set *)

(** The numbers in use. *)
Definition in_use (c : SequenceContainer) (used : gset Z) : Prop :=
  container_ok c ∧ (∀ n, n ∈ used → is_uint 16 n) ∧ ∀ n, is_uint 16 n → is_free c n = bool_decide (n ∉ used).

Inductive sequence_op := OpGet | OpRelease (n : Z) | OpClear.
Definition run_sequence_op (op : sequence_op) : SE SequenceContainer (option Z + bool) :=
  match op with
  | OpGet => n ← sequence_get; mret (inl n)
  | OpRelease n => b ← sequence_release n; mret (inr b)
  | OpClear => sequence_clear ;; mret (inr true)
  end.

(** What an operation promises: a set of numbers, its result, the new set. *)
Definition sequence_spec (op : sequence_op) (used : gset Z) (r : option Z + bool) (used' : gset Z) : Prop :=
  match op with
  | OpGet =>
      (∃ n, r = inl (Some n) ∧ is_uint 16 n ∧ (n ∉ used) ∧ (∀ m, (0 ≤ m < n)%Z → m ∈ used) ∧ used' = {[n]} ∪ used) ∨
      (r = inl None ∧ (∀ n, is_uint 16 n → n ∈ used) ∧ used' = used)
  | OpRelease n => r = inr (bool_decide (n ∈ used)) ∧ used' = used ∖ {[n]}
  | OpClear => r = inr true ∧ used' = ∅
  end.

(** C24: The container of sequence numbers is the set of the numbers in use: [get] takes the
    least of the 65536 numbers that is not in use and fails only when all are, [release]
    tells whether the number was in use, and nothing is undefined; the words of bits it
    keeps stay words of 32 bits. *)
Theorem sequence_container_refines op c used :
  in_use c used → match op with OpRelease n => is_uint 16 n | _ => True end →
  ∃ r c' used', run_sequence_op op c = (Ret r, c') ∧ sequence_spec op used r used' ∧ in_use c' used'.
Proof.
  intros (Hok & Hu & Hfree) Hop. destruct op as [|n|]; cbn [run_sequence_op].
  - destruct (sequence_get_ok c Hok) as [(n & c' & Hg & Hn & Hf & Hlt & Hok' & Hf')|[Hg Hall]]; erewrite SE_bind_Ret by exact Hg.
    + exists (inl (Some n)), c', ({[n]} ∪ used). split; [done|]. rewrite Hfree, bool_decide_eq_true in Hf by done. split.
      * left. exists n. split_and!; try done. intros m Hm. destruct (decide (m ∈ used)) as [|Hnm]; [done|].
        specialize (Hlt m Hm). rewrite Hfree, bool_decide_eq_false in Hlt by (unfold is_uint in *; lia). by destruct Hlt.
      * split; [done|]. split; [set_solver|]. intros m Hm. rewrite Hf', Hfree by done. repeat case_bool_decide; set_solver.
    + exists (inl None), c, used. split; [done|]. split; [|done]. right. split; [done|]. split; [|done].
      intros n Hn. specialize (Hall n). rewrite Hfree, bool_decide_eq_false in Hall by done. by destruct (decide (n ∈ used)).
  - destruct (sequence_release_ok c n Hok Hop) as (c' & Hr & Hok' & Hf'). erewrite SE_bind_Ret by exact Hr.
    exists (inr (negb (is_free c n))), c', (used ∖ {[n]}). split; [done|]. split.
    + split; [|done]. rewrite Hfree by done. do 2 f_equal. repeat case_bool_decide; done.
    + split; [done|]. split; [set_solver|]. intros m Hm. rewrite Hf', Hfree by done. repeat case_bool_decide; set_solver.
  - rewrite SE_bind_eq, sequence_clear_ok by done. exists (inr true), SequenceContainer_new, ∅. split; [done|]. split; [done|].
    split; [apply container_new_ok|]. split; [set_solver|]. intros n Hn. rewrite is_free_new by done. by rewrite bool_decide_eq_true_2 by set_solver.
Qed.

Lemma sequence_container_refines_witness :
  in_use SequenceContainer_new ∅ ∧
  ∃ r c' used', run_sequence_op OpGet SequenceContainer_new = (Ret r, c') ∧ sequence_spec OpGet ∅ r used' ∧ in_use c' used'.
Proof.
  assert (in_use SequenceContainer_new ∅) as H.
  { split; [apply container_new_ok|]. split; [set_solver|]. intros n Hn. rewrite is_free_new by done.
    by rewrite bool_decide_eq_true_2 by set_solver. }
  split; [exact H|]. exact (sequence_container_refines OpGet SequenceContainer_new ∅ H I).
Defined.
