(* ===== verification/AsyncLogic.v ===== *)
(** * The asynchronous client library ([client-async])

    A client asks without waiting: the library keeps the checks that are pending, and calls
    the client back with the answers.  The callbacks are code of the client; they may call
    the library again.  [W] is the system and the client's own data.  [fuel] bounds the
    waiting on the socket, [rounds] the responses that one call handles, [tries] the
    reconnections of one call. *)
From S2P Require Import Prelude Text Types Api BinaryQueue Serialization Frame Messages.
From S2P Require Import ProtocolClient Protocols SocketClient PluginManager CapacityCache ClientLogic SequenceContainer.

(** ** [SocketClientAsync] *)

Section async_socket.
Context {W : Type}.
Context (sys_poll : PollEvent → SE W PollResult) (sys_getsockopt : SE W (Z + Z))
  (sys_socket : SE W (unit + Z)) (sys_connect : SE W ConnectResult)
  (sys_send : string → SE W SendResult) (sys_recv : SE W RecvResult) (fuel : nat).

Abbreviation Sock := (SE (SocketClient * W)) (only parsing).

(** The queues are cleared; the header that the protocol has read stays. *)
Definition async_clear : Sock unit :=
  withHeader (modify (λ h, setHeaderContent (queue_clear (m_frameHeaderContent h)).2 h)) ;;
  withWriteQueue queue_clear.

Definition async_connect : Sock ConnectionStatus :=
  status ← withSocket (Socket_connect sys_poll sys_getsockopt sys_socket sys_connect);
  if negb (bool_decide (status = ALREADY_CONNECTED)) then async_clear ;; mret status else mret status.

Definition async_completeConnection : Sock ConnectionStatus :=
  status ← withSocket (completeConnection sys_poll sys_getsockopt);
  if bool_decide (status = CONNECTION_FAILED) then async_clear ;; mret status else mret status.

Definition async_isConnected : Sock bool := withSocket (Socket_isConnected sys_poll sys_getsockopt).

Definition async_appendRequest (request : Request) : Sock unit :=
  c ← client_; withWriteQueue (protocol_executeRequest (m_clientProtocol c) request).

Definition async_isDataToSend (c : SocketClient) : bool :=
  isDataToSend (m_socket c) || negb (queue_empty (m_clientWriteQueue c)).

Definition async_sendToCynara : Sock SendStatus :=
  queue ← withWriteQueue (λ q, (Ret q, BinaryQueue_new));
  withSocket (sendToServer sys_poll sys_send fuel queue).

Definition async_receiveFromCynara : Sock bool := receiveIntoReadQueue sys_poll sys_recv fuel.

Definition async_getResponse : Sock (option Response) :=
  c ← client_; withHeader (extractResponseFromBuffer (m_clientProtocol c)).
End async_socket.

(** ** Callbacks and calls *)

(** [cynara_async_status], [cynara_async_call_cause] *)
Inductive cynara_async_status := CYNARA_STATUS_FOR_READ | CYNARA_STATUS_FOR_RW.
Inductive cynara_async_call_cause :=
| CYNARA_CALL_CAUSE_ANSWER
| CYNARA_CALL_CAUSE_CANCEL
| CYNARA_CALL_CAUSE_FINISH
| CYNARA_CALL_CAUSE_SERVICE_NOT_AVAILABLE.
#[global] Instance cynara_async_status_eq_dec : EqDecision cynara_async_status.
Proof. solve_decision. Defined.
#[global] Instance cynara_async_call_cause_eq_dec : EqDecision cynara_async_call_cause.
Proof. solve_decision. Defined.

(** The callback of a request with its data, unless it is null: a number that stands for
    both. *)
Abbreviation ResponseCallback := (option nat) (only parsing).

(** [m_statusSet]: the callback is not null. *)
Record StatusCallback := mkStatusCallback { m_statusSet : bool; m_sockFd : Z; m_status : cynara_async_status }.
Definition StatusCallback_new (set : bool) : StatusCallback := mkStatusCallback set (-1) CYNARA_STATUS_FOR_READ.

Record CheckData := mkCheckData {
  m_key : PolicyKey;
  m_session : string;
  m_callback : ResponseCallback;
  m_simple : bool;
  m_cancelled : bool;
}.
Definition CheckData_cancel (c : CheckData) : CheckData :=
  mkCheckData (m_key c) (m_session c) (m_callback c) (m_simple c) true.

(** What happened: a request was entered, a callback was called. *)
Inductive AsyncEvent :=
| RequestCreated (checkId : Z) (callback : ResponseCallback)
| StatusCalled (oldFd newFd : Z) (status : cynara_async_status)
| ResponseCalled (checkId : Z) (cause : cynara_async_call_cause) (response : Z) (callback : nat).

(** The calls of a client. *)
Inductive AsyncCall :=
| CallCheckCache (client_ session user_ privilege_ : option string)
| CallCreateRequest (simple : bool) (client_ session user_ privilege_ : option string) (callback : ResponseCallback)
| CallProcess
| CallCancelRequest (checkId : Z)
| CallFinish.

(** What the body of a callback does: calls, depending on the codes (and check ids) that
    the earlier ones gave. *)
Inductive ClientProgram :=
| ProgramEnd
| ProgramCall (call : AsyncCall) (next : Z + Z → ClientProgram).

(** ** [Logic] *)

Record AsyncLogic (E P W : Type) := mkAsyncLogic {
  m_statusCallback : StatusCallback;
  m_asyncCache : CapacityCache E P;
  m_asyncSocketClient : SocketClient;
  m_checks : gmap Z CheckData;
  m_sequenceContainer : SequenceContainer;
  m_operationPermitted : bool;
  m_inAnswerCancelResponseCallback : bool;
  m_asyncMonitorCache : MonitorCache;
  asyncSequenceNumber : Z;
  asyncSystem : W;
  events : list AsyncEvent;
}.
Arguments mkAsyncLogic {E P W}.
Arguments m_statusCallback {E P W} _.
Arguments m_asyncCache {E P W} _.
Arguments m_asyncSocketClient {E P W} _.
Arguments m_checks {E P W} _.
Arguments m_sequenceContainer {E P W} _.
Arguments m_operationPermitted {E P W} _.
Arguments m_inAnswerCancelResponseCallback {E P W} _.
Arguments m_asyncMonitorCache {E P W} _.
Arguments asyncSequenceNumber {E P W} _.
Arguments asyncSystem {E P W} _.
Arguments events {E P W} _.

(** Setters of the model. *)
Section setters.
Context {E P W : Type}.
Implicit Types s : AsyncLogic E P W.
Definition setStatusCallback v s : AsyncLogic E P W :=
  mkAsyncLogic v (m_asyncCache s) (m_asyncSocketClient s) (m_checks s) (m_sequenceContainer s) (m_operationPermitted s)
    (m_inAnswerCancelResponseCallback s) (m_asyncMonitorCache s) (asyncSequenceNumber s) (asyncSystem s) (events s).
Definition setAsyncCache v s : AsyncLogic E P W :=
  mkAsyncLogic (m_statusCallback s) v (m_asyncSocketClient s) (m_checks s) (m_sequenceContainer s) (m_operationPermitted s)
    (m_inAnswerCancelResponseCallback s) (m_asyncMonitorCache s) (asyncSequenceNumber s) (asyncSystem s) (events s).
Definition setAsyncSocket (v : SocketClient * W) s : AsyncLogic E P W :=
  mkAsyncLogic (m_statusCallback s) (m_asyncCache s) v.1 (m_checks s) (m_sequenceContainer s) (m_operationPermitted s)
    (m_inAnswerCancelResponseCallback s) (m_asyncMonitorCache s) (asyncSequenceNumber s) v.2 (events s).
Definition setAsyncChecks v s : AsyncLogic E P W :=
  mkAsyncLogic (m_statusCallback s) (m_asyncCache s) (m_asyncSocketClient s) v (m_sequenceContainer s) (m_operationPermitted s)
    (m_inAnswerCancelResponseCallback s) (m_asyncMonitorCache s) (asyncSequenceNumber s) (asyncSystem s) (events s).
Definition setSequenceContainer v s : AsyncLogic E P W :=
  mkAsyncLogic (m_statusCallback s) (m_asyncCache s) (m_asyncSocketClient s) (m_checks s) v (m_operationPermitted s)
    (m_inAnswerCancelResponseCallback s) (m_asyncMonitorCache s) (asyncSequenceNumber s) (asyncSystem s) (events s).
Definition setPermitted v s : AsyncLogic E P W :=
  mkAsyncLogic (m_statusCallback s) (m_asyncCache s) (m_asyncSocketClient s) (m_checks s) (m_sequenceContainer s) v
    (m_inAnswerCancelResponseCallback s) (m_asyncMonitorCache s) (asyncSequenceNumber s) (asyncSystem s) (events s).
Definition setInCallback v s : AsyncLogic E P W :=
  mkAsyncLogic (m_statusCallback s) (m_asyncCache s) (m_asyncSocketClient s) (m_checks s) (m_sequenceContainer s)
    (m_operationPermitted s) v (m_asyncMonitorCache s) (asyncSequenceNumber s) (asyncSystem s) (events s).
Definition setAsyncMonitor v s : AsyncLogic E P W :=
  mkAsyncLogic (m_statusCallback s) (m_asyncCache s) (m_asyncSocketClient s) (m_checks s) (m_sequenceContainer s)
    (m_operationPermitted s) (m_inAnswerCancelResponseCallback s) v (asyncSequenceNumber s) (asyncSystem s) (events s).
Definition setAsyncSequence v s : AsyncLogic E P W :=
  mkAsyncLogic (m_statusCallback s) (m_asyncCache s) (m_asyncSocketClient s) (m_checks s) (m_sequenceContainer s)
    (m_operationPermitted s) (m_inAnswerCancelResponseCallback s) (m_asyncMonitorCache s) v (asyncSystem s) (events s).
Definition setAsyncSystem v s : AsyncLogic E P W :=
  mkAsyncLogic (m_statusCallback s) (m_asyncCache s) (m_asyncSocketClient s) (m_checks s) (m_sequenceContainer s)
    (m_operationPermitted s) (m_inAnswerCancelResponseCallback s) (m_asyncMonitorCache s) (asyncSequenceNumber s) v (events s).
Definition addEvent e s : AsyncLogic E P W :=
  mkAsyncLogic (m_statusCallback s) (m_asyncCache s) (m_asyncSocketClient s) (m_checks s) (m_sequenceContainer s)
    (m_operationPermitted s) (m_inAnswerCancelResponseCallback s) (m_asyncMonitorCache s) (asyncSequenceNumber s)
    (asyncSystem s) (e :: events s).
End setters.

Section logic.
Context {E P : Type} `{CP : !ClientPlugins E P} {W : Type}.
Context (sys_poll : PollEvent → SE W PollResult) (sys_getsockopt : SE W (Z + Z))
  (sys_socket : SE W (unit + Z)) (sys_connect : SE W ConnectResult)
  (sys_send : string → SE W SendResult) (sys_recv : SE W RecvResult)
  (sys_clock : SE W (option timespec)).
(** The number of the descriptor that [socket] gave last. *)
Context (sys_fd : W → Z).
Context (m_monitoringEnabled : bool).
Context (tries rounds fuel : nat).

Abbreviation Async := (SE (AsyncLogic E P W)) (only parsing).

(** Calls of the members. *)
Definition onAsyncSocket {A} (m : SE (SocketClient * W) A) : Async A := λ s,
  let '(r, cw) := m (m_asyncSocketClient s, asyncSystem s) in (r, setAsyncSocket cw s).
Definition onAsyncCache {A} (m : SE (CapacityCache E P) A) : Async A := λ s,
  let '(r, c) := m (m_asyncCache s) in (r, setAsyncCache c s).
Definition onSequenceContainer {A} (m : SE SequenceContainer A) : Async A := λ s,
  let '(r, c) := m (m_sequenceContainer s) in (r, setSequenceContainer c s).
Definition onAsyncSystem {A} (m : SE W A) : Async A := λ s,
  let '(r, w) := m (asyncSystem s) in (r, setAsyncSystem w s).

Definition generateSequenceNumber : Async Z :=
  modify (λ s, setAsyncSequence ((asyncSequenceNumber s + 1) mod 2 ^ 16)%Z s) ;;
  gets asyncSequenceNumber.

Definition getSockFd : Async Z :=
  gets (λ s, if m_open (m_socket (m_asyncSocketClient s)) then sys_fd (asyncSystem s) else (-1)%Z).

Definition appendRequest (request : Request) : Async unit := onAsyncSocket (async_appendRequest request).

(** The client's code runs when a callback is called. *)
Section handlers.
Context (clientCode : AsyncEvent → Async unit).

Definition callClient (event : AsyncEvent) : Async unit :=
  modify (addEvent event) ;;
  clientCode event.

Definition StatusCallback_onStatusChange (newFd : Z) (status : cynara_async_status) : Async unit :=
  s ← get;
  let c := m_statusCallback s in
  if negb (m_statusSet c) then mret tt
  else if bool_decide (m_status c = status) && (m_sockFd c =? newFd)%Z then mret tt
  else
    callClient (StatusCalled (m_sockFd c) newFd status) ;;
    modify (setStatusCallback (mkStatusCallback true newFd status)).

Definition StatusCallback_onDisconnected : Async unit := StatusCallback_onStatusChange (-1) CYNARA_STATUS_FOR_READ.

(** [onAnswer], [onCancel], [onFinish] and [onDisconnected] of [ResponseCallback] *)
Definition ResponseCallback_call (callback : ResponseCallback) (checkId : Z) (cause : cynara_async_call_cause)
    (response : Z) : Async unit :=
  match callback with
  | None => mret tt
  | Some callback => callClient (ResponseCalled checkId cause response callback)
  end.

Definition onStatusChange (sock : Z) (status : cynara_async_status) : Async unit :=
  modify (setPermitted false) ;;
  StatusCallback_onStatusChange sock status ;;
  modify (setPermitted true).

(** The checks that are not cancelled are called back, in the order of their numbers. *)
Definition callPending (cause : cynara_async_call_cause) : Async unit :=
  s ← get;
  forEach (stdmap_iter Z.le (m_checks s)) (λ '(checkId, check),
    if m_cancelled check then mret tt else ResponseCallback_call (m_callback check) checkId cause 0).

Definition onServiceNotAvailable : Async unit :=
  modify (setPermitted false) ;;
  callPending CYNARA_CALL_CAUSE_SERVICE_NOT_AVAILABLE ;;
  modify (setAsyncChecks ∅) ;;
  onSequenceContainer sequence_clear ;;
  modify (setPermitted true).

Definition onDisconnected : Async unit :=
  modify (setPermitted false) ;;
  onAsyncCache cache_clear ;;
  StatusCallback_onDisconnected ;;
  modify (setPermitted true).

(** Cancelled checks are forgotten, the others are asked again. *)
Definition prepareRequestsToSend : Async unit :=
  s ← get;
  forEach (stdmap_iter Z.le (m_checks s)) (λ '(checkId, check),
    if m_cancelled check then
      _ ← onSequenceContainer (sequence_release checkId);
      modify (λ s, setAsyncChecks (delete checkId (m_checks s)) s)
    else if m_simple check then appendRequest (SimpleCheckRequest (m_key check) checkId)
    else appendRequest (CheckRequest (m_key check) checkId)).

Definition socketDataStatus : Async cynara_async_status :=
  gets (λ s, if async_isDataToSend (m_asyncSocketClient s) then CYNARA_STATUS_FOR_RW else CYNARA_STATUS_FOR_READ).

Definition connect : Async bool :=
  status ← onAsyncSocket (async_connect sys_poll sys_getsockopt sys_socket sys_connect);
  match status with
  | CONNECTION_SUCCEEDED =>
      prepareRequestsToSend ;;
      sock ← getSockFd;
      status ← socketDataStatus;
      onStatusChange sock status ;;
      mret true
  | CONNECTION_IN_PROGRESS =>
      prepareRequestsToSend ;;
      sock ← getSockFd;
      onStatusChange sock CYNARA_STATUS_FOR_RW ;;
      mret true
  | _ =>
      onServiceNotAvailable ;;
      mret false
  end.

Definition isConnected : Async bool := onAsyncSocket (async_isConnected sys_poll sys_getsockopt).

Definition ensureConnection : Async bool :=
  connected ← isConnected;
  if connected : bool then mret true
  else
    onDisconnected ;;
    connect.

(** The result and the output argument. *)
Definition completeConnection : Async (Z * bool) :=
  status ← onAsyncSocket (async_completeConnection sys_poll sys_getsockopt);
  match status with
  | ALREADY_CONNECTED => mret (CYNARA_API_SUCCESS, true)
  | CONNECTION_SUCCEEDED =>
      sock ← getSockFd;
      status ← socketDataStatus;
      onStatusChange sock status ;;
      mret (CYNARA_API_SUCCESS, true)
  | CONNECTION_IN_PROGRESS => mret (CYNARA_API_SUCCESS, false)
  | CONNECTION_FAILED =>
      onDisconnected ;;
      onServiceNotAvailable ;;
      mret (CYNARA_API_SERVICE_NOT_AVAILABLE, false)
  end.

(** ** The monitor *)

Definition flushMonitor : Async unit :=
  if negb m_monitoringEnabled then mret tt
  else
    s ← get;
    if length (m_monitorEntries (m_asyncMonitorCache s)) =? 0 then mret tt
    else
      connected ← ensureConnection;
      if negb connected then mret tt
      else
        sequenceNumber ← generateSequenceNumber;
        s ← get;
        appendRequest (MonitorEntriesPutRequest (m_monitorEntries (m_asyncMonitorCache s)) sequenceNumber) ;;
        sock ← getSockFd;
        onStatusChange sock CYNARA_STATUS_FOR_RW ;;
        modify (λ s, setAsyncMonitor (mc_clear (m_asyncMonitorCache s)) s).

Definition updateMonitor (policyKey : PolicyKey) (result : Z) : Async unit :=
  if negb m_monitoringEnabled then mret tt
  else
    now ← onAsyncSystem sys_clock;
    modify (λ s, setAsyncMonitor (mc_update now policyKey result (m_asyncMonitorCache s)) s) ;;
    s ← get;
    if shouldFlush (m_asyncMonitorCache s) then flushMonitor else mret tt.

Definition tryFlushMonitor : Async unit :=
  if negb m_monitoringEnabled then mret tt
  else
    s ← get;
    forEach (m_monitorEntries (m_asyncMonitorCache s)) (λ entry,
      sequenceNumber ← generateSequenceNumber;
      appendRequest (MonitorEntryPutRequest entry sequenceNumber)) ;;
    _ ← onAsyncSocket (async_sendToCynara sys_poll sys_send fuel);
    mret tt.

(** ** Requests *)

Definition checkCacheValid : Async bool := isConnected.

Definition checkCache (client_ session user_ privilege_ : string) : Async Z :=
  s ← get;
  if negb (m_operationPermitted s) then mret CYNARA_API_OPERATION_NOT_ALLOWED
  else
    valid ← checkCacheValid;
    if negb valid then mret CYNARA_API_CACHE_MISS
    else
      ret ← onAsyncCache (cache_get session (PolicyKey_of client_ user_ privilege_));
      (if m_monitoringEnabled then
         (if negb (ret =? CYNARA_API_CACHE_MISS)%Z then updateMonitor (PolicyKey_of client_ user_ privilege_) ret else mret tt) ;;
         s ← get;
         if shouldFlush (m_asyncMonitorCache s) then flushMonitor else mret tt
       else mret tt) ;;
      mret ret.

(** [m_checks.insert]: a number that is there already keeps its check. *)
Definition insertCheck (checkId : Z) (check : CheckData) : Async unit :=
  modify (λ s, match m_checks s !! checkId with
               | Some _ => s
               | None => addEvent (RequestCreated checkId (m_callback check)) (setAsyncChecks (<[checkId := check]> (m_checks s)) s)
               end).

(** The code of an error, or the number of the check. *)
Definition createRequest (simple : bool) (client_ session user_ privilege_ : string) (callback : ResponseCallback) :
    Async (Z + Z) :=
  s ← get;
  if negb (m_operationPermitted s) then mret (inl CYNARA_API_OPERATION_NOT_ALLOWED)
  else
    connected ← ensureConnection;
    if negb connected then mret (inl CYNARA_API_SERVICE_NOT_AVAILABLE)
    else
      sequenceNumber ← onSequenceContainer sequence_get;
      match sequenceNumber with
      | None => mret (inl CYNARA_API_MAX_PENDING_REQUESTS)
      | Some sequenceNumber =>
          let key := PolicyKey_of client_ user_ privilege_ in
          insertCheck sequenceNumber (mkCheckData key session callback simple false) ;;
          appendRequest (if simple then SimpleCheckRequest key sequenceNumber else CheckRequest key sequenceNumber) ;;
          sock ← getSockFd;
          onStatusChange sock CYNARA_STATUS_FOR_RW ;;
          mret (inr sequenceNumber)
      end.
Definition createCheckRequest := createRequest false.
Definition createSimpleRequest := createRequest true.

(** A callback during which the client may call the library, but not finish it. *)
Definition inResponseCallback (m : Async unit) : Async unit :=
  s ← get;
  modify (setInCallback true) ;;
  m ;;
  modify (setInCallback (m_inAnswerCancelResponseCallback s)).

Definition cancelRequest (checkId : Z) : Async Z :=
  s ← get;
  if negb (m_operationPermitted s) then mret CYNARA_API_OPERATION_NOT_ALLOWED
  else
    connected ← ensureConnection;
    if negb connected then mret CYNARA_API_SERVICE_NOT_AVAILABLE
    else
      s ← get;
      match m_checks s !! checkId with
      | None => mret CYNARA_API_INVALID_PARAM
      | Some check =>
          if m_cancelled check then mret CYNARA_API_INVALID_PARAM
          else
            appendRequest (CancelRequest checkId) ;;
            modify (λ s, setAsyncChecks (<[checkId := CheckData_cancel check]> (m_checks s)) s) ;;
            inResponseCallback (ResponseCallback_call (m_callback check) checkId CYNARA_CALL_CAUSE_CANCEL 0) ;;
            sock ← getSockFd;
            onStatusChange sock CYNARA_STATUS_FOR_RW ;;
            mret CYNARA_API_SUCCESS
      end.

(** ** Responses *)

Definition processOut : Async bool :=
  status ← onAsyncSocket (async_sendToCynara sys_poll sys_send fuel);
  match status with
  | ALL_DATA_SENT => sock ← getSockFd; onStatusChange sock CYNARA_STATUS_FOR_READ ;; mret true
  | PARTIAL_DATA_SENT => mret true
  | CONNECTION_LOST => mret false
  end.

(** The check a response is for. *)
Definition checkResponseValid (response : Response) : Async CheckData :=
  s ← get;
  match m_checks s !! response_sequenceNumber response with
  | None => throw (UnexpectedErrorException 0)
  | Some check => mret check
  end.

Definition releaseRequest (checkId : Z) : Async unit :=
  _ ← onSequenceContainer (sequence_release checkId);
  modify (λ s, setAsyncChecks (delete checkId (m_checks s)) s).

(** The client is told the answer to a check that it has not cancelled. *)
Definition answerCheck (check : CheckData) (checkId result : Z) : Async unit :=
  if negb (m_cancelled check)
  then inResponseCallback (ResponseCallback_call (m_callback check) checkId CYNARA_CALL_CAUSE_ANSWER result)
  else mret tt.

Definition processCheckResponse (resultRef : PolicyResult) (sequenceNumber : Z) : Async unit :=
  check ← checkResponseValid (CheckResponse resultRef sequenceNumber);
  result ← onAsyncCache (cache_update (m_session check) (m_key check) resultRef);
  releaseRequest sequenceNumber ;;
  updateMonitor (m_key check) result ;;
  answerCheck check sequenceNumber result.

Definition processSimpleCheckResponse (retValue : Z) (resultRef : PolicyResult) (sequenceNumber : Z) : Async unit :=
  check ← checkResponseValid (SimpleCheckResponse retValue resultRef sequenceNumber);
  result ← (if (retValue =? CYNARA_API_SUCCESS)%Z
            then onAsyncCache (cache_update (m_session check) (m_key check) resultRef) else mret retValue);
  releaseRequest sequenceNumber ;;
  answerCheck check sequenceNumber result.

Definition processCancelResponse (sequenceNumber : Z) : Async unit :=
  check ← checkResponseValid (CancelResponse sequenceNumber);
  if negb (m_cancelled check) then throw (UnexpectedErrorException 0) else releaseRequest sequenceNumber.

Definition getResponse : Async (option Response) := onAsyncSocket async_getResponse.

Fixpoint processResponses (rounds : nat) : Async unit :=
  match rounds with
  | 0 => λ s, (OutOfFuel, s)
  | S rounds' =>
      response ← getResponse;
      match response with
      | None => mret tt
      | Some (CheckResponse resultRef n) => processCheckResponse resultRef n ;; processResponses rounds'
      | Some (CancelResponse n) => processCancelResponse n ;; processResponses rounds'
      | Some (SimpleCheckResponse retValue resultRef n) => processSimpleCheckResponse retValue resultRef n ;; processResponses rounds'
      | Some _ => throw (UnexpectedErrorException 0)
      end
  end.

Definition processIn : Async bool :=
  received ← onAsyncSocket (async_receiveFromCynara sys_poll sys_recv fuel);
  if negb received then mret false else processResponses rounds ;; mret true.

(** The [while (true)] of [process]. *)
Fixpoint process_loop (tries : nat) : Async Z :=
  match tries with
  | 0 => λ s, (OutOfFuel, s)
  | S tries' =>
      completed ← completeConnection;
      let '(ret, completed) := completed in
      if negb completed then mret ret
      else
        out ← processOut;
        in_ ← (if out : bool then processIn else mret false);
        if in_ : bool then mret CYNARA_API_SUCCESS
        else
          onDisconnected ;;
          connected ← connect;
          if negb connected then mret CYNARA_API_SERVICE_NOT_AVAILABLE else process_loop tries'
  end.
Definition process : Async Z :=
  s ← get;
  if negb (m_operationPermitted s) then mret CYNARA_API_OPERATION_NOT_ALLOWED else process_loop tries.

Definition isFinishPermitted (s : AsyncLogic E P W) : bool :=
  m_operationPermitted s && negb (m_inAnswerCancelResponseCallback s).

(** The destructor. *)
Definition Logic_delete : Async unit :=
  modify (setPermitted false) ;;
  callPending CYNARA_CALL_CAUSE_FINISH ;;
  StatusCallback_onDisconnected.

(** ** The interface ([client-async-api.cpp])

    The handle is not null where these run; a null one gives [CYNARA_API_INVALID_PARAM].
    [cynara_async_create_request] gives the number of the check on success. *)

Definition cynara_async_check_cache (client_ session user_ privilege_ : option string) : Async Z :=
  if negb (isStringValid client_) || negb (isStringValid session) then mret CYNARA_API_INVALID_PARAM
  else if negb (isStringValid user_) || negb (isStringValid privilege_) then mret CYNARA_API_INVALID_PARAM
  else api_tryCatch (checkCache (default "" client_) (default "" session) (default "" user_) (default "" privilege_)).

Definition cynara_async_create (simple : bool) (client_ session user_ privilege_ : option string) (callback : ResponseCallback) :
    Async (Z + Z) :=
  if negb (isStringValid client_) || negb (isStringValid session) then mret (inl CYNARA_API_INVALID_PARAM)
  else if negb (isStringValid user_) || negb (isStringValid privilege_) then mret (inl CYNARA_API_INVALID_PARAM)
  else
    api_tryCatchValue
      ((if simple then createSimpleRequest else createCheckRequest)
         (default "" client_) (default "" session) (default "" user_) (default "" privilege_) callback).
Definition cynara_async_create_request := cynara_async_create false.
Definition cynara_async_create_simple_request := cynara_async_create true.

Definition cynara_async_process : Async Z := api_tryCatch process.

Definition cynara_async_cancel_request (check_id : Z) : Async Z := api_tryCatch (cancelRequest check_id).

(** Whether the handle was deleted.  The caller sees nothing of it, nor of an exception. *)
Definition cynara_async_finish : Async bool :=
  tryCatch
    (s ← get;
     if negb (isFinishPermitted s) then mret false
     else tryFlushMonitor ;; Logic_delete ;; mret true)
    (λ e, match exception_code e with Some _ => mret false | None => throw e end).

(** A call of the client from one of its callbacks.  A handle that is deleted while it calls
    back is used afterwards. *)
Definition run_call (call : AsyncCall) : Async (Z + Z) :=
  match call with
  | CallCheckCache c s u p => ret ← cynara_async_check_cache c s u p; mret (inl ret)
  | CallCreateRequest simple c s u p callback =>
      (if simple then cynara_async_create_simple_request else cynara_async_create_request) c s u p callback
  | CallProcess => ret ← cynara_async_process; mret (inl ret)
  | CallCancelRequest checkId => ret ← cynara_async_cancel_request checkId; mret (inl ret)
  | CallFinish =>
      deleted ← cynara_async_finish;
      if deleted : bool then throw UndefinedBehaviour else mret (inl CYNARA_API_SUCCESS)
  end.

Fixpoint run_program (program : ClientProgram) : Async unit :=
  match program with
  | ProgramEnd => mret tt
  | ProgramCall call next => result ← run_call call; run_program (next result)
  end.
End handlers.

(** The client: what its callbacks do. *)
Context (client_callback : AsyncEvent → W → ClientProgram * W).

(** Callbacks in calls from callbacks, up to [depth] levels. *)
Fixpoint clientCode (depth : nat) (event : AsyncEvent) : Async unit :=
  match depth with
  | 0 => λ s, (OutOfFuel, s)
  | S depth' =>
      program ← onAsyncSystem (λ w, let '(program, w') := client_callback event w in (Ret program, w'));
      run_program (clientCode depth') program
  end.

Definition Logic_new (statusCallback : bool) (cacheSize : nat) (libraries : list (option E)) (p : P) (sequence : Z) (w : W) :
    AsyncLogic E P W :=
  let cache := CapacityCache_new cacheSize libraries p in
  let cache := (forEach predefinedPolicyDescr (λ descr, registerPlugin descr NaiveInterpreter) cache).2 in
  mkAsyncLogic (StatusCallback_new statusCallback) cache (SocketClient_new PClient) ∅ SequenceContainer_new true false
    MonitorCache_new sequence w [].
End logic.
