(* ===== verification/AsyncTheorems.v ===== *)
(** * Theorems on the asynchronous client library

    Each request is called back once.  The client's callbacks may call the library again,
    so the invariant is proved for all nestings of calls and callbacks, and for any system. *)
From S2P Require Import Prelude Text Types Api BinaryQueue Serialization Frame Messages.
From S2P Require Import ProtocolClient Protocols SocketClient PluginManager CapacityCache ClientLogic SequenceContainer AsyncLogic.

(** ** What operations do, up to undefined behaviour and fuel

    From [P], the operation returns with [Q] or throws with [R]. *)
Definition triple {S A} (P : S → Prop) (m : SE S A) (Q : A → S → Prop) (R : S → Prop) : Prop :=
  ∀ s, P s → match m s with
             | (Ret a, s') => Q a s'
             | (Throw UndefinedBehaviour, _) => True
             | (Throw _, s') => R s'
             | (OutOfFuel, _) => True
             end.

Section triple.
Context {S : Type}.
Implicit Types P R : S → Prop.

Lemma triple_ret {A} (a : A) (Q : A → S → Prop) R : triple (Q a) (mret a) Q R.
Proof. by intros s Hs. Qed.
Lemma triple_throw {A} e P (Q : A → S → Prop) : triple P (throw e) Q P.
Proof. intros s Hs. by destruct e. Qed.
Lemma triple_fuel {A} P (Q : A → S → Prop) R : triple P (λ s, (OutOfFuel, s)) Q R.
Proof. by intros s Hs. Qed.
Lemma triple_bind {A B} (m : SE S A) (k : A → SE S B) P Q' Q R :
  triple P m Q' R → (∀ a, triple (Q' a) (k a) Q R) → triple P (m ≫= k) Q R.
Proof.
  intros Hm Hk s Hs. rewrite SE_bind_eq. specialize (Hm s Hs). destruct (m s) as [[a|e|] s']; [by apply Hk|done|done].
Qed.
Lemma triple_get {A} (k : S → SE S A) P Q R : (∀ s, P s → triple (λ s', s' = s) (k s) Q R) → triple P (s ← get; k s) Q R.
Proof. intros Hk s Hs. rewrite SE_bind_eq. by apply (Hk s Hs s). Qed.
Lemma triple_weaken {A} (m : SE S A) P P' (Q Q' : A → S → Prop) R R' :
  triple P m Q R → (∀ s, P' s → P s) → (∀ a s, Q a s → Q' a s) → (∀ s, R s → R' s) → triple P' m Q' R'.
Proof.
  intros Hm HP HQ HR s Hs. specialize (Hm s (HP s Hs)). destruct (m s) as [[a|[]|] s']; eauto.
Qed.
Lemma triple_tryCatch {A} (m : SE S A) h P Q R R' :
  triple P m Q R' → (∀ e, e ≠ UndefinedBehaviour → triple R' (h e) Q R) → (∀ s, h UndefinedBehaviour s = (Throw UndefinedBehaviour, s)) →
  triple P (tryCatch m h) Q R.
Proof.
  intros Hm Hh Hub s Hs. unfold tryCatch. specialize (Hm s Hs). destruct (m s) as [[a|e|] s']; [done| |done].
  destruct (decide (e = UndefinedBehaviour)) as [->|Hne]; [by rewrite Hub|].
  apply Hh; [done|]. by destruct e.
Qed.
Lemma triple_pre {A} (m : SE S A) P Q R : (∀ s, P s → triple (λ s', s' = s) m Q R) → triple P m Q R.
Proof. intros H s Hs. by apply (H s Hs s). Qed.
End triple.

(** An operation that preserves [I], and may throw. *)
Definition preserves {S A} (I : S → Prop) (m : SE S A) : Prop := triple I m (λ _, I) I.
(** An operation that preserves [I] and does not throw. *)
Definition settles {S A} (I : S → Prop) (m : SE S A) : Prop := triple I m (λ _, I) (λ _, False).

Lemma settles_preserves {S A} (I : S → Prop) (m : SE S A) : settles I m → preserves I m.
Proof. intros H. by apply (triple_weaken _ _ _ _ _ _ _ H). Qed.

Lemma preserves_bind {S A B} (I : S → Prop) (m : SE S A) (k : A → SE S B) :
  preserves I m → (∀ a, preserves I (k a)) → preserves I (m ≫= k).
Proof. apply triple_bind. Qed.
Lemma preserves_ret {S A} (I : S → Prop) (a : A) : preserves I (mret a).
Proof. by intros s Hs. Qed.
Lemma preserves_if {S A} (I : S → Prop) (b : bool) (m m' : SE S A) :
  preserves I m → preserves I m' → preserves I (if b then m else m').
Proof. by destruct b. Qed.
Lemma preserves_get {S} (I : S → Prop) : preserves I get.
Proof. by intros s Hs. Qed.

Lemma triple_forEach {S X} (l : list X) (f : X → SE S unit) (I R : S → Prop) :
  (∀ x, triple I (f x) (λ _, I) R) → triple I (forEach l f) (λ _, I) R.
Proof.
  intros Hf. induction l as [|x l IH]; cbn [forEach]; [intros s Hs; exact Hs|].
  eapply triple_bind; [apply Hf|]. intros []. exact IH.
Qed.

Lemma preserves_forEach {S X} (I : S → Prop) (l : list X) (f : X → SE S unit) :
  (∀ x, preserves I (f x)) → preserves I (forEach l f).
Proof. apply triple_forEach. Qed.

(** ** The requests that are owed a callback *)

(** Requests with a callback that were entered under number [n], and callbacks for it. *)
Fixpoint created (n : Z) (l : list AsyncEvent) : nat :=
  match l with
  | [] => 0
  | RequestCreated m (Some _) :: l => (if (m =? n)%Z then 1 else 0) + created n l
  | _ :: l => created n l
  end.
Fixpoint called (n : Z) (l : list AsyncEvent) : nat :=
  match l with
  | [] => 0
  | ResponseCalled m _ _ _ :: l => (if (m =? n)%Z then 1 else 0) + called n l
  | _ :: l => called n l
  end.

(** A callback is for a request that has not been called back; unless [lossy], a number is
    not used again while a request waits under it.  (The last event comes first.) *)
Fixpoint bracketed (lossy : bool) (l : list AsyncEvent) : Prop :=
  match l with
  | [] => True
  | RequestCreated n _ :: l => (lossy = true ∨ created n l = called n l) ∧ bracketed lossy l
  | ResponseCalled n _ _ _ :: l => called n l < created n l ∧ bracketed lossy l
  | StatusCalled _ _ _ :: l => bracketed lossy l
  end.

Definition owes (c : CheckData) : nat := if negb (m_cancelled c) && bool_decide (is_Some (m_callback c)) then 1 else 0.
Definition owed {E P W} (s : AsyncLogic E P W) (n : Z) : nat := from_option owes 0 (m_checks s !! n).

Lemma owes_cancel c : owes (CheckData_cancel c) = 0.
Proof. done. Qed.

Section invariant.
Context {E P : Type} `{CP : !ClientPlugins E P} {W : Type}.
Context (m_monitoringEnabled : bool).
Implicit Types s : AsyncLogic E P W.

(** The numbers in use are those of the checks; requests and callbacks match up to what is
    owed and what was lost, [lost]. *)
Definition async_inv (permitted inCallback : bool) (lost : Z → nat) s : Prop :=
  m_operationPermitted s = permitted ∧ m_inAnswerCancelResponseCallback s = inCallback ∧
  container_ok (m_sequenceContainer s) ∧
  (∀ n, is_Some (m_checks s !! n) → is_uint 16 n) ∧
  (∀ n, is_uint 16 n → is_free (m_sequenceContainer s) n = bool_decide (m_checks s !! n = None)) ∧
  bracketed m_monitoringEnabled (events s) ∧
  (∀ n, created n (events s) = called n (events s) + owed s n + lost n).

(** What the invariant is about stays; only the status callback may have been called. *)
Definition is_status (e : AsyncEvent) : Prop := match e with StatusCalled _ _ _ => True | _ => False end.
Definition calm s s' : Prop :=
  m_operationPermitted s' = m_operationPermitted s ∧
  m_inAnswerCancelResponseCallback s' = m_inAnswerCancelResponseCallback s ∧
  m_sequenceContainer s' = m_sequenceContainer s ∧ m_checks s' = m_checks s ∧
  ∃ l, events s' = l ++ events s ∧ Forall is_status l.

#[global] Instance calm_preorder : PreOrder calm.
Proof.
  split.
  - intros s. unfold calm. split_and!; [done..|]. by exists [].
  - intros s1 s2 s3 (A1 & A2 & A3 & A4 & l & A5 & Hl) (B1 & B2 & B3 & B4 & l' & B5 & Hl').
    unfold calm. rewrite B1, B2, B3, B4, B5, A1, A2, A3, A4, A5. split_and!; [done..|].
    exists (l' ++ l). rewrite app_assoc. split; [done|]. by apply Forall_app.
Qed.

Lemma status_events l l' :
  Forall is_status l → (∀ n, created n (l ++ l') = created n l') ∧ (∀ n, called n (l ++ l') = called n l') ∧
  (∀ b, bracketed b l' → bracketed b (l ++ l')).
Proof. induction 1 as [|[] l Hs _ IH]; done. Qed.

Lemma calm_inv p b lost s s' : async_inv p b lost s → calm s s' → async_inv p b lost s'.
Proof.
  intros (Hp & Hb & Hc & Hr & Hf & Hbr & Hn) (H1 & H2 & H3 & H4 & l & H5 & Hs).
  destruct (status_events l (events s) Hs) as (Hcr & Hca & Hbl).
  unfold async_inv, owed. rewrite H1, H2, H3, H4, H5. split_and!; try done; [by apply Hbl|].
  intros n. rewrite Hcr, Hca. apply Hn.
Qed.

(** An operation that stays calm, and one that also does not throw. *)
Definition calms {A} (m : SE (AsyncLogic E P W) A) : Prop := ∀ s, triple (λ s', s' = s) m (λ _ s', calm s s') (calm s).

Lemma calms_preserves {A} (m : SE (AsyncLogic E P W) A) p b lost : calms m → preserves (async_inv p b lost) m.
Proof.
  intros Hm s Hs. specialize (Hm s s eq_refl). destruct (m s) as [[a|[]|] s']; try done; by eapply calm_inv.
Qed.

Lemma onAsyncSocket_calms {A} (m : SE (SocketClient * W) A) : calms (onAsyncSocket m).
Proof.
  intros s _ ->. unfold onAsyncSocket. destruct (m _) as [r cw].
  assert (calm s (setAsyncSocket cw s)) by (split_and!; [done..|]; by exists []). by destruct r as [|[]|].
Qed.
Lemma onAsyncCache_calms {A} (m : SE (CapacityCache E P) A) : calms (onAsyncCache (W:=W) m).
Proof.
  intros s _ ->. unfold onAsyncCache. destruct (m _) as [r c].
  assert (calm s (setAsyncCache c s)) by (split_and!; [done..|]; by exists []). by destruct r as [|[]|].
Qed.
Lemma onAsyncSystem_calms {A} (m : SE W A) : calms (onAsyncSystem (E:=E) (P:=P) m).
Proof.
  intros s _ ->. unfold onAsyncSystem. destruct (m _) as [r c].
  assert (calm s (setAsyncSystem c s)) by (split_and!; [done..|]; by exists []). by destruct r as [|[]|].
Qed.
Lemma modify_calms (f : AsyncLogic E P W → AsyncLogic E P W) : (∀ s, calm s (f s)) → calms (modify f).
Proof. intros Hf s _ ->. apply Hf. Qed.
Lemma gets_calms {A} (f : AsyncLogic E P W → A) : calms (gets f).
Proof. intros s _ ->. change (calm s s). reflexivity. Qed.
End invariant.

(** ** The handlers *)

Section handlers.
Context {E P : Type} `{CP : !ClientPlugins E P} {W : Type}.
Context (sys_poll : PollEvent → SE W PollResult) (sys_getsockopt : SE W (Z + Z))
  (sys_socket : SE W (unit + Z)) (sys_connect : SE W ConnectResult)
  (sys_send : string → SE W SendResult) (sys_recv : SE W RecvResult)
  (sys_clock : SE W (option timespec)) (sys_fd : W → Z).
Context (m_monitoringEnabled : bool) (tries rounds fuel : nat).
Context (code : AsyncEvent → SE (AsyncLogic E P W) unit).
Implicit Types s : AsyncLogic E P W.

Abbreviation inv := (async_inv (E:=E) (P:=P) (W:=W) m_monitoringEnabled).
(** Nothing is lost without the monitor. *)
Definition invariant (permitted inCallback : bool) s : Prop :=
  ∃ lost, inv permitted inCallback lost s ∧ (m_monitoringEnabled = false → ∀ n, lost n = 0).

(** While no operation is permitted the client's code changes nothing in the library;
    otherwise it keeps the invariant. *)
Hypothesis code_quiet : ∀ event s,
  m_operationPermitted s = false → triple (λ s', s' = s) (code event) (λ _ s', ∃ w, s' = setAsyncSystem w s) (λ _, False).
Hypothesis code_ok : ∀ event, settles (invariant true true) (code event).

(** Steps that do not look at the invariant: [calm] when operations are permitted. *)
Definition stays {A} (m : SE (AsyncLogic E P W) A) : Prop :=
  ∀ s, m_operationPermitted s = true → triple (λ s', s' = s) m (λ _, calm s) (λ _, False).

Lemma stays_settles {A} (m : SE (AsyncLogic E P W) A) b lost : stays m → settles (inv true b lost) m.
Proof.
  intros Hm s Hs. specialize (Hm s (proj1 Hs) s eq_refl). destruct (m s) as [[a|[]|] s']; try done; by eapply calm_inv.
Qed.

Lemma calm_same s s' :
  m_operationPermitted s' = m_operationPermitted s → m_inAnswerCancelResponseCallback s' = m_inAnswerCancelResponseCallback s →
  m_sequenceContainer s' = m_sequenceContainer s → m_checks s' = m_checks s → events s' = events s → calm s s'.
Proof. intros H1 H2 H3 H4 H5. unfold calm. rewrite H1, H2, H3, H4, H5. split_and!; [done..|]. by exists []. Qed.

(** The status callback, called while no operation is permitted. *)
Lemma StatusCallback_calm newFd status s :
  m_operationPermitted s = false →
  triple (λ s', s' = s) (StatusCallback_onStatusChange code newFd status) (λ _, calm s) (λ _, False).
Proof.
  intros Hp _ ->. unfold StatusCallback_onStatusChange. rewrite SE_bind_eq. cbn [get].
  destruct (negb _); [by apply calm_same|]. destruct (bool_decide _ && _); [by apply calm_same|].
  set (e := StatusCalled _ _ _). unfold callClient. rewrite !SE_bind_eq. cbn [modify].
  pose proof (code_quiet e (addEvent e s) Hp _ eq_refl) as Hc.
  destruct (code e _) as [[[]|[]|] s']; try done. destruct Hc as [w ->].
  unfold calm. cbn. split_and!; try done. exists [e]. split; [done|]. by repeat constructor.
Qed.

(** Forbidding operations for the time of a quiet step. *)
Lemma forbidding_stays (m : SE (AsyncLogic E P W) unit) :
  (∀ s, m_operationPermitted s = false → triple (λ s', s' = s) m (λ _, calm s) (λ _, False)) →
  stays (modify (setPermitted false) ;; m ;; modify (setPermitted true)).
Proof.
  intros Hm s Hp _ ->. rewrite SE_bind_eq. cbn [modify]. rewrite SE_bind_eq.
  specialize (Hm (setPermitted false s) eq_refl _ eq_refl). destruct (m _) as [[[]|[]|] s']; try done.
  destruct Hm as (H1 & H2 & H3 & H4 & l & H5 & Hl). unfold calm. cbn in *.
  rewrite H2, H3, H4, H5, Hp. split_and!; try done. by exists l.
Qed.

Lemma onStatusChange_stays sock status : stays (onStatusChange code sock status).
Proof. apply forbidding_stays. apply StatusCallback_calm. Qed.

Lemma cache_clear_returns : triple (λ _ : CapacityCache E P, True) cache_clear (λ _ _, True) (λ _, False).
Proof.
  unfold cache_clear. eapply (triple_bind _ _ _ (λ _ _, True)); [by intros c _|]. intros []. eapply (triple_bind _ _ _ (λ _ _, True)).
  - intros c _. unfold invalidateAll.
    assert (∀ l p, match forEach l (λ t, match m_plugins (m_clientPluginManager c) !! t with
        | Some (_, Some plugin) => modify (client_invalidate plugin) | _ => throw UndefinedBehaviour end) p with
      | (Throw e, _) => e = UndefinedBehaviour | _ => True end) as Hl.
    { induction l as [|t l IH]; intros p; [done|]. cbn [forEach]. rewrite SE_bind_eq.
      destruct (_ !! t) as [[? [?|]]|]; [|done..]. cbn [modify]. apply IH. }
    specialize (Hl (plugin_types (m_clientPluginManager c)) (clientPluginState c)).
    destruct (forEach _ _ _) as [[|e|] p]; [done|by subst e|done].
  - intros []. apply triple_get. intros c _. apply (triple_weaken _ (λ _, True) _ (λ _ _, True) _ (λ _, False)); [|done..].
    apply triple_forEach. intros t s _. by destruct (_ !! t) as [[]|].
Qed.

Lemma onDisconnected_stays : stays (onDisconnected code).
Proof.
  assert (stays (modify (setPermitted false) ;; (onAsyncCache cache_clear ;; StatusCallback_onDisconnected code) ;;
    modify (setPermitted true))) as Hst.
  2:{ intros s Hp s' Hs'. specialize (Hst s Hp s' Hs'). unfold onDisconnected. rewrite SE_bind_eq in Hst |- *.
      cbn [modify] in Hst |- *. rewrite !SE_bind_eq in Hst. rewrite SE_bind_eq.
      destruct (onAsyncCache _ _) as [[[]|e|] s1]; [|done..]. by rewrite SE_bind_eq. }
  apply forbidding_stays. intros s Hp _ ->.
  rewrite SE_bind_eq. unfold onAsyncCache at 1. pose proof (cache_clear_returns (m_asyncCache s) I) as Hc.
  destruct (cache_clear _) as [[[]|[]|] c]; try done.
  pose proof (StatusCallback_calm (-1) CYNARA_STATUS_FOR_READ (setAsyncCache c s) Hp _ eq_refl) as Hs.
  unfold StatusCallback_onDisconnected. destruct (StatusCallback_onStatusChange _ _ _ _) as [[[]|[]|] s2]; try done.
Qed.

(** *** All pending checks are called back *)

Lemma addEvent_called n cause r c l m : called m (ResponseCalled n cause r c :: l) = (if (n =? m)%Z then 1 else 0) + called m l.
Proof. done. Qed.

(** What [l], a part of the checks, is still owed. *)
Definition owed_of (l : list (Z * CheckData)) (n : Z) : nat :=
  foldr (λ kv acc, (if (kv.1 =? n)%Z then owes kv.2 else 0) + acc) 0 l.

Lemma owed_of_cons n c l m : owed_of ((n, c) :: l) m = (if (n =? m)%Z then owes c else 0) + owed_of l m.
Proof. done. Qed.

Lemma callPending_loop cause l b lost s :
  m_operationPermitted s = false → bracketed b (events s) →
  (∀ n, created n (events s) = called n (events s) + owed_of l n + lost n) →
  match forEach l (λ '(checkId, check),
    if m_cancelled check then mret tt else ResponseCallback_call code (m_callback check) checkId cause 0) s with
  | (Ret _, s') => m_operationPermitted s' = false ∧
      m_inAnswerCancelResponseCallback s' = m_inAnswerCancelResponseCallback s ∧
      m_sequenceContainer s' = m_sequenceContainer s ∧ m_checks s' = m_checks s ∧
      bracketed b (events s') ∧ (∀ n, created n (events s') = called n (events s') + lost n) ∧
      m_statusCallback s' = m_statusCallback s
  | (Throw e, _) => e = UndefinedBehaviour
  | (OutOfFuel, _) => True
  end.
Proof.
  revert s. induction l as [|[n c] l IH]; intros s Hp Hbr Hn; cbn [forEach].
  - split_and!; try done. intros m. rewrite Hn. cbn. lia.
  - rewrite SE_bind_eq. destruct (m_cancelled c) eqn:Ec.
    { apply IH; [done..|]. intros m. rewrite Hn. cbn. unfold owes. rewrite Ec. cbn. by case_match. }
    destruct (m_callback c) as [cb|] eqn:Ecb; cbn [ResponseCallback_call].
    2:{ apply IH; [done..|]. intros m. rewrite Hn. cbn. unfold owes. rewrite Ec, Ecb. cbn. by case_match. }
    unfold callClient. rewrite SE_bind_eq. cbn [modify].
    set (e := ResponseCalled n cause 0 cb). pose proof (code_quiet e (addEvent e s) Hp _ eq_refl) as Hc.
    destruct (code e _) as [[[]|[]|] s']; try done. destruct Hc as [w ->].
    assert (owes c = 1) as Ho by (unfold owes; by rewrite Ec, Ecb).
    apply (IH (setAsyncSystem w (addEvent e s)) Hp).
    + split; [|done]. specialize (Hn n). rewrite owed_of_cons, Z.eqb_refl, Ho in Hn. cbn [events addEvent setAsyncSystem]. lia.
    + intros m. specialize (Hn m). rewrite owed_of_cons, Ho in Hn. unfold e. cbn. destruct (n =? m)%Z; lia.
Qed.

Lemma owed_of_none l n : n ∉ l.*1 → owed_of l n = 0.
Proof.
  induction l as [|[m c] l IH]; [done|]. intros Hn. rewrite owed_of_cons. cbn in Hn.
  destruct (Z.eqb_spec m n); [set_solver|]. apply IH. set_solver.
Qed.
Lemma owed_of_some l n c : NoDup l.*1 → (n, c) ∈ l → owed_of l n = owes c.
Proof.
  induction l as [|[m d] l IH]; [by intros _ ?%not_elem_of_nil|]. rewrite fmap_cons. intros [Hm Hl]%NoDup_cons Hin. rewrite owed_of_cons.
  apply elem_of_cons in Hin as [[= <- <-]|Hin].
  - by rewrite Z.eqb_refl, owed_of_none.
  - destruct (Z.eqb_spec m n) as [->|]; [|by apply IH]. destruct Hm. apply list_elem_of_fmap. by exists (n, c).
Qed.
Lemma owed_of_checks s n : owed_of (stdmap_iter Z.le (m_checks s)) n = owed s n.
Proof.
  unfold owed. destruct (m_checks s !! n) as [c|] eqn:Hlk; cbn [from_option].
  - apply owed_of_some; [|by apply elem_of_stdmap_iter]. rewrite stdmap_iter_perm. apply NoDup_fst_map_to_list.
  - apply owed_of_none. intros ([m c] & -> & Hin)%list_elem_of_fmap. apply elem_of_stdmap_iter in Hin. cbn in Hlk. by rewrite Hin in Hlk.
Qed.

Lemma callPending_ok cause p b lost s :
  inv p b lost s → m_operationPermitted s = false →
  match callPending code cause s with
  | (Ret _, s') => m_operationPermitted s' = false ∧
      m_inAnswerCancelResponseCallback s' = m_inAnswerCancelResponseCallback s ∧
      m_sequenceContainer s' = m_sequenceContainer s ∧ m_checks s' = m_checks s ∧
      bracketed m_monitoringEnabled (events s') ∧ (∀ n, created n (events s') = called n (events s') + lost n) ∧
      m_statusCallback s' = m_statusCallback s
  | (Throw e, _) => e = UndefinedBehaviour
  | (OutOfFuel, _) => True
  end.
Proof.
  intros (_ & _ & _ & _ & _ & Hbr & Hn) Hp. unfold callPending. rewrite SE_bind_eq. cbn [get].
  apply callPending_loop; [done..|]. intros n. by rewrite owed_of_checks.
Qed.

Lemma onServiceNotAvailable_settles b lost : settles (inv true b lost) (onServiceNotAvailable code).
Proof.
  intros s (Hp & Hb & Hc & Hr & Hf & Hbr & Hn). unfold onServiceNotAvailable. rewrite SE_bind_eq. cbn [modify].
  rewrite SE_bind_eq.
  pose proof (callPending_ok CYNARA_CALL_CAUSE_SERVICE_NOT_AVAILABLE false b lost (setPermitted false s)) as Hcp.
  destruct (callPending _ _ _) as [[[]|e|] s1]; [|by rewrite Hcp by (done || by split_and!)|done].
  destruct Hcp as (H1 & H2 & H3 & H4 & H5 & H6 & _); [by split_and!|done|]. cbn in *.
  rewrite SE_bind_eq. cbn [modify]. rewrite SE_bind_eq. unfold onSequenceContainer.
  cbn [m_sequenceContainer setAsyncChecks]. rewrite H3, sequence_clear_ok by done. cbn.
  split; [done|]. split; [exact (eq_trans H2 Hb)|]. split; [apply container_new_ok|]. split; [|split; [|split; [done|]]].
  - cbn. intros n. rewrite lookup_empty. by intros [].
  - cbn. intros n Hn16. rewrite lookup_empty, bool_decide_eq_true_2 by done. by apply is_free_new.
  - intros n. unfold owed. cbn. rewrite lookup_empty. cbn. rewrite H6. lia.
Qed.

(** *** Connecting *)

Lemma appendRequest_calms request : calms (E:=E) (P:=P) (W:=W) (appendRequest request).
Proof. apply onAsyncSocket_calms. Qed.

(** A check is forgotten: what it is owed is lost. *)
Definition lose (n : Z) (k : nat) (lost : Z → nat) (m : Z) : nat := if (n =? m)%Z then k + lost m else lost m.

Lemma release_ok n c p b lost s :
  inv p b lost s → m_checks s !! n = Some c →
  ∃ s', releaseRequest n s = (Ret tt, s') ∧ inv p b (lose n (owes c) lost) s' ∧ m_checks s' = delete n (m_checks s).
Proof.
  intros (Hp & Hb & Hc & Hr & Hf & Hbr & Hn) Hlk. unfold releaseRequest.
  assert (is_uint 16 n) as Hn16 by (apply Hr; by eexists).
  destruct (sequence_release_ok (m_sequenceContainer s) n Hc Hn16) as (sc & Hrel & Hok & Hfree).
  rewrite SE_bind_eq. unfold onSequenceContainer. rewrite Hrel. cbn [modify].
  eexists. split; [done|]. split; [|done]. split; [done|]. split; [done|]. split; [done|]. split; [|split; [|split; [done|]]].
  - cbn. intros m Hm. apply Hr. destruct (decide (m = n)) as [->|]; [by rewrite lookup_delete_eq in Hm; destruct Hm|].
    by rewrite lookup_delete_ne in Hm.
  - cbn. intros m Hm. rewrite Hfree, Hf by done. destruct (decide (m = n)) as [->|].
    + rewrite lookup_delete_eq, (bool_decide_eq_true_2 (n = n)), (bool_decide_eq_true_2 (None = None)) by done. by rewrite orb_true_r.
    + rewrite lookup_delete_ne, (bool_decide_eq_false_2 (m = n)) by done. by rewrite orb_false_r.
  - intros m. rewrite Hn. unfold owed, lose. cbn. destruct (Z.eqb_spec n m) as [->|].
    + rewrite Hlk, lookup_delete_eq. cbn. lia.
    + by rewrite lookup_delete_ne.
Qed.

Lemma inv_ext p b lost lost' s : (∀ n, lost n = lost' n) → inv p b lost s → inv p b lost' s.
Proof. intros He (? & ? & ? & ? & ? & ? & Hn). split_and!; try done; [apply H1..|]. intros n. by rewrite Hn, He. Qed.

Lemma prepareRequestsToSend_preserves p b lost : preserves (inv p b lost) prepareRequestsToSend.
Proof.
  unfold prepareRequestsToSend. apply triple_get. intros s0 Hs0.
  apply (triple_weaken _ (λ s, inv p b lost s ∧ ∀ k c, (k, c) ∈ stdmap_iter Z.le (m_checks s0) → m_checks s !! k = Some c)
    _ (λ _, inv p b lost) _ (inv p b lost)); [|intros s ->; split; [done|]; intros k c; apply elem_of_stdmap_iter|done|done].
  assert (NoDup (stdmap_iter Z.le (m_checks s0)).*1) as Hnd by (rewrite stdmap_iter_perm; apply NoDup_fst_map_to_list).
  induction (stdmap_iter Z.le (m_checks s0)) as [|[n c] l IH]; [by intros s [Hs _]|].
  rewrite fmap_cons in Hnd. apply NoDup_cons in Hnd as [Hn Hnd]. cbn [forEach].
  apply (triple_bind _ _ _ (λ _ s, inv p b lost s ∧ ∀ k d, (k, d) ∈ l → m_checks s !! k = Some d)); [|intros []; apply IH, Hnd].
  intros s [Hs Hl].
  assert (m_checks s !! n = Some c) as Hc by (apply Hl; set_solver).
  assert (∀ k d, (k, d) ∈ l → k ≠ n ∧ m_checks s !! k = Some d) as Hl'.
  { intros k d Hin. split; [|apply Hl; set_solver]. intros ->. apply Hn, list_elem_of_fmap. by exists (n, d). }
  destruct (m_cancelled c) eqn:Ec.
  - destruct (release_ok n c p b lost s Hs Hc) as (s' & Hr & Hs' & Hch).
    change (_ ← onSequenceContainer (sequence_release n); modify (λ s, setAsyncChecks (delete n (m_checks s)) s)) with
      (releaseRequest (E:=E) (P:=P) (W:=W) n). rewrite Hr. split.
    + apply (inv_ext _ _ (lose n (owes c) lost)); [|done]. intros m. unfold lose, owes. rewrite Ec. by case_match.
    + intros k d Hin. rewrite Hch. destruct (Hl' k d Hin). by rewrite lookup_delete_ne.
  - assert (∀ request, triple (λ s', s' = s) (appendRequest request) (λ _ s', inv p b lost s' ∧
      ∀ k d, (k, d) ∈ l → m_checks s' !! k = Some d) (inv p b lost)) as Ha.
    { intros request. apply (triple_weaken _ _ _ _ _ _ _ (appendRequest_calms request s)); [done| |].
      - intros [] s' Hcalm. split; [by eapply calm_inv|]. destruct Hcalm as (_ & _ & _ & -> & _). intros k d Hin. by apply Hl'.
      - intros s' Hcalm. by eapply calm_inv. }
    destruct (m_simple c); by apply Ha.
Qed.

#[local] Create HintDb async.
(** Follows the structure of an operation that preserves [I]. *)
Ltac walk :=
  repeat first
    [ progress intros
    | match goal with
      | |- preserves _ (mbind _ _) => apply preserves_bind; [|intros]
      | |- preserves _ (mret _) => apply preserves_ret
      | |- preserves _ (throw _) => apply triple_throw
      | |- preserves _ (λ s, (OutOfFuel, s)) => apply triple_fuel
      | |- preserves _ get => apply preserves_get
      | |- preserves _ (if ?b then _ else _) => tryif is_var b then apply preserves_if else case_match
      | |- preserves _ (match _ with _ => _ end) => case_match
      end
    | progress eauto with async ].

Lemma getSockFd_calms : calms (E:=E) (P:=P) (getSockFd sys_fd).
Proof. apply gets_calms. Qed.
Lemma socketDataStatus_calms : calms (E:=E) (P:=P) (W:=W) socketDataStatus.
Proof. apply gets_calms. Qed.
Lemma onStatusChange_preserves sock status b lost : preserves (inv true b lost) (onStatusChange code sock status).
Proof. apply settles_preserves, stays_settles, onStatusChange_stays. Qed.
Lemma onDisconnected_preserves b lost : preserves (inv true b lost) (onDisconnected code).
Proof. apply settles_preserves, stays_settles, onDisconnected_stays. Qed.
Lemma onServiceNotAvailable_preserves b lost : preserves (inv true b lost) (onServiceNotAvailable code).
Proof. apply settles_preserves, onServiceNotAvailable_settles. Qed.
#[local] Hint Resolve calms_preserves onAsyncSocket_calms onAsyncCache_calms onAsyncSystem_calms getSockFd_calms socketDataStatus_calms
  appendRequest_calms onStatusChange_preserves onDisconnected_preserves onServiceNotAvailable_preserves
  prepareRequestsToSend_preserves : async.

Lemma connect_preserves b lost :
  preserves (inv true b lost) (connect sys_poll sys_getsockopt sys_socket sys_connect sys_fd code).
Proof. unfold connect. walk. Qed.
#[local] Hint Resolve connect_preserves : async.
Lemma ensureConnection_preserves b lost :
  preserves (inv true b lost) (ensureConnection sys_poll sys_getsockopt sys_socket sys_connect sys_fd code).
Proof. unfold ensureConnection, isConnected. walk. Qed.
Lemma completeConnection_preserves b lost :
  preserves (inv true b lost) (completeConnection sys_poll sys_getsockopt sys_fd code).
Proof. unfold completeConnection. walk. Qed.
#[local] Hint Resolve ensureConnection_preserves completeConnection_preserves : async.

Lemma modify_monitor_calms f : calms (modify (λ s : AsyncLogic E P W, setAsyncMonitor (f (m_asyncMonitorCache s)) s)).
Proof. apply modify_calms. intros s. split_and!; [done..|]. by exists []. Qed.
Lemma generateSequenceNumber_preserves p b lost : preserves (inv p b lost) generateSequenceNumber.
Proof.
  unfold generateSequenceNumber. apply preserves_bind; [|intros; apply calms_preserves, gets_calms].
  apply calms_preserves, modify_calms. intros s. split_and!; [done..|]. by exists [].
Qed.
#[local] Hint Resolve modify_monitor_calms generateSequenceNumber_preserves : async.
Lemma flushMonitor_preserves b lost :
  preserves (inv true b lost) (flushMonitor sys_poll sys_getsockopt sys_socket sys_connect sys_fd m_monitoringEnabled code).
Proof. unfold flushMonitor. walk. Qed.
#[local] Hint Resolve flushMonitor_preserves : async.
Lemma updateMonitor_preserves key result b lost :
  preserves (inv true b lost)
    (updateMonitor sys_poll sys_getsockopt sys_socket sys_connect sys_clock sys_fd m_monitoringEnabled code key result).
Proof. unfold updateMonitor. walk. Qed.
#[local] Hint Resolve updateMonitor_preserves : async.

(** *** Callbacks during which the client may call the library *)

Lemma preserves_invariant {A} (m : SE (AsyncLogic E P W) A) p b : (∀ lost, preserves (inv p b lost) m) → preserves (invariant p b) m.
Proof.
  intros Hm s (lost & Hs & Hl). specialize (Hm lost s Hs). destruct (m s) as [[a|[]|] s']; try done; by exists lost.
Qed.

Lemma inv_inCallback p b b' lost s : inv p b lost s → inv p b' lost (setInCallback b' s).
Proof. by intros (Hp & _ & Hrest). Qed.

(** The request under [n], which is not among the checks any more, is called back. *)
Definition due (callback : ResponseCallback) : nat := match callback with Some _ => 1 | None => 0 end.

Lemma responseCallback_settles callback n cause result b lost :
  (m_monitoringEnabled = false → ∀ n, lost n = 0) →
  triple (inv true b (lose n (due callback) lost)) (inResponseCallback (ResponseCallback_call code callback n cause result))
    (λ _, invariant true b) (λ _, False).
Proof.
  intros Hl s Hs. unfold inResponseCallback. rewrite SE_bind_eq. cbn [get]. rewrite SE_bind_eq. cbn [modify]. rewrite SE_bind_eq.
  pose proof (proj1 (proj2 Hs)) as Hb. apply (inv_inCallback _ _ true) in Hs. rewrite Hb. clear Hb.
  set (s1 := setInCallback true s) in *. destruct callback as [cb|]; cbn [ResponseCallback_call].
  - unfold callClient. rewrite SE_bind_eq. cbn [modify]. set (e := ResponseCalled n cause result cb).
    assert (inv true true lost (addEvent e s1)) as Hs2.
    { destruct Hs as (Hp & Hb & Hc & Hr & Hf & Hbr & Hn). split; [done|]. split; [done|]. split; [done|]. split; [done|].
      split; [done|]. unfold lose in Hn. cbn [due] in Hn. split.
      - split; [|done]. specialize (Hn n). rewrite Z.eqb_refl in Hn. lia.
      - intros m. specialize (Hn m). unfold e. cbn [events addEvent created called].
        change (owed (addEvent _ s1) m) with (owed s1 m). destruct (n =? m)%Z; lia. }
    pose proof (code_ok e (addEvent e s1)) as Hcode. specialize (Hcode (ex_intro _ lost (conj Hs2 Hl))).
    destruct (code e _) as [[[]|[]|] s2]; try done. cbn. destruct Hcode as (lost2 & H2 & Hl2).
    exists lost2. split; [|done]. by apply (inv_inCallback _ true).
  - cbn. exists lost. split; [|done]. apply (inv_inCallback _ true). apply (inv_ext _ _ (lose n 0 lost)); [|done].
    intros m. unfold lose. by case_match.
Qed.

Lemma owes_due c : m_cancelled c = false → owes c = due (m_callback c).
Proof. unfold owes. intros ->. by destruct (m_callback c). Qed.

Lemma answerCheck_settles c n result b lost :
  (m_monitoringEnabled = false → ∀ n, lost n = 0) →
  triple (inv true b (lose n (owes c) lost)) (answerCheck code c n result) (λ _, invariant true b) (λ _, False).
Proof.
  intros Hl. unfold answerCheck. destruct (m_cancelled c) eqn:Ec; cbn [negb].
  - intros s Hs. exists lost. split; [|done]. apply (inv_ext _ _ (lose n (owes c) lost)); [|done].
    intros m. unfold lose, owes. rewrite Ec. by case_match.
  - rewrite owes_due by done. by apply responseCallback_settles.
Qed.

(** The check a response is for. *)
Lemma checkResponseValid_eq response s :
  checkResponseValid response s =
    match m_checks s !! response_sequenceNumber response with
    | Some c => (Ret c, s) | None => (Throw (UnexpectedErrorException 0), s)
    end.
Proof. unfold checkResponseValid. rewrite SE_bind_eq. cbn [get]. by case_match. Qed.

Lemma invariant_lost p b lost s : inv p b lost s → m_monitoringEnabled = true → invariant p b s.
Proof. intros Hs Hm. exists lost. split; [done|]. intros Hf. by rewrite Hm in Hf. Qed.

(** The check is released, and its result told. *)
Lemma release_and_answer_preserves c n result b :
  triple (λ s, invariant true b s ∧ m_checks s !! n = Some c) (releaseRequest n ;; answerCheck code c n result)
    (λ _, invariant true b) (invariant true b).
Proof.
  intros s [(lost & Hs & Hl) Hc]. destruct (release_ok n c true b lost s Hs Hc) as (s1 & Hr & Hs1 & _).
  rewrite SE_bind_eq, Hr. pose proof (answerCheck_settles c n result b lost Hl s1 Hs1) as Ha.
  by destruct (answerCheck _ _ _ _ s1) as [[[]|[]|] s2].
Qed.
Lemma release_update_and_answer_preserves c n result b :
  triple (λ s, invariant true b s ∧ m_checks s !! n = Some c)
    (releaseRequest n ;; updateMonitor sys_poll sys_getsockopt sys_socket sys_connect sys_clock sys_fd m_monitoringEnabled code (m_key c) result ;;
     answerCheck code c n result)
    (λ _, invariant true b) (invariant true b).
Proof.
  intros s [(lost & Hs & Hl) Hc]. destruct (release_ok n c true b lost s Hs Hc) as (s1 & Hr & Hs1 & _).
  rewrite SE_bind_eq, Hr, SE_bind_eq.
  pose proof (updateMonitor_preserves (m_key c) result b _ s1 Hs1) as Hu.
  assert (∀ e s2, updateMonitor sys_poll sys_getsockopt sys_socket sys_connect sys_clock sys_fd m_monitoringEnabled code
    (m_key c) result s1 = (Throw e, s2) → m_monitoringEnabled = true) as Hmon.
  { intros e s2. unfold updateMonitor. by destruct m_monitoringEnabled. }
  destruct (updateMonitor _ _ _ _ _ _ _ _ _ _ s1) as [[[]|e|] s2]; [|specialize (Hmon e s2 eq_refl)|done].
  - pose proof (answerCheck_settles c n result b lost Hl s2 Hu) as Ha. by destruct (answerCheck _ _ _ _ s2) as [[[]|[]|] s3].
  - destruct e; try done; by eapply invariant_lost.
Qed.

(** *** Responses *)

Lemma calms_invariant {A} (m : SE (AsyncLogic E P W) A) p b : calms m → preserves (invariant p b) m.
Proof. intros Hm. apply preserves_invariant. intros lost. by apply calms_preserves. Qed.

(** An operation that does not touch the checks, then one that needs check [n]. *)
Lemma with_check {A B} (m : SE (AsyncLogic E P W) A) (k : A → SE (AsyncLogic E P W) B) n c b (Q : B → AsyncLogic E P W → Prop) :
  calms m →
  (∀ a, triple (λ s, invariant true b s ∧ m_checks s !! n = Some c) (k a) Q (invariant true b)) →
  triple (λ s, invariant true b s ∧ m_checks s !! n = Some c) (m ≫= k) Q (invariant true b).
Proof.
  intros Hm Hk. apply (triple_bind _ _ _ (λ _ s, invariant true b s ∧ m_checks s !! n = Some c)); [|exact Hk].
  intros s [(lost & Hs & Hl) Hc]. specialize (Hm s s eq_refl).
  destruct (m s) as [[a|[]|] s']; try done; try (by exists lost; split; [by eapply calm_inv|]).
  split; [by exists lost; split; [by eapply calm_inv|]|]. by destruct Hm as (_ & _ & _ & -> & _).
Qed.

Lemma with_response {B} response (k : CheckData → SE (AsyncLogic E P W) B) b :
  (∀ c, triple (λ s, invariant true b s ∧ m_checks s !! response_sequenceNumber response = Some c) (k c)
    (λ _, invariant true b) (invariant true b)) →
  preserves (invariant true b) (c ← checkResponseValid response; k c).
Proof.
  intros Hk s Hs. rewrite SE_bind_eq, checkResponseValid_eq. destruct (m_checks s !! _) as [c|] eqn:Hc; [|done].
  by apply (Hk c s).
Qed.

Lemma processCheckResponse_preserves resultRef n b :
  preserves (invariant true b)
    (processCheckResponse sys_poll sys_getsockopt sys_socket sys_connect sys_clock sys_fd m_monitoringEnabled code resultRef n).
Proof.
  apply with_response. intros c. apply with_check; [apply onAsyncCache_calms|]. intros result.
  apply release_update_and_answer_preserves.
Qed.
Lemma processSimpleCheckResponse_preserves retValue resultRef n b :
  preserves (invariant true b) (processSimpleCheckResponse code retValue resultRef n).
Proof.
  apply with_response. intros c. apply with_check; [|intros result; apply release_and_answer_preserves].
  case_match; [apply onAsyncCache_calms|]. intros s _ ->. change (calm s s). reflexivity.
Qed.
Lemma processCancelResponse_preserves n b : preserves (invariant true b) (processCancelResponse n).
Proof.
  apply with_response. intros c. cbn [response_sequenceNumber]. destruct (m_cancelled c) eqn:Ec; cbn [negb].
  - intros s [(lost & Hs & Hl) Hc]. destruct (release_ok n c true b lost s Hs Hc) as (s1 & Hr & Hs1 & _). rewrite Hr.
    exists lost. split; [|done]. apply (inv_ext _ _ (lose n (owes c) lost)); [|done].
    intros m. unfold lose, owes. rewrite Ec. by case_match.
  - by intros s [Hs _].
Qed.
#[local] Hint Resolve calms_invariant processCheckResponse_preserves processSimpleCheckResponse_preserves
  processCancelResponse_preserves : async.
Lemma lift_preserves {A} (m : SE (AsyncLogic E P W) A) b : (∀ lost, preserves (inv true b lost) m) → preserves (invariant true b) m.
Proof. apply preserves_invariant. Qed.
#[local] Hint Extern 2 (preserves (invariant true _) _) => apply lift_preserves; intros lost; solve [eauto with async] : async.

Lemma processResponses_preserves n b :
  preserves (invariant true b)
    (processResponses sys_poll sys_getsockopt sys_socket sys_connect sys_clock sys_fd m_monitoringEnabled code n).
Proof. induction n as [|n IH]; cbn [processResponses]; [apply triple_fuel|]. unfold getResponse. walk. Qed.
#[local] Hint Resolve processResponses_preserves : async.

Lemma process_preserves b :
  preserves (invariant true b)
    (process sys_poll sys_getsockopt sys_socket sys_connect sys_send sys_recv sys_clock sys_fd m_monitoringEnabled tries rounds fuel code).
Proof.
  unfold process. walk. induction tries as [|n IH]; cbn [process_loop]; [apply triple_fuel|].
  unfold processOut, processIn. walk.
Qed.

(** *** Requests *)

(** A free number is taken, and a check is entered under it. *)
Lemma enter_ok b lost s key session callback simple :
  inv true b lost s → (m_monitoringEnabled = false → ∀ n, lost n = 0) →
  match onSequenceContainer sequence_get s with
  | (Ret (Some n), s1) => ∃ s2, insertCheck n (mkCheckData key session callback simple false) s1 = (Ret tt, s2) ∧ inv true b lost s2
  | (Ret None, s1) => inv true b lost s1
  | _ => False
  end.
Proof.
  intros (Hp & Hb & Hc & Hr & Hf & Hbr & Hn) Hl. unfold onSequenceContainer.
  destruct (sequence_get_ok (m_sequenceContainer s) Hc) as [(n & c' & -> & Hn16 & Hfree & _ & Hc' & Hf')|[-> _]]; [|by split_and!].
  rewrite Hf in Hfree by done. apply bool_decide_eq_true in Hfree.
  eexists. split; [unfold insertCheck, modify; cbn [setSequenceContainer m_checks]; by rewrite Hfree|].
  assert (owed s n = 0) as Ho by (unfold owed; by rewrite Hfree).
  split; [done|]. split; [done|]. split; [done|]. split; [|split; [|split; [split; [|done]|]]]; cbn.
  - intros m Hm. destruct (decide (m = n)) as [->|]; [done|]. rewrite lookup_insert_ne in Hm by done. by apply Hr.
  - intros m Hm. rewrite Hf', Hf by done. destruct (decide (m = n)) as [->|].
    + rewrite lookup_insert_eq, (bool_decide_eq_true_2 (n = n)), andb_false_r by done. by rewrite bool_decide_eq_false_2.
    + rewrite lookup_insert_ne, (bool_decide_eq_false_2 (m = n)) by done. apply andb_true_r.
  - destruct m_monitoringEnabled; [by left|right]. rewrite Hn, Ho, Hl by done. lia.
  - intros m. specialize (Hn m). unfold owed in *. cbn. destruct (decide (m = n)) as [->|Hne].
    + rewrite lookup_insert_eq. rewrite Hfree in Hn. cbn in Hn |- *. unfold owes. cbn. rewrite Z.eqb_refl.
      destruct callback; cbn; lia.
    + rewrite lookup_insert_ne by done. destruct callback; [|done]. cbn. destruct (Z.eqb_spec n m); [by subst|]. done.
Qed.

Lemma createRequest_preserves simple c se u p callback b :
  preserves (invariant true b)
    (createRequest sys_poll sys_getsockopt sys_socket sys_connect sys_fd code simple c se u p callback).
Proof.
  unfold createRequest. apply preserves_bind; [walk|intros s0]. case_match; [walk|].
  apply preserves_bind; [walk|intros connected]. case_match; [walk|].
  intros s (lost & Hs & Hl). rewrite SE_bind_eq.
  pose proof (enter_ok b lost s (PolicyKey_of c u p) se callback simple Hs Hl) as He.
  destruct (onSequenceContainer _ s) as [[[n|]|e|] s1]; try done; [|by exists lost].
  destruct He as (s2 & Hins & Hs2). rewrite SE_bind_eq, Hins. assert (invariant true b s2) as Hinv by (by exists lost).
  clear -Hinv code_quiet. revert s2 Hinv.
  match goal with |- ∀ s2, _ → match ?m s2 with _ => _ end => change (preserves (invariant true b) m) end. walk.
Qed.

(** A check that is cancelled is called back. *)
Lemma cancel_ok n c b lost s :
  inv true b lost s → m_checks s !! n = Some c → m_cancelled c = false →
  inv true b (lose n (due (m_callback c)) lost) (setAsyncChecks (<[n := CheckData_cancel c]> (m_checks s)) s).
Proof.
  intros (Hp & Hb & Hc & Hr & Hf & Hbr & Hn) Hlk Hcan. split; [done|]. split; [done|]. split; [done|].
  split; [|split; [|split; [done|]]]; cbn.
  - intros m Hm. apply Hr. destruct (decide (m = n)) as [->|]; [by eexists|]. by rewrite lookup_insert_ne in Hm.
  - intros m Hm. rewrite Hf by done. destruct (decide (m = n)) as [->|]; [by rewrite lookup_insert_eq, Hlk|by rewrite lookup_insert_ne].
  - intros m. specialize (Hn m). unfold owed, lose in *. cbn. destruct (Z.eqb_spec n m) as [->|].
    + rewrite lookup_insert_eq. rewrite Hlk in Hn. cbn in Hn |- *. rewrite owes_due in Hn by done. lia.
    + by rewrite lookup_insert_ne.
Qed.

Lemma cancelRequest_preserves n b :
  preserves (invariant true b) (cancelRequest sys_poll sys_getsockopt sys_socket sys_connect sys_fd code n).
Proof.
  unfold cancelRequest. apply preserves_bind; [walk|intros s0]. case_match; [walk|].
  apply preserves_bind; [walk|intros connected]. case_match; [walk|].
  apply triple_get. intros s Hs. destruct (m_checks s !! n) as [c|] eqn:Hc; [|by intros ? ->].
  destruct (m_cancelled c) eqn:Hcan; [by intros ? ->|].
  apply (triple_weaken _ (λ s, invariant true b s ∧ m_checks s !! n = Some c) _ (λ _, invariant true b) _ (invariant true b));
    [|by intros ? ->|done|done].
  apply with_check; [apply appendRequest_calms|]. intros [].
  intros s1 [(lost & Hs1 & Hl) Hc1]. rewrite SE_bind_eq. cbn [modify]. rewrite SE_bind_eq.
  pose proof (responseCallback_settles (m_callback c) n CYNARA_CALL_CAUSE_CANCEL 0 b lost Hl _ (cancel_ok n c b lost s1 Hs1 Hc1 Hcan)) as Hcb.
  destruct (inResponseCallback _ _) as [[[]|[]|] s2]; try done. clear -Hcb code_quiet. revert s2 Hcb.
  match goal with |- ∀ s2, _ → match ?m s2 with _ => _ end => change (preserves (invariant true b) m) end. walk.
Qed.

Lemma checkCache_preserves c se u p b :
  preserves (invariant true b)
    (checkCache sys_poll sys_getsockopt sys_socket sys_connect sys_clock sys_fd m_monitoringEnabled code c se u p).
Proof. unfold checkCache, checkCacheValid, isConnected. walk. Qed.

Lemma tryFlushMonitor_preserves b : preserves (invariant true b) (tryFlushMonitor sys_poll sys_send m_monitoringEnabled fuel).
Proof.
  unfold tryFlushMonitor. case_match; [walk|]. apply preserves_bind; [walk|intros s0].
  apply preserves_bind; [|walk]. apply preserves_forEach. walk.
Qed.

(** ** The interface *)

Lemma api_tryCatch_settles (m : SE (AsyncLogic E P W) Z) b : preserves (invariant true b) m → settles (invariant true b) (api_tryCatch m).
Proof.
  intros Hm. unfold api_tryCatch. apply (triple_tryCatch _ _ _ _ _ (invariant true b)); [exact Hm| |done].
  intros e He s Hs. destruct (exception_code e) eqn:Ee; [done|]. by destruct e.
Qed.
Lemma api_tryCatchValue_settles {A} (m : SE (AsyncLogic E P W) (Z + A)) b :
  preserves (invariant true b) m → settles (invariant true b) (api_tryCatchValue m).
Proof.
  intros Hm. unfold api_tryCatchValue. apply (triple_tryCatch _ _ _ _ _ (invariant true b)); [exact Hm| |done].
  intros e He s Hs. destruct (exception_code e) eqn:Ee; [done|]. by destruct e.
Qed.

Abbreviation run :=
  (run_call sys_poll sys_getsockopt sys_socket sys_connect sys_send sys_recv sys_clock sys_fd m_monitoringEnabled tries rounds fuel code)
  (only parsing).

Lemma settles_ret {A} (a : A) (I : AsyncLogic E P W → Prop) : settles I (mret a).
Proof. by intros s Hs. Qed.
Lemma settles_bind {A B} (I : AsyncLogic E P W → Prop) (m : SE _ A) (k : A → SE _ B) :
  settles I m → (∀ a, settles I (k a)) → settles I (m ≫= k).
Proof. apply triple_bind. Qed.

(** The destructor calls back all that are pending. *)
Lemma Logic_delete_ok b lost s :
  inv true b lost s →
  match Logic_delete code s with
  | (Ret _, s') => bracketed m_monitoringEnabled (events s') ∧ ∀ n, created n (events s') = called n (events s') + lost n
  | (Throw e, _) => e = UndefinedBehaviour
  | (OutOfFuel, _) => True
  end.
Proof.
  intros Hs. unfold Logic_delete. rewrite SE_bind_eq. cbn [modify]. rewrite SE_bind_eq.
  assert (inv false b lost (setPermitted false s)) as Hs1 by (by destruct Hs as (_ & Hrest)).
  pose proof (callPending_ok CYNARA_CALL_CAUSE_FINISH false b lost _ Hs1 eq_refl) as Hcp.
  destruct (callPending _ _ _) as [[[]|e|] s2]; [|done..]. destruct Hcp as (Hp & _ & _ & _ & Hbr & Hn & _).
  pose proof (StatusCallback_calm (-1) CYNARA_STATUS_FOR_READ s2 Hp _ eq_refl) as Hc.
  unfold StatusCallback_onDisconnected. destruct (StatusCallback_onStatusChange _ _ _ _) as [[[]|[]|] s3]; try done.
  destruct Hc as (_ & _ & _ & _ & l & -> & Hl). destruct (status_events l (events s2) Hl) as (Hcr & Hca & Hbl).
  split; [by apply Hbl|]. intros n. by rewrite Hcr, Hca.
Qed.

Lemma run_call_settles call b : settles (invariant true b) (run call).
Proof.
  destruct call as [c se u p|simple c se u p callback| |n|]; cbn [run_call].
  - apply settles_bind; [|intros; apply settles_ret]. unfold cynara_async_check_cache.
    do 2 (case_match; [apply settles_ret|]). apply api_tryCatch_settles, checkCache_preserves.
  - destruct simple; unfold cynara_async_create_simple_request, cynara_async_create_request, cynara_async_create;
      do 2 (case_match; [apply settles_ret|]); apply api_tryCatchValue_settles, createRequest_preserves.
  - apply settles_bind; [|intros; apply settles_ret]. apply api_tryCatch_settles, process_preserves.
  - apply settles_bind; [|intros; apply settles_ret]. apply api_tryCatch_settles, cancelRequest_preserves.
  - intros s Hs. rewrite SE_bind_eq. unfold cynara_async_finish, tryCatch. rewrite SE_bind_eq. cbn [get].
    destruct (isFinishPermitted s); cbn [negb]; [|done]. rewrite SE_bind_eq.
    pose proof (tryFlushMonitor_preserves b s Hs) as Hf.
    destruct (tryFlushMonitor _ _ _ _ s) as [[[]|e|] s1]; [|by destruct e|done]. rewrite SE_bind_eq.
    destruct Hf as (lost & Hs1 & _). pose proof (Logic_delete_ok b lost s1 Hs1) as Hd.
    destruct (Logic_delete code s1) as [[[]|e|] s2]; [done|by subst|done].
Qed.

Lemma run_program_settles program b :
  settles (invariant true b)
    (run_program sys_poll sys_getsockopt sys_socket sys_connect sys_send sys_recv sys_clock sys_fd m_monitoringEnabled tries rounds fuel
       code program).
Proof.
  induction program as [|call next IH]; cbn [run_program]; [apply settles_ret|].
  apply settles_bind; [apply run_call_settles|exact IH].
Qed.
End handlers.

(** ** Callbacks in callbacks *)

Section client.
Context {E P : Type} `{CP : !ClientPlugins E P} {W : Type}.
Context (sys_poll : PollEvent → SE W PollResult) (sys_getsockopt : SE W (Z + Z))
  (sys_socket : SE W (unit + Z)) (sys_connect : SE W ConnectResult)
  (sys_send : string → SE W SendResult) (sys_recv : SE W RecvResult)
  (sys_clock : SE W (option timespec)) (sys_fd : W → Z).
Context (m_monitoringEnabled : bool) (tries rounds fuel : nat).
Context (client_callback : AsyncEvent → W → ClientProgram * W).
Implicit Types s : AsyncLogic E P W.

Abbreviation callOf code :=
  (run_call sys_poll sys_getsockopt sys_socket sys_connect sys_send sys_recv sys_clock sys_fd m_monitoringEnabled tries rounds fuel code)
  (only parsing).
Abbreviation codeOf depth :=
  (clientCode sys_poll sys_getsockopt sys_socket sys_connect sys_send sys_recv sys_clock sys_fd m_monitoringEnabled tries rounds fuel
     client_callback depth) (only parsing).

(** While no operation is permitted a call changes nothing. *)
Lemma run_call_forbidden code call s : m_operationPermitted s = false → ∃ r, callOf code call s = (Ret r, s).
Proof.
  intros Hp. destruct call as [c se u p|simple c se u p callback| |n|]; cbn [run_call].
  - unfold cynara_async_check_cache. do 2 (case_match; [by eexists|]).
    rewrite SE_bind_eq. unfold api_tryCatch, tryCatch, checkCache. rewrite SE_bind_eq. cbn [get]. rewrite Hp. by eexists.
  - destruct simple; unfold cynara_async_create_simple_request, cynara_async_create_request, cynara_async_create;
      do 2 (case_match; [by eexists|]); unfold createSimpleRequest, createCheckRequest, api_tryCatchValue, tryCatch, createRequest;
      rewrite SE_bind_eq; cbn [get]; rewrite Hp; by eexists.
  - rewrite SE_bind_eq. unfold cynara_async_process, api_tryCatch, tryCatch, process. rewrite SE_bind_eq. cbn [get]. rewrite Hp. by eexists.
  - rewrite SE_bind_eq. unfold cynara_async_cancel_request, api_tryCatch, tryCatch, cancelRequest. rewrite SE_bind_eq. cbn [get]. rewrite Hp.
    by eexists.
  - rewrite SE_bind_eq. unfold cynara_async_finish, tryCatch. rewrite SE_bind_eq. cbn [get]. unfold isFinishPermitted. rewrite Hp. by eexists.
Qed.

Lemma run_program_forbidden code program s :
  m_operationPermitted s = false →
  run_program sys_poll sys_getsockopt sys_socket sys_connect sys_send sys_recv sys_clock sys_fd m_monitoringEnabled tries rounds fuel
    code program s = (Ret tt, s).
Proof.
  intros Hp. induction program as [|call next IH]; cbn [run_program]; [done|].
  destruct (run_call_forbidden code call s Hp) as [r Hr]. rewrite SE_bind_eq, Hr. apply IH.
Qed.

Lemma clientCode_quiet depth event s :
  m_operationPermitted s = false →
  triple (λ s', s' = s) (codeOf depth event) (λ _ s', ∃ w, s' = setAsyncSystem w s) (λ _, False).
Proof.
  intros Hp _ ->. destruct depth as [|depth]; cbn [clientCode]; [done|]. rewrite SE_bind_eq. unfold onAsyncSystem.
  destruct (client_callback event (asyncSystem s)) as [program w]. rewrite run_program_forbidden by done. by exists w.
Qed.

Lemma clientCode_ok depth event : settles (invariant m_monitoringEnabled true true) (codeOf depth event).
Proof.
  revert event. induction depth as [|depth IH]; intros event; cbn [clientCode]; [apply triple_fuel|].
  apply settles_bind; [|intros program].
  - intros s Hs. pose proof (calms_invariant m_monitoringEnabled (onAsyncSystem (E:=E) (P:=P)
      (λ w, let '(program, w') := client_callback event w in (Ret program, w'))) true true (onAsyncSystem_calms _) s Hs) as H.
    unfold onAsyncSystem in H |- *. by destruct (client_callback _ _).
  - apply run_program_settles; [apply clientCode_quiet|exact IH].
Qed.

(** A client's calls, one after the other. *)
Definition run_calls (depth : nat) (calls : list AsyncCall) : SE (AsyncLogic E P W) unit :=
  forEach calls (λ call, _ ← callOf (codeOf depth) call; mret tt).

Lemma run_calls_settles depth calls : settles (invariant m_monitoringEnabled true false) (run_calls depth calls).
Proof.
  apply triple_forEach. intros call. apply settles_bind; [|intros; apply settles_ret].
  apply run_call_settles; [apply clientCode_quiet|apply clientCode_ok].
Qed.

Lemma Logic_new_invariant statusCallback cacheSize libraries (p : P) sequence (w : W) :
  invariant m_monitoringEnabled true false (Logic_new (E:=E) statusCallback cacheSize libraries p sequence w).
Proof.
  exists (λ _, 0). split; [|done]. split; [done|]. split; [done|]. split; [apply container_new_ok|].
  split; [|split; [|done]]; unfold Logic_new; cbn [m_checks m_sequenceContainer].
  - intros n. rewrite lookup_empty. by intros [].
  - intros n Hn. rewrite lookup_empty, bool_decide_eq_true_2 by done. by apply is_free_new.
Qed.

(** C8: Each request is called back once.  For any system, any client and any nesting of its
    calls in its callbacks: after any calls, the callbacks so far are each for a request that
    was entered before and had not been called back; without the monitor no number is used
    for two waiting requests, and the requests without a callback are exactly the checks that
    the library still keeps and the client has not cancelled; and when the client then
    finishes the library, each of those is called back too. *)
Theorem requests_called_back_once depth statusCallback cacheSize libraries (p : P) sequence (w : W) calls s :
  run_calls depth calls (Logic_new (E:=E) statusCallback cacheSize libraries p sequence w) = (Ret tt, s) →
  bracketed m_monitoringEnabled (events s) ∧ (∀ n, called n (events s) + owed s n ≤ created n (events s)) ∧
  (m_monitoringEnabled = false → ∀ n, created n (events s) = called n (events s) + owed s n) ∧
  ∀ s', cynara_async_finish sys_poll sys_send m_monitoringEnabled fuel (codeOf depth) s = (Ret true, s') →
    bracketed m_monitoringEnabled (events s') ∧
    (m_monitoringEnabled = false → ∀ n, created n (events s') = called n (events s')).
Proof.
  intros Hrun. pose proof (run_calls_settles depth calls _ (Logic_new_invariant statusCallback cacheSize libraries p sequence w)) as Hinv.
  rewrite Hrun in Hinv. destruct Hinv as (lost & Hs & Hl).
  pose proof Hs as (Hp & Hb & _ & _ & _ & Hbr & Hn). split; [done|]. split; [intros n; rewrite Hn; lia|].
  split; [intros Hm n; rewrite Hn, Hl by done; lia|]. intros s'. unfold cynara_async_finish, tryCatch. rewrite SE_bind_eq. cbn [get].
  unfold isFinishPermitted. rewrite Hp, Hb. cbn [andb negb]. rewrite SE_bind_eq.
  pose proof (tryFlushMonitor_preserves sys_poll sys_send m_monitoringEnabled fuel false s (ex_intro _ lost (conj Hs Hl))) as Hf.
  destruct (tryFlushMonitor _ _ _ _ s) as [[[]|e|] s1]; [| |done]; [|by destruct (exception_code e)].
  destruct Hf as (lost1 & Hs1 & Hl1). rewrite SE_bind_eq.
  pose proof (Logic_delete_ok m_monitoringEnabled (codeOf depth) (clientCode_quiet depth) (clientCode_ok depth) false lost1 s1 Hs1) as Hd.
  destruct (Logic_delete _ s1) as [[[]|e|] s2]; [|by destruct (exception_code e)|done].
  intros [= <-]. destruct Hd as [Hbr2 Hn2]. split; [done|]. intros Hm n. rewrite Hn2, Hl1 by done. lia.
Qed.
End client.
