(* ===== verification/AsyncDemo.v ===== *)
(** * Runs of the asynchronous client library

    A client whose callbacks call the library again, on a wire to the service: the witness of
    [requests_called_back_once], and what the monitor can do to an answer. *)
From S2P Require Import Prelude Text Types Api BinaryQueue Serialization Frame Messages.
From S2P Require Import ProtocolClient Protocols SocketClient ClientTheorems PluginManager CapacityCache CacheTheorems ClientLogic SequenceContainer AsyncLogic AsyncTheorems.

Definition name (s : string) : option string := Some s.
Definition ask_for (privilege : string) (callback : nat) : AsyncCall :=
  CallCreateRequest false (name "app") (name "session") (name "1000") (name privilege) (Some callback).

(** When the answer for callback 1 comes, the client asks something else and cancels it at
    once; callback 3 tries to finish the library. *)
Definition busy_client (event : AsyncEvent) (w : Wire) : ClientProgram * Wire :=
  (match event with
   | ResponseCalled _ CYNARA_CALL_CAUSE_ANSWER _ 1 =>
       ProgramCall (ask_for "location" 2) (λ r, match r with
         | inr checkId => ProgramCall (CallCancelRequest checkId) (λ _, ProgramEnd)
         | inl _ => ProgramEnd
         end)
   | ResponseCalled _ CYNARA_CALL_CAUSE_ANSWER _ 3 => ProgramCall CallFinish (λ _, ProgramEnd)
   | StatusCalled _ _ _ => ProgramCall CallProcess (λ _, ProgramEnd)
   | _ => ProgramEnd
   end, w).

Definition demo_calls : list AsyncCall := [ask_for "camera" 1; ask_for "sms" 3; CallProcess; ask_for "contacts" 4].
Definition demo_wire : Wire :=
  mkWire "" (arrivals [[response_frame PClient (CheckResponse (mkPolicyResult ALLOW "") 0) +:+
    response_frame PClient (CheckResponse (mkPolicyResult DENY "") 1)]]).
Definition demo_run : outcome unit * AsyncLogic Empty_set unit Wire :=
  run_calls wire_poll wire_getsockopt wire_socket wire_connect (wire_send 100) wire_recv (mret None) (λ _, 7%Z) false 3 9 999
    busy_client 5 demo_calls (Logic_new true 10 [] tt 0 demo_wire).

Definition demo_state : AsyncLogic Empty_set unit Wire := demo_run.2.
Abbreviation demo_code :=
  (clientCode wire_poll wire_getsockopt wire_socket wire_connect (wire_send 100) wire_recv (mret None) (λ _, 7%Z) false 3 9 999 busy_client 5).

Lemma demo_run_returns :
  run_calls wire_poll wire_getsockopt wire_socket wire_connect (wire_send 100) wire_recv (mret None) (λ _, 7%Z) false 3 9 999
    busy_client 5 demo_calls (Logic_new true 10 [] tt 0 demo_wire) = (Ret tt, demo_state).
Proof. change (demo_run = (Ret tt, demo_run.2)). rewrite (surjective_pairing demo_run) at 1. f_equal. Qed.

Lemma requests_called_back_once_witness :
  created 0 (events demo_state) = 2 ∧ called 0 (events demo_state) = 2 ∧
  created 1 (events demo_state) = 2 ∧ called 1 (events demo_state) = 1 ∧
  bracketed false (events demo_state) ∧ (∀ n, called n (events demo_state) + owed demo_state n ≤ created n (events demo_state)) ∧
  (false = false → ∀ n, created n (events demo_state) = called n (events demo_state) + owed demo_state n) ∧
  ∀ s', cynara_async_finish wire_poll (wire_send 100) false 999 demo_code demo_state = (Ret true, s') →
    bracketed false (events s') ∧ (false = false → ∀ n, created n (events s') = called n (events s')).
Proof.
  do 4 (split; [vm_compute; reflexivity|]).
  eapply requests_called_back_once. exact demo_run_returns.
Defined.

(** ** An answer that is lost *)

Section lost.
Context {E P : Type} `{CP : !ClientPlugins E P} {W : Type}.
Context (sys_poll : PollEvent → SE W PollResult) (sys_getsockopt : SE W (Z + Z))
  (sys_socket : SE W (unit + Z)) (sys_connect : SE W ConnectResult)
  (sys_clock : SE W (option timespec)) (sys_fd : W → Z) (code : AsyncEvent → SE (AsyncLogic E P W) unit).

(** The state of the connection can not be found out. *)
Lemma ensureConnection_throws s errno w :
  m_connectionInProgress (m_socket (m_asyncSocketClient s)) = false → m_open (m_socket (m_asyncSocketClient s)) = true →
  sys_getsockopt (asyncSystem s) = (Ret (inr errno), w) →
  ∃ cw, ensureConnection sys_poll sys_getsockopt sys_socket sys_connect sys_fd code s =
    (Throw (UnexpectedErrorException errno), setAsyncSocket cw s).
Proof.
  intros Hip Hopen Herr. unfold ensureConnection, isConnected, onAsyncSocket, async_isConnected, withSocket.
  eexists. apply SE_bind_Throw. unfold Socket_isConnected. rewrite SE_bind_eq. unfold socket_, gets. cbn [fst]. rewrite Hip, Hopen. cbn [negb].
  rewrite SE_bind_eq. unfold getSocketError. rewrite SE_bind_eq. unfold system. rewrite Herr. reflexivity.
Qed.

Lemma flushMonitor_throws s errno w :
  shouldFlush (m_asyncMonitorCache s) = true →
  m_connectionInProgress (m_socket (m_asyncSocketClient s)) = false → m_open (m_socket (m_asyncSocketClient s)) = true →
  sys_getsockopt (asyncSystem s) = (Ret (inr errno), w) →
  ∃ cw, flushMonitor sys_poll sys_getsockopt sys_socket sys_connect sys_fd true code s =
    (Throw (UnexpectedErrorException errno), setAsyncSocket cw s).
Proof.
  intros Hflush Hip Hopen Herr. destruct (ensureConnection_throws s errno w Hip Hopen Herr) as [cw He]. exists cw.
  unfold flushMonitor. cbn [negb]. rewrite SE_bind_eq. cbn [get].
  assert ((length (m_monitorEntries (m_asyncMonitorCache s)) =? 0) = false) as ->.
  { unfold shouldFlush in Hflush. by destruct (_ =? 0). }
  by apply SE_bind_Throw.
Qed.

(** With the monitor an answer can be lost.  When the entries have to be sent just as an
    answer has come, and the state of the connection can not be found out, the exception
    leaves [processCheckResponse] after the check has been released and before the client
    is called: the check is not pending any more, so no later call can answer, cancel or
    finish it, and no callback was called. *)
Theorem answer_lost_by_monitor s n c resultRef result now cache w w' errno :
  m_checks s !! n = Some c → container_ok (m_sequenceContainer s) → is_uint 16 n →
  cache_update (m_session c) (m_key c) resultRef (m_asyncCache s) = (Ret result, cache) →
  sys_clock (asyncSystem s) = (Ret now, w) →
  shouldFlush (mc_update now (m_key c) result (m_asyncMonitorCache s)) = true →
  m_connectionInProgress (m_socket (m_asyncSocketClient s)) = false → m_open (m_socket (m_asyncSocketClient s)) = true →
  sys_getsockopt w = (Ret (inr errno), w') →
  ∃ s', processCheckResponse sys_poll sys_getsockopt sys_socket sys_connect sys_clock sys_fd true code resultRef n s =
      (Throw (UnexpectedErrorException errno), s') ∧
    m_checks s' = delete n (m_checks s) ∧ is_free (m_sequenceContainer s') n = true ∧ events s' = events s.
Proof.
  intros Hc Hok Hn Hcache Hclock Hflush Hip Hopen Herr. destruct (sequence_release_ok _ n Hok Hn) as (sc & Hrel & _ & Hfree).
  unfold processCheckResponse. rewrite SE_bind_eq, checkResponseValid_eq. cbn [response_sequenceNumber]. rewrite Hc.
  rewrite SE_bind_eq. unfold onAsyncCache. rewrite Hcache, SE_bind_eq. unfold releaseRequest. rewrite SE_bind_eq.
  unfold onSequenceContainer. cbn [m_sequenceContainer setAsyncCache]. rewrite Hrel. cbn [modify].
  rewrite SE_bind_eq. unfold updateMonitor. cbn [negb]. rewrite SE_bind_eq. unfold onAsyncSystem.
  cbn [asyncSystem setAsyncChecks setSequenceContainer setAsyncCache]. rewrite Hclock. rewrite SE_bind_eq. cbn [modify].
  rewrite SE_bind_eq. cbn [get].
  set (s1 := setAsyncMonitor _ _). change (m_asyncMonitorCache s1) with (mc_update now (m_key c) result (m_asyncMonitorCache s)).
  rewrite Hflush. destruct (flushMonitor_throws s1 errno w' Hflush Hip Hopen Herr) as [cw ->].
  eexists. split; [done|]. split; [done|]. split; [|done]. cbn. rewrite Hfree by done. by rewrite bool_decide_eq_true_2, orb_true_r.
Qed.
End lost.

(** A client that has waited for the monitor's time, when the answer to its check comes. *)
Definition waiting_client : AsyncLogic Empty_set unit Wire :=
  let s := (run_calls wire_poll wire_getsockopt wire_socket wire_connect (wire_send 100) wire_recv (mret None) (λ _, 7%Z) true 3 9 999
    busy_client 5 [ask_for "camera" 1] (Logic_new true 10 [] tt 0 (mkWire "" []))).2 in
  setAsyncMonitor (mc_update (Some (mkTimespec 100 0)) (PolicyKey_of "app" "1000" "sms") CYNARA_API_ACCESS_ALLOWED MonitorCache_new) s.

Lemma answer_lost_by_monitor_witness :
  (∃ c, m_checks waiting_client !! 0%Z = Some c ∧ m_cancelled c = false ∧ m_callback c = Some 1) ∧
  ∃ s', processCheckResponse wire_poll (mret (inr 9%Z)) wire_socket wire_connect (mret (Some (mkTimespec 300 0))) (λ _, 7%Z) true demo_code
      (mkPolicyResult ALLOW "") 0 waiting_client = (Throw (UnexpectedErrorException 9), s') ∧
    m_checks s' = delete 0%Z (m_checks waiting_client) ∧ is_free (m_sequenceContainer s') 0 = true ∧ events s' = events waiting_client.
Proof.
  split; [eexists; split; [vm_compute; reflexivity|by split]|].
  eapply answer_lost_by_monitor.
  - vm_compute. reflexivity.
  - split; [vm_compute; reflexivity|]. apply (bool_decide_unpack _). vm_compute. exact I.
  - by split.
  - vm_compute. reflexivity.
  - reflexivity.
  - vm_compute. reflexivity.
  - vm_compute. reflexivity.
  - vm_compute. reflexivity.
  - reflexivity.
Defined.
