(* ===== verification/ClientHandles.v ===== *)
(** * Handles of the client libraries ([client/api], [client-async/api], [client-common/configuration])

    The objects behind [cynara_configuration], [cynara] and [cynara_async]: how they are made and what
    a null pointer does.  A pointer that is null is [None]; where a function gives a handle
    through a pointer, [false] stands for a null one.  The two configurations are written alike and
    modelled once. *)
From S2P Require Import Prelude Text Types Api BinaryQueue Serialization Frame Messages.
From S2P Require Import ProtocolClient Protocols SocketClient PluginManager CapacityCache ClientLogic SequenceContainer AsyncLogic CacheTheorems.

Record Configuration := mkConfiguration { m_cacheSize : nat }.
Definition Configuration_new : Configuration := mkConfiguration CACHE_DEFAULT_CAPACITY.
Definition setCacheSize (size : nat) (c : Configuration) : Configuration := mkConfiguration size.

(** [size_t] on 64 bits *)
Definition as_size (n : Z) : nat := Z.to_nat (n mod 2 ^ 64).

Definition cynara_configuration_create (pp_conf : bool) : Z * option Configuration :=
  if negb pp_conf then (CYNARA_API_INVALID_PARAM, None) else (CYNARA_API_SUCCESS, Some Configuration_new).
Definition cynara_configuration_set_cache_size (p_conf : option Configuration) (cache_size : Z) : Z * option Configuration :=
  match p_conf with
  | None => (CYNARA_API_INVALID_PARAM, None)
  | Some c => (CYNARA_API_SUCCESS, Some (setCacheSize (as_size cache_size) c))
  end.

Section handles.
Context {E P : Type} `{CP : !ClientPlugins E P} {W : Type}.
Context (libraries : list (option E)) (p : P).

Definition configured_size (p_conf : option Configuration) : nat :=
  match p_conf with Some c => m_cacheSize c | None => m_cacheSize Configuration_new end.

Definition cynara_initialize (pp_cynara : bool) (p_conf : option Configuration) (w : W) : Z * option (ClientState E P W) :=
  if negb pp_cynara then (CYNARA_API_INVALID_PARAM, None)
  else (CYNARA_API_SUCCESS, Some (ClientLogic.Logic_new (configured_size p_conf) libraries p w)).

Definition cynara_async_initialize (pp_cynara : bool) (p_conf : option Configuration) (callback : bool) (sequence : Z) (w : W) :
    Z * option (AsyncLogic E P W) :=
  if negb pp_cynara then (CYNARA_API_INVALID_PARAM, None)
  else (CYNARA_API_SUCCESS, Some (AsyncLogic.Logic_new callback (configured_size p_conf) libraries p sequence w)).

(** A call on a handle. *)
Definition on_handle {S} (call : SE S Z) (p_cynara : option S) : outcome Z * option S :=
  match p_cynara with
  | None => (Ret CYNARA_API_INVALID_PARAM, None)
  | Some s => let '(r, s') := call s in (r, Some s')
  end.
End handles.

(** ** What a new client starts with *)

Section properties.
Context {E P : Type} `{CP : !ClientPlugins E P} {W : Type}.
Context (libraries : list (option E)) (p : P).

Definition starts_empty (capacity : nat) (c : CapacityCache E P) : Prop :=
  cache_ok c ∧ lru c = [] ∧ m_capacity c = capacity ∧
  m_clientPluginManager c = (loadPlugins client_descr libraries PluginManager_new).2 ∧
  ∀ t, m_clientPlugins c !! t = if existsb (λ d, type d =? t)%Z predefinedPolicyDescr then Some NaiveInterpreter else None.

Lemma new_cache_empty size :
  starts_empty size (forEach predefinedPolicyDescr (λ descr, registerPlugin descr NaiveInterpreter) (CapacityCache_new size libraries p)).2.
Proof.
  unfold starts_empty. split.
  { split; [apply NoDup_nil_2|intros n []%elem_of_nil|apply NoDup_nil_2| |].
    - intros it k. unfold CapacityCache_new. cbn -[loadPlugins]. rewrite elem_of_nil. split; [done|]. intros (v & Hv & _). inversion Hv.
    - apply Nat.le_0_l. }
  split_and!; [done..|]. intros t.
  change (<[DENY := NaiveInterpreter (E:=E)]> (<[ALLOW := NaiveInterpreter]> (∅ : gmap PolicyType (ClientPlugin E))) !! t =
    if (ALLOW =? t)%Z || ((DENY =? t)%Z || false) then Some NaiveInterpreter else None).
  rewrite !lookup_insert, lookup_empty, orb_false_r. destruct (Z.eqb_spec ALLOW t), (Z.eqb_spec DENY t); repeat case_decide; done.
Qed.

(** The configured size is the bound on the cache of either library; without a configuration it is
    the default.  The cache starts empty, as the theorems on it suppose, and the predefined types
    have the built-in plugin. *)
Theorem handles_configured n w sequence callback p_conf :
  (cynara_configuration_set_cache_size (cynara_configuration_create true).2 n).2 = Some (mkConfiguration (as_size n)) ∧
  (∃ st, cynara_initialize libraries p true p_conf (w : W) = (CYNARA_API_SUCCESS, Some st) ∧
    starts_empty (configured_size p_conf) (m_cache st)) ∧
  (∃ st, cynara_async_initialize libraries p true p_conf callback sequence w = (CYNARA_API_SUCCESS, Some st) ∧
    starts_empty (configured_size p_conf) (m_asyncCache st)).
Proof.
  split; [done|]. split; (eexists; split; [reflexivity|apply new_cache_empty]).
Qed.
End properties.
