(* ===== verification/Agents.v ===== *)
(** * Agents and pending checks ([service/agent], [service/request])

    [AgentManager] knows the registered agents and the talkers, one per question put to
    an agent; [CheckRequestManager] knows the checks that wait for an agent.  A talker is
    an object shared by both: [t_object] is its identity.  A [CheckContext] is only held
    by its map.  The plugin of a context is a pointer of the type [Plugin]. *)
From S2P Require Import Prelude Text Types Messages.

(** [cynara_agent_msg_type] *)
Definition CYNARA_MSG_TYPE_ACTION : Z := 0.
Definition CYNARA_MSG_TYPE_CANCEL : Z := 1.

Record AgentTalker := mkAgentTalker {
  t_object : nat;
  m_agentType : string;
  t_checkId : Z;
  m_linkId : LinkId;
}.
#[global] Instance AgentTalker_eq_dec : EqDecision AgentTalker.
Proof. solve_decision. Defined.

Record AgentManager := mkAgentManager {
  m_agents : gmap string LinkId;
  m_talkers : gmap LinkId (gmap Z AgentTalker);
  am_sequenceNumber : Z;
  am_objects : nat;
}.

Definition AgentManager_new : AgentManager := mkAgentManager ∅ ∅ 0 0.


Definition setAgents (a : gmap string LinkId) (m : AgentManager) : AgentManager :=
  mkAgentManager a (m_talkers m) (am_sequenceNumber m) (am_objects m).
Definition setTalkers (t : gmap LinkId (gmap Z AgentTalker)) (m : AgentManager) : AgentManager :=
  mkAgentManager (m_agents m) t (am_sequenceNumber m) (am_objects m).

Definition registerAgent (agentType : string) (linkId : LinkId) : SE AgentManager Z := λ m,
  match m_agents m !! agentType with
  | Some _ => (Ret AgentRegisterCode.REJECTED, m)
  | None => (Ret AgentRegisterCode.DONE, setAgents (<[agentType := linkId]> (m_agents m)) m)
  end.

(** The first type, in order, of the agent on the link. *)
Definition getAgentType (m : AgentManager) (linkId : LinkId) : option string :=
  head (filter (λ t, m_agents m !! t = Some linkId) (merge_sort String.le (elements (dom (m_agents m))))).

Definition unregisterAgent (linkId : LinkId) (m : AgentManager) : AgentManager :=
  match getAgentType m linkId with
  | None => m
  | Some agentType => setTalkers (delete linkId (m_talkers m)) (setAgents (delete agentType (m_agents m)) m)
  end.

(** [m_sequenceNumber++] on 16 bits *)
Definition am_generateSequenceNumber : SE AgentManager Z := λ m,
  (Ret (am_sequenceNumber m),
   mkAgentManager (m_agents m) (m_talkers m) ((am_sequenceNumber m + 1) mod 2 ^ 16) (am_objects m)).

(** [m_talkers[linkId]] *)
Definition talkersOf (m : AgentManager) (linkId : LinkId) : gmap Z AgentTalker := default ∅ (m_talkers m !! linkId).

(** [None] for a null pointer: no such agent, or the number is in use. *)
Definition createTalker (agentType : string) : SE AgentManager (option AgentTalker) :=
  checkId ← am_generateSequenceNumber;
  m ← get;
  match m_agents m !! agentType with
  | None => mret None
  | Some linkId =>
      let talker := mkAgentTalker (am_objects m) agentType checkId linkId in
      match talkersOf m linkId !! checkId with
      | Some _ => modify (setTalkers (<[linkId := talkersOf m linkId]> (m_talkers m))) ;; mret None
      | None =>
          put (mkAgentManager (m_agents m) (<[linkId := <[checkId := talker]> (talkersOf m linkId)]> (m_talkers m))
                 (am_sequenceNumber m) (S (am_objects m))) ;;
          mret (Some talker)
      end
  end.

Definition getTalker (m : AgentManager) (linkId : LinkId) (requestId : Z) : option AgentTalker :=
  talkers ← m_talkers m !! linkId;
  talkers !! requestId.

Definition removeTalker (talker : AgentTalker) (m : AgentManager) : AgentManager :=
  match m_talkers m !! m_linkId talker with
  | None => m
  | Some talkers =>
      let talkers := delete (t_checkId talker) talkers in
      setTalkers (if bool_decide (talkers = ∅) then delete (m_linkId talker) (m_talkers m)
                  else <[m_linkId talker := talkers]> (m_talkers m)) m
  end.

(** The talkers of a link, as [cleanupAgent] walks them. *)
Definition linkTalkers (m : AgentManager) (linkId : LinkId) : list AgentTalker :=
  omap (λ id, talkersOf m linkId !! id) (merge_sort Z.le (elements (dom (talkersOf m linkId)))).

(** ** [CheckRequestManager] *)

Record CheckContext (Plugin : Type) := mkCheckContext {
  m_agentTalker : AgentTalker;
  m_checkId : Z;
  m_key : PolicyKey;
  m_plugin : Plugin;
  m_requestContext : RequestContext;
  m_cancelled : bool;
}.
Arguments mkCheckContext {Plugin} _ _ _ _ _ _.
Arguments m_agentTalker {Plugin} _.
Arguments m_checkId {Plugin} _.
Arguments m_key {Plugin} _.
Arguments m_plugin {Plugin} _.
Arguments m_requestContext {Plugin} _.
Arguments m_cancelled {Plugin} _.

Section CheckRequestManager.
Context {Plugin : Type}.

Abbreviation CheckRequestManager := (gmap LinkId (gmap Z (CheckContext Plugin))) (only parsing).

Definition CheckContext_cancel (c : CheckContext Plugin) : CheckContext Plugin :=
  mkCheckContext (m_agentTalker c) (m_checkId c) (m_key c) (m_plugin c) (m_requestContext c) true.

Definition context_link (c : CheckContext Plugin) : LinkId := m_responseQueue (m_requestContext c).

Definition getContext (m_checks : CheckRequestManager) (linkId : LinkId) (checkId : Z) : option (CheckContext Plugin) :=
  checkMap ← m_checks !! linkId;
  checkMap !! checkId.

(** [false] when the id is in use; the map of the link is there afterwards either way. *)
Definition createContext (key : PolicyKey) (request : RequestContext) (checkId : Z) (plugin : Plugin)
    (talker : AgentTalker) : SE CheckRequestManager bool := λ m_checks,
  let linkId := m_responseQueue request in
  let checkMap := default ∅ (m_checks !! linkId) in
  match checkMap !! checkId with
  | Some _ => (Ret false, <[linkId := checkMap]> m_checks)
  | None => (Ret true, <[linkId := <[checkId := mkCheckContext talker checkId key plugin request false]> checkMap]> m_checks)
  end.

(** All contexts; the order of the links, pointers in a map, does not matter where one
    talker has one context. *)
Definition contexts (m_checks : CheckRequestManager) : list (CheckContext Plugin) :=
  mjoin ((λ lm, snd <$> map_to_list lm.2) <$> map_to_list m_checks).

Definition getContext_talker (m_checks : CheckRequestManager) (talker : AgentTalker) : option (CheckContext Plugin) :=
  head (filter (λ c, t_object (m_agentTalker c) = t_object talker) (contexts m_checks)).

Definition removeRequest (c : CheckContext Plugin) (m_checks : CheckRequestManager) : CheckRequestManager :=
  match m_checks !! context_link c with
  | None => m_checks
  | Some checkMap =>
      let checkMap := delete (m_checkId c) checkMap in
      if bool_decide (checkMap = ∅) then delete (context_link c) m_checks
      else <[context_link c := checkMap]> m_checks
  end.

(** [cancel] on the shared object. *)
Definition cancelContext (c : CheckContext Plugin) (m_checks : CheckRequestManager) : CheckRequestManager :=
  alter (alter CheckContext_cancel (m_checkId c)) (context_link c) m_checks.

(** The contexts of a link, as [cancelRequests] walks them. *)
Definition linkContexts (m_checks : CheckRequestManager) (linkId : LinkId) : list (CheckContext Plugin) :=
  let checkMap := default ∅ (m_checks !! linkId) in
  omap (λ id, checkMap !! id) (merge_sort Z.le (elements (dom checkMap))).
End CheckRequestManager.
