(* ===== verification/PendingChecks.v ===== *)
(** * The pending checks and their talkers

    [tracked]: every check that waits has a talker of its own, known to the agent manager
    under the link and number it carries, and its link belongs to a registered agent.  So
    an answer of the agent, or its leaving, finds the check.  The operations of Agents.v
    keep it. *)
From S2P Require Import Prelude Text Types Messages Agents.

Section tracked.
Context {Plugin : Type}.
Implicit Types (am : AgentManager) (ch : gmap LinkId (gmap Z (CheckContext Plugin))) (c : CheckContext Plugin).

Record tracked am ch : Prop := {
  tracked_context link id c : getContext ch link id = Some c →
    context_link c = link ∧ m_checkId c = id ∧
    getTalker am (m_linkId (m_agentTalker c)) (t_checkId (m_agentTalker c)) = Some (m_agentTalker c);
  tracked_own link1 id1 c1 link2 id2 c2 :
    getContext ch link1 id1 = Some c1 → getContext ch link2 id2 = Some c2 →
    t_object (m_agentTalker c1) = t_object (m_agentTalker c2) → link1 = link2 ∧ id1 = id2;
  tracked_talker link id t : getTalker am link id = Some t →
    m_linkId t = link ∧ t_checkId t = id ∧ t_object t < am_objects am ∧
    ∃ agentType, m_agents am !! agentType = Some link;
  tracked_object link1 id1 t1 link2 id2 t2 :
    getTalker am link1 id1 = Some t1 → getTalker am link2 id2 = Some t2 → t_object t1 = t_object t2 → t1 = t2;
}.

Lemma getContext_Some ch link id c :
  getContext ch link id = Some c ↔ ∃ cm, ch !! link = Some cm ∧ cm !! id = Some c.
Proof. unfold getContext. rewrite bind_Some. done. Qed.

Lemma getTalker_Some am link id t :
  getTalker am link id = Some t ↔ ∃ tm, m_talkers am !! link = Some tm ∧ tm !! id = Some t.
Proof. unfold getTalker. rewrite bind_Some. done. Qed.

Lemma elem_contexts ch c : c ∈ contexts ch ↔ ∃ link id, getContext ch link id = Some c.
Proof.
  unfold contexts. rewrite list_elem_of_join. setoid_rewrite getContext_Some. split.
  - intros (l & Hc & Hl). apply list_elem_of_fmap in Hl as ([link cm] & -> & Hlm).
    apply list_elem_of_fmap in Hc as ([id c'] & -> & Hic). apply elem_of_map_to_list in Hlm, Hic.
    exists link, id, cm. done.
  - intros (link & id & cm & Hcm & Hc). exists (snd <$> map_to_list cm). split.
    + apply list_elem_of_fmap. exists (id, c). split; [done|]. by apply elem_of_map_to_list.
    + apply list_elem_of_fmap. exists (link, cm). split; [done|]. by apply elem_of_map_to_list.
Qed.

Lemma getContext_talker_Some ch t c : getContext_talker ch t = Some c →
  t_object (m_agentTalker c) = t_object t ∧ ∃ link id, getContext ch link id = Some c.
Proof.
  unfold getContext_talker. intros Hc. rewrite <-elem_contexts.
  assert (c ∈ filter (λ c, t_object (m_agentTalker c) = t_object t) (contexts ch)) as Hin.
  { destruct (filter _ _) as [|c' l]; [done|]. injection Hc as ->. by left. }
  by apply list_elem_of_filter in Hin.
Qed.

Lemma getContext_talker_None ch t : getContext_talker ch t = None ↔
  ∀ link id c, getContext ch link id = Some c → t_object (m_agentTalker c) ≠ t_object t.
Proof.
  unfold getContext_talker. split.
  - intros Hn link id c Hc Heq.
    assert (c ∈ filter (λ c, t_object (m_agentTalker c) = t_object t) (contexts ch)) as Hin.
    { apply list_elem_of_filter. split; [done|]. apply elem_contexts. by exists link, id. }
    destruct (filter _ _) as [|c' l]; [by apply elem_of_nil in Hin|done].
  - intros Hn. destruct (filter _ _) as [|c' l] eqn:Hf; [done|]. exfalso.
    assert (c' ∈ filter (λ c, t_object (m_agentTalker c) = t_object t) (contexts ch)) as Hin by (rewrite Hf; by left).
    apply list_elem_of_filter in Hin as [Heq Hin]. apply elem_contexts in Hin as (link & id & Hc). by eapply Hn.
Qed.

(** In a tracked state the talker finds its own context. *)
Lemma tracked_find am ch t link id : tracked am ch → getTalker am link id = Some t →
  match getContext_talker ch t with
  | Some c => m_agentTalker c = t ∧ getContext ch (context_link c) (m_checkId c) = Some c
  | None => True
  end.
Proof.
  intros Htr Ht. destruct (getContext_talker ch t) as [c|] eqn:Hc; [|done].
  apply getContext_talker_Some in Hc as (Ho & l & i & Hc).
  destruct (tracked_context _ _ Htr _ _ _ Hc) as (Hl & Hi & Hct). split.
  - by eapply (tracked_object _ _ Htr).
  - by rewrite Hl, Hi.
Qed.

(** ** Contexts *)

Lemma getContext_removeRequest c ch link id :
  getContext (removeRequest c ch) link id =
    if decide (link = context_link c ∧ id = m_checkId c) then None else getContext ch link id.
Proof.
  unfold removeRequest. destruct (ch !! context_link c) as [cm|] eqn:Hcm.
  - assert (getContext (<[context_link c := delete (m_checkId c) cm]> ch) link id =
      if decide (link = context_link c ∧ id = m_checkId c) then None else getContext ch link id) as Hins.
    { unfold getContext. destruct (decide (link = context_link c)) as [->|Hne].
      - rewrite lookup_insert_eq, Hcm. cbn. destruct (decide (id = m_checkId c)) as [->|Hid].
        + rewrite lookup_delete_eq, decide_True by done. done.
        + rewrite lookup_delete_ne, decide_False by naive_solver. done.
      - rewrite lookup_insert_ne, decide_False by naive_solver. done. }
    case_bool_decide as He; [|done]. rewrite <-Hins. unfold getContext.
    destruct (decide (link = context_link c)) as [->|Hne].
    + rewrite lookup_delete_eq, lookup_insert_eq. cbn. by rewrite He.
    + by rewrite lookup_delete_ne, lookup_insert_ne.
  - case_decide as Hd; [|done]. destruct Hd as [-> ->]. unfold getContext. by rewrite Hcm.
Qed.

Lemma getContext_cancelContext c ch link id :
  getContext (cancelContext c ch) link id =
    if decide (link = context_link c ∧ id = m_checkId c) then CheckContext_cancel <$> getContext ch link id
    else getContext ch link id.
Proof.
  unfold cancelContext, getContext. destruct (decide (link = context_link c)) as [->|Hne].
  - rewrite lookup_alter_eq. destruct (ch !! context_link c) as [cm|]; cbn; [|by case_decide].
    destruct (decide (id = m_checkId c)) as [->|Hid].
    + by rewrite lookup_alter_eq, decide_True.
    + rewrite lookup_alter_ne by done. by rewrite decide_False by naive_solver.
  - rewrite lookup_alter_ne by done. by rewrite decide_False by naive_solver.
Qed.

(** Contexts may go, and may change what is not tracked. *)
Lemma tracked_fewer am ch ch' : tracked am ch →
  (∀ link id c', getContext ch' link id = Some c' →
     ∃ c, getContext ch link id = Some c ∧ m_agentTalker c' = m_agentTalker c ∧ m_checkId c' = m_checkId c ∧
       context_link c' = context_link c) →
  tracked am ch'.
Proof.
  intros Htr Hsub. split; [| |apply Htr|apply Htr].
  - intros link id c' Hc'. destruct (Hsub _ _ _ Hc') as (c & Hc & -> & -> & ->). by apply (tracked_context _ _ Htr).
  - intros l1 i1 c1 l2 i2 c2 H1 H2 Ho. destruct (Hsub _ _ _ H1) as (c1' & Hc1 & E1 & _).
    destruct (Hsub _ _ _ H2) as (c2' & Hc2 & E2 & _). rewrite E1, E2 in Ho. by eapply (tracked_own _ _ Htr).
Qed.

Lemma tracked_removeRequest am ch c : tracked am ch → tracked am (removeRequest c ch).
Proof.
  intros Htr. apply (tracked_fewer am ch); [done|]. intros link id c' Hc'.
  rewrite getContext_removeRequest in Hc'. case_decide; [done|]. by exists c'.
Qed.

Lemma tracked_cancelContext am ch c : tracked am ch → tracked am (cancelContext c ch).
Proof.
  intros Htr. apply (tracked_fewer am ch); [done|]. intros link id c' Hc'.
  rewrite getContext_cancelContext in Hc'. case_decide; [|by exists c'].
  apply fmap_Some in Hc' as (c0 & Hc0 & ->). by exists c0.
Qed.

(** ** Talkers *)

Lemma getTalker_talkersOf am link id : getTalker am link id = talkersOf am link !! id.
Proof. unfold getTalker, talkersOf. by destruct (m_talkers am !! link) as [tm|]; cbn; rewrite ?lookup_empty. Qed.

Lemma getTalker_removeTalker t am link id :
  getTalker (removeTalker t am) link id =
    if decide (link = m_linkId t ∧ id = t_checkId t) then None else getTalker am link id.
Proof.
  unfold removeTalker. destruct (m_talkers am !! m_linkId t) as [tm|] eqn:Htm.
  - unfold getTalker, setTalkers. cbn [m_talkers].
    destruct (decide (link = m_linkId t)) as [->|Hne].
    + rewrite Htm. case_bool_decide as He; rewrite ?lookup_delete_eq, ?lookup_insert_eq; cbn.
      * destruct (decide (id = t_checkId t)) as [->|Hid]; [by rewrite decide_True|].
        rewrite decide_False by naive_solver. apply (f_equal (lookup id)) in He.
        by rewrite lookup_delete_ne, lookup_empty in He by done.
      * destruct (decide (id = t_checkId t)) as [->|Hid].
        -- by rewrite lookup_delete_eq, decide_True.
        -- by rewrite lookup_delete_ne, decide_False by naive_solver.
    + rewrite decide_False by naive_solver. case_bool_decide; by rewrite ?lookup_delete_ne, ?lookup_insert_ne by done.
  - case_decide as Hd; [|done]. destruct Hd as [-> ->]. unfold getTalker. by rewrite Htm.
Qed.

Lemma removeTalker_agents t am : m_agents (removeTalker t am) = m_agents am ∧ am_objects (removeTalker t am) = am_objects am.
Proof. unfold removeTalker. by case_match. Qed.

(** A talker that no context has may go. *)
Lemma tracked_removeTalker am ch t : tracked am ch →
  (∀ link id c, getContext ch link id = Some c → m_agentTalker c = t → False) →
  (∀ t', getTalker am (m_linkId t) (t_checkId t) = Some t' → t' = t) →
  tracked (removeTalker t am) ch.
Proof.
  intros Htr Hno Hown. destruct (removeTalker_agents t am) as [Ha Ho]. split.
  - intros link id c Hc. destruct (tracked_context _ _ Htr _ _ _ Hc) as (Hl & Hi & Ht).
    split; [done|]. split; [done|]. rewrite getTalker_removeTalker. rewrite decide_False; [done|].
    intros [E1 E2]. rewrite E1, E2 in Ht. apply Hown in Ht. by eapply Hno.
  - apply Htr.
  - intros link id t'. rewrite getTalker_removeTalker, Ha, Ho. case_decide; [done|]. apply Htr.
  - intros l1 i1 t1 l2 i2 t2. rewrite !getTalker_removeTalker. repeat case_decide; try done. apply Htr.
Qed.

Lemma tracked_registerAgent am ch agentType link r am' :
  tracked am ch → registerAgent agentType link am = (r, am') → tracked am' ch.
Proof.
  unfold registerAgent. intros Htr. destruct (m_agents am !! agentType) eqn:Ha; intros [= <- <-]; [done|].
  split; [apply Htr|apply Htr| |apply Htr]. intros l i t Ht.
  destruct (tracked_talker _ _ Htr l i t Ht) as (? & ? & ? & ty & Hty). split_and!; try done.
  exists ty. cbn. rewrite lookup_insert_ne; [done|]. intros ->. by rewrite Ha in Hty.
Qed.

(** A new talker has an identity of its own. *)
Lemma tracked_createTalker am ch agentType am' r :
  tracked am ch → createTalker agentType am = (r, am') →
  tracked am' ch ∧
  match r with
  | Ret (Some t) => getTalker am' (m_linkId t) (t_checkId t) = Some t ∧ m_agents am !! agentType = Some (m_linkId t) ∧
      ∀ link id c, getContext ch link id = Some c → t_object (m_agentTalker c) ≠ t_object t
  | Ret None => True
  | _ => False
  end.
Proof.
  intros Htr. unfold createTalker. rewrite SE_bind_eq. unfold am_generateSequenceNumber.
  set (am1 := mkAgentManager (m_agents am) (m_talkers am) ((am_sequenceNumber am + 1) mod 2 ^ 16) (am_objects am)).
  assert (tracked am1 ch) as Htr1 by (split; apply Htr).
  rewrite SE_bind_eq. cbn [get]. change (m_agents am1) with (m_agents am).
  destruct (m_agents am !! agentType) as [link|] eqn:Hlink; [|by intros [= <- <-]].
  destruct (talkersOf am1 link !! am_sequenceNumber am) as [t0|] eqn:Ht0.
  - rewrite SE_bind_eq. intros [= <- <-]. split; [|done].
    assert (∀ l i, getTalker (setTalkers (<[link := talkersOf am1 link]> (m_talkers am1)) am1) l i = getTalker am1 l i) as He.
    { intros l i. rewrite !getTalker_talkersOf. unfold talkersOf. cbn. destruct (decide (l = link)) as [->|];
        [by rewrite lookup_insert_eq|by rewrite lookup_insert_ne]. }
    split; [|apply Htr1| |].
    + intros l i c Hc. rewrite He. by apply (tracked_context _ _ Htr1).
    + intros l i t. rewrite He. apply Htr1.
    + intros l1 i1 t1 l2 i2 t2. rewrite !He. apply Htr1.
  - rewrite SE_bind_eq. cbn [put]. intros [= <- <-].
    set (t := mkAgentTalker _ _ _ _). set (am2 := mkAgentManager _ _ _ _).
    assert (∀ l i, getTalker am2 l i = if decide (l = link ∧ i = am_sequenceNumber am) then Some t else getTalker am l i) as He.
    { intros l i. rewrite !getTalker_talkersOf. unfold talkersOf. unfold am2, am1. cbn.
      destruct (decide (l = link)) as [->|].
      - rewrite lookup_insert_eq. cbn. destruct (decide (i = am_sequenceNumber am)) as [->|].
        + by rewrite lookup_insert_eq, decide_True.
        + by rewrite lookup_insert_ne, decide_False by naive_solver.
      - by rewrite lookup_insert_ne, decide_False by naive_solver. }
    assert (∀ l i t', getTalker am l i = Some t' → t_object t' ≠ t_object t) as Hfresh.
    { intros l i t' Ht'. destruct (tracked_talker _ _ Htr _ _ _ Ht') as (_ & _ & ? & _). unfold t. cbn. lia. }
    split; [split|].
    + intros l i c Hc. destruct (tracked_context _ _ Htr _ _ _ Hc) as (? & ? & Hct). split; [done|]. split; [done|].
      rewrite He. case_decide as Hd; [|done]. destruct Hd as [E1 E2]. rewrite E1, E2 in Hct.
      rewrite getTalker_talkersOf in Hct. unfold am1, talkersOf in *. cbn in Ht0. by rewrite Hct in Ht0.
    + apply Htr.
    + intros l i t'. rewrite He. case_decide as Hd.
      * intros [= <-]. destruct Hd as [-> ->]. cbn. split_and!; [done|done|lia|]. by exists agentType.
      * intros Ht'. destruct (tracked_talker _ _ Htr _ _ _ Ht') as (? & ? & ? & ?). cbn. split_and!; try done. lia.
    + intros l1 i1 t1 l2 i2 t2. rewrite !He. repeat case_decide.
      * by intros [= <-] [= <-].
      * intros [= <-] H2 Ho. by edestruct Hfresh.
      * intros H1 [= <-] Ho. by edestruct Hfresh.
      * apply Htr.
    + rewrite He. cbn. rewrite decide_True by done. split_and!; try done.
      intros l i c Hc. destruct (tracked_context _ _ Htr _ _ _ Hc) as (_ & _ & Hct). by eapply Hfresh.
Qed.

Lemma tracked_createContext am ch ch' key request checkId (plugin : Plugin) t r :
  tracked am ch → getTalker am (m_linkId t) (t_checkId t) = Some t →
  (∀ link id c, getContext ch link id = Some c → t_object (m_agentTalker c) ≠ t_object t) →
  createContext key request checkId plugin t ch = (r, ch') →
  tracked am ch' ∧ (r = Ret false → ∀ link id, getContext ch' link id = getContext ch link id).
Proof.
  intros Htr Ht Hfresh. unfold createContext. set (link := m_responseQueue request).
  assert (∀ cm l i, getContext (<[link := cm]> ch) l i = if decide (l = link) then cm !! i else getContext ch l i) as He.
  { intros cm l i. unfold getContext. destruct (decide (l = link)) as [->|];
      [by rewrite lookup_insert_eq|by rewrite lookup_insert_ne]. }
  assert (∀ i, default ∅ (ch !! link) !! i = getContext ch link i) as Hd.
  { intros i. unfold getContext. by destruct (ch !! link); cbn; rewrite ?lookup_empty. }
  destruct (default ∅ (ch !! link) !! checkId) as [c0|] eqn:Hc0; intros [= <- <-].
  - assert (∀ l i, getContext (<[link:=default ∅ (ch !! link)]> ch) l i = getContext ch l i) as Hsame.
    { intros l i. rewrite He. case_decide as Hl; [subst l; by rewrite Hd|done]. }
    split; [|intros _; done]. apply (tracked_fewer am ch); [done|]. intros l i c. rewrite Hsame. intros Hc. by exists c.
  - split; [|done]. set (c0 := mkCheckContext _ _ _ _ _ _).
    assert (∀ l i, getContext (<[link := <[checkId := c0]> (default ∅ (ch !! link))]> ch) l i =
      if decide (l = link ∧ i = checkId) then Some c0 else getContext ch l i) as Hins.
    { intros l i. rewrite He. destruct (decide (l = link)) as [->|]; [|by rewrite decide_False by naive_solver].
      destruct (decide (i = checkId)) as [->|]; [by rewrite lookup_insert_eq, decide_True|].
      by rewrite lookup_insert_ne, Hd, decide_False by naive_solver. }
    split; [| |apply Htr|apply Htr].
    + intros l i c. rewrite Hins. case_decide as Hdec; [|apply Htr]. intros [= <-]. by destruct Hdec as [-> ->].
    + intros l1 i1 c1 l2 i2 c2. rewrite !Hins. repeat case_decide; try apply Htr.
      * naive_solver.
      * intros [= <-] H2 Ho. by edestruct Hfresh.
      * intros H1 [= <-] Ho. by edestruct Hfresh.
Qed.

(** ** An agent leaves *)

Lemma elem_linkTalkers am link t : t ∈ linkTalkers am link ↔ ∃ id, getTalker am link id = Some t.
Proof.
  unfold linkTalkers. rewrite list_elem_of_omap. setoid_rewrite merge_sort_Permutation.
  setoid_rewrite getTalker_talkersOf. split; [intros (id & _ & H); by exists id|].
  intros (id & H). exists id. split; [|done]. apply elem_of_elements, elem_of_dom. by eexists.
Qed.

Lemma getAgentType_Some am link ty : getAgentType am link = Some ty → m_agents am !! ty = Some link.
Proof.
  unfold getAgentType. intros Hh%head_Some_elem_of. by apply list_elem_of_filter in Hh as [Ht _].
Qed.

Lemma getAgentType_None am link : getAgentType am link = None → ∀ ty, m_agents am !! ty ≠ Some link.
Proof.
  unfold getAgentType. intros H ty Hty.
  assert (ty ∈ filter (λ t, m_agents am !! t = Some link) (merge_sort String.le (elements (dom (m_agents am))))) as Hin.
  { apply list_elem_of_filter. split; [done|]. rewrite merge_sort_Permutation. apply elem_of_elements, elem_of_dom. by eexists. }
  destruct (filter _ _); [by apply elem_of_nil in Hin|done].
Qed.

Lemma tracked_unregisterAgent am ch link : tracked am ch →
  (∀ l i c, getContext ch l i = Some c → m_linkId (m_agentTalker c) ≠ link) →
  tracked (unregisterAgent link am) ch.
Proof.
  intros Htr Hno. unfold unregisterAgent. destruct (getAgentType am link) as [ty|] eqn:Hty; [|done].
  apply getAgentType_Some in Hty.
  assert (∀ l i, getTalker (setTalkers (delete link (m_talkers am)) (setAgents (delete ty (m_agents am)) am)) l i =
    if decide (l = link) then None else getTalker am l i) as He.
  { intros l i. unfold getTalker. cbn. destruct (decide (l = link)) as [->|];
      [by rewrite lookup_delete_eq|by rewrite lookup_delete_ne]. }
  split.
  - intros l i c Hc. destruct (tracked_context _ _ Htr _ _ _ Hc) as (? & ? & Hct). split; [done|]. split; [done|].
    rewrite He, decide_False; [done|]. by eapply Hno.
  - apply Htr.
  - intros l i t. rewrite He. case_decide as Hd; [done|]. intros Ht.
    destruct (tracked_talker _ _ Htr _ _ _ Ht) as (? & ? & ? & ty' & Hty'). split_and!; try done.
    exists ty'. cbn. rewrite lookup_delete_ne; [done|]. intros ->. rewrite Hty in Hty'. by injection Hty' as ->.
  - intros l1 i1 t1 l2 i2 t2. rewrite !He. repeat case_decide; try done. apply Htr.
Qed.
End tracked.
