(* ===== verification/PluginLibraries.v ===== *)
(** * The shared libraries of plugins ([common/plugin/PluginManager])

    How the table of PluginManager.v is filled from a directory, and the life of the plugins and
    their libraries.  A plugin is an object that its library makes and destroys, held by
    [shared_ptr]s: [pointers] says how many of them hold the object of each library, and the
    object is destroyed with the last one.  Code of a library that is closed can not be run.
    [dlopen] and [scandir] are arguments; each library that is opened gets the next
    number, which also names its object. *)
From stdpp Require Import gmultiset.
From S2P Require Import Prelude Text Types Messages PluginManager Agents.

(** What is called in a library, and when it is opened and closed. *)
Inductive LibraryEvent :=
| LibraryOpened (handle : nat)
| LibraryCreate (handle : nat)
| LibraryDestroy (handle : nat)
| LibraryClosed (handle : nat).
#[global] Instance LibraryEvent_eq_dec : EqDecision LibraryEvent.
Proof. solve_decision. Defined.

Definition event_handle (e : LibraryEvent) : nat :=
  match e with LibraryOpened h | LibraryCreate h | LibraryDestroy h | LibraryClosed h => h end.

(** Whether the symbols [create] and [destroy] are found, and what [create] gives; [None]: a null
    pointer. *)
Record Library (Plugin : Type) := mkLibrary {
  has_create : bool;
  has_destroy : bool;
  created : option Plugin;
}.
Arguments mkLibrary {Plugin} _ _ _.
Arguments has_create {Plugin} _.
Arguments has_destroy {Plugin} _.
Arguments created {Plugin} _.

(** The process's libraries, with the manager's members. *)
Record Libraries (Plugin : Type) := mkLibraries {
  table : PluginManager (nat * Plugin);
  m_pluginLibs : list nat;
  handles : nat;
  loaded : gset nat;
  pointers : gmultiset nat;
  library_events : list LibraryEvent;
}.
Arguments mkLibraries {Plugin} _ _ _ _ _ _.
Arguments table {Plugin} _.
Arguments m_pluginLibs {Plugin} _.
Arguments handles {Plugin} _.
Arguments loaded {Plugin} _.
Arguments pointers {Plugin} _.
Arguments library_events {Plugin} _.

Section libraries.
Context {Plugin : Type}.
Context (getSupportedPolicyDescr : Plugin → list PolicyDescription).
Context (dlopen : string → option (Library Plugin)).
(** The names in a directory, and whether each is a regular file. *)
Context (scandir : string → option (list (string * bool))).
Abbreviation Loader := (SE (Libraries Plugin)) (only parsing).

Definition Libraries_new : Libraries Plugin := mkLibraries PluginManager_new [] 0 ∅ ∅ [].

Definition setTable (m : PluginManager (nat * Plugin)) (s : Libraries Plugin) : Libraries Plugin :=
  mkLibraries m (m_pluginLibs s) (handles s) (loaded s) (pointers s) (library_events s).
Definition keepLibrary (h : nat) (s : Libraries Plugin) : Libraries Plugin :=
  mkLibraries (table s) (m_pluginLibs s ++ [h]) (handles s) (loaded s) (pointers s) (library_events s).
Definition setPointers (p : gmultiset nat) (s : Libraries Plugin) : Libraries Plugin :=
  mkLibraries (table s) (m_pluginLibs s) (handles s) (loaded s) p (library_events s).
Definition happened (e : LibraryEvent) (s : Libraries Plugin) : Libraries Plugin :=
  mkLibraries (table s) (m_pluginLibs s) (handles s) (loaded s) (pointers s) (library_events s ++ [e]).

(** A call of code of the library [h]. *)
Definition code_of (h : nat) : Loader unit := λ s,
  if bool_decide (h ∈ loaded s) then (Ret tt, s) else (Throw UndefinedBehaviour, s).

Definition dlopened : Loader nat := λ s,
  (Ret (handles s),
   mkLibraries (table s) (m_pluginLibs s) (S (handles s)) ({[handles s]} ∪ loaded s) (pointers s)
     (library_events s ++ [LibraryOpened (handles s)])).
Definition dlclose (h : nat) : Loader unit := λ s,
  (Ret tt,
   mkLibraries (table s) (m_pluginLibs s) (handles s) (loaded s ∖ {[h]}) (pointers s) (library_events s ++ [LibraryClosed h])).

(** [shared_ptr]: a copy, and the end of a copy; the last one calls the deleter. *)
Definition share (h : nat) : Loader unit := modify (λ s, setPointers ({[+ h +]} ⊎ pointers s) s).
Definition release (h : nat) : Loader unit :=
  modify (λ s, setPointers (pointers s ∖ {[+ h +]}) s) ;;
  left ← gets pointers;
  if bool_decide (h ∈ left) then mret tt
  else code_of h ;; modify (happened (LibraryDestroy h)).

(** [m_plugins.insert(std::make_pair(desc, pluginPtr))]: the pair is dropped when the type is
    there already. *)
Definition supports (h : nat) (plugin : Plugin) (desc : PolicyDescription) : Loader unit :=
  share h ;;
  m ← gets table;
  match m_plugins m !! type desc with
  | Some _ => release h
  | None => modify (setTable (insertPlugin (h, plugin) desc m))
  end.

(** [openPlugin]: the pointer to the plugin goes before the handle of its library. *)
Definition openLibrary (path : string) : Loader unit :=
  match dlopen path with
  | None => mret tt
  | Some lib =>
      handle ← dlopened;
      if negb (has_create lib) then dlclose handle
      else if negb (has_destroy lib) then dlclose handle
      else
        code_of handle ;; modify (happened (LibraryCreate handle)) ;;
        share handle ;;
        match created lib with
        | None => release handle ;; dlclose handle
        | Some plugin =>
            code_of handle ;;
            if bool_decide (getSupportedPolicyDescr plugin = []) then release handle ;; dlclose handle
            else
              forEach (getSupportedPolicyDescr plugin) (supports handle plugin) ;;
              modify (keepLibrary handle) ;;
              release handle
        end
  end.

Definition pluginFilter (ent : string * bool) : bool :=
  ent.2 && match ent.1 with String c _ => negb (bool_decide (c = "."%char)) | "" => true end.

(** The names that [loadPlugins] goes through, in the order of [alphasort] (in the C locale). *)
Definition plugin_files (entries : list (string * bool)) : list string :=
  merge_sort String.le (filter pluginFilter entries).*1.

Definition loadLibraries (m_dir : string) : Loader unit :=
  match scandir m_dir with
  | None => mret tt
  | Some entries => forEach (plugin_files entries) (λ d_name, openLibrary (m_dir +:+ d_name))
  end.

(** [plugin.second.reset()] *)
Definition reset_plugin (t : PolicyType) : Loader unit :=
  m ← gets table;
  match m_plugins m !! t with
  | Some (name, Some (h, _)) =>
      modify (setTable (mkPluginManager (<[t := (name, None)]> (m_plugins m)))) ;; release h
  | _ => mret tt
  end.

(** The destructor: the plugins, then the member [m_pluginLibs]. *)
Definition PluginManager_delete : Loader unit :=
  m ← gets table;
  forEach (plugin_types m) reset_plugin ;;
  libs ← gets m_pluginLibs;
  forEach libs dlclose.

(** The pointers that the pending checks of the service hold. *)
Definition context_pointers (m_checks : gmap LinkId (gmap Z (CheckContext (nat * Plugin)))) : list nat :=
  (λ c, (m_plugin c).1) <$> contexts m_checks.

(** [Cynara::finalize]: the logic goes with its pending checks, and then the manager of the
    plugins. *)
Definition finalize (m_checks : gmap LinkId (gmap Z (CheckContext (nat * Plugin)))) : Loader unit :=
  forEach (context_pointers m_checks) release ;;
  PluginManager_delete.
End libraries.
