(* ===== verification/Service.v ===== *)
(** * The service ([service/logic/Logic])

    The logic serves the requests of all connections.  Its state [Service] is everything
    behind [requestTaker()]; together with the [SocketManager] it is the state [Server] of
    the whole process, on which [Logic_execute] and [contextClosed] run.  They are what
    SocketManager.v is parameterised by: a request may answer other connections, and an
    update of the policies closes the connections of all clients, which calls back into
    the logic.

    The storage is any back end with the interface of StorageBackend.v; [disk] is where it
    is saved.  Plugins are external code.  [fuel] bounds bucket chains, the erase worklist
    and the copying of monitor entries. *)
From S2P Require Import Prelude Text Types Api Bucket StorageBackend Storage.
From S2P Require Import BinaryQueue Serialization Frame Messages ProtocolClient Protocols SocketManager.
From S2P Require Import Logging EntriesQueue Monitor PluginManager Agents.

(** [ServicePluginInterface::PluginStatus] *)
Inductive PluginStatus := SUCCESS | ANSWER_READY | ANSWER_NOTREADY | PLUGIN_ERROR.

Definition SIGTERM : Z := 15.

(** [std::string] and [std::vector<unsigned char>] of the same bytes. *)
Definition raw_of_string (s : string) : RawBuffer :=
  (λ c, Z.of_N (Ascii.N_of_ascii c)) <$> String.list_ascii_of_string s.
Definition string_of_raw (l : RawBuffer) : string :=
  String.string_of_list_ascii ((λ z, Ascii.ascii_of_N (Z.to_N z)) <$> l).

Record Service (Plugin P B D : Type) := mkService {
  m_agentManager : AgentManager;
  m_checkRequestManager : gmap LinkId (gmap Z (CheckContext Plugin));
  m_pluginManager : PluginManager Plugin;
  m_storage : B;
  m_monitorLogic : MonitorLogic;
  m_dbCorrupted : bool;
  m_logLevel : AuditLevel;
  journal : list (PolicyKey * PolicyResult);
  pluginState : P;
  disk : D;
  closings : gmap nat nat;
}.
Arguments mkService {Plugin P B D}.
Arguments m_agentManager {Plugin P B D} _.
Arguments m_checkRequestManager {Plugin P B D} _.
Arguments m_pluginManager {Plugin P B D} _.
Arguments m_storage {Plugin P B D} _.
Arguments m_monitorLogic {Plugin P B D} _.
Arguments m_dbCorrupted {Plugin P B D} _.
Arguments m_logLevel {Plugin P B D} _.
Arguments journal {Plugin P B D} _.
Arguments pluginState {Plugin P B D} _.
Arguments disk {Plugin P B D} _.
Arguments closings {Plugin P B D} _.

(** What the service is built with: the saving and loading of the storage, and the plugins.
    [check] and [update] get the result variable and leave it set; they do not throw. *)
Class Host (B D Plugin P : Type) := {
  storage_save : B → SE D unit;
  storage_load : SE D B;
  plugin_descr : Plugin → list PolicyDescription;
  plugin_invalidate : Plugin → P → P;
  isServicePlugin : Plugin → bool;
  plugin_check : Plugin → string → string → string → PolicyResult → P →
    (PluginStatus * PolicyResult * string * string) * P;
  plugin_update : Plugin → string → string → string → string → PolicyResult → P →
    (PluginStatus * PolicyResult) * P;
}.

Section service.
Context `{HO : HashOrder} {B D Plugin P : Type} `{SB : StorageBackend B} `{H : !Host B D Plugin P}.
Context (fuel : nat).

Abbreviation S := (Service Plugin P B D) (only parsing).
Abbreviation Server := (SE (SocketManager * S)) (only parsing).

(** Setters of the model. *)
Definition setAgentManager (x : AgentManager) (s : S) : S :=
  mkService x (m_checkRequestManager s) (m_pluginManager s) (m_storage s) (m_monitorLogic s) (m_dbCorrupted s)
    (m_logLevel s) (journal s) (pluginState s) (disk s) (closings s).
Definition setChecks (x : gmap LinkId (gmap Z (CheckContext Plugin))) (s : S) : S :=
  mkService (m_agentManager s) x (m_pluginManager s) (m_storage s) (m_monitorLogic s) (m_dbCorrupted s)
    (m_logLevel s) (journal s) (pluginState s) (disk s) (closings s).
Definition setPluginManager (x : PluginManager Plugin) (s : S) : S :=
  mkService (m_agentManager s) (m_checkRequestManager s) x (m_storage s) (m_monitorLogic s) (m_dbCorrupted s)
    (m_logLevel s) (journal s) (pluginState s) (disk s) (closings s).
Definition setStorage (x : B) (s : S) : S :=
  mkService (m_agentManager s) (m_checkRequestManager s) (m_pluginManager s) x (m_monitorLogic s) (m_dbCorrupted s)
    (m_logLevel s) (journal s) (pluginState s) (disk s) (closings s).
Definition setMonitorLogic (x : MonitorLogic) (s : S) : S :=
  mkService (m_agentManager s) (m_checkRequestManager s) (m_pluginManager s) (m_storage s) x (m_dbCorrupted s)
    (m_logLevel s) (journal s) (pluginState s) (disk s) (closings s).
Definition setDbCorrupted (s : S) : S :=
  mkService (m_agentManager s) (m_checkRequestManager s) (m_pluginManager s) (m_storage s) (m_monitorLogic s) true
    (m_logLevel s) (journal s) (pluginState s) (disk s) (closings s).
Definition setJournal (x : list (PolicyKey * PolicyResult)) (s : S) : S :=
  mkService (m_agentManager s) (m_checkRequestManager s) (m_pluginManager s) (m_storage s) (m_monitorLogic s)
    (m_dbCorrupted s) (m_logLevel s) x (pluginState s) (disk s) (closings s).
Definition setPluginState (x : P) (s : S) : S :=
  mkService (m_agentManager s) (m_checkRequestManager s) (m_pluginManager s) (m_storage s) (m_monitorLogic s)
    (m_dbCorrupted s) (m_logLevel s) (journal s) x (disk s) (closings s).
Definition setDisk (x : D) (s : S) : S :=
  mkService (m_agentManager s) (m_checkRequestManager s) (m_pluginManager s) (m_storage s) (m_monitorLogic s)
    (m_dbCorrupted s) (m_logLevel s) (journal s) (pluginState s) x (closings s).
Definition setClosings (x : gmap nat nat) (s : S) : S :=
  mkService (m_agentManager s) (m_checkRequestManager s) (m_pluginManager s) (m_storage s) (m_monitorLogic s)
    (m_dbCorrupted s) (m_logLevel s) (journal s) (pluginState s) (disk s) x.

(** An operation on one part of the state. *)
Definition on {X A} (getter : S → X) (setter : X → S → S) (m : SE X A) : Server A := λ '(sm, s),
  let '(r, x) := m (getter s) in (r, (sm, setter x s)).
Definition service : Server S := gets snd.

(** ** Connections *)

(** The connection there is now on a descriptor. *)
Definition linkOf (s : S) (fd : nat) : LinkId := (fd, default 0 (closings s !! fd)).
Definition contextOf (s : S) (fd : nat) : RequestContext := mkRequestContext (linkOf s fd) (Z.of_nat fd).

(** [close(fd)]: the next connection on the descriptor is another one. *)
Definition sys_closed (fd : nat) : Server unit := λ '(sm, s),
  (Ret tt, (sm, setClosings (<[fd := Datatypes.S (default 0 (closings s !! fd))]> (closings s)) s)).

(** A protocol object writes a response to the write queue of a link; nobody reads the
    queue of a connection that is closed. *)
Definition writeTo (link : LinkId) (write : Descriptor → Writer) : Server unit :=
  s ← service;
  if bool_decide (linkOf s link.1 = link) then
    onDesc link.1 (λ d, let '(r, q) := write d (m_writeQueue d) in (r, setWriteQueue q d))
  else mret tt.

(** [RequestContext::returnResponse]; a taker that is gone takes nothing. *)
Definition returnResponse (context : RequestContext) (response : Response) : Server unit :=
  writeTo (m_responseQueue context)
    (λ d, match m_protocol d with
          | Some p => protocol_executeResponse p response
          | None => mret tt
          end).

(** [AgentTalker::sendMessage], with a protocol object of its own *)
Definition sendMessage (talker : AgentTalker) (type : Z) (data : RawBuffer) : Server unit :=
  writeTo (m_linkId talker) (λ _, protocol_executeResponse PAgent (AgentActionResponse type data (t_checkId talker))).

Definition talker_send (talker : AgentTalker) (agentData : string) : Server unit :=
  sendMessage talker CYNARA_MSG_TYPE_ACTION (raw_of_string agentData).
Definition talker_cancel (talker : AgentTalker) : Server unit := sendMessage talker CYNARA_MSG_TYPE_CANCEL [].

(** [AuditLog::log] *)
Definition audit_log (key : PolicyKey) (result : PolicyResult) : Server unit :=
  modify (λ '(sm, s),
    (sm, if audited (m_logLevel s) (policyType result) then setJournal (journal s ++ [(key, result)]) s else s)).

(** ** Checks *)

(** The case [ANSWER_NOTREADY] of [pluginCheck]. *)
Definition askAgent (context : RequestContext) (key : PolicyKey) (checkId : Z) (plugin : Plugin)
    (requiredAgent pluginData : string) : Server (bool * PolicyResult) :=
  let denied := PolicyResult_of DENY in
  agentTalker ← on m_agentManager setAgentManager (createTalker requiredAgent);
  match agentTalker with
  | None => mret (true, denied)
  | Some talker =>
      created ← on m_checkRequestManager setChecks (createContext key context checkId plugin talker);
      if negb created then
        on m_agentManager setAgentManager (modify (removeTalker talker)) ;;
        mret (true, denied)
      else talker_send talker pluginData ;; mret (false, denied)
  end.

(** The result and whether it is the answer; [false]: an agent will answer later. *)
Definition pluginCheck (context : RequestContext) (key : PolicyKey) (checkId : Z) (result : PolicyResult) :
    Server (bool * PolicyResult) :=
  let denied := PolicyResult_of DENY in
  plugin ← on m_pluginManager setPluginManager (getPlugin (policyType result));
  match plugin with
  | None => mret (true, denied)
  | Some plugin =>
      if negb (isServicePlugin plugin) then mret (true, denied)
      else
        answer ← on pluginState setPluginState (λ p,
          let '(r, p') := plugin_check plugin (value (client key)) (value (user key)) (value (privilege key)) result p in
          (Ret r, p'));
        let '(status, result, requiredAgent, pluginData) := answer in
        match status with
        | ANSWER_READY => mret (true, result)
        | ANSWER_NOTREADY => askAgent context key checkId plugin requiredAgent pluginData
        | _ => mret (true, denied)
        end
  end.

Definition check (context : RequestContext) (key : PolicyKey) (checkId : Z) : Server (bool * PolicyResult) :=
  s ← service;
  match getContext (m_checkRequestManager s) (m_responseQueue context) checkId with
  | Some _ => mret (false, PolicyResult_of DENY)
  | None =>
      result ← (if m_dbCorrupted s then mret (PolicyResult_of DENY)
                else reads (λ st, checkPolicy fuel (m_storage st.2) key defaultPolicyBucketId true));
      if (policyType result =? ALLOW)%Z || (policyType result =? DENY)%Z then mret (true, result)
      else pluginCheck context key checkId result
  end.

Definition execute_CheckRequest (context : RequestContext) (key : PolicyKey) (seq : Z) : Server unit :=
  answer ← check context key seq;
  if answer.1 : bool then
    audit_log key answer.2 ;;
    returnResponse context (CheckResponse answer.2 seq)
  else mret tt.

Definition update (key : PolicyKey) (checkId : Z) (agentData : string) (context : RequestContext) (plugin : Plugin) :
    Server bool :=
  answer ← on pluginState setPluginState (λ p,
    let '(r, p') := plugin_update plugin (value (client key)) (value (user key)) (value (privilege key)) agentData
                      PolicyResult_default p in (Ret r, p'));
  result ← match answer.1 with
           | SUCCESS => mret answer.2
           | PLUGIN_ERROR => mret (PolicyResult_of DENY)
           | _ => throw PluginErrorException
           end;
  audit_log key result ;;
  returnResponse context (CheckResponse result checkId) ;;
  mret true.

(** What an agent says about a check; [None]: nothing that can be used. *)
Definition execute_AgentActionRequest (context : RequestContext) (type : Z) (data : RawBuffer) (seq : Z) : Server unit :=
  s ← service;
  match getTalker (m_agentManager s) (m_responseQueue context) seq with
  | None => mret tt
  | Some talker =>
      match getContext_talker (m_checkRequestManager s) talker with
      | None => on m_agentManager setAgentManager (modify (removeTalker talker))
      | Some c =>
          (if negb (m_cancelled c) then
             if (type =? CYNARA_MSG_TYPE_CANCEL)%Z then mret tt
             else if (type =? CYNARA_MSG_TYPE_ACTION)%Z then
               _ ← update (m_key c) (m_checkId c) (string_of_raw data) (m_requestContext c) (m_plugin c); mret tt
             else mret tt
           else mret tt) ;;
          on m_agentManager setAgentManager (modify (removeTalker talker)) ;;
          on m_checkRequestManager setChecks (modify (removeRequest c))
      end
  end.

Definition execute_AgentRegisterRequest (context : RequestContext) (agentType : string) (seq : Z) : Server unit :=
  result ← on m_agentManager setAgentManager (registerAgent agentType (m_responseQueue context));
  returnResponse context (AgentRegisterResponse result seq).

Definition execute_CancelRequest (context : RequestContext) (seq : Z) : Server unit :=
  s ← service;
  match getContext (m_checkRequestManager s) (m_responseQueue context) seq with
  | None => mret tt
  | Some c =>
      if m_cancelled c then mret tt
      else
        on m_checkRequestManager setChecks (modify (cancelContext c)) ;;
        talker_cancel (m_agentTalker c) ;;
        returnResponse context (CancelResponse seq)
  end.

Definition execute_SimpleCheckRequest (context : RequestContext) (key : PolicyKey) (seq : Z) : Server unit :=
  result ← reads (λ st, checkPolicy fuel (m_storage st.2) key defaultPolicyBucketId true);
  answer ←
    (if (policyType result =? ALLOW)%Z || (policyType result =? DENY)%Z then mret (CYNARA_API_SUCCESS, result)
     else
       plugin ← on m_pluginManager setPluginManager (getPlugin (policyType result));
       match plugin with
       | None => mret (CYNARA_API_SUCCESS, PolicyResult_of DENY)
       | Some plugin =>
           if negb (isServicePlugin plugin) then mret (CYNARA_API_SUCCESS, PolicyResult_of DENY)
           else
             answer ← on pluginState setPluginState (λ p,
               let '(r, p') := plugin_check plugin (value (client key)) (value (user key)) (value (privilege key)) result p in
               (Ret r, p'));
             let '(status, result, requiredAgent, pluginData) := answer in
             match status with
             | ANSWER_READY => mret (CYNARA_API_SUCCESS, result)
             | ANSWER_NOTREADY => mret (CYNARA_API_ACCESS_NOT_RESOLVED, result)
             | _ => mret (CYNARA_API_SUCCESS, PolicyResult_of DENY)
             end
       end);
  audit_log key answer.2 ;;
  returnResponse context (SimpleCheckResponse answer.1 answer.2 seq).

(** ** Closing a connection *)

Definition handleAgentTalkerDisconnection (talker : AgentTalker) : Server unit :=
  s ← service;
  match getContext_talker (m_checkRequestManager s) talker with
  | None => mret tt
  | Some c =>
      (if negb (m_cancelled c) then
         audit_log (m_key c) (PolicyResult_of DENY) ;;
         returnResponse (m_requestContext c) (CheckResponse (PolicyResult_of DENY) (m_checkId c))
       else mret tt) ;;
      on m_checkRequestManager setChecks (modify (removeRequest c))
  end.

Definition handleClientDisconnection (c : CheckContext Plugin) : Server unit :=
  if negb (m_cancelled c) then
    on m_checkRequestManager setChecks (modify (cancelContext c)) ;;
    talker_cancel (m_agentTalker c)
  else mret tt.

(** [AgentManager::cleanupAgent] *)
Definition cleanupAgent (linkId : LinkId) (cleanupFunction : AgentTalker → Server unit) : Server unit :=
  s ← service;
  forEach (linkTalkers (m_agentManager s) linkId) cleanupFunction ;;
  on m_agentManager setAgentManager (modify (unregisterAgent linkId)).

(** [CheckRequestManager::cancelRequests] *)
Definition cancelRequests (linkId : LinkId) (cancelFunction : CheckContext Plugin → Server unit) : Server unit :=
  s ← service;
  forEach (linkContexts (m_checkRequestManager s) linkId) cancelFunction.

Definition contextClosed (fd : nat) : Server unit :=
  s ← service;
  let context := contextOf s fd in
  cleanupAgent (m_responseQueue context) handleAgentTalkerDisconnection ;;
  cancelRequests (m_responseQueue context) handleClientDisconnection ;;
  on m_monitorLogic setMonitorLogic (ml_removeClient context).

(** ** Administration *)

Definition onPoliciesChanged : Server unit :=
  s ← service;
  on disk setDisk (storage_save (m_storage s)) ;;
  disconnectAllClients contextClosed sys_closed ;;
  s ← service;
  on pluginState setPluginState (invalidateAll plugin_invalidate (m_pluginManager s)).

Definition checkSinglePolicyType (policyType : PolicyType) (allowBucket allowNone : bool) : Server unit :=
  if allowBucket && (policyType =? BUCKET)%Z then mret tt
  else if allowNone && (policyType =? NONE)%Z then mret tt
  else if existsb (λ descr, type descr =? policyType)%Z predefinedPolicyDescr then mret tt
  else s ← service; reads (λ _, checkPolicyType (m_pluginManager s) policyType).

(** The entries of a [std::map] in the order of its keys. *)
Definition groups {V} (m : gmap PolicyBucketId (list V)) : list (PolicyBucketId * list V) :=
  omap (λ id, pair id <$> m !! id) (merge_sort String.le (elements (dom m))).

Definition checkPoliciesTypes (policies : gmap PolicyBucketId (list Policy)) (allowBucket allowNone : bool) : Server unit :=
  forEach (groups policies) (λ group,
    forEach group.2 (λ policy, checkSinglePolicyType (policyType (result policy)) allowBucket allowNone)).

(** [try { .. } catch ...]: the code for the exceptions that have a handler. *)
Definition answerCode (m : Server unit) (handler : exn → option Z) : Server Z :=
  tryCatch (m ;; mret CodeResponseCode.OK)
    (λ e, match handler e with Some code => mret code | None => throw e end).

Definition onStorage {A} (m : SE B A) : Server A := on m_storage setStorage m.

(** The shape of the updating requests. *)
Definition guardedUpdate (m : Server unit) (handler : exn → option Z) (context : RequestContext) (seq : Z) : Server unit :=
  s ← service;
  code ← (if m_dbCorrupted s then mret CodeResponseCode.DB_CORRUPTED
          else answerCode (m ;; onPoliciesChanged) handler);
  returnResponse context (CodeResponse code seq).

Definition execute_EraseRequest (context : RequestContext) (startBucket : PolicyBucketId) (recursive : bool)
    (filter : PolicyKey) (seq : Z) : Server unit :=
  guardedUpdate (onStorage (erasePolicies fuel startBucket recursive filter))
    (λ e, if isDatabaseException e then Some CodeResponseCode.FAILED
          else match e with BucketNotExistsException _ => Some CodeResponseCode.NO_BUCKET | _ => None end)
    context seq.

Definition execute_InsertOrUpdateBucketRequest (context : RequestContext) (bucketId : PolicyBucketId)
    (result : PolicyResult) (seq : Z) : Server unit :=
  guardedUpdate (checkSinglePolicyType (policyType result) true true ;; onStorage (addOrUpdateBucket bucketId result))
    (λ e, if isDatabaseException e then Some CodeResponseCode.FAILED
          else match e with
               | DefaultBucketSetNoneException | InvalidBucketIdException _ => Some CodeResponseCode.NOT_ALLOWED
               | UnknownPolicyTypeException _ => Some CodeResponseCode.NO_POLICY_TYPE
               | _ => None
               end)
    context seq.

Definition execute_RemoveBucketRequest (context : RequestContext) (bucketId : PolicyBucketId) (seq : Z) : Server unit :=
  guardedUpdate (onStorage (deleteBucket bucketId))
    (λ e, if isDatabaseException e then Some CodeResponseCode.FAILED
          else match e with
               | BucketNotExistsException _ => Some CodeResponseCode.NO_BUCKET
               | DefaultBucketDeletionException => Some CodeResponseCode.NOT_ALLOWED
               | _ => None
               end)
    context seq.

Definition execute_SetPoliciesRequest (context : RequestContext) (inserted : gmap PolicyBucketId (list Policy))
    (removed : gmap PolicyBucketId (list PolicyKey)) (seq : Z) : Server unit :=
  guardedUpdate
    (checkPoliciesTypes inserted true false ;;
     onStorage (insertPolicies (groups inserted)) ;;
     onStorage (deletePolicies (groups removed)))
    (λ e, if isDatabaseException e then Some CodeResponseCode.FAILED
          else match e with
               | BucketNotExistsException _ => Some CodeResponseCode.NO_BUCKET
               | UnknownPolicyTypeException _ => Some CodeResponseCode.NO_POLICY_TYPE
               | _ => None
               end)
    context seq.

(** A query whose bucket may be missing; the database is not asked when it is corrupted. *)
Definition guardedQuery {A} (default : A) (query : B → outcome A) : Server (A * bool) :=
  s ← service;
  if m_dbCorrupted s then mret (default, false)
  else
    tryCatch (a ← reads (λ st, query (m_storage st.2)); mret (a, true))
      (λ e, match e with BucketNotExistsException _ => mret (default, false) | _ => throw e end).

Definition execute_AdminCheckRequest (context : RequestContext) (key : PolicyKey) (startBucket : PolicyBucketId)
    (recursive : bool) (seq : Z) : Server unit :=
  answer ← guardedQuery PolicyResult_default (λ st, checkPolicy fuel st key startBucket recursive);
  s ← service;
  returnResponse context (AdminCheckResponse answer.1 answer.2 (m_dbCorrupted s) seq).

Definition execute_ListRequest (context : RequestContext) (bucket : PolicyBucketId) (filter : PolicyKey) (seq : Z) :
    Server unit :=
  answer ← guardedQuery [] (λ st, listPolicies st bucket filter);
  s ← service;
  returnResponse context (ListResponse answer.1 answer.2 (m_dbCorrupted s) seq).

Definition execute_DescriptionListRequest (context : RequestContext) (seq : Z) : Server unit :=
  s ← service;
  returnResponse context
    (DescriptionListResponse (predefinedPolicyDescr ++ getPolicyDescriptions (m_pluginManager s)) (m_dbCorrupted s) seq).

(** ** Monitoring *)

Definition sendMonitorResponses : Server unit :=
  s ← service;
  if shouldSend (m_monitorLogic s) then
    responses ← on m_monitorLogic setMonitorLogic getResponses;
    forEach responses (λ response,
      returnResponse (info_context (info response))
        (MonitorGetEntriesResponse (response_entries response) (info_seq (info response))))
  else mret tt.

Definition onMonitor (m : SE MonitorLogic unit) : Server unit :=
  on m_monitorLogic setMonitorLogic m ;; sendMonitorResponses.

(** ** [execute] *)

(** [ssi_signo] of a [struct signalfd_siginfo] *)
Definition signalNumber (sigInfo : string) : Z := le_value (stake 4 sigInfo).

(** The overload for the class of the request, with the context of its connection. *)
Definition Logic_execute (fd : nat) (request : Request) : Server unit :=
  s ← service;
  let context := contextOf s fd in
  match request with
  | SignalRequest sigInfo => if (signalNumber sigInfo =? SIGTERM)%Z then mainLoopStop else mret tt
  | AdminCheckRequest key startBucket recursive seq => execute_AdminCheckRequest context key startBucket recursive seq
  | AgentActionRequest type data seq => execute_AgentActionRequest context type data seq
  | AgentRegisterRequest agentType seq => execute_AgentRegisterRequest context agentType seq
  | CancelRequest seq => execute_CancelRequest context seq
  | CheckRequest key seq => execute_CheckRequest context key seq
  | DescriptionListRequest seq => execute_DescriptionListRequest context seq
  | EraseRequest startBucket recursive filter seq => execute_EraseRequest context startBucket recursive filter seq
  | InsertOrUpdateBucketRequest bucketId result seq => execute_InsertOrUpdateBucketRequest context bucketId result seq
  | ListRequest bucket filter seq => execute_ListRequest context bucket filter seq
  | MonitorGetEntriesRequest bufferSize seq => onMonitor (ml_addClient fuel context seq bufferSize)
  | MonitorGetFlushRequest seq => onMonitor (flushClient fuel context)
  | MonitorEntriesPutRequest entries seq => forEach entries (λ e, onMonitor (ml_addEntry fuel e))
  | MonitorEntryPutRequest entry seq => onMonitor (ml_addEntry fuel entry)
  | RemoveBucketRequest bucketId seq => execute_RemoveBucketRequest context bucketId seq
  | SetPoliciesRequest inserted removed seq => execute_SetPoliciesRequest context inserted removed seq
  | SimpleCheckRequest key seq => execute_SimpleCheckRequest context key seq
  end.

Definition loadDb : Server unit :=
  tryCatch (b ← on disk setDisk storage_load; onStorage (put b))
    (λ e, match e with
          | DatabaseCorruptedException => modify (λ '(sm, s), (sm, setDbCorrupted s))
          | _ => throw e
          end).

(** The state after the constructors; [empty] is a storage back end without buckets. *)
Definition Service_new (empty : B) (level : AuditLevel) (p : P) (d : D) : S :=
  mkService AgentManager_new ∅ PluginManager_new empty MonitorLogic_new false level [] p d ∅.

(** [Cynara::init]: the database, then the plugins. *)
Definition Cynara_init (libraries : list (option Plugin)) : Server unit :=
  loadDb ;;
  on m_pluginManager setPluginManager (loadPlugins plugin_descr libraries).
End service.
