(* ===== verification/ServiceLemmas.v ===== *)
(** * Running the service's operations

    With the rules for [keeps] of Prelude.v: every request and every closing keeps the
    checks tracked (PendingChecks.v). *)
From S2P Require Import Prelude Text Types Bucket StorageBackend Storage.
From S2P Require Import BinaryQueue Serialization Frame Messages ProtocolClient Protocols SocketManager.
From S2P Require Import EntriesQueue Monitor PluginManager Agents PendingChecks Service.

Section service.
Context `{HO : HashOrder} {B D Plugin P : Type} `{SB : StorageBackend B} `{H : !Host B D Plugin P}.
Context (fuel : nat).
Abbreviation State := (SocketManager * Service Plugin P B D)%type (only parsing).

(** ** What depends on agents and checks, or on the plugin table, only *)

Definition checks_tracked (st : State) : Prop :=
  tracked (m_agentManager st.2) (m_checkRequestManager st.2).

(** A property of the state that other parts of the state can not change. *)
Definition of_part {X} (part : Service Plugin P B D → X) (Q : X → Prop) (st : State) : Prop := Q (part st.2).

Definition core (s : Service Plugin P B D) : AgentManager * gmap LinkId (gmap Z (CheckContext Plugin)) :=
  (m_agentManager s, m_checkRequestManager s).

Lemma keeps_on {X A Y} (part : Service Plugin P B D → Y) (Q : Y → Prop)
    (getter : Service Plugin P B D → X) setter (m : SE X A) :
  (∀ x s, part (setter x s) = part s) → keeps (of_part part Q) (on getter setter m).
Proof. intros Hp [sm s] Hst. unfold on. destruct (m (getter s)) as [r x]. unfold of_part. cbn. by rewrite Hp. Qed.

Lemma keeps_onDesc {A Y} (part : Service Plugin P B D → Y) (Q : Y → Prop) fd (op : SE Descriptor A) :
  keeps (of_part part Q) (onDesc fd op).
Proof. intros [sm s] Hst. unfold onDesc. destruct (m_fds sm !! fd); [|done]. by destruct (op _). Qed.

Lemma keeps_writeTo {Y} (part : Service Plugin P B D → Y) (Q : Y → Prop) link write :
  keeps (of_part part Q) (writeTo link write).
Proof. unfold writeTo, service. keep. apply keeps_onDesc. Qed.

Lemma keeps_audit {Y} (part : Service Plugin P B D → Y) (Q : Y → Prop) key result :
  (∀ x s, part (setJournal x s) = part s) → keeps (of_part part Q) (audit_log key result).
Proof.
  intros Hp. unfold audit_log. apply keeps_modify. intros [sm s] Hst. unfold of_part in *. cbn [snd].
  case_match; [by rewrite Hp|done].
Qed.

Lemma keeps_desc {Y} (part : Service Plugin P B D → Y) (Q : Y → Prop) fd : keeps (of_part part Q) (desc fd).
Proof. intros [sm s] Hst. unfold desc. by destruct (m_fds sm !! fd). Qed.

Lemma keeps_onManager {Y} (part : Service Plugin P B D → Y) (Q : Y → Prop) f : keeps (of_part part Q) (onManager f).
Proof. intros [sm s] Hst. unfold onManager. by destruct (f sm). Qed.

Lemma keeps_closeSocket {Y} (part : Service Plugin P B D → Y) (Q : Y → Prop) cc sc fd :
  (∀ fd, keeps (of_part part Q) (cc fd)) → (∀ fd, keeps (of_part part Q) (sc fd)) →
  keeps (of_part part Q) (closeSocket cc sc fd).
Proof.
  intros Hcc Hsc. unfold closeSocket, removeReadSocket, removeWriteSocket. keep;
    first [apply Hcc|apply Hsc|apply keeps_onManager|apply keeps_onDesc].
Qed.

Lemma keeps_disconnectAllClients {Y} (part : Service Plugin P B D → Y) (Q : Y → Prop) cc sc :
  (∀ fd, keeps (of_part part Q) (cc fd)) → (∀ fd, keeps (of_part part Q) (sc fd)) →
  keeps (of_part part Q) (disconnectAllClients cc sc).
Proof.
  intros Hcc Hsc st Hst. refine (keeps_forEach _ _ _ _ st Hst). intros i.
  keep; first [apply keeps_desc|by apply keeps_closeSocket].
Qed.

(** ** The checks stay tracked *)

Abbreviation kept := (keeps checks_tracked) (only parsing).

(** An operation on another part of the state. *)
Lemma kept_on {X A} (getter : Service Plugin P B D → X) setter (m : SE X A) :
  (∀ x s, core (setter x s) = core s) → kept (on getter setter m).
Proof. intros Hp. by apply (keeps_on core (λ x, tracked x.1 x.2)). Qed.
Lemma kept_writeTo link write : kept (writeTo link write).
Proof. apply (keeps_writeTo core (λ x, tracked x.1 x.2)). Qed.
Lemma kept_audit key result : kept (audit_log key result).
Proof. by apply (keeps_audit core (λ x, tracked x.1 x.2)). Qed.
Lemma kept_agents {A} (m : SE AgentManager A) :
  (∀ am (ch : gmap LinkId (gmap Z (CheckContext Plugin))), tracked am ch → tracked (m am).2 ch) →
  kept (on m_agentManager setAgentManager m).
Proof. intros Hm [sm s] Hst. unfold on. specialize (Hm (m_agentManager s) _ Hst). by destruct (m (m_agentManager s)). Qed.
Lemma kept_checks {A} (m : SE (gmap LinkId (gmap Z (CheckContext Plugin))) A) :
  (∀ am ch, tracked am ch → tracked am (m ch).2) → kept (on m_checkRequestManager setChecks m).
Proof. intros Hm [sm s] Hst. unfold on. specialize (Hm (m_agentManager s) (m_checkRequestManager s) Hst). by destruct (m (m_checkRequestManager s)). Qed.
Lemma kept_returnResponse context response : kept (returnResponse context response).
Proof. apply kept_writeTo. Qed.
Lemma kept_talker_send talker data : kept (talker_send talker data).
Proof. apply kept_writeTo. Qed.
Lemma kept_talker_cancel talker : kept (talker_cancel talker).
Proof. apply kept_writeTo. Qed.
Lemma kept_removeRequest c : kept (on m_checkRequestManager setChecks (modify (removeRequest c))).
Proof. apply kept_checks. intros am ch Htr. by apply tracked_removeRequest. Qed.
Lemma kept_cancelContext c : kept (on m_checkRequestManager setChecks (modify (cancelContext c))).
Proof. apply kept_checks. intros am ch Htr. by apply tracked_cancelContext. Qed.
Lemma kept_registerAgent agentType link :
  kept (on m_agentManager setAgentManager (registerAgent agentType link)).
Proof.
  apply kept_agents. intros am ch Htr. destruct (registerAgent agentType link am) as [r am'] eqn:Hr.
  by eapply tracked_registerAgent.
Qed.
Lemma kept_service : kept service.
Proof. apply keeps_gets. Qed.

Hint Resolve kept_writeTo kept_audit kept_returnResponse kept_talker_send kept_talker_cancel kept_removeRequest
  kept_cancelContext kept_registerAgent kept_service : keeps.
Hint Extern 1 (keeps checks_tracked (on _ _ _)) => (apply kept_on; reflexivity) : keeps.

(** A talker is made and given to the check that needs it. *)
Lemma kept_askAgent context key checkId (plugin : Plugin) agent data :
  kept (askAgent context key checkId plugin agent data).
Proof.
  intros [sm s] Hst. unfold askAgent. rewrite SE_bind_eq. unfold on at 1.
  destruct (createTalker agent (m_agentManager s)) as [r am] eqn:Ht.
  destruct (tracked_createTalker _ _ _ _ _ Hst Ht) as [Htr Hr].
  destruct r as [[t|]|e|]; try done. destruct Hr as (Hown & _ & Hfresh).
  rewrite SE_bind_eq. unfold on at 1. cbn [m_checkRequestManager setAgentManager snd] in *.
  destruct (createContext key context checkId plugin t (m_checkRequestManager s)) as [r ch] eqn:Hc.
  destruct (tracked_createContext am _ _ _ _ _ _ _ _ Htr Hown Hfresh Hc) as [Htr' Hsame].
  destruct r as [[]|e|]; try done; cbn [negb].
  - rewrite SE_bind_eq. pose proof (kept_talker_send t data (sm, setChecks ch (setAgentManager am s)) Htr') as Hk.
    by destruct (talker_send t data _) as [[]].
  - rewrite SE_bind_eq. unfold on, modify. cbn. apply tracked_removeTalker; [done| |].
    + intros l i c Hl Heq. rewrite (Hsame eq_refl) in Hl. apply (Hfresh l i c Hl). by rewrite Heq.
    + intros t'. rewrite Hown. by intros [= <-].
Qed.
Hint Resolve kept_askAgent : keeps.

Lemma kept_check context key checkId : kept (check fuel context key checkId).
Proof. unfold check, pluginCheck. keep. Qed.
Hint Resolve kept_check : keeps.

(** The talker and its check go together. *)
Lemma kept_forget t c :
  m_agentTalker c = t →
  ∀ st, checks_tracked st → getTalker (m_agentManager st.2) (m_linkId t) (t_checkId t) = Some t →
  getContext (m_checkRequestManager st.2) (context_link c) (m_checkId c) = Some c →
  checks_tracked ((on m_agentManager setAgentManager (modify (removeTalker t)) ;;
                   on m_checkRequestManager setChecks (modify (removeRequest c))) st).2.
Proof.
  intros <- [sm s] Htr Ht Hc. rewrite SE_bind_eq. unfold on, modify.
  apply (tracked_removeTalker (m_agentManager s) (removeRequest c (m_checkRequestManager s))).
  - by apply tracked_removeRequest.
  - intros l i c' Hc' Heq. rewrite getContext_removeRequest in Hc'. case_decide as Hd; [done|].
    destruct (tracked_own _ _ Htr _ _ _ _ _ _ Hc Hc') as [E1 E2]; [by rewrite Heq|]. by apply Hd.
  - cbn in Ht. intros t'. rewrite Ht. by intros [= <-].
Qed.

(** Answering does not touch agents and checks. *)
Lemma update_core (Q : _ → Prop) key checkId data context (plugin : Plugin) :
  keeps (of_part core Q) (update key checkId data context plugin).
Proof.
  unfold update, returnResponse.
  keep; first [by apply keeps_on|by apply keeps_audit|apply keeps_writeTo].
Qed.

Lemma kept_AgentAction context type data seq : kept (execute_AgentActionRequest context type data seq).
Proof.
  intros [sm s] Hst. unfold execute_AgentActionRequest. rewrite SE_bind_eq. unfold service, gets. cbn [snd].
  destruct (getTalker (m_agentManager s) (m_responseQueue context) seq) as [t|] eqn:Ht; [|done].
  destruct (tracked_talker _ _ Hst _ _ _ Ht) as (Hl & Hi & _).
  pose proof (tracked_find (m_agentManager s) (m_checkRequestManager s) t _ _ Hst Ht) as Hfind.
  destruct (getContext_talker (m_checkRequestManager s) t) as [c|] eqn:Hc.
  - destruct Hfind as [Hct Hcc]. rewrite SE_bind_eq.
    assert (∀ m : SE State unit, keeps (of_part core (λ x, x = core s)) m → checks_tracked
      ((m ;; on m_agentManager setAgentManager (modify (removeTalker t)) ;;
        on m_checkRequestManager setChecks (modify (removeRequest c))) (sm, s)).2) as Hthen.
    { intros m Hm. specialize (Hm (sm, s) eq_refl). rewrite SE_bind_eq.
      destruct (m (sm, s)) as [r [sm' s']]. unfold of_part, core in Hm. cbn [snd] in Hm. injection Hm as Ham Hch.
      assert (checks_tracked (sm', s')) as Htr' by (unfold checks_tracked; cbn; rewrite Ham, Hch; exact Hst).
      destruct r as [[]|e|]; [|done..]. apply kept_forget; [done|done| |]; cbn [snd].
      - by rewrite Ham, Hl, Hi.
      - by rewrite Hch. }
    rewrite <-SE_bind_eq. apply Hthen. keep. apply update_core.
  - unfold on, modify. apply (tracked_removeTalker (m_agentManager s) (m_checkRequestManager s)); [done| |].
    + intros l i c Hlc Heq. rewrite getContext_talker_None in Hc. apply (Hc l i c Hlc). by rewrite Heq.
    + intros t'. rewrite Hl, Hi, Ht. by intros [= <-].
Qed.

(** ** An agent leaves *)

(** The loop of [cleanupAgent] takes out the checks of the talkers it visits; it never
    adds one. *)
Definition fewer (ch ch' : gmap LinkId (gmap Z (CheckContext Plugin))) : Prop :=
  ∀ link id c, getContext ch' link id = Some c → getContext ch link id = Some c.

Lemma handleAgentTalkerDisconnection_takes t st : checks_tracked st →
  ∃ r st', handleAgentTalkerDisconnection t st = (r, st') ∧ checks_tracked st' ∧
    m_agentManager st'.2 = m_agentManager st.2 ∧
    fewer (m_checkRequestManager st.2) (m_checkRequestManager st'.2) ∧
    (r = Ret tt → getContext_talker (m_checkRequestManager st'.2) t = None).
Proof.
  destruct st as [sm s]. intros Htr. unfold handleAgentTalkerDisconnection. rewrite SE_bind_eq.
  unfold service, gets. cbn [snd].
  destruct (getContext_talker (m_checkRequestManager s) t) as [c|] eqn:Hc.
  2:{ eexists _, _. split; [done|]. split_and!; try done. by intros l i c. }
  set (answer := if negb (m_cancelled c) then _ else _).
  assert (keeps (of_part core (λ x, x = core s)) answer) as Hans.
  { unfold answer, returnResponse. keep; first [by apply keeps_audit|apply keeps_writeTo]. }
  specialize (Hans (sm, s) eq_refl). rewrite SE_bind_eq. destruct (answer (sm, s)) as [r [sm' s']].
  unfold of_part, core in Hans. cbn [snd] in Hans. injection Hans as Ham Hch.
  assert (checks_tracked (sm', s')) as Htr' by (unfold checks_tracked; cbn; rewrite Ham, Hch; exact Htr).
  destruct r as [[]|e|].
  - unfold on, modify. eexists _, _. split; [done|]. split.
    { apply (tracked_removeRequest (m_agentManager s') (m_checkRequestManager s')). exact Htr'. }
    split; [done|]. split.
    + intros l i c' Hc'. cbn [m_checkRequestManager setChecks snd] in Hc'. rewrite getContext_removeRequest, Hch in Hc'.
      by case_decide.
    + intros _. cbn [m_checkRequestManager setChecks snd]. rewrite Hch. apply getContext_talker_None.
      intros l i c' Hc' Ho. rewrite getContext_removeRequest in Hc'. case_decide as Hd; [done|].
      apply getContext_talker_Some in Hc as (Hco & lc & ic & Hcc).
      destruct (tracked_context _ _ Htr _ _ _ Hcc) as (El & Ei & _).
      destruct (tracked_own _ _ Htr _ _ _ _ _ _ Hcc Hc') as [-> ->]; [congruence|]. by apply Hd.
  - eexists _, _. split; [done|]. split_and!; try done. intros l i c'. cbn [snd]. by rewrite Hch.
  - eexists _, _. split; [done|]. split_and!; try done. intros l i c'. cbn [snd]. by rewrite Hch.
Qed.

Lemma cleanup_loop ts st : checks_tracked st →
  ∃ r st', forEach ts handleAgentTalkerDisconnection st = (r, st') ∧ checks_tracked st' ∧
    m_agentManager st'.2 = m_agentManager st.2 ∧
    fewer (m_checkRequestManager st.2) (m_checkRequestManager st'.2) ∧
    (r = Ret tt → ∀ t, t ∈ ts → getContext_talker (m_checkRequestManager st'.2) t = None).
Proof.
  revert st. induction ts as [|t ts IH]; intros st Htr; cbn [forEach].
  - eexists _, _. split; [done|]. split_and!; [done|done|by intros l i c|]. intros _ t Ht. by apply elem_of_nil in Ht.
  - destruct (handleAgentTalkerDisconnection_takes t st Htr) as (r & st1 & H1 & Htr1 & Ham1 & Hf1 & Hn1).
    rewrite SE_bind_eq, H1. destruct r as [[]|e|]; [|eexists _, _; by split_and!..].
    destruct (IH st1 Htr1) as (r & st2 & H2 & Htr2 & Ham2 & Hf2 & Hn2). rewrite H2.
    eexists _, _. split; [done|]. split; [done|]. split; [by rewrite Ham2|].
    split; [intros l i c Hc; by apply Hf1, Hf2|]. intros Hr t' Ht'. apply elem_of_cons in Ht' as [E|Ht']; [subst t'|by apply Hn2].
    specialize (Hn1 eq_refl). rewrite getContext_talker_None in Hn1 |- *. intros l i c Hc. by apply (Hn1 l i c), Hf2.
Qed.

Lemma kept_cleanupAgent link : kept (cleanupAgent link handleAgentTalkerDisconnection).
Proof.
  intros [sm s] Hst. unfold cleanupAgent. rewrite SE_bind_eq. unfold service, gets. cbn [snd].
  destruct (cleanup_loop (linkTalkers (m_agentManager s) link) (sm, s) Hst) as (r & [sm' s'] & H1 & Htr & Ham & _ & Hn).
  rewrite SE_bind_eq, H1. cbn [snd] in *. destruct r as [[]|e|]; [|done..].
  unfold on, modify. apply (tracked_unregisterAgent (m_agentManager s') (m_checkRequestManager s')); [done|].
  intros l i c Hc Hl. destruct (tracked_context _ _ Htr _ _ _ Hc) as (_ & _ & Ht). cbn [snd] in Ht.
  specialize (Hn eq_refl (m_agentTalker c)). rewrite getContext_talker_None in Hn.
  apply (Hn ltac:(rewrite <-Ham; apply elem_linkTalkers; rewrite <-Hl; by eexists) l i c Hc). done.
Qed.
Hint Resolve kept_AgentAction kept_cleanupAgent : keeps.

Lemma kept_contextClosed fd : kept (contextClosed fd).
Proof. unfold contextClosed, cancelRequests, handleClientDisconnection. keep. Qed.

Lemma kept_disconnectAllClients : kept (disconnectAllClients contextClosed sys_closed).
Proof.
  apply (keeps_disconnectAllClients core (λ x, tracked x.1 x.2)); [apply kept_contextClosed|].
  by intros fd [sm s] Hst.
Qed.
Lemma kept_onPoliciesChanged : kept onPoliciesChanged.
Proof. unfold onPoliciesChanged. keep. apply kept_disconnectAllClients. Qed.
Hint Resolve kept_onPoliciesChanged kept_contextClosed : keeps.

Lemma kept_guardedUpdate (m : SE State unit) handler context seq :
  kept m → kept (guardedUpdate m handler context seq).
Proof. intros Hm. unfold guardedUpdate, answerCode. keep. Qed.
Lemma kept_guardedQuery {A} (d : A) (query : B → outcome A) : kept (guardedQuery d query).
Proof. unfold guardedQuery. keep. Qed.
Lemma kept_checkSinglePolicyType t a b : kept (checkSinglePolicyType t a b).
Proof. unfold checkSinglePolicyType. keep. Qed.
Hint Resolve kept_guardedQuery kept_checkSinglePolicyType : keeps.
Lemma kept_onStorage {A} (m : SE B A) : kept (onStorage m).
Proof. unfold onStorage. keep. Qed.
Lemma kept_onMonitor m : kept (onMonitor m).
Proof. unfold onMonitor, sendMonitorResponses. keep. Qed.
Lemma kept_mainLoopStop : kept mainLoopStop.
Proof. apply (keeps_onManager core (λ x, tracked x.1 x.2)). Qed.
Hint Resolve kept_onStorage kept_onMonitor kept_mainLoopStop : keeps.

Lemma kept_execute fd request : kept (Logic_execute fuel fd request).
Proof.
  unfold Logic_execute. keep;
    unfold execute_AdminCheckRequest, execute_AgentRegisterRequest, execute_CancelRequest, execute_CheckRequest,
      execute_DescriptionListRequest, execute_EraseRequest, execute_InsertOrUpdateBucketRequest, execute_ListRequest,
      execute_RemoveBucketRequest, execute_SetPoliciesRequest, execute_SimpleCheckRequest, checkPoliciesTypes;
    keep; apply kept_guardedUpdate; keep.
Qed.
End service.

#[export] Hint Resolve keeps_onDesc keeps_writeTo keeps_desc keeps_onManager : keeps.
