(* ===== verification/ServiceDemo.v ===== *)
(** * A small service, for concrete runs

    One plugin, for the policy type 10, which asks the agent "agent"; a database that is
    there or corrupted.  The service has a client on descriptor 1, an agent on
    descriptor 2 and an administrator on descriptor 3; the rules allow the client "app" the privilege "camera" and leave "net"
    to the plugin. *)
From S2P Require Import Prelude Text Types Logging Bucket StorageBackend Storage InMemoryStorageBackend.
From S2P Require Import BinaryQueue Serialization Frame Messages ProtocolClient Protocols SocketManager.
From S2P Require Import EntriesQueue Monitor PluginManager Agents Service.

Definition ask_type : PolicyType := 10.

(** The disk: the database, or [None] when it is corrupted. *)
#[export] Instance demo_host : Host InMemoryStorageBackend (option InMemoryStorageBackend) unit unit := {
  storage_save b := put (Some b);
  storage_load d := match d with Some b => (Ret b, d) | None => (Throw DatabaseCorruptedException, d) end;
  plugin_descr _ := [mkPolicyDescription ask_type "Ask"];
  plugin_invalidate _ p := p;
  isServicePlugin _ := true;
  plugin_check _ c _ p r st := ((ANSWER_NOTREADY, r, "agent", c +:+ p), st);
  plugin_update _ _ _ _ answer _ st := ((SUCCESS, mkPolicyResult ALLOW answer), st);
}.

Definition demo_service_base : InMemoryStorageBackend :=
  (addOrUpdateBucket "" PolicyResult_default (mkInMemory ∅)).2.
Definition demo_rules : list (PolicyBucketId * list Policy) :=
  [("", [simpleWithKey (PolicyKey_of "app" "*" "camera") ALLOW;
         simpleWithKey (PolicyKey_of "app" "*" "net") ask_type])].
Definition demo_database : InMemoryStorageBackend := (insertPolicies demo_rules demo_service_base).2.

Definition demo_connection (p : ProtocolKind) : Descriptor :=
  mkDescriptor false true (bool_decide (p = PClient)) (Some p) (ProtocolFrameHeader_new BinaryQueue_new) BinaryQueue_new "".
Definition demo_sockets : SocketManager :=
  mkSocketManager true 3 [Descriptor_new; demo_connection PClient; demo_connection PAgent; demo_connection PAdmin]
    {[1; 2; 3]} ∅.

Abbreviation DemoService := (Service unit unit InMemoryStorageBackend (option InMemoryStorageBackend)) (only parsing).

(** The service after its start with the given disk. *)
Definition demo_start (d : option InMemoryStorageBackend) : SocketManager * DemoService :=
  (Cynara_init [Some tt] (demo_sockets, Service_new (mkInMemory ∅) AL_ALL tt d)).2.
Definition demo_service : DemoService := (demo_start (Some demo_database)).2.

Definition camera_key : PolicyKey := PolicyKey_of "app" "user" "camera".
Definition net_key : PolicyKey := PolicyKey_of "app" "user" "net".

(** The agent registers and the client asks. *)
Definition demo_asked : SocketManager * DemoService :=
  ((Logic_execute 5 2 (AgentRegisterRequest "agent" 1) ;; Logic_execute 5 1 (CheckRequest net_key 7))
     (demo_start (Some demo_database))).2.
