(* ===== verification/ServiceSafety.v ===== *)
(** * Every request of a client or an agent ends

    Whatever bytes arrive, the service handles a read of a client's or an agent's connection
    in finitely many steps and without undefined behaviour, and stays in a state in which it
    does: with the logic of Service.v behind the connections of SocketManager.v.  Requests of
    administrators and monitors are not covered: an administrator can link a bucket to itself
    (StorageTheorems.v), and the queue behind the monitors is undefined once it has been full
    and wrapped (EntriesQueue.v). *)
From S2P Require Import Prelude Text Types Bucket StorageBackend Storage Decision InMemoryStorageBackend.
From S2P Require Import BinaryQueue Serialization Frame Messages ProtocolClient ProtocolAdmin ProtocolAgent Protocols Typing SocketManager.
From S2P Require Import ConnectionTheorems EntriesQueue Monitor PluginManager Agents PendingChecks Service ServiceDemo.

(** ** Writing a message *)

Abbreviation fine m := (safe (λ _ : ProtocolFrame, True) any m) (only parsing).

Lemma fine_write s : fine (stream_write s).
Proof. intros [h q] _. cbn. unfold appendCopy, appendUnmanaged. by destruct (_ =? 0). Qed.
Lemma fine_then (m m' : SE ProtocolFrame unit) : fine m → fine m' → fine (m ;; m').
Proof. intros Hm Hm'. by eapply safe_bind. Qed.
Lemma fine_string s : fine (serialize_string s).
Proof. unfold serialize_string. apply safe_if; [by apply safe_throw|]. apply fine_then; apply fine_write. Qed.
Lemma fine_vector {T} (f : T → SE ProtocolFrame unit) l : (∀ x, fine (f x)) → fine (serialize_vector f l).
Proof.
  intros Hf. unfold serialize_vector. apply safe_if; [by apply safe_throw|].
  apply fine_then; [apply fine_write|by apply safe_forEach].
Qed.
Lemma fine_counted {T} (f : T → SE ProtocolFrame unit) l : (∀ x, fine (f x)) → fine (serialize_counted f l).
Proof. intros Hf. apply fine_then; [apply fine_write|by apply safe_forEach]. Qed.
Lemma fine_key k : fine (serialize_key k).
Proof. apply fine_then; [|apply fine_then]; apply fine_string. Qed.
Lemma fine_result r : fine (serialize_result r).
Proof. apply fine_then; [apply fine_write|apply fine_string]. Qed.
Lemma fine_entry e : fine (serialize_entry e).
Proof. apply fine_then; [apply fine_key|]. repeat (apply fine_then; [apply fine_write|]). apply fine_write. Qed.
Lemma fine_policy p : fine (serialize_policy p).
Proof. apply fine_then; [apply fine_key|apply fine_result]. Qed.
Lemma fine_description d : fine (serialize_description d).
Proof. apply fine_then; [apply fine_write|apply fine_string]. Qed.

(** Any response, in any protocol and into any queue. *)
Lemma executeResponse_proper p r q : proper any (protocol_executeResponse p r q).1.
Proof.
  assert (∀ seq m, fine m → proper any (serializeFrame seq m q).1) as Hframe.
  { intros seq m Hm. unfold serializeFrame. destruct (Hm (startSerialization seq) I) as [_ Hp].
    destruct (m (startSerialization seq)) as [[[]|e|] f]; done. }
  destruct p, r; cbn [protocol_executeResponse client_executeResponse admin_executeResponse agent_executeResponse
    monitorGet_executeResponse]; try (by apply safe_throw with (I := any)); apply Hframe;
    repeat lazymatch goal with
      | |- safe _ _ (mbind _ _) => apply fine_then
      | |- safe _ _ (serialize_result _) => apply fine_result
      | |- safe _ _ (serialize_vector _ _) => apply fine_vector; intros; apply fine_write
      | |- safe _ _ (serialize_counted _ _) => apply fine_counted; first [apply fine_policy|apply fine_description|apply fine_entry]
      | |- _ => apply fine_write
      end.
Qed.

(** ** What the service knows about its connections *)

Section links.
Context {Plugin : Type}.
Implicit Types (am : AgentManager) (ch : gmap LinkId (gmap Z (CheckContext Plugin))).

(** Every link that is stored is to one of [n] descriptors. *)
Definition talker_in (n : nat) (t : AgentTalker) : Prop := (m_linkId t).1 < n.
Definition check_in (n : nat) (c : CheckContext Plugin) : Prop := (context_link c).1 < n ∧ talker_in n (m_agentTalker c).
Record links_in (n : nat) am ch : Prop := {
  li_agent t link : m_agents am !! t = Some link → link.1 < n;
  li_talker link ts id t : m_talkers am !! link = Some ts → ts !! id = Some t → talker_in n t;
  li_check link cm id c : ch !! link = Some cm → cm !! id = Some c → check_in n c;
}.

Lemma li_getTalker n am ch link id t : links_in n am ch → getTalker am link id = Some t → talker_in n t.
Proof. intros Hl (ts & ? & ?)%getTalker_Some. by eapply li_talker. Qed.
Lemma li_getContext n am ch link id c : links_in n am ch → getContext ch link id = Some c → check_in n c.
Proof. intros Hl (cm & ? & ?)%getContext_Some. by eapply li_check. Qed.
Lemma li_getContext_talker n am ch t c : links_in n am ch → getContext_talker ch t = Some c → check_in n c.
Proof.
  intros Hl Hc. assert (c ∈ contexts ch) as (link & id & Hin)%elem_contexts; [|by eapply li_getContext].
  unfold getContext_talker in Hc. destruct (filter _ (contexts ch)) as [|c' l] eqn:E; [done|]. injection Hc as ->.
  assert (c ∈ c :: l) as Hin by (by left). rewrite <-E in Hin. by apply list_elem_of_filter in Hin as [_ ?].
Qed.

(** A table of tables loses an element. *)
Lemma inner_delete {K V} `{Countable K} (m : gmap LinkId (gmap K V)) (link : LinkId) (id : K) (b : gmap K V → bool) (Q : V → Prop) l x i v :
  (∀ l x i v, m !! l = Some x → x !! i = Some v → Q v) →
  match m !! link with
  | None => m
  | Some x => if b (delete id x) then delete link m else <[link := delete id x]> m
  end !! l = Some x → x !! i = Some v → Q v.
Proof.
  intros HQ. destruct (m !! link) as [y|] eqn:E; [|by apply HQ]. destruct (b _).
  - intros [_ Hx]%lookup_delete_Some. by apply (HQ _ _ _ _ Hx).
  - intros [[<- <-]|[_ Hx]]%lookup_insert_Some; [|by apply (HQ _ _ _ _ Hx)].
    intros [_ Hv]%lookup_delete_Some. by apply (HQ _ _ _ _ E Hv).
Qed.

Lemma li_removeTalker n am ch t : links_in n am ch → links_in n (removeTalker t am) ch.
Proof.
  intros [Ha Ht Hc]. split; [| |done].
  - unfold removeTalker. by destruct (m_talkers am !! m_linkId t).
  - intros l x i v Hx Hv. apply (inner_delete (m_talkers am) (m_linkId t) (t_checkId t) (λ x, bool_decide (x = ∅)) (talker_in n) l x i v Ht); [|done].
    rewrite <-Hx. unfold removeTalker. by destruct (m_talkers am !! m_linkId t).
Qed.
Lemma li_removeRequest n am ch c : links_in n am ch → links_in n am (removeRequest c ch).
Proof.
  intros [Ha Ht Hc]. split; [done|done|]. intros l x i v Hx Hv.
  by apply (inner_delete ch (context_link c) (m_checkId c) (λ x, bool_decide (x = ∅)) (check_in n) l x i v Hc).
Qed.
Lemma li_cancelContext n am ch c : links_in n am ch → links_in n am (cancelContext c ch).
Proof.
  intros [Ha Ht Hc]. split; [done|done|]. unfold cancelContext. intros l x i v Hx Hv.
  apply lookup_alter_Some in Hx as [(_ & x' & Hx' & ->)|[_ Hx]]; [|by eapply Hc].
  apply lookup_alter_Some in Hv as [(_ & v' & Hv' & ->)|[_ Hv]]; [|by eapply Hc].
  change (check_in n v'). by eapply Hc.
Qed.
Lemma li_registerAgent n am ch agentType link :
  link.1 < n → links_in n am ch → links_in n (registerAgent agentType link am).2 ch.
Proof.
  intros Hn [Ha Ht Hc]. unfold registerAgent. destruct (m_agents am !! agentType); [done|]. split; [|done|done].
  intros t l. cbn. intros [[_ <-]|[_ Hl]]%lookup_insert_Some; [done|by eapply Ha].
Qed.
Lemma li_createTalker n am ch agentType :
  links_in n am ch →
  proper (λ t, ∀ t', t = Some t' → talker_in n t') (createTalker agentType am).1 ∧ links_in n (createTalker agentType am).2 ch.
Proof.
  intros [Ha Ht Hc]. unfold createTalker. rewrite SE_bind_eq. cbn [am_generateSequenceNumber]. rewrite SE_bind_eq.
  cbn [get m_agents]. destruct (m_agents am !! agentType) as [link|] eqn:E; [|by split; [|split; [exact Ha|exact Ht|exact Hc]]].
  assert (∀ i t, talkersOf am link !! i = Some t → talker_in n t) as Hof.
  { intros i t. unfold talkersOf. destruct (m_talkers am !! link) as [ts|] eqn:Ets; [by apply (Ht link)|done]. }
  change (talkersOf (mkAgentManager _ _ _ _) link) with (talkersOf am link).
  destruct (talkersOf am link !! am_sequenceNumber am) as [t|] eqn:Et; cbn.
  - split; [done|]. split; [exact Ha| |exact Hc]. intros l x i v Hx Hv.
    change (<[link := talkersOf am link]> (m_talkers am) !! l = Some x) in Hx.
    apply lookup_insert_Some in Hx as [[<- <-]|[_ Hx]]; [by eapply Hof|exact (Ht _ _ _ _ Hx Hv)].
  - assert (talker_in n (mkAgentTalker (am_objects am) agentType (am_sequenceNumber am) link)) as Hnew by exact (Ha _ _ E).
    split; [by intros t' [= <-]|]. split; [exact Ha| |exact Hc]. intros l x i v Hx Hv.
    change (<[link := <[am_sequenceNumber am := mkAgentTalker (am_objects am) agentType (am_sequenceNumber am) link]>
      (talkersOf am link)]> (m_talkers am) !! l = Some x) in Hx.
    apply lookup_insert_Some in Hx as [[<- <-]|[_ Hx]]; [|exact (Ht _ _ _ _ Hx Hv)].
    apply lookup_insert_Some in Hv as [[_ <-]|[_ Hv]]; [done|by eapply Hof].
Qed.
Lemma li_createContext n am ch key context id plugin t :
  (m_responseQueue context).1 < n → talker_in n t → links_in n am ch →
  proper any (createContext key context id plugin t ch).1 ∧ links_in n am (createContext key context id plugin t ch).2.
Proof.
  intros Hn Htn [Ha Ht Hc]. unfold createContext. set (cm := default ∅ (ch !! m_responseQueue context)).
  assert (∀ i c, cm !! i = Some c → check_in n c) as Hof.
  { intros i c. unfold cm. destruct (ch !! m_responseQueue context) as [x|] eqn:Ex; [by apply (Hc _ _ _ _ Ex)|done]. }
  destruct (cm !! id) as [c|]; cbn; (split; [done|]); (split; [done|done|]); intros l x i v [[<- <-]|[_ Hx]]%lookup_insert_Some;
    [apply Hof|by apply (Hc _ _ _ _ Hx)| |by apply (Hc _ _ _ _ Hx)].
  intros [[_ <-]|[_ Hv]]%lookup_insert_Some; [done|by eapply Hof].
Qed.
End links.

(** ** The logic *)

Definition reading (d : Descriptor) : option ProtocolKind * ProtocolFrameHeader := (m_protocol d, m_readHeader d).

Section service.
Context `{HO : HashOrder} {B D Plugin P : Type} `{SB : StorageBackend B} `{H : !Host B D Plugin P}.
Context (depth : nat).
Abbreviation State := (SocketManager * Service Plugin P B D)%type (only parsing).

(** What the requests of clients and agents leave as it is: who reads what on which
    descriptor, the storage, and that no monitor waits; and that every link is to one of
    the descriptors. *)
Record serving (T : list (option ProtocolKind * ProtocolFrameHeader)) (b : B) (st : State) : Prop := {
  sv_reading : reading <$> m_fds st.1 = T;
  sv_links : links_in (length T) (m_agentManager st.2) (m_checkRequestManager st.2);
  sv_storage : m_storage st.2 = b;
  sv_clients : em_clients (m_manager (m_monitorLogic st.2)) = ∅;
  sv_responses : m_responseCache (m_monitorLogic st.2) = ∅;
}.

Context (T : list (option ProtocolKind * ProtocolFrameHeader)) (b : B).
Context (Hstorage : ∀ key, proper any (checkPolicy depth b key defaultPolicyBucketId true)).
Abbreviation ok := (safe (serving T b)) (only parsing).
Abbreviation fd_in link := (fst link < length T) (only parsing).

Lemma ok_service :
  ok (λ s, links_in (length T) (m_agentManager s) (m_checkRequestManager s)) service.
Proof. apply safe_gets. apply sv_links. Qed.

(** An operation on a part of the state. *)
Lemma ok_on {X A} (getter : Service Plugin P B D → X) setter (m : SE X A) Q :
  (∀ sm s, serving T b (sm, s) → proper Q (m (getter s)).1 ∧ serving T b (sm, setter (m (getter s)).2 s)) →
  ok Q (on getter setter m).
Proof. intros Hm [sm s] Hst. unfold on. destruct (Hm sm s Hst). by destruct (m (getter s)). Qed.

Lemma ok_agents {A} (m : SE AgentManager A) Q :
  (∀ am (ch : gmap LinkId (gmap Z (CheckContext Plugin))), links_in (length T) am ch →
     proper Q (m am).1 ∧ links_in (length T) (m am).2 ch) →
  ok Q (on m_agentManager setAgentManager m).
Proof. intros Hm. apply ok_on. intros sm s [H1 H2 H3 H4 H5]. destruct (Hm _ _ H2). by split. Qed.
Lemma ok_checks {A} (m : SE (gmap LinkId (gmap Z (CheckContext Plugin))) A) Q :
  (∀ am ch, links_in (length T) am ch → proper Q (m ch).1 ∧ links_in (length T) am (m ch).2) →
  ok Q (on m_checkRequestManager setChecks m).
Proof. intros Hm. apply ok_on. intros sm s [H1 H2 H3 H4 H5]. destruct (Hm _ _ H2). by split. Qed.
Lemma ok_plugins {A} (m : SE P A) : (∀ p, proper any (m p).1) → ok any (on pluginState setPluginState m).
Proof. intros Hm. apply ok_on. intros sm s [H1 H2 H3 H4 H5]. split; [done|by split]. Qed.
Lemma ok_getPlugin t : ok any (on m_pluginManager setPluginManager (getPlugin t)).
Proof.
  apply ok_on. intros sm s [H1 H2 H3 H4 H5]. split; [|by split].
  unfold getPlugin. by destruct (m_plugins (m_pluginManager s) !! t) as [[]|].
Qed.
Lemma ok_audit key result : ok any (audit_log key result).
Proof. apply safe_modify. intros [sm s] [H1 H2 H3 H4 H5]. case_match; by split. Qed.

(** Writing to a link. *)
Lemma ok_writeTo link write :
  fd_in link → (∀ d q, proper any (write d q).1) → ok any (writeTo link write).
Proof.
  intros Hin Hw. unfold writeTo. eapply safe_bind; [apply ok_service|]. intros s _. apply safe_if; [|by apply safe_ret].
  intros [sm s'] Hst. unfold onDesc. destruct Hst as [H1 H2 H3 H4 H5]. cbn [fst snd] in *.
  destruct (m_fds sm !! link.1) as [d|] eqn:Ed.
  - specialize (Hw d (m_writeQueue d)). destruct (write d (m_writeQueue d)) as [r q]. split; [|done].
    split; try done.
    change (reading <$> <[link.1 := setWriteQueue q d]> (m_fds sm) = T). rewrite list_fmap_insert, H1. apply list_insert_id.
    by rewrite <-H1, list_lookup_fmap, Ed.
  - apply lookup_ge_None in Ed. rewrite <-H1, length_fmap in Hin. lia.
Qed.
Lemma ok_returnResponse context response : fd_in (m_responseQueue context) → ok any (returnResponse context response).
Proof. intros Hin. apply ok_writeTo; [done|]. intros d q. destruct (m_protocol d); [apply executeResponse_proper|done]. Qed.
Lemma ok_sendMessage talker type data : talker_in (length T) talker → ok any (sendMessage talker type data).
Proof. intros Hin. apply ok_writeTo; [done|]. intros d q. apply executeResponse_proper. Qed.

Lemma ok_removeTalker t : ok any (on m_agentManager setAgentManager (modify (removeTalker t))).
Proof. apply ok_agents. intros am ch Hl. split; [done|by apply li_removeTalker]. Qed.
Lemma ok_removeRequest c : ok any (on m_checkRequestManager setChecks (modify (removeRequest c))).
Proof. apply ok_checks. intros am ch Hl. split; [done|by apply li_removeRequest]. Qed.
Lemma ok_cancelContext c : ok any (on m_checkRequestManager setChecks (modify (cancelContext c))).
Proof. apply ok_checks. intros am ch Hl. split; [done|by apply li_cancelContext]. Qed.

(** *** Checks *)

Lemma ok_checkPolicy key :
  ok any (reads (λ st : State, checkPolicy depth (m_storage st.2) key defaultPolicyBucketId true)).
Proof. apply safe_reads. intros st Hst. rewrite (sv_storage _ _ _ Hst). apply Hstorage. Qed.

Lemma ok_plugin_check (plugin : Plugin) key result :
  ok any (on pluginState setPluginState (λ p,
    let '(r, p') := plugin_check plugin (value (client key)) (value (user key)) (value (privilege key)) result p in (Ret r, p'))).
Proof. apply ok_plugins. intros p. by destruct (plugin_check _ _ _ _ _ p). Qed.

Lemma ok_askAgent context key checkId (plugin : Plugin) agent data :
  fd_in (m_responseQueue context) → ok any (askAgent context key checkId plugin agent data).
Proof.
  intros Hin. unfold askAgent. eapply safe_bind; [apply ok_agents; intros am ch; apply li_createTalker|].
  intros [t|] Ht; [|by apply safe_ret]. specialize (Ht t eq_refl).
  eapply safe_bind; [apply ok_checks; intros am ch; by apply li_createContext|]. intros [] _; cbn [negb].
  - eapply safe_bind; [by apply ok_sendMessage|]. intros _ _. by apply safe_ret.
  - eapply safe_bind; [apply ok_removeTalker|]. intros _ _. by apply safe_ret.
Qed.

Lemma ok_check context key checkId :
  fd_in (m_responseQueue context) → ok any (check depth context key checkId).
Proof.
  intros Hin. unfold check. eapply safe_bind; [apply ok_service|]. intros s _.
  destruct (getContext _ _ _); [by apply safe_ret|].
  eapply (safe_bind _ any); [apply safe_if; [by apply safe_ret|apply ok_checkPolicy]|]. intros result _.
  apply safe_if; [by apply safe_ret|]. unfold pluginCheck.
  eapply safe_bind; [apply ok_getPlugin|]. intros [plugin|] _; [|by apply safe_ret]. apply safe_if; [by apply safe_ret|].
  eapply safe_bind; [apply ok_plugin_check|]. intros [[[status r] agent] data] _.
  destruct status; [by apply safe_ret..|by apply ok_askAgent|by apply safe_ret].
Qed.

Lemma ok_CheckRequest context key seq :
  fd_in (m_responseQueue context) → ok any (execute_CheckRequest depth context key seq).
Proof.
  intros Hin. unfold execute_CheckRequest. eapply safe_bind; [by apply ok_check|]. intros answer _.
  apply safe_if; [|by apply safe_ret]. eapply safe_bind; [apply ok_audit|]. intros _ _. by apply ok_returnResponse.
Qed.

Lemma ok_SimpleCheckRequest context key seq :
  fd_in (m_responseQueue context) → ok any (execute_SimpleCheckRequest depth context key seq).
Proof.
  intros Hin. unfold execute_SimpleCheckRequest. eapply safe_bind; [apply ok_checkPolicy|]. intros result _.
  eapply (safe_bind _ any).
  { apply safe_if; [by apply safe_ret|]. eapply safe_bind; [apply ok_getPlugin|].
    intros [plugin|] _; [|by apply safe_ret]. apply safe_if; [by apply safe_ret|].
    eapply safe_bind; [apply ok_plugin_check|]. intros [[[status r] agent] data] _. destruct status; by apply safe_ret. }
  intros answer _. eapply safe_bind; [apply ok_audit|]. intros _ _. by apply ok_returnResponse.
Qed.

Lemma ok_CancelRequest context seq :
  fd_in (m_responseQueue context) → ok any (execute_CancelRequest context seq).
Proof.
  intros Hin. unfold execute_CancelRequest. eapply safe_bind; [apply ok_service|]. intros s Hl.
  destruct (getContext _ _ _) as [c|] eqn:Ec; [|by apply safe_ret].
  destruct (li_getContext _ _ _ _ _ _ Hl Ec) as [_ Ht]. apply safe_if; [by apply safe_ret|].
  eapply safe_bind; [apply ok_cancelContext|]. intros _ _.
  eapply safe_bind; [by apply ok_sendMessage|]. intros _ _. by apply ok_returnResponse.
Qed.

(** *** Agents *)

Lemma ok_update key checkId data context (plugin : Plugin) :
  fd_in (m_responseQueue context) → ok any (update key checkId data context plugin).
Proof.
  intros Hin. unfold update.
  eapply safe_bind; [apply ok_plugins; intros p; by destruct (plugin_update _ _ _ _ _ _ p)|]. intros [status r] _. cbn [fst snd].
  eapply (safe_bind _ any); [destruct status; first [by apply safe_ret|by apply safe_throw]|]. intros result _.
  eapply safe_bind; [apply ok_audit|]. intros _ _. eapply safe_bind; [by apply ok_returnResponse|]. intros _ _. by apply safe_ret.
Qed.

Lemma ok_AgentActionRequest context type data seq : ok any (execute_AgentActionRequest context type data seq).
Proof.
  unfold execute_AgentActionRequest. eapply safe_bind; [apply ok_service|]. intros s Hl.
  destruct (getTalker _ _ _) as [t|]; [|by apply safe_ret].
  destruct (getContext_talker _ _) as [c|] eqn:Ec; [|apply ok_removeTalker].
  destruct (li_getContext_talker _ _ _ _ _ Hl Ec) as [Hin _].
  eapply (safe_bind _ any).
  { apply safe_if; [|by apply safe_ret]. apply safe_if; [by apply safe_ret|]. apply safe_if; [|by apply safe_ret].
    eapply safe_bind; [by apply ok_update|]. intros _ _. by apply safe_ret. }
  intros _ _. eapply safe_bind; [apply ok_removeTalker|]. intros _ _. apply ok_removeRequest.
Qed.

Lemma ok_AgentRegisterRequest context agentType seq :
  fd_in (m_responseQueue context) → ok any (execute_AgentRegisterRequest context agentType seq).
Proof.
  intros Hin. unfold execute_AgentRegisterRequest. eapply (safe_bind _ any); [|intros code _; by apply ok_returnResponse].
  apply ok_agents. intros am ch Hl. split; [unfold registerAgent; by destruct (m_agents am !! agentType)|by apply li_registerAgent].
Qed.

(** *** Entries for the monitors, when none waits *)

Lemma ok_addEntry e : ok any (onMonitor (ml_addEntry depth e)).
Proof.
  unfold onMonitor. eapply (safe_bind _ any).
  { apply ok_on. intros sm s [H1 H2 H3 H4 H5]. cbn [fst snd] in *.
    assert (ml_addEntry depth e (m_monitorLogic s) = (Ret tt, m_monitorLogic s)) as ->.
    { unfold ml_addEntry. rewrite SE_bind_eq. unfold onEntries, addEntry. rewrite SE_bind_eq. cbn [get].
      rewrite bool_decide_eq_true_2 by done. cbn. by destruct (m_monitorLogic s) as [[]]. }
    split; [done|]. by split. }
  intros _ _ [sm s] Hst. unfold sendMonitorResponses. rewrite SE_bind_eq. cbn [service gets snd].
  unfold shouldSend. rewrite bool_decide_eq_true_2 by apply (sv_responses _ _ _ Hst). done.
Qed.

(** The requests of clients and agents, and the signals. *)
Definition served (p : ProtocolKind) : Prop := p ≠ PAdmin ∧ p ≠ PMonitorGet.

Lemma ok_execute p fd r :
  served p → fd < length T → request_of p r → ok any (Logic_execute depth fd r).
Proof.
  intros [Hadmin Hmonitor] Hfd [_ Hp]. unfold Logic_execute. eapply safe_bind; [apply ok_service|]. intros s _.
  destruct r; cbn [request_protocol] in Hp; try congruence.
  all: first [by apply ok_CancelRequest|by apply ok_CheckRequest|by apply ok_SimpleCheckRequest|apply ok_AgentActionRequest
    |by apply ok_AgentRegisterRequest|apply ok_addEntry|apply safe_forEach; intros; apply ok_addEntry|idtac].
  apply safe_if; [|by apply safe_ret]. intros [sm s'] [H1 H2 H3 H4 H5]. split; [by split|done].
Qed.
End service.

(** ** Reads *)

Section reads.
Context `{HO : HashOrder} {B D Plugin P : Type} `{SB : StorageBackend B} `{SL : !StorageBackendLaws B} `{H : !Host B D Plugin P}.
Context (depth : nat).

(** A service that can serve clients and agents: the storage has no dangling links and no
    cycles of buckets, [depth] levels suffice for it, no monitor waits for entries, and the
    links of agents and checks are to descriptors of the table. *)
Record ready (st : SocketManager * Service Plugin P B D) : Prop := {
  rd_links : links_in (length (m_fds st.1)) (m_agentManager st.2) (m_checkRequestManager st.2);
  rd_inv : inv (m_storage st.2);
  rd_closed : closed (view (m_storage st.2));
  rd_ranked : ∃ rank, ranked rank (view (m_storage st.2)) ∧ rank defaultPolicyBucketId < depth;
  rd_clients : em_clients (m_manager (m_monitorLogic st.2)) = ∅;
  rd_responses : m_responseCache (m_monitorLogic st.2) = ∅;
}.

(** A missing default bucket, as after a failed load, is an exception. *)
Lemma ready_checks st key :
  ready st → proper any (checkPolicy depth (m_storage st.2) key defaultPolicyBucketId true).
Proof.
  intros [_ Hinv Hcl (rank & Hrk & Hd) _ _].
  destruct (view (m_storage st.2) !! defaultPolicyBucketId) as [ab|] eqn:E.
  - destruct (checkPolicy_total rank depth (m_storage st.2) key defaultPolicyBucketId true) as [r ->]; done.
  - unfold checkPolicy. pose proof (search_law (m_storage st.2) defaultPolicyBucketId key Hinv) as Hs. rewrite E in Hs. by rewrite Hs.
Qed.

Lemma ready_serving st : ready st → serving (reading <$> m_fds st.1) (m_storage st.2) st.
Proof. intros [H1 H2 H3 H4 H5 H6]. split; [done|by rewrite length_fmap|done..]. Qed.
Lemma serving_ready st T st' : ready st → length T = length (m_fds st.1) → serving T (m_storage st.2) st' → ready st'.
Proof.
  intros [H1 H2 H3 H4 H5 H6] Hlen [K1 K2 K3 K4 K5]. split; [|by rewrite K3..|done|done].
  rewrite <-K1, length_fmap in K2. done.
Qed.

Lemma ready_with_header m w fd h : ready (m, w) → ready (with_header m fd h, w).
Proof.
  intros [H1 H2 H3 H4 H5 H6]. split; try done. cbn [fst snd] in *. unfold with_header.
  destruct (m_fds m !! fd); [|done]. cbn [setFds m_fds]. by rewrite length_insert.
Qed.

Lemma ready_pair st : ready st → ready (st.1, st.2).
Proof. by destruct st. Qed.

Lemma reading_speaks m m' fd p h : reading <$> m_fds m' = reading <$> m_fds m → speaks m fd p h → speaks m' fd p h.
Proof.
  intros Heq (d & Hd & Hp & Hh). apply (f_equal (lookup fd)) in Heq. rewrite !list_lookup_fmap, Hd in Heq.
  destruct (m_fds m' !! fd) as [d'|] eqn:E; [|done]. injection Heq as Hp' Hh'. exists d'. split_and!; congruence.
Qed.

(** C26: Whatever bytes a client or an agent sends, well formed or not and in whatever pieces,
    the service handles the read in finitely many steps, one round per byte at most, runs
    into no undefined behaviour and reports whether the connection can stay; the connection
    keeps its protocol and a well-formed reader, and the service is as ready for the next
    read as it was for this one.  It has to be ready at first: buckets that are not linked
    in cycles, and no monitor waiting for entries. *)
Theorem handleRead_returns fuel fd buf sm (s : Service Plugin P B D) p h :
  served p → speaks sm fd p h → header_ok h → ready (sm, s) → pending h + String.length buf < fuel →
  ∃ r sm' s' h', handleRead (Logic_execute depth) fuel fd buf (sm, s) = (Ret r, (sm', s')) ∧
    speaks sm' fd p h' ∧ header_ok h' ∧ ready (sm', s').
Proof.
  intros Hp Hs Hh Hr Hf. apply (handleRead_ends _ fd p ready (λ m w, ready_with_header m w fd)) with (h := h); [|done..].
  intros r m w h1 Hof Hs1 Hr1. assert (fd < length (reading <$> m_fds m)) as Hfd.
  { destruct Hs1 as (d & Hd & _). rewrite length_fmap. by eapply lookup_lt_Some. }
  destruct (ok_execute depth (reading <$> m_fds m) (m_storage w) (λ key, ready_checks _ key Hr1) p fd r Hp Hfd Hof (m, w)
    (ready_serving _ Hr1)) as [Hs2 Hprop].
  split_and!; [done| |].
  - eapply reading_speaks; [|done]. apply (sv_reading _ _ _ Hs2).
  - eapply serving_ready; [done| |done]. by rewrite length_fmap.
Qed.
End reads.

(** ** A run: an agent's answer, followed by bytes that are no message *)

Lemma links_in_compute {Plugin} (n : nat) (am : AgentManager) (ch : gmap LinkId (gmap Z (CheckContext Plugin))) :
  map_Forall (λ _ (link : LinkId), link.1 < n) (m_agents am) →
  map_Forall (λ _ ts, map_Forall (λ _ t, (m_linkId t).1 < n) ts) (m_talkers am) →
  map_Forall (λ _ cm, map_Forall (λ _ c, (context_link c).1 < n ∧ (m_linkId (m_agentTalker c)).1 < n) cm) ch → links_in n am ch.
Proof. intros Ha Ht Hc. split; [exact Ha| |]; intros link x id v Hx; [apply (Ht _ _ Hx)|apply (Hc _ _ Hx)]. Qed.

Lemma speaks_compute m fd p h : reading <$> m_fds m !! fd = Some (Some p, h) → speaks m fd p h.
Proof. intros (d & Hd & [= Hp Hh])%fmap_Some. by exists d. Qed.

(** The agent answers the check that waits for it, and goes on with a broken frame. *)
Definition agent_bytes : string :=
  request_frame PAgent (AgentActionRequest CYNARA_MSG_TYPE_ACTION [121; 101; 115]%Z 0) +:+ "CPv2 is not a frame".

Lemma handleRead_returns_witness :
  let run := handleRead (Logic_execute 5) (S (String.length agent_bytes)) 2 agent_bytes (demo_asked.1, demo_asked.2) in
  (∃ r sm' s' h', run = (Ret r, (sm', s')) ∧ speaks sm' 2 PAgent h' ∧ header_ok h' ∧ ready 5 (sm', s')) ∧
  run.1 = Ret false ∧ size (m_checkRequestManager demo_asked.2) = 1 ∧ size (m_checkRequestManager run.2.2) = 0.
Proof.
  assert (served PAgent) as Hp by done.
  assert (speaks demo_asked.1 2 PAgent (ProtocolFrameHeader_new BinaryQueue_new)) as Hs.
  { apply speaks_compute. vm_compute. reflexivity. }
  assert (ready 5 (demo_asked.1, demo_asked.2)) as Hr.
  { apply ready_pair. split; [apply links_in_compute; decide_by_compute|decide_by_compute|decide_by_compute| |by vm_compute..].
    exists (λ _, 0). split; decide_by_compute. }
  assert (header_ok (ProtocolFrameHeader_new BinaryQueue_new)) as Hh by (split; [apply queue_ok_new|done]).
  assert (pending (ProtocolFrameHeader_new BinaryQueue_new) + String.length agent_bytes < S (String.length agent_bytes)) as Hf.
  { assert (pending (ProtocolFrameHeader_new BinaryQueue_new) = 0) as -> by done. lia. }
  split; [|vm_compute; split_and!; reflexivity].
  exact (handleRead_returns 5 (S (String.length agent_bytes)) 2 agent_bytes demo_asked.1 demo_asked.2 PAgent
    (ProtocolFrameHeader_new BinaryQueue_new) Hp Hs Hh Hr Hf).
Defined.
