(* ===== verification/ServiceTheorems.v ===== *)
(** * Theorems on the service

    Checks: a request that arrives is answered with the decision of the storage; a check
    that needs an agent stays attached to its talker until it is answered.  Updates: what
    each request reports and leaves behind, on every branch.  Errors: a policy type without
    a plugin, an agent of two types, a corrupted database. *)
From S2P Require Import Prelude Text Types Logging Bucket StorageBackend Storage.
From S2P Require Import BinaryQueue Serialization Frame Messages ProtocolClient Protocols SocketManager.
From S2P Require Import EntriesQueue Monitor PluginManager Agents PendingChecks.
From S2P Require Import InMemoryStorageBackend Service ServiceLemmas ServiceDemo.

(** [bytes] were added to what waits to be sent on [fd], nothing else happened to the
    connections. *)
Definition queued (sm : SocketManager) (fd : nat) (s : string) (sm' : SocketManager) : Prop :=
  ∃ d q, m_fds sm !! fd = Some d ∧ queue_ok q ∧ bytes q = bytes (m_writeQueue d) +:+ s ∧
    sm' = setFds (<[fd := setWriteQueue q d]> (m_fds sm)) sm.

(** A connection of the service that speaks [p]. *)
Definition connection (sm : SocketManager) (fd : nat) (p : ProtocolKind) : Prop :=
  ∃ d, m_fds sm !! fd = Some d ∧ m_protocol d = Some p ∧ queue_ok (m_writeQueue d).

Section service.
Context `{HO : HashOrder} {B D Plugin P : Type} `{SB : StorageBackend B} `{H : !Host B D Plugin P}.
Context (fuel : nat).
Abbreviation State := (SocketManager * Service Plugin P B D)%type (only parsing).
Implicit Types (sm : SocketManager) (s : Service Plugin P B D).

Lemma returnResponse_queues sm s fd p r context :
  connection sm fd p → response_ok p r → m_responseQueue context = linkOf s fd →
  ∃ sm', returnResponse context r (sm, s) = (Ret tt, (sm', s)) ∧ queued sm fd (response_frame p r) sm'.
Proof.
  intros (d & Hd & Hp & Hq) Hr Hl. unfold returnResponse, writeTo. rewrite SE_bind_eq.
  unfold service, gets. cbn [snd]. rewrite Hl. change (linkOf s fd).1 with fd. rewrite bool_decide_eq_true_2 by done.
  unfold onDesc. rewrite Hd, Hp.
  destruct (message_written (ProtocolLaws:=response_laws p) r (m_writeQueue d) Hr Hq) as (q & Hw & Hok & Hb).
  rewrite Hw. eexists. split; [done|]. exists d, q. done.
Qed.

(** A link that is not the current connection of its descriptor takes nothing. *)
Lemma returnResponse_closed sm s r context :
  linkOf s (m_responseQueue context).1 ≠ m_responseQueue context →
  returnResponse context r (sm, s) = (Ret tt, (sm, s)).
Proof.
  intros Hl. unfold returnResponse, writeTo. rewrite SE_bind_eq. unfold service, gets. cbn [snd].
  by rewrite bool_decide_eq_false_2.
Qed.

(** The journal after [AuditLog::log]. *)
Definition audited_state s (key : PolicyKey) (result : PolicyResult) : Service Plugin P B D :=
  if audited (m_logLevel s) (policyType result) then setJournal (journal s ++ [(key, result)]) s else s.

Lemma audit_log_eq sm s key result : audit_log key result (sm, s) = (Ret tt, (sm, audited_state s key result)).
Proof. done. Qed.

Lemma linkOf_audited s key result fd : linkOf (audited_state s key result) fd = linkOf s fd.
Proof. unfold audited_state. by case_match. Qed.

(** ** Checks *)

(** What the service decides without a plugin. *)
Definition decision s (key : PolicyKey) (result : PolicyResult) : Prop :=
  (if m_dbCorrupted s then result = PolicyResult_of DENY
   else checkPolicy fuel (m_storage s) key defaultPolicyBucketId true = Ret result) ∧
  (policyType result = ALLOW ∨ policyType result = DENY).

Lemma execute_CheckRequest_decided sm s fd key seq result :
  connection sm fd PClient → decision s key result →
  getContext (m_checkRequestManager s) (linkOf s fd) seq = None →
  response_ok PClient (CheckResponse result seq) →
  ∃ sm', Logic_execute fuel fd (CheckRequest key seq) (sm, s) = (Ret tt, (sm', audited_state s key result)) ∧
    queued sm fd (response_frame PClient (CheckResponse result seq)) sm'.
Proof.
  intros Hcon [Hdec Htype] Hnew Hr. unfold Logic_execute. rewrite SE_bind_eq. unfold service at 1, gets. cbn [snd].
  unfold execute_CheckRequest. rewrite SE_bind_eq. unfold check. rewrite SE_bind_eq. unfold service at 1, gets. cbn [snd].
  change (m_responseQueue (contextOf s fd)) with (linkOf s fd). rewrite Hnew.
  assert ((policyType result =? ALLOW)%Z || (policyType result =? DENY)%Z = true) as Ht.
  { rewrite orb_true_iff, !Z.eqb_eq. done. }
  rewrite SE_bind_eq.
  assert ((if m_dbCorrupted s then mret (PolicyResult_of DENY)
           else reads (λ st, checkPolicy fuel (m_storage st.2) key defaultPolicyBucketId true)) (sm, s) =
          (Ret result, (sm, s))) as ->.
  { destruct (m_dbCorrupted s); [by rewrite Hdec|]. unfold reads. cbn [snd]. by rewrite Hdec. }
  rewrite Ht. cbn [mret SE_ret fst snd]. rewrite SE_bind_eq, audit_log_eq.
  apply returnResponse_queues; [done|done|]. by rewrite linkOf_audited.
Qed.

Lemma speaks_queued sm fd p h x sm' : speaks sm fd p h → queued sm fd x sm' → speaks sm' fd p h.
Proof.
  intros (d & Hd & Hp & Hh) (d' & q & Hd' & _ & _ & ->). rewrite Hd in Hd'. injection Hd' as <-.
  exists (setWriteQueue q d). cbn. rewrite list_lookup_insert_eq by (by eapply lookup_lt_Some). done.
Qed.

(** The last piece of a check request is handled: what becomes of the slot. *)
Lemma check_handled sm s fd d pre piece key seq result rounds :
  m_fds sm !! fd = Some d → m_protocol d = Some PClient → queue_ok (m_writeQueue d) → awaits (m_readHeader d) pre →
  request_ok PClient (CheckRequest key seq) → pre +:+ piece = request_frame PClient (CheckRequest key seq) →
  decision s key result → getContext (m_checkRequestManager s) (linkOf s fd) seq = None →
  response_ok PClient (CheckResponse result seq) → 1 < rounds →
  ∃ h' q, handleRead (Logic_execute fuel) rounds fd piece (sm, s) =
      (Ret true, (setFds (<[fd := setWriteQueue q (setReadHeader h' d)]> (m_fds sm)) sm, audited_state s key result)) ∧
    awaits h' "" ∧ queue_ok q ∧ bytes q = bytes (m_writeQueue d) +:+ response_frame PClient (CheckResponse result seq).
Proof.
  intros Hd Hp Hqd Haw Hreq Hpiece Hdec Hnew Hres Hrounds. destruct rounds as [|[|rounds]]; [lia..|].
  assert (speaks sm fd PClient (m_readHeader d)) as Hs by (by exists d).
  destruct (awaits_append _ pre piece Haw) as (q & Hq & Haw1). rewrite Hpiece in Haw1.
  unfold handleRead, pushReadBuffer. rewrite SE_bind_eq.
  rewrite (onDesc_header sm s fd PClient _ (onContent (appendCopy piece)) (Ret tt) (setHeaderContent q (m_readHeader d)) Hs)
    by (unfold onContent; by rewrite Hq).
  pose proof (speaks_with_header sm fd PClient _ (setHeaderContent q (m_readHeader d)) Hs) as Hs1.
  destruct (message_fits (ProtocolLaws:=request_laws PClient) _ Hreq) as [Hfit Hseq].
  rewrite <-(str_app_nil_r (request_frame _ _)) in Haw1.
  destruct (extractFrame_complete (requestSwitch PClient) _ _ _ _ "" Hseq Hfit Haw1
    (message_decoded (ProtocolLaws:=request_laws PClient) _ Hreq)) as (h2 & H2 & Haw2).
  unfold tryCatch. rewrite SE_bind_eq. cbn [handleReadLoop]. rewrite SE_bind_eq.
  rewrite (extractRequest_header _ s fd PClient _ (Ret (Some (CheckRequest key seq))) h2 Hs1) by done.
  rewrite with_header_twice. pose proof (speaks_with_header sm fd PClient _ h2 Hs) as Hs2.
  assert (with_header sm fd h2 = setFds (<[fd := setReadHeader h2 d]> (m_fds sm)) sm) as Hwh by (unfold with_header; by rewrite Hd).
  assert (m_fds (with_header sm fd h2) !! fd = Some (setReadHeader h2 d)) as Hd2.
  { rewrite Hwh. cbn. by apply list_lookup_insert_eq, (lookup_lt_Some _ _ d). }
  destruct (execute_CheckRequest_decided (with_header sm fd h2) s fd key seq result) as (sm3 & H3 & Hq3);
    [by exists (setReadHeader h2 d)|done..|].
  rewrite SE_bind_eq, H3. pose proof (speaks_queued _ _ _ _ _ _ Hs2 Hq3) as Hs3.
  rewrite SE_bind_eq, (extractRequest_header sm3 _ fd PClient h2 (Ret None) h2 Hs3)
    by exact (extractFrame_empty (switch:=requestSwitch PClient) h2 Haw2).
  rewrite (with_header_same sm3 fd PClient h2 Hs3). destruct Hq3 as (d3 & q3 & Hd3 & Hok3 & Hb3 & ->).
  rewrite Hd2 in Hd3. injection Hd3 as <-. exists h2, q3. rewrite Hwh. unfold setFds. cbn [m_fds]. by rewrite list_insert_insert_eq.
Qed.

(** C5: A check that the storage decides is answered.  The check is one whose decision in the
    storage is ALLOW or DENY (DENY when the database is corrupted), so that no plugin and no
    agent is asked, and whose number is not that of a check still waiting on the connection.
    When the last bytes of its request arrive on a client's connection, in whatever pieces it
    came, the service queues exactly one response there, with this decision and the sequence
    number of the request; no other connection and no other part of the service changes but
    the audit journal, and the connection waits for the next request. *)
Theorem check_answered sm s fd h pre piece key seq result rounds :
  speaks sm fd PClient h → connection sm fd PClient → awaits h pre →
  request_ok PClient (CheckRequest key seq) → pre +:+ piece = request_frame PClient (CheckRequest key seq) →
  decision s key result → getContext (m_checkRequestManager s) (linkOf s fd) seq = None →
  response_ok PClient (CheckResponse result seq) → 1 < rounds →
  ∃ h' sm', handleRead (Logic_execute fuel) rounds fd piece (sm, s) = (Ret true, (sm', audited_state s key result)) ∧
    awaits h' "" ∧ queued (with_header sm fd h') fd (response_frame PClient (CheckResponse result seq)) sm'.
Proof.
  intros (d & Hd & Hp & <-) (d0 & Hd0 & _ & Hq) Haw Hreq Hpiece Hdec Hnew Hres Hrounds. rewrite Hd in Hd0. injection Hd0 as <-.
  destruct (check_handled sm s fd d pre piece key seq result rounds Hd Hp Hq Haw Hreq Hpiece Hdec Hnew Hres Hrounds)
    as (h' & q & Hrun & Haw' & Hokq & Hbq).
  eexists h', _. split; [exact Hrun|]. split; [done|]. unfold with_header. rewrite Hd. exists (setReadHeader h' d), q. cbn [m_fds setFds].
  split; [by apply list_lookup_insert_eq, (lookup_lt_Some _ _ d)|]. split; [done|]. split; [done|].
  unfold setFds. cbn [m_fds]. by rewrite list_insert_insert_eq.
Qed.

(** ** Checks that need an agent *)

(** What can happen to the service: a request, the end of a connection, anything on the
    connections alone (accepting, reading, writing). *)
Inductive service_step : relation State :=
| step_request fd request st : service_step st (Logic_execute fuel fd request st).2
| step_closed fd st : service_step st (closeSocket contextClosed sys_closed fd st).2
| step_sockets sm sm' s : service_step (sm, s) (sm', s).

Lemma tracked_reachable st st' : rtc service_step st st' → checks_tracked st → checks_tracked st'.
Proof.
  induction 1 as [|st1 st2 st3 Hstep _ IH]; [done|]. intros Htr. apply IH. destruct Hstep as [fd r st|fd st|sm sm' s].
  - by apply kept_execute.
  - refine (keeps_closeSocket core (λ x, tracked x.1 x.2) contextClosed sys_closed fd _ _ st Htr).
    + apply kept_contextClosed.
    + by intros fd' [sm s] Hst.
  - exact Htr.
Qed.

Lemma kept_init libraries : keeps (checks_tracked (Plugin:=Plugin) (P:=P) (B:=B) (D:=D)) (Cynara_init libraries).
Proof.
  unfold Cynara_init, loadDb, onStorage. keep; try (by apply kept_on).
  apply keeps_modify. by intros [sm s] Hst.
Qed.

Lemma tracked_new empty level (p : P) (d : D) sm : checks_tracked (Plugin:=Plugin) (B:=B) (sm, Service_new empty level p d).
Proof.
  split.
  - intros l i c0 Hc0. unfold getContext in Hc0. cbn in Hc0. by rewrite lookup_empty in Hc0.
  - intros l i c0 ? ? ? Hc0. unfold getContext in Hc0. cbn in Hc0. by rewrite lookup_empty in Hc0.
  - intros l i t Ht. unfold getTalker in Ht. cbn in Ht. by rewrite lookup_empty in Ht.
  - intros l i t ? ? ? Ht. unfold getTalker in Ht. cbn in Ht. by rewrite lookup_empty in Ht.
Qed.

(** C6: No pending check is lost: in every state the service reaches from its start,
    whatever requests came, failed or not, and whatever connections ended, every check that waits is filed
    under its own connection and number, has a talker that the agent manager knows under
    the talker's link and number, is the check that an answer for this talker finds, and
    its agent is registered, so that the end of the agent's connection finds it too. *)
Theorem pending_checks_tracked libraries empty level p d sm sm' s link id c :
  rtc service_step (Cynara_init libraries (sm, Service_new empty level p d)).2 (sm', s) →
  getContext (m_checkRequestManager s) link id = Some c →
  context_link c = link ∧ m_checkId c = id ∧
  getTalker (m_agentManager s) (m_linkId (m_agentTalker c)) (t_checkId (m_agentTalker c)) = Some (m_agentTalker c) ∧
  getContext_talker (m_checkRequestManager s) (m_agentTalker c) = Some c ∧
  ∃ agentType, m_agents (m_agentManager s) !! agentType = Some (m_linkId (m_agentTalker c)).
Proof.
  intros Hreach Hc.
  assert (checks_tracked (sm', s)) as Htr.
  { apply (tracked_reachable _ _ Hreach), kept_init, tracked_new. }
  destruct (tracked_context _ _ Htr _ _ _ Hc) as (Hl & Hi & Ht). cbn [snd] in Ht.
  destruct (tracked_talker _ _ Htr _ _ _ Ht) as (_ & _ & _ & Hty). split_and!; try done.
  pose proof (tracked_find (m_agentManager s) (m_checkRequestManager s) _ _ _ Htr Ht) as Hfind.
  destruct (getContext_talker (m_checkRequestManager s) (m_agentTalker c)) as [c'|] eqn:Hc'.
  - destruct Hfind as [Ht' Hc2].
    destruct (tracked_own _ _ Htr _ _ _ _ _ _ Hc Hc2) as [E1 E2]; [by rewrite Ht'|].
    rewrite <-E1, <-E2 in Hc2. rewrite Hc in Hc2. by injection Hc2 as ->.
  - rewrite getContext_talker_None in Hc'. by edestruct Hc'.
Qed.

(** What the status of the plugin makes of an agent's answer. *)
Definition agent_result (status : PluginStatus) (result : PolicyResult) : option PolicyResult :=
  match status with
  | SUCCESS => Some result
  | PLUGIN_ERROR => Some (PolicyResult_of DENY)
  | _ => None
  end.

(** [update] with an answer that is one. *)
Lemma update_answers sm s key checkId agentData context plugin status result p' r cfd :
  plugin_update plugin (value (client key)) (value (user key)) (value (privilege key))
    agentData PolicyResult_default (pluginState s) = ((status, result), p') →
  agent_result status result = Some r →
  connection sm cfd PClient → m_responseQueue context = linkOf s cfd →
  response_ok PClient (CheckResponse r checkId) →
  ∃ sm', update key checkId agentData context plugin (sm, s) =
      (Ret true, (sm', audited_state (setPluginState p' s) key r)) ∧
    queued sm cfd (response_frame PClient (CheckResponse r checkId)) sm'.
Proof.
  intros Hup Hr Hcon Hl Hok. unfold update. rewrite SE_bind_eq. unfold on at 1. rewrite Hup.
  set (s1 := setPluginState p' s).
  destruct (returnResponse_queues sm (audited_state s1 key r) cfd PClient (CheckResponse r checkId) context Hcon Hok)
    as (sm' & Hret & Hq); [by rewrite linkOf_audited|].
  exists sm'. split; [|done]. cbn [fst snd]. rewrite SE_bind_eq.
  assert (match status with SUCCESS => mret result | PLUGIN_ERROR => mret (PolicyResult_of DENY)
          | _ => throw PluginErrorException end (sm, s1) = (Ret r, (sm, s1))) as ->.
  { destruct status; cbn in Hr; by simplify_eq. }
  by rewrite SE_bind_eq, audit_log_eq, SE_bind_eq, Hret.
Qed.

(** C7: An agent's answer: when the agent of a waiting check answers, the plugin turns the
    answer into a result (deny when it reports an error), exactly one response with this
    result and the check's number is queued on the connection that asked, the talker and
    the check are gone and every other check is as it was.  Another status of the plugin
    throws, with nothing sent and the check still waiting. *)
Theorem agent_answers sm s fd data seq t c status result p' cfd :
  checks_tracked (sm, s) → getTalker (m_agentManager s) (linkOf s fd) seq = Some t →
  getContext_talker (m_checkRequestManager s) t = Some c → m_cancelled c = false →
  plugin_update (m_plugin c) (value (client (m_key c))) (value (user (m_key c))) (value (privilege (m_key c)))
    (string_of_raw data) PolicyResult_default (pluginState s) = ((status, result), p') →
  connection sm cfd PClient → context_link c = linkOf s cfd →
  (∀ r, agent_result status result = Some r → response_ok PClient (CheckResponse r (m_checkId c))) →
  let run := Logic_execute fuel fd (AgentActionRequest CYNARA_MSG_TYPE_ACTION data seq) (sm, s) in
  match agent_result status result with
  | Some r => ∃ sm' s', run = (Ret tt, (sm', s')) ∧
      queued sm cfd (response_frame PClient (CheckResponse r (m_checkId c))) sm' ∧
      getTalker (m_agentManager s') (linkOf s fd) seq = None ∧
      ∀ link id, getContext (m_checkRequestManager s') link id =
        if decide (link = context_link c ∧ id = m_checkId c) then None
        else getContext (m_checkRequestManager s) link id
  | None => ∃ s', run = (Throw PluginErrorException, (sm, s')) ∧
      m_agentManager s' = m_agentManager s ∧ m_checkRequestManager s' = m_checkRequestManager s
  end.
Proof.
  intros Htr Ht Hc Hcan Hup Hcon Hlink Hok run. subst run.
  destruct (tracked_talker _ _ Htr _ _ _ Ht) as (Hl & Hi & _).
  assert (Logic_execute fuel fd (AgentActionRequest CYNARA_MSG_TYPE_ACTION data seq) (sm, s) =
    ((_ ← update (m_key c) (m_checkId c) (string_of_raw data) (m_requestContext c) (m_plugin c); mret tt) ;;
     on m_agentManager setAgentManager (modify (removeTalker t)) ;;
     on m_checkRequestManager setChecks (modify (removeRequest c))) (sm, s)) as ->.
  { unfold Logic_execute. rewrite SE_bind_eq. unfold service at 1, gets. cbn [snd].
    unfold execute_AgentActionRequest. rewrite SE_bind_eq. unfold service at 1, gets. cbn [snd].
    change (m_responseQueue (contextOf s fd)) with (linkOf s fd). by rewrite Ht, Hc, Hcan. }
  destruct (agent_result status result) as [r|] eqn:Hr.
  - destruct (update_answers sm s (m_key c) (m_checkId c) _ (m_requestContext c) (m_plugin c) status result p' r cfd
      Hup Hr Hcon Hlink (Hok r eq_refl)) as (sm' & Hrun & Hq).
    rewrite SE_bind_eq, SE_bind_eq, Hrun. cbn [mret SE_ret]. eexists sm', _. split; [reflexivity|].
    split; [done|]. unfold audited_state. split.
    + transitivity (getTalker (removeTalker t (m_agentManager s)) (linkOf s fd) seq); [by destruct (audited _ _)|].
      rewrite getTalker_removeTalker, Hl, Hi. by rewrite decide_True.
    + intros link id. rewrite <-(getContext_removeRequest c). by destruct (audited _ _).
  - rewrite SE_bind_eq, SE_bind_eq. unfold update. rewrite SE_bind_eq. unfold on at 1. rewrite Hup. cbn [fst snd].
    destruct status; try discriminate Hr; (eexists; split; [reflexivity|done]).
Qed.
End service.

(** ** Runs *)

Definition camera_request : string := request_frame PClient (CheckRequest camera_key 9).

(** The first ten bytes of the request have arrived. *)
Definition half_header : ProtocolFrameHeader :=
  setHeaderContent (appendCopy (stake 10 camera_request) BinaryQueue_new).2 (ProtocolFrameHeader_new BinaryQueue_new).
Definition half_sockets : SocketManager := with_header demo_sockets 1 half_header.

Lemma check_answered_witness :
  ∃ h' sm', handleRead (Logic_execute 5) 2 1 (sdrop 10 camera_request) (half_sockets, demo_service) =
    (Ret true, (sm', audited_state demo_service camera_key (PolicyResult_of ALLOW))) ∧
    awaits h' "" ∧
    queued (with_header half_sockets 1 h') 1 (response_frame PClient (CheckResponse (PolicyResult_of ALLOW) 9)) sm'.
Proof.
  apply (check_answered 5 half_sockets demo_service 1 half_header (stake 10 camera_request)
    (sdrop 10 camera_request) camera_key 9 (PolicyResult_of ALLOW) 2).
  - eexists. split; [reflexivity|]. split; reflexivity.
  - eexists. split; [reflexivity|]. split; [reflexivity|]. apply queue_ok_new.
  - destruct (appendUnmanaged_ok (stake 10 camera_request) BinaryQueue_new (proj1 queue_ok_new)) as (q & Hq & Hok & Hb).
    unfold half_header, appendCopy. rewrite Hq. split; [exact Hok|]. split; [reflexivity|]. cbn [fst snd]. exact (eq_sym Hb).
  - decide_by_compute.
  - vm_compute. reflexivity.
  - split; [vm_compute; reflexivity|left; reflexivity].
  - vm_compute. reflexivity.
  - decide_by_compute.
  - lia.
Defined.

(** The check of [demo_asked] and its talker. *)
Definition demo_talker : AgentTalker := mkAgentTalker 0 "agent" 0 (2, 0).
Definition demo_context : CheckContext unit :=
  mkCheckContext demo_talker 7 net_key tt (mkRequestContext (1, 0) 1) false.
Definition agent_registered : SocketManager * Service unit unit InMemoryStorageBackend (option InMemoryStorageBackend) :=
  (Logic_execute 5 2 (AgentRegisterRequest "agent" 1) (demo_start (Some demo_database))).2.

Lemma demo_reached : rtc (service_step 5) (demo_start (Some demo_database)) demo_asked.
Proof.
  apply (rtc_l _ _ agent_registered); [apply step_request|].
  apply (rtc_l _ _ (Logic_execute 5 1 (CheckRequest net_key 7) agent_registered).2); [apply step_request|].
  assert ((Logic_execute 5 1 (CheckRequest net_key 7) agent_registered).2 = demo_asked) as -> by (vm_compute; reflexivity).
  apply rtc_refl.
Qed.

Lemma pending_checks_tracked_witness :
  getContext (m_checkRequestManager demo_asked.2) (1, 0) 7 = Some demo_context ∧
  ∃ agentType, m_agents (m_agentManager demo_asked.2) !! agentType = Some (2, 0).
Proof.
  split; [vm_compute; reflexivity|].
  apply (pending_checks_tracked 5 [Some tt] (mkInMemory ∅) AL_ALL tt (Some demo_database) demo_sockets demo_asked.1
    demo_asked.2 (1, 0) 7 demo_context); [|vm_compute; reflexivity].
  rewrite <-surjective_pairing. exact demo_reached.
Defined.

Lemma agent_answers_witness : ∃ sm' s',
  Logic_execute 5 2 (AgentActionRequest CYNARA_MSG_TYPE_ACTION [111; 107]%Z 0) (demo_asked.1, demo_asked.2) = (Ret tt, (sm', s')) ∧
  queued demo_asked.1 1 (response_frame PClient (CheckResponse (mkPolicyResult ALLOW "ok") 7)) sm' ∧
  getTalker (m_agentManager s') (linkOf demo_asked.2 2) 0 = None ∧
  ∀ link id, getContext (m_checkRequestManager s') link id =
    if decide (link = (1, 0) ∧ id = 7%Z) then None else getContext (m_checkRequestManager demo_asked.2) link id.
Proof.
  refine (agent_answers 5 demo_asked.1 demo_asked.2 2 [111; 107]%Z 0 demo_talker demo_context SUCCESS
    (mkPolicyResult ALLOW "ok") tt 1 _ _ _ _ _ _ _ _); [| |vm_compute; reflexivity..| | |].
  - rewrite <-surjective_pairing. apply (tracked_reachable 5 _ _ demo_reached).
    refine (kept_init [Some tt] _ (tracked_new _ _ _ _ _)).
  - vm_compute. reflexivity.
  - eexists. split; [vm_compute; reflexivity|]. split; [vm_compute; reflexivity|]. split; [repeat constructor|].
    vm_compute. reflexivity.
  - vm_compute. reflexivity.
  - intros r [= <-]. decide_by_compute.
Defined.
