(* ===== verification/ServiceErrors.v ===== *)
(** * Errors of the service

    What the updating requests report and leave behind on every branch, and what becomes
    of the service after a corrupted database, a policy type without a plugin, an agent of
    two types. *)
From S2P Require Import Prelude Text Types Logging Bucket StorageBackend Storage StorageUpdates.
From S2P Require Import BinaryQueue Serialization Frame Messages ProtocolClient ProtocolAdmin Protocols SocketManager.
From S2P Require Import EntriesQueue Monitor PluginManager Agents PendingChecks.
From S2P Require Import InMemoryStorageBackend Service ServiceLemmas ServiceDemo ServiceTheorems.

(** A loop of guards that only read. *)
Lemma forEach_guard {St A} (ok : A → bool) (e : A → exn) (l : list A) (body : A → SE St unit) st :
  (∀ x, body x st = (if ok x then Ret tt else Throw (e x), st)) →
  ∃ r, forEach l body st = (r, st) ∧
    (if forallb ok l then r = Ret tt else ∃ x, x ∈ l ∧ ok x = false ∧ r = Throw (e x)).
Proof.
  intros Hb. induction l as [|x l IH]; cbn [forEach forallb]; [by eexists|].
  rewrite SE_bind_eq, Hb. destruct (ok x) eqn:Hx; cbn [andb].
  - destruct IH as (r & Hr & Hc). exists r. split; [exact Hr|]. destruct (forallb ok l); [done|].
    destruct Hc as (y & Hy & ? & ?). exists y. split; [by right|done].
  - eexists. split; [done|]. exists x. split; [by left|done].
Qed.

(** The requests that change the policies. *)
Definition admin_update (r : Request) : bool :=
  match r with
  | EraseRequest _ _ _ _ | InsertOrUpdateBucketRequest _ _ _ | RemoveBucketRequest _ _ | SetPoliciesRequest _ _ _ => true
  | _ => false
  end.

Section service.
Context `{HO : HashOrder} {B D Plugin P : Type} `{SB : StorageBackend B} `{SL : !StorageBackendLaws B}
  `{H : !Host B D Plugin P}.
Context (fuel : nat).
Implicit Types (sm : SocketManager) (s : Service Plugin P B D).

(** ** Updates *)

(** The answer [code] waits on the connection, and the service is in the state [s']. *)
Definition answers sm fd code seq (run : outcome unit * (SocketManager * Service Plugin P B D)) s' : Prop :=
  ∃ sm', run = (Ret tt, (sm', s')) ∧ queued sm fd (response_frame PAdmin (CodeResponse code seq)) sm'.

Lemma returns_code sm s fd code seq :
  connection sm fd PAdmin → is_uint 16 code → is_uint 16 seq →
  answers sm fd code seq (returnResponse (contextOf s fd) (CodeResponse code seq) (sm, s)) s.
Proof.
  intros Hcon Hcode Hseq. apply returnResponse_queues; [done| |done].
  split; [done|]. split; [|done]. unfold body_fits. cbn [admin_response_body]. unfold fields. cbn [foldr].
  rewrite !str_length_app, !le_bytes_length. vm_compute. reflexivity.
Qed.

(** Types an inserted policy may have. *)
Definition known_type s (allowBucket allowNone : bool) (t : PolicyType) : bool :=
  allowBucket && (t =? BUCKET)%Z || allowNone && (t =? NONE)%Z ||
  existsb (λ descr, type descr =? t)%Z predefinedPolicyDescr ||
  match m_plugins (m_pluginManager s) !! t with Some (_, Some _) => true | _ => false end.

Lemma checkSinglePolicyType_eq sm s t a n :
  checkSinglePolicyType t a n (sm, s) =
    (if known_type s a n t then Ret tt else Throw (UnknownPolicyTypeException t), (sm, s)).
Proof.
  unfold checkSinglePolicyType, known_type. destruct (a && _); [done|]. destruct (n && _); [done|].
  destruct (existsb _ _); [done|]. rewrite SE_bind_eq. unfold service, gets, reads, checkPolicyType. cbn [snd orb].
  by destruct (m_plugins _ !! t) as [[? []]|].
Qed.

Definition known_types s (inserted : gmap PolicyBucketId (list Policy)) : bool :=
  forallb (λ g, forallb (λ p, known_type s true false (policyType (result p))) g.2) (groups inserted).

Lemma checkPoliciesTypes_eq sm s inserted :
  ∃ r, checkPoliciesTypes inserted true false (sm, s) = (r, (sm, s)) ∧
    (if known_types s inserted then r = Ret tt else ∃ t, r = Throw (UnknownPolicyTypeException t)).
Proof.
  unfold checkPoliciesTypes, known_types. induction (groups inserted) as [|g l IH]; cbn [forEach forallb]; [by eexists|].
  rewrite SE_bind_eq.
  destruct (forEach_guard (λ p, known_type s true false (policyType (result p)))
    (λ p, UnknownPolicyTypeException (policyType (result p))) g.2
    (λ policy, checkSinglePolicyType (policyType (result policy)) true false) (sm, s)) as (r & -> & Hr).
  { intros p. apply checkSinglePolicyType_eq. }
  destruct (forallb _ g.2); cbn [andb].
  - subst r. exact IH.
  - destruct Hr as (p & _ & _ & ->). eexists. split; [done|]. by eexists.
Qed.

Definition set_policies_handler (e : exn) : option Z :=
  if isDatabaseException e then Some CodeResponseCode.FAILED
  else match e with
       | BucketNotExistsException _ => Some CodeResponseCode.NO_BUCKET
       | UnknownPolicyTypeException _ => Some CodeResponseCode.NO_POLICY_TYPE
       | _ => None
       end.

(** A request refused before anything changed. *)
Lemma guardedUpdate_throws (m : SE (SocketManager * Service Plugin P B D) unit) handler sm s s' fd seq e code :
  connection sm fd PAdmin → m_dbCorrupted s = false → is_uint 16 code → is_uint 16 seq →
  m (sm, s) = (Throw e, (sm, s')) → handler e = Some code → closings s' = closings s →
  answers sm fd code seq (guardedUpdate m handler (contextOf s fd) seq (sm, s)) s'.
Proof.
  intros Hcon Hdb Hcode Hseq Hm He Hcl. unfold guardedUpdate. rewrite SE_bind_eq. unfold service, gets. cbn [snd].
  rewrite Hdb. unfold answerCode, tryCatch. rewrite SE_bind_eq, SE_bind_eq, SE_bind_eq, Hm, He. cbn [mret SE_ret].
  replace (contextOf s fd) with (contextOf s' fd) by (unfold contextOf, linkOf; by rewrite Hcl).
  by apply returns_code.
Qed.

Lemma onStorage_eq {A} (m : SE B A) sm s :
  onStorage m (sm, s) = ((m (m_storage s)).1, (sm, setStorage (m (m_storage s)).2 s)).
Proof. unfold onStorage, on. by destruct (m (m_storage s)). Qed.

Lemma setStorage_same s : setStorage (m_storage s) s = s.
Proof. by destruct s. Qed.

(** C36: The outcomes of a request to set policies, on an intact database.  An inserted policy
    of a type without plugin: NO_POLICY_TYPE, nothing changed.  A bucket missing for an
    inserted policy: NO_BUCKET, nothing changed.  A bucket missing for a removed one: also
    NO_BUCKET, but the service goes on with all the insertions and the removals before the
    missing bucket in force, neither saved nor announced to the clients.  Else the policies
    are inserted and removed, and what remains is to save them and tell the clients. *)
Theorem set_policies_outcomes sm s fd inserted removed seq :
  connection sm fd PAdmin → is_uint 16 seq → m_dbCorrupted s = false → inv (m_storage s) →
  let run := Logic_execute fuel fd (SetPoliciesRequest inserted removed seq) (sm, s) in
  let st := m_storage s in
  if negb (known_types s inserted) then answers sm fd CodeResponseCode.NO_POLICY_TYPE seq run s
  else if decide (Forall (StorageUpdates.group_ok (view st)) (groups inserted)) then
    (∀ pre id k ks post, groups removed = pre ++ (id, k :: ks) :: post →
       (∀ g, g ∈ pre → is_Some (view st !! g.1)) → view st !! id = None →
       ∃ st', inv st' ∧ view st' = a_delete_all pre (a_insert_all (groups inserted) (view st)) ∧
         answers sm fd CodeResponseCode.NO_BUCKET seq run (setStorage st' s)) ∧
    ((∀ g, g ∈ groups removed → is_Some (view st !! g.1)) →
       ∃ st', inv st' ∧ view st' = a_delete_all (groups removed) (a_insert_all (groups inserted) (view st)) ∧
         run = (code ← answerCode onPoliciesChanged set_policies_handler;
                returnResponse (contextOf s fd) (CodeResponse code seq)) (sm, setStorage st' s))
  else answers sm fd CodeResponseCode.NO_BUCKET seq run s.
Proof.
  intros Hcon Hseq Hdb Hinv run st. subst run st.
  destruct (checkPoliciesTypes_eq sm s inserted) as (r & Hck & Hr).
  change (Logic_execute fuel fd (SetPoliciesRequest inserted removed seq) (sm, s)) with
    (guardedUpdate (checkPoliciesTypes inserted true false ;; onStorage (insertPolicies (groups inserted)) ;;
       onStorage (deletePolicies (groups removed))) set_policies_handler (contextOf s fd) seq (sm, s)).
  destruct (known_types s inserted); cbn [negb]; subst.
  2:{ destruct Hr as [t ->]. eapply guardedUpdate_throws; try done; [by rewrite SE_bind_eq, Hck|done]. }
  case_decide as Hok.
  2:{ destruct (insertPolicies_bad _ _ Hinv Hok) as (id & _ & E).
    apply (guardedUpdate_throws _ _ sm s s fd seq (BucketNotExistsException id)); try done.
      rewrite SE_bind_eq, Hck, SE_bind_eq, onStorage_eq, !E. cbn [fst snd]. by rewrite setStorage_same. }
  destruct (insertPolicies_ok _ _ Hinv Hok) as (st1 & E1 & Hinv1 & Hv1).
  assert (∀ id, is_Some (view st1 !! id) ↔ is_Some (view (m_storage s) !! id)) as Hdom.
  { intros id. rewrite Hv1. apply a_insert_all_dom. }
  split.
  - intros pre id k ks post Hrem Hpre Hid.
    destruct (deletePolicies_bad pre id k ks post st1 Hinv1) as (st2 & E2 & Hinv2 & Hv2).
    { intros g Hg. by apply Hdom, Hpre. }
    { apply eq_None_not_Some. rewrite Hdom. by apply eq_None_not_Some. }
    exists st2. split; [done|]. split; [by rewrite Hv2, Hv1|].
    apply (guardedUpdate_throws _ _ sm s _ fd seq (BucketNotExistsException id)); try done.
    rewrite SE_bind_eq, Hck, SE_bind_eq, onStorage_eq, E1. cbn [fst snd].
    rewrite onStorage_eq. cbn [m_storage setStorage]. rewrite Hrem, E2. done.
  - intros Hall. destruct (deletePolicies_ok (groups removed) st1 Hinv1) as (st2 & E2 & Hinv2 & Hv2).
    { intros g Hg. by apply Hdom, Hall. }
    exists st2. split; [done|]. split; [by rewrite Hv2, Hv1|].
    unfold guardedUpdate. rewrite SE_bind_eq. unfold service at 1, gets. cbn [snd]. rewrite Hdb.
    rewrite SE_bind_eq, (SE_bind_eq (answerCode onPoliciesChanged set_policies_handler)).
    unfold answerCode, tryCatch.
    assert ((checkPoliciesTypes inserted true false ;; onStorage (insertPolicies (groups inserted)) ;;
       onStorage (deletePolicies (groups removed))) (sm, s) = (Ret tt, (sm, setStorage st2 s))) as Hm.
    { rewrite SE_bind_eq, Hck, SE_bind_eq, onStorage_eq, E1. cbn [fst snd].
      rewrite onStorage_eq. cbn [m_storage setStorage]. by rewrite E2. }
    rewrite SE_bind_eq, SE_bind_eq, Hm, SE_bind_eq. done.
Qed.

(** ** A policy type without a plugin *)

(** ** A part of the state that only a few operations touch *)

Section part.
Context {Y : Type} (part : Service Plugin P B D → Y) (Q : Y → Prop).
Context (Hagents : ∀ x s, part (setAgentManager x s) = part s) (Hchecks : ∀ x s, part (setChecks x s) = part s)
  (Hmonitor : ∀ x s, part (setMonitorLogic x s) = part s) (Hjournal : ∀ x s, part (setJournal x s) = part s)
  (Hplugin : ∀ x s, part (setPluginState x s) = part s) (Hclosings : ∀ x s, part (setClosings x s) = part s).
Abbreviation kept_part := (keeps (of_part part Q)) (only parsing).

Lemma part_audit key result : kept_part (audit_log key result).
Proof. by apply keeps_audit. Qed.
Lemma part_service : kept_part service.
Proof. apply keeps_gets. Qed.
Hint Resolve part_audit part_service : keeps.
Hint Extern 1 (keeps (of_part _ _) (on _ _ _)) => (by apply keeps_on) : keeps.

Lemma part_contextClosed fd : kept_part (contextClosed fd).
Proof.
  unfold contextClosed, cleanupAgent, cancelRequests, handleAgentTalkerDisconnection, handleClientDisconnection,
    talker_cancel, sendMessage, returnResponse. keep.
Qed.
Lemma part_closed fd : kept_part (sys_closed fd).
Proof. intros [sm s] Hst. unfold of_part, sys_closed in *. cbn [snd] in *. by rewrite Hclosings. Qed.

Context (Hget : ∀ ty, kept_part (on m_pluginManager setPluginManager (getPlugin ty))).
Context (Hupdates : ∀ fd request st, admin_update request = true → of_part part Q st →
  of_part part Q (Logic_execute fuel fd request st).2).
Hint Resolve Hget : keeps.

Lemma part_execute fd request : kept_part (Logic_execute fuel fd request).
Proof.
  destruct (admin_update request) eqn:Hu; [intros st; by apply Hupdates|].
  unfold Logic_execute. keep; try discriminate Hu;
    unfold execute_AdminCheckRequest, execute_AgentActionRequest, execute_AgentRegisterRequest, execute_CancelRequest,
      execute_CheckRequest, execute_DescriptionListRequest, execute_ListRequest, execute_SimpleCheckRequest,
      guardedQuery, onMonitor, sendMonitorResponses, check, pluginCheck, askAgent, update, talker_send, talker_cancel,
      sendMessage, returnResponse, mainLoopStop; keep.
Qed.

Lemma part_reachable st st' : rtc (service_step fuel) st st' → of_part part Q st → of_part part Q st'.
Proof.
  induction 1 as [|st1 st2 st3 Hstep _ IH]; [done|]. intros Hn. apply IH. destruct Hstep as [fd r st|fd st|sm sm' s].
  - by apply part_execute.
  - by apply (keeps_closeSocket part Q contextClosed sys_closed fd part_contextClosed part_closed).
  - exact Hn.
Qed.
End part.

Section null.
Context (t : PolicyType).
Abbreviation kept_null := (keeps (of_part (B:=B) (D:=D) (Plugin:=Plugin) (P:=P) m_pluginManager (null_entry t))) (only parsing).

Lemma null_getPlugin ty : kept_null (on m_pluginManager setPluginManager (getPlugin ty)).
Proof.
  intros [sm s] Hn. unfold on. pose proof (getPlugin_keeps_null t ty _ Hn) as Hn'. cbn [snd] in Hn'.
  by destruct (getPlugin ty (m_pluginManager s)).
Qed.

Lemma null_contextClosed fd : kept_null (contextClosed fd).
Proof. by apply part_contextClosed. Qed.
Lemma null_closed fd : kept_null (sys_closed fd).
Proof. by apply part_closed. Qed.
Lemma null_service : kept_null service.
Proof. apply keeps_gets. Qed.
Hint Resolve null_service : keeps.
Hint Extern 1 (keeps (of_part _ _) (on _ _ _)) => (apply keeps_on; reflexivity) : keeps.

Lemma null_updates fd request : admin_update request = true → kept_null (Logic_execute fuel fd request).
Proof.
  intros Hu. unfold Logic_execute. keep; try discriminate Hu;
    unfold execute_EraseRequest, execute_InsertOrUpdateBucketRequest, execute_RemoveBucketRequest,
      execute_SetPoliciesRequest, guardedUpdate, answerCode, checkPoliciesTypes, checkSinglePolicyType, onStorage,
      onPoliciesChanged, returnResponse; keep;
    apply keeps_disconnectAllClients; first [apply null_contextClosed|apply null_closed].
Qed.

Lemma null_reachable st st' :
  rtc (service_step fuel) st st' → of_part m_pluginManager (null_entry t) st → of_part m_pluginManager (null_entry t) st'.
Proof.
  apply part_reachable; [done..|apply null_getPlugin|]. intros fd r st0 Hu. by apply null_updates.
Qed.
End null.

Lemma onPoliciesChanged_eq sm s :
  onPoliciesChanged (sm, s) =
    match storage_save (m_storage s) (disk s) with
    | (Ret _, d) =>
        match disconnectAllClients contextClosed sys_closed (sm, setDisk d s) with
        | (Ret _, (sm', s')) =>
            let '(r, p) := invalidateAll plugin_invalidate (m_pluginManager s') (pluginState s') in
            (r, (sm', setPluginState p s'))
        | (Throw e, st) => (Throw e, st)
        | (OutOfFuel, st) => (OutOfFuel, st)
        end
    | (Throw e, d) => (Throw e, (sm, setDisk d s))
    | (OutOfFuel, d) => (OutOfFuel, (sm, setDisk d s))
    end.
Proof.
  unfold onPoliciesChanged. rewrite SE_bind_eq. unfold service at 1, gets. cbn [snd]. rewrite SE_bind_eq.
  unfold on at 1. destruct (storage_save _ _) as [[[]|e|] d]; [|done..]. rewrite SE_bind_eq.
  destruct (disconnectAllClients _ _ _) as [[[]|e|] [sm' s']]; [|done..].
  rewrite SE_bind_eq. unfold service, gets, on. cbn [snd]. by destruct (invalidateAll _ _ _).
Qed.

(** A check of a type that has no plugin. *)
Lemma execute_CheckRequest_unknown sm s fd key seq r :
  connection sm fd PClient → m_dbCorrupted s = false →
  checkPolicy fuel (m_storage s) key defaultPolicyBucketId true = Ret r →
  policyType r ≠ ALLOW → policyType r ≠ DENY → m_plugins (m_pluginManager s) !! policyType r = None →
  getContext (m_checkRequestManager s) (linkOf s fd) seq = None → is_uint 16 seq →
  ∃ sm' s', Logic_execute fuel fd (CheckRequest key seq) (sm, s) = (Ret tt, (sm', s')) ∧
    queued sm fd (response_frame PClient (CheckResponse (PolicyResult_of DENY) seq)) sm' ∧
    null_entry (policyType r) (m_pluginManager s').
Proof.
  intros Hcon Hdb Hc Ha Hd Hpl Hnew Hseq.
  set (s1 := setPluginManager (mkPluginManager (<[policyType r := ("", None)]> (m_plugins (m_pluginManager s)))) s).
  destruct (returnResponse_queues sm (audited_state s1 key (PolicyResult_of DENY)) fd PClient
    (CheckResponse (PolicyResult_of DENY) seq) (contextOf s fd) Hcon) as (sm' & Hret & Hq).
  { split; [decide_by_compute|]. split; [|done]. vm_compute. reflexivity. }
  { by rewrite linkOf_audited. }
  exists sm', (audited_state s1 key (PolicyResult_of DENY)). split.
  - unfold Logic_execute. rewrite SE_bind_eq. unfold service at 1, gets. cbn [snd].
    unfold execute_CheckRequest. rewrite SE_bind_eq.
    assert (check fuel (contextOf s fd) key seq (sm, s) = (Ret (true, PolicyResult_of DENY), (sm, s1))) as ->.
    { unfold check. rewrite SE_bind_eq. unfold service at 1, gets. cbn [snd].
      change (m_responseQueue (contextOf s fd)) with (linkOf s fd). rewrite Hnew, Hdb, SE_bind_eq.
      unfold reads. cbn [snd]. rewrite Hc. apply Z.eqb_neq in Ha, Hd. rewrite Ha, Hd. cbn [orb].
      unfold pluginCheck. rewrite SE_bind_eq. unfold on, getPlugin. by rewrite Hpl. }
    cbn [fst snd]. by rewrite SE_bind_eq, audit_log_eq.
  - split; [done|]. exists "". unfold audited_state. case_match; cbn; by rewrite lookup_insert_eq.
Qed.

(** A policy type without a plugin: the check of a client is denied, but looking the
    plugin up enters a null pointer into the plugin table, which no request and no closing
    takes out.  From then on no change of the policies by an administrator comes to an
    end: once the database is saved and the clients are disconnected, the service calls
    through the null pointer. *)
Theorem unknown_policy_type sm s fd key seq r :
  connection sm fd PClient → m_dbCorrupted s = false →
  checkPolicy fuel (m_storage s) key defaultPolicyBucketId true = Ret r →
  policyType r ≠ ALLOW → policyType r ≠ DENY → m_plugins (m_pluginManager s) !! policyType r = None →
  getContext (m_checkRequestManager s) (linkOf s fd) seq = None → is_uint 16 seq →
  ∃ sm1 s1, Logic_execute fuel fd (CheckRequest key seq) (sm, s) = (Ret tt, (sm1, s1)) ∧
    queued sm fd (response_frame PClient (CheckResponse (PolicyResult_of DENY) seq)) sm1 ∧
    ∀ sm2 s2, rtc (service_step fuel) (sm1, s1) (sm2, s2) →
      (onPoliciesChanged (sm2, s2)).1 ≠ Ret tt ∧
      ∀ d st3, storage_save (m_storage s2) (disk s2) = (Ret tt, d) →
        disconnectAllClients contextClosed sys_closed (sm2, setDisk d s2) = (Ret tt, st3) →
        (onPoliciesChanged (sm2, s2)).1 = Throw UndefinedBehaviour.
Proof.
  intros Hcon Hdb Hc Ha Hd Hpl Hnew Hseq.
  destruct (execute_CheckRequest_unknown sm s fd key seq r) as (sm1 & s1 & Hrun & Hq & Hnull); [done..|].
  exists sm1, s1. split; [done|]. split; [done|]. intros sm2 s2 Hreach.
  pose proof (null_reachable (policyType r) _ _ Hreach Hnull) as Hnull2. unfold of_part in Hnull2. cbn [snd] in Hnull2.
  rewrite onPoliciesChanged_eq.
  destruct (storage_save (m_storage s2) (disk s2)) as [[[]|e|] d]; [|done..].
  pose proof (keeps_disconnectAllClients m_pluginManager (null_entry (policyType r)) contextClosed sys_closed
    (null_contextClosed _) (null_closed _) (sm2, setDisk d s2) Hnull2) as Hnull3.
  destruct (disconnectAllClients contextClosed sys_closed (sm2, setDisk d s2)) as [[[]|e|] [sm3 s3]] eqn:Hdis.
  - pose proof (invalidateAll_null plugin_invalidate _ _ (pluginState s3) Hnull3) as Hinv.
    destruct (invalidateAll _ _ _) as [r3 p3]. cbn [fst] in *. by subst r3.
  - split; [done|]. intros d' st3 [= <-]. by rewrite Hdis.
  - split; [done|]. intros d' st3 [= <-]. by rewrite Hdis.
Qed.

(** ** A corrupted database *)

(** The flag is set and the storage is [b]. *)
Definition corrupted (b : B) (x : bool * B) : Prop := x = (true, b).
Definition database s : bool * B := (m_dbCorrupted s, m_storage s).

Lemma corrupted_refuses sm s fd request :
  m_dbCorrupted s = true → admin_update request = true →
  Logic_execute fuel fd request (sm, s) =
    returnResponse (contextOf s fd) (CodeResponse CodeResponseCode.DB_CORRUPTED (request_sequenceNumber request)) (sm, s).
Proof.
  intros Hdb Hu. unfold Logic_execute. rewrite SE_bind_eq. unfold service at 1, gets. cbn [snd].
  destruct request; try discriminate Hu;
    (unfold execute_EraseRequest, execute_InsertOrUpdateBucketRequest, execute_RemoveBucketRequest,
       execute_SetPoliciesRequest, guardedUpdate; rewrite SE_bind_eq; unfold service at 1, gets; cbn [snd];
     by rewrite Hdb).
Qed.

Lemma corrupted_reachable b st st' :
  rtc (service_step fuel) st st' → of_part database (corrupted b) st → of_part database (corrupted b) st'.
Proof.
  apply part_reachable; [done..|by intros ty; apply keeps_on|].
  intros fd r [sm s] Hu Hst. injection Hst as Hdb Hb. cbn [snd] in *. rewrite corrupted_refuses by done.
  apply keeps_writeTo. unfold of_part, corrupted, database. cbn [snd]. by rewrite Hdb, Hb.
Qed.

Lemma loadDb_corrupted sm s d :
  storage_load (disk s) = (Throw DatabaseCorruptedException, d) →
  loadDb (sm, s) = (Ret tt, (sm, setDbCorrupted (setDisk d s))).
Proof. intros Hl. unfold loadDb, tryCatch. rewrite SE_bind_eq. unfold on at 1. by rewrite Hl. Qed.

(** A corrupted database: the service starts nevertheless, and however it goes on,
    denies every check of a client, refuses every change of the policies with DB_CORRUPTED
    and changes nothing.  A simple check is not guarded: it throws for the missing default
    bucket, so that the client gets no answer at all. *)
Theorem corrupted_database sm s d sm1 s1 fd seq :
  storage_load (disk s) = (Throw DatabaseCorruptedException, d) →
  inv (m_storage s) → view (m_storage s) !! defaultPolicyBucketId = None →
  rtc (service_step fuel) (loadDb (sm, s)).2 (sm1, s1) → is_uint 16 seq →
  (loadDb (sm, s)).1 = Ret tt ∧
  (∀ key, connection sm1 fd PClient → getContext (m_checkRequestManager s1) (linkOf s1 fd) seq = None →
     ∃ sm2, Logic_execute fuel fd (CheckRequest key seq) (sm1, s1) =
         (Ret tt, (sm2, audited_state s1 key (PolicyResult_of DENY))) ∧
       queued sm1 fd (response_frame PClient (CheckResponse (PolicyResult_of DENY) seq)) sm2) ∧
  (∀ request, connection sm1 fd PAdmin → admin_update request = true → request_sequenceNumber request = seq →
     answers sm1 fd CodeResponseCode.DB_CORRUPTED seq (Logic_execute fuel fd request (sm1, s1)) s1) ∧
  (∀ key, Logic_execute fuel fd (SimpleCheckRequest key seq) (sm1, s1) =
     (Throw (BucketNotExistsException defaultPolicyBucketId), (sm1, s1))).
Proof.
  intros Hload Hinv Hno Hreach Hseq. rewrite (loadDb_corrupted _ _ _ Hload) in Hreach |- *.
  pose proof (corrupted_reachable (m_storage s) _ _ Hreach eq_refl) as [= Hdb Hst]. cbn [snd] in *.
  split; [done|]. split_and!.
  - intros key Hcon Hnew. apply execute_CheckRequest_decided; [done| |done|].
    + split; [by rewrite Hdb|by right].
    + split; [decide_by_compute|]. split; [|done]. vm_compute. reflexivity.
  - intros request Hcon Hu <-. rewrite corrupted_refuses by done. by apply returns_code.
  - intros key. unfold Logic_execute. rewrite SE_bind_eq. unfold service at 1, gets. cbn [snd].
    unfold execute_SimpleCheckRequest. rewrite SE_bind_eq. unfold reads at 1. cbn [snd].
    assert (checkPolicy fuel (m_storage s1) key defaultPolicyBucketId true =
      Throw (BucketNotExistsException defaultPolicyBucketId)) as ->; [|done].
    rewrite Hst. unfold checkPolicy. pose proof (search_law (m_storage s) defaultPolicyBucketId key Hinv) as Hs.
    rewrite Hno in Hs. by rewrite Hs.
Qed.
End service.

(** ** An agent of two types *)

Lemma registerAgent_free t link am :
  m_agents am !! t = None → registerAgent t link am = (Ret AgentRegisterCode.DONE, setAgents (<[t := link]> (m_agents am)) am).
Proof. intros Ht. unfold registerAgent. by rewrite Ht. Qed.

(** Leaving takes one type out, and every talker of the link. *)
Lemma unregisterAgent_one am link t :
  m_agents am !! t = Some link →
  ∃ t0, m_agents am !! t0 = Some link ∧ m_agents (unregisterAgent link am) = delete t0 (m_agents am) ∧
    talkersOf (unregisterAgent link am) link = ∅.
Proof.
  intros Ht. unfold unregisterAgent. destruct (getAgentType am link) as [t0|] eqn:E.
  - exists t0. split; [by apply getAgentType_Some|]. split; [done|]. unfold talkersOf. cbn. by rewrite lookup_delete_eq.
  - by destruct (getAgentType_None _ _ E t).
Qed.

Section two_types.
Context `{HO : HashOrder} {B D Plugin P : Type} `{SB : StorageBackend B} `{H : !Host B D Plugin P}.
Implicit Types (sm : SocketManager) (s : Service Plugin P B D).

(** Asking an agent whose connection is gone: the check waits, and nothing is sent. *)
Lemma askAgent_gone sm s context key checkId (plugin : Plugin) t data link :
  m_agents (m_agentManager s) !! t = Some link → talkersOf (m_agentManager s) link = ∅ → linkOf s link.1 ≠ link →
  getContext (m_checkRequestManager s) (m_responseQueue context) checkId = None →
  ∃ s' c, askAgent context key checkId plugin t data (sm, s) = (Ret (false, PolicyResult_of DENY), (sm, s')) ∧
    getContext (m_checkRequestManager s') (m_responseQueue context) checkId = Some c ∧ m_linkId (m_agentTalker c) = link.
Proof.
  intros Ht Hno Hgone Hnew. unfold askAgent. rewrite SE_bind_eq. unfold on at 1. unfold createTalker.
  rewrite SE_bind_eq. unfold am_generateSequenceNumber. rewrite SE_bind_eq. cbn [get m_agents].
  rewrite Ht. unfold talkersOf in *. cbn [m_talkers am_objects]. rewrite Hno, lookup_empty, SE_bind_eq. cbn [put mret SE_ret].
  rewrite SE_bind_eq. unfold on at 1, createContext. cbn [m_checkRequestManager setAgentManager].
  unfold getContext in Hnew.
  destruct (m_checkRequestManager s !! m_responseQueue context) as [cm|] eqn:Hcm; cbn in Hnew |- *;
    rewrite ?Hnew, ?lookup_empty; cbn [negb]; rewrite SE_bind_eq; unfold talker_send, sendMessage, writeTo;
    rewrite SE_bind_eq; unfold service, gets; cbn [snd m_linkId]; rewrite bool_decide_eq_false_2 by exact Hgone;
    (eexists _, _; split; [reflexivity|]; unfold getContext; cbn; rewrite lookup_insert_eq; cbn; rewrite lookup_insert_eq; done).
Qed.

(** An agent of two types: a connection may register for two types of policies, but when
    it ends, only the first of its types is given up.  The other stays with the connection
    that is gone: nobody can register for it again, and a check that needs it waits without
    anything being sent. *)
Theorem agent_of_two_types am link t1 t2 :
  t1 ≠ t2 → m_agents am !! t1 = None → m_agents am !! t2 = None →
  let am1 := (registerAgent t2 link (registerAgent t1 link am).2).2 in
  let am2 := unregisterAgent link am1 in
  ∃ t, (t = t1 ∨ t = t2) ∧ m_agents am2 !! t = Some link ∧
    (∀ link', registerAgent t link' am2 = (Ret AgentRegisterCode.REJECTED, am2)) ∧
    ∀ sm s context key checkId (plugin : Plugin) data,
      m_agentManager s = am2 → linkOf s link.1 ≠ link →
      getContext (m_checkRequestManager s) (m_responseQueue context) checkId = None →
      ∃ s' c, askAgent context key checkId plugin t data (sm, s) = (Ret (false, PolicyResult_of DENY), (sm, s')) ∧
        getContext (m_checkRequestManager s') (m_responseQueue context) checkId = Some c ∧
        m_linkId (m_agentTalker c) = link.
Proof.
  intros Hne H1 H2 am1.
  assert (m_agents am1 = <[t2 := link]> (<[t1 := link]> (m_agents am))) as Eam.
  { unfold am1. rewrite (registerAgent_free t1) by done. rewrite (registerAgent_free t2); [done|].
    cbn [snd m_agents setAgents]. by rewrite lookup_insert_ne. }
  clearbody am1. intros am2.
  assert (m_agents am1 !! t2 = Some link) as E2.
  { by rewrite Eam, lookup_insert_eq. }
  assert (m_agents am1 !! t1 = Some link) as E1.
  { by rewrite Eam, lookup_insert_ne, lookup_insert_eq. }
  destruct (unregisterAgent_one am1 link t2 E2) as (t0 & _ & Ha & Htk). change (unregisterAgent link am1) with am2 in Ha, Htk.
  assert (∃ t, (t = t1 ∨ t = t2) ∧ m_agents am2 !! t = Some link) as (t & Ht & Hin).
  { rewrite Ha. destruct (decide (t0 = t2)) as [->|Hn].
    - exists t1. split; [by left|]. by rewrite lookup_delete_ne.
    - exists t2. split; [by right|]. by rewrite lookup_delete_ne. }
  exists t. split; [done|]. split; [done|]. split.
  - intros link'. unfold registerAgent. by rewrite Hin.
  - intros sm s context key checkId plugin data Hs Hgone Hnew. apply askAgent_gone; [by rewrite Hs|by rewrite Hs|done..].
Qed.
End two_types.

(** ** Runs *)

(** An insertion together with a removal from a bucket that is not there. *)
Definition mixed_inserted : gmap PolicyBucketId (list Policy) := {[ "" := [simpleWithKey net_key DENY] ]}.
Definition mixed_removed : gmap PolicyBucketId (list PolicyKey) := {[ "none" := [camera_key] ]}.

Lemma set_policies_outcomes_witness : ∃ st',
  view st' = a_insert_all [("", [simpleWithKey net_key DENY])] (view demo_database) ∧
  answers demo_sockets 3 CodeResponseCode.NO_BUCKET 4
    (Logic_execute 5 3 (SetPoliciesRequest mixed_inserted mixed_removed 4) (demo_sockets, demo_service))
    (setStorage st' demo_service).
Proof.
  pose proof (set_policies_outcomes 5 demo_sockets demo_service 3 mixed_inserted mixed_removed 4) as Hout.
  assert (known_types demo_service mixed_inserted = true) as Hk by (vm_compute; reflexivity).
  assert (Forall (StorageUpdates.group_ok (view (m_storage demo_service))) (groups mixed_inserted)) as Hg.
  { decide_by_compute. }
  cbv zeta in Hout. rewrite Hk, decide_True in Hout by exact Hg. cbn [negb] in Hout.
  edestruct Hout as [Hmissing _].
  - eexists. split; [reflexivity|]. split; [reflexivity|]. apply queue_ok_new.
  - by split.
  - vm_compute. reflexivity.
  - decide_by_compute.
  - destruct (Hmissing [] "none" camera_key [] []) as (st' & _ & Hv & Ha).
    + vm_compute. reflexivity.
    + intros g Hg'. by apply elem_of_nil in Hg'.
    + vm_compute. reflexivity.
    + exists st'. split; [|exact Ha]. rewrite Hv. vm_compute. reflexivity.
Defined.

(** The service of [demo_service] without its plugin. *)
Definition no_plugin_service := setPluginManager PluginManager_new demo_service.

Lemma unknown_policy_type_witness :
  ∃ sm1 s1, Logic_execute 5 1 (CheckRequest net_key 7) (demo_sockets, no_plugin_service) = (Ret tt, (sm1, s1)) ∧
    (onPoliciesChanged (sm1, s1)).1 ≠ Ret tt.
Proof.
  edestruct (unknown_policy_type 5 demo_sockets no_plugin_service 1 net_key 7 (mkPolicyResult ask_type ""))
    as (sm1 & s1 & Hrun & _ & Hafter).
  - eexists. split; [reflexivity|]. split; [reflexivity|]. apply queue_ok_new.
  - vm_compute. reflexivity.
  - vm_compute. reflexivity.
  - discriminate.
  - discriminate.
  - vm_compute. reflexivity.
  - vm_compute. reflexivity.
  - by split.
  - exists sm1, s1. split; [exact Hrun|]. apply (Hafter sm1 s1). apply rtc_refl.
Defined.

Definition new_service : Service unit unit InMemoryStorageBackend (option InMemoryStorageBackend) :=
  Service_new (mkInMemory ∅) AL_ALL tt None.
Definition corrupted_service := setDbCorrupted new_service.

Lemma corrupted_database_witness :
  answers demo_sockets 3 CodeResponseCode.DB_CORRUPTED 6
    (Logic_execute 5 3 (RemoveBucketRequest "b" 6) (demo_sockets, corrupted_service)) corrupted_service.
Proof.
  edestruct (corrupted_database 5 demo_sockets new_service None
    demo_sockets corrupted_service 3 6) as (_ & _ & Hupd & _).
  - reflexivity.
  - decide_by_compute.
  - vm_compute. reflexivity.
  - apply rtc_refl.
  - by split.
  - apply Hupd; [|reflexivity..].
    eexists. split; [reflexivity|]. split; [reflexivity|]. apply queue_ok_new.
Defined.

Lemma agent_of_two_types_witness : ∃ t, (t = "a" ∨ t = "b") ∧
  m_agents (unregisterAgent (2, 0) (registerAgent "b" (2, 0) (registerAgent "a" (2, 0) AgentManager_new).2).2) !! t =
    Some (2, 0).
Proof.
  destruct (agent_of_two_types (B:=InMemoryStorageBackend) (D:=option InMemoryStorageBackend) (Plugin:=unit) (P:=unit)
    AgentManager_new (2, 0) "a" "b") as (t & Ht & Hin & _);
    [discriminate|reflexivity|reflexivity|].
  exists t. split; [exact Ht|exact Hin].
Defined.
