(* ===== verification/PluginLibrariesTheorems.v ===== *)
(** * Theorems on the libraries of plugins

    What the directory makes of the table, and the life of the plugins in the service: each is
    destroyed once, before its library is closed, and not while the service may still use it. *)
From stdpp Require Import gmultiset.
From S2P Require Import Prelude Text Types Logging Bucket StorageBackend Storage.
From S2P Require Import BinaryQueue Serialization Frame Messages ProtocolClient Protocols SocketManager.
From S2P Require Import EntriesQueue Monitor PluginManager Agents PendingChecks PluginLibraries.
From S2P Require Import InMemoryStorageBackend Service ServiceLemmas ServiceDemo ServiceTheorems.

(** ** The pointers in the table *)

Section table.
Context {Plugin : Type}.
Implicit Types (m : PluginManager (nat * Plugin)).

Definition entry_pointer (kv : PolicyType * (string * option (nat * Plugin))) : option nat := fst <$> kv.2.2.
Definition table_list m : list nat := omap entry_pointer (map_to_list (m_plugins m)).
Definition table_pointers m : gmultiset nat := list_to_set_disj (table_list m).

(** The table without the objects' numbers. *)
Definition plain m : PluginManager Plugin := mkPluginManager ((λ e : string * option (nat * Plugin), (e.1, snd <$> e.2)) <$> m_plugins m).

Lemma table_insert t e (ps : gmap PolicyType (string * option (nat * Plugin))) :
  ps !! t = None →
  table_pointers (mkPluginManager (<[t := e]> ps)) =
    match e.2 with Some p => {[+ p.1 +]} ⊎ table_pointers (mkPluginManager ps) | None => table_pointers (mkPluginManager ps) end.
Proof.
  intros Ht. unfold table_pointers, table_list. cbn [m_plugins].
  rewrite (list_to_set_disj_perm _ (omap entry_pointer ((t, e) :: map_to_list ps))).
  - destruct e as [n [p|]]; done.
  - by rewrite map_to_list_insert.
Qed.

Lemma table_reset t n p m : m_plugins m !! t = Some (n, Some p) →
  table_pointers m = {[+ p.1 +]} ⊎ table_pointers (mkPluginManager (<[t := (n, None)]> (m_plugins m))).
Proof.
  intros Ht. destruct m as [ps]. cbn [m_plugins] in *. rewrite <-(insert_delete_id _ _ _ Ht) at 1.
  rewrite (table_insert t (n, Some p)) by apply lookup_delete_eq.
  rewrite <-(insert_delete_eq ps). by rewrite (table_insert t (n, None)) by apply lookup_delete_eq.
Qed.

Lemma table_lookup t n p m : m_plugins m !! t = Some (n, Some p) → p.1 ∈ table_pointers m.
Proof. intros Ht. rewrite (table_reset _ _ _ _ Ht). multiset_solver. Qed.

Lemma table_pointers_getPlugin t m : table_pointers (getPlugin t m).2 = table_pointers m.
Proof.
  unfold getPlugin. destruct (m_plugins m !! t) as [[? ?]|] eqn:E; [done|]. destruct m as [ps]. cbn [snd m_plugins] in *. by rewrite table_insert.
Qed.

Lemma plain_insert h p d m : plain (insertPlugin (h, p) d m) = insertPlugin p d (plain m).
Proof.
  unfold insertPlugin, plain. cbn [m_plugins]. rewrite lookup_fmap.
  destruct (m_plugins m !! type d); [done|]. cbn. by rewrite fmap_insert.
Qed.
End table.

(** ** Loading *)

Section loading.
Context {Plugin : Type}.
Context (getSupportedPolicyDescr : Plugin → list PolicyDescription) (dlopen : string → option (Library Plugin))
  (scandir : string → option (list (string * bool))).
Implicit Types (s : Libraries Plugin) (h : nat).

(** What was called in a library. *)
Definition events_of h s : list LibraryEvent := filter (λ e, event_handle e = h) (library_events s).

(** A library without the symbols is closed at once; the object of any other one is made and
    destroyed once, in between. *)
Definition whole_life h (l : list LibraryEvent) : Prop :=
  l = [LibraryOpened h; LibraryClosed h] ∨ l = [LibraryOpened h; LibraryCreate h; LibraryDestroy h; LibraryClosed h].

Definition open_life h (held : Prop) `{!Decision held} : list LibraryEvent :=
  [LibraryOpened h; LibraryCreate h] ++ (if bool_decide held then [] else [LibraryDestroy h]).

(** The libraries that are loaded are the ones the manager keeps; the objects that are held by a
    pointer live. *)
Record libraries_ok s : Prop := {
  ok_libs : NoDup (m_pluginLibs s);
  ok_loaded h : h ∈ m_pluginLibs s ↔ h ∈ loaded s;
  ok_pointers h : h ∈ pointers s → h ∈ loaded s;
  ok_fresh h : handles s ≤ h → (h ∉ loaded s) ∧ events_of h s = [];
  ok_open h : h ∈ loaded s → events_of h s = open_life h (h ∈ pointers s);
  ok_closed h : h < handles s → h ∉ loaded s → whole_life h (events_of h s);
}.

Lemma libraries_ok_new : libraries_ok Libraries_new.
Proof. split; cbn; [apply NoDup_nil_2|intros h; by rewrite elem_of_nil, elem_of_empty|multiset_solver|intros h _; split; [apply not_elem_of_empty|done]|intros h Hh; by apply elem_of_empty in Hh|lia]. Qed.

Lemma bind_code_of {A} h (k : unit → SE (Libraries Plugin) A) s : h ∈ loaded s → (code_of h ≫= k) s = k tt s.
Proof. intros Hh. rewrite SE_bind_eq. unfold code_of. by rewrite bool_decide_eq_true_2. Qed.

Definition released h s : Libraries Plugin :=
  let s' := setPointers (pointers s ∖ {[+ h +]}) s in
  if bool_decide (h ∈ pointers s') then s' else happened (LibraryDestroy h) s'.

Lemma release_eq h s : h ∈ loaded s → release h s = (Ret tt, released h s).
Proof.
  intros Hh. unfold release, released. rewrite SE_bind_eq. unfold modify at 1. set (s' := setPointers _ s).
  rewrite SE_bind_eq. unfold gets. destruct (bool_decide (h ∈ pointers s')); [done|]. by rewrite bind_code_of.
Qed.

Lemma events_of_app h s m libs n l p es :
  events_of h (mkLibraries m libs n l p (library_events s ++ es)) = events_of h s ++ filter (λ e, event_handle e = h) es.
Proof. unfold events_of. cbn. by rewrite filter_app. Qed.

Lemma filter_own h (es : list LibraryEvent) : Forall (λ e, event_handle e = h) es → filter (λ e, event_handle e = h) es = es.
Proof. induction 1 as [|e es He _ IH]; [done|]. rewrite filter_cons_True by done. by rewrite IH. Qed.
Lemma filter_other h h' (es : list LibraryEvent) :
  h ≠ h' → Forall (λ e, event_handle e = h) es → filter (λ e, event_handle e = h') es = [].
Proof. intros Hn. induction 1 as [|e es He _ IH]; [done|]. rewrite filter_cons_False by congruence. exact IH. Qed.

Lemma whole_life_own h es : whole_life h es → Forall (λ e, event_handle e = h) es.
Proof. intros [->| ->]; repeat constructor. Qed.
Lemma open_life_own h (P : Prop) `{!Decision P} : Forall (λ e, event_handle e = h) (open_life h P).
Proof. unfold open_life. case_bool_decide; repeat constructor. Qed.

(** A library that is opened and closed again. *)
Lemma ended_ok s es : libraries_ok s → whole_life (handles s) es →
  libraries_ok (mkLibraries (table s) (m_pluginLibs s) (S (handles s)) (loaded s) (pointers s) (library_events s ++ es)).
Proof.
  intros Hs He. pose proof (whole_life_own _ _ He) as Hown. split; cbn [m_pluginLibs loaded pointers handles]; [apply Hs..| | |].
  - intros h Hh. rewrite events_of_app. destruct (ok_fresh _ Hs h) as [? ->]; [lia|]. by rewrite (filter_other (handles s)) by (lia || done).
  - intros h Hh. rewrite events_of_app. rewrite (filter_other (handles s)), app_nil_r; [by apply Hs| |done].
    intros <-. by apply (ok_fresh _ Hs (handles s)) in Hh.
  - intros h Hh Hn. rewrite events_of_app. destruct (decide (h = handles s)) as [->|Hne].
    + destruct (ok_fresh _ Hs (handles s)) as [_ ->]; [lia|]. by rewrite filter_own.
    + rewrite (filter_other (handles s)), app_nil_r by done. apply Hs; [lia|done].
Qed.

(** A library that stays. *)
Lemma kept_ok s m p : libraries_ok s → (∀ h, h ≠ handles s → h ∈ p ↔ h ∈ pointers s) →
  libraries_ok (mkLibraries m (m_pluginLibs s ++ [handles s]) (S (handles s)) ({[handles s]} ∪ loaded s) p
    (library_events s ++ open_life (handles s) (handles s ∈ p))).
Proof.
  intros Hs Hp. destruct (ok_fresh _ Hs (handles s)) as [Hnew Hnone]; [lia|]. pose proof (open_life_own (handles s) (handles s ∈ p)) as Hown.
  split; cbn [m_pluginLibs loaded pointers handles].
  - apply NoDup_app. split; [apply Hs|]. split; [|apply NoDup_singleton]. intros h Hh%Hs. set_solver.
  - intros h. rewrite elem_of_app, (ok_loaded _ Hs). set_solver.
  - intros h Hh. destruct (decide (h = handles s)); [set_solver|]. apply Hp, Hs in Hh; set_solver.
  - intros h Hh. rewrite events_of_app. destruct (ok_fresh _ Hs h) as [? ->]; [lia|]. rewrite (filter_other (handles s)) by (lia || done).
    split; [|done]. rewrite not_elem_of_union. split; [|done]. intros ?%elem_of_singleton. lia.
  - intros h Hh. rewrite events_of_app. destruct (decide (h = handles s)) as [->|Hne]; [by rewrite Hnone, filter_own|].
    rewrite (filter_other (handles s)), app_nil_r by done. rewrite (ok_open _ Hs) by set_solver.
    unfold open_life. f_equal. by rewrite (bool_decide_ext _ _ (Hp h Hne)).
  - intros h Hh Hn. rewrite events_of_app. rewrite (filter_other (handles s)), app_nil_r by (done || set_solver). apply Hs; [|set_solver].
    assert (h ≠ handles s) by set_solver. lia.
Qed.

(** ** One library, and all of a directory *)

Definition insert_all (plugin : Plugin) (ds : list PolicyDescription) (m : PluginManager Plugin) : PluginManager Plugin :=
  foldl (λ m d, insertPlugin plugin d m) m ds.

Lemma supports_all h plugin ds (m : PluginManager (nat * Plugin)) libs n l es : h ∈ l →
  ∃ m', forEach ds (supports h plugin) (mkLibraries m libs n l ({[+ h +]} ⊎ table_pointers m) es) =
    (Ret tt, mkLibraries m' libs n l ({[+ h +]} ⊎ table_pointers m') es) ∧
    (∀ h', h' ≠ h → h' ∈ table_pointers m' ↔ h' ∈ table_pointers m) ∧
    plain m' = insert_all plugin ds (plain m).
Proof.
  intros Hl. revert m. induction ds as [|d ds IH]; intros m; [by exists m|]. cbn [forEach].
  rewrite SE_bind_eq. unfold supports at 1. rewrite SE_bind_eq. unfold share, modify at 1. rewrite SE_bind_eq. unfold gets at 1.
  cbn [table setPointers pointers]. destruct (m_plugins m !! type d) as [e|] eqn:Hd.
  - rewrite release_eq by done. unfold released. cbn [pointers setPointers].
    assert (({[+ h +]} ⊎ ({[+ h +]} ⊎ table_pointers m)) ∖ {[+ h +]} = {[+ h +]} ⊎ table_pointers m) as -> by multiset_solver.
    rewrite bool_decide_eq_true_2 by multiset_solver. destruct (IH m) as (m' & H1 & H2 & H3). exists m'. split; [exact H1|]. split; [done|].
    rewrite H3. unfold insert_all. cbn [foldl]. f_equal. unfold insertPlugin, plain. cbn [m_plugins]. by rewrite lookup_fmap, Hd.
  - unfold modify. destruct (IH (insertPlugin (h, plugin) d m)) as (m' & H1 & H2 & H3). exists m'.
    assert (table_pointers (insertPlugin (h, plugin) d m) = {[+ h +]} ⊎ table_pointers m) as Ht.
    { unfold insertPlugin. rewrite Hd. destruct m as [ps]. cbn [m_plugins] in *. by rewrite table_insert. }
    rewrite Ht in H1, H2. split; [exact H1|]. split; [|by rewrite H3, plain_insert].
    intros h' Hh'. rewrite H2 by done. multiset_solver.
Qed.

(** The plugin that opening a file gives, if any. *)
Definition usable (path : string) : option Plugin :=
  lib ← dlopen path;
  if has_create lib && has_destroy lib then created lib else None.

Lemma insert_all_eq plugin ds m : forEach ds (λ d, modify (insertPlugin plugin d)) m = (Ret tt, insert_all plugin ds m).
Proof. revert m. induction ds as [|d ds IH]; intros m; [done|]. cbn [forEach]. rewrite SE_bind_eq. unfold modify at 1. apply IH. Qed.

Abbreviation only_table s := (pointers s = table_pointers (table s)) (only parsing).

Lemma openLibrary_spec path s : libraries_ok s → only_table s →
  ∃ s', openLibrary getSupportedPolicyDescr dlopen path s = (Ret tt, s') ∧ libraries_ok s' ∧ only_table s' ∧
    plain (table s') = (openPlugin getSupportedPolicyDescr (usable path) (plain (table s))).2.
Proof.
  intros Hs Ho. unfold openLibrary, usable. destruct (dlopen path) as [lib|]; [|by exists s]. rewrite SE_bind_eq. unfold dlopened. cbn [mbind option_bind].
  destruct (ok_fresh _ Hs (handles s)) as [Hnew _]; [lia|].
  assert (({[handles s]} ∪ loaded s) ∖ {[handles s]} = loaded s) as Hl by set_solver.
  assert (handles s ∉ pointers s) as Hp by (by intros ?%Hs).
  assert (({[+ handles s +]} ⊎ pointers s) ∖ {[+ handles s +]} = pointers s) as Hpp by multiset_solver.
  destruct (has_create lib); cbn [negb andb].
  2:{ unfold dlclose. cbn. rewrite Hl, <-app_assoc. eexists. split; [done|]. split; [apply ended_ok; [done|by left]|done]. }
  destruct (has_destroy lib); cbn [negb].
  2:{ unfold dlclose. cbn. rewrite Hl, <-app_assoc. eexists. split; [done|]. split; [apply ended_ok; [done|by left]|done]. }
  rewrite bind_code_of by (cbn; set_solver). rewrite SE_bind_eq. unfold modify at 1. rewrite SE_bind_eq. unfold share, modify at 1.
  set (s1 := setPointers _ _).
  assert ((release (handles s) ;; dlclose (handles s)) s1 =
    (Ret tt, mkLibraries (table s) (m_pluginLibs s) (S (handles s)) (loaded s) (pointers s)
      (library_events s ++ [LibraryOpened (handles s); LibraryCreate (handles s); LibraryDestroy (handles s); LibraryClosed (handles s)]))) as Hend.
  { rewrite SE_bind_eq, release_eq by (cbn; set_solver). unfold released, s1. cbn [pointers setPointers happened]. rewrite Hpp, bool_decide_eq_false_2 by done.
    unfold dlclose. cbn. rewrite Hl, <-!app_assoc. done. }
  destruct (created lib) as [plugin|].
  2:{ rewrite Hend. eexists. split; [done|]. split; [apply ended_ok; [done|by right]|done]. }
  rewrite bind_code_of by (cbn; set_solver). cbn [openPlugin]. rewrite insert_all_eq. cbn [snd]. case_bool_decide as Hds.
  { rewrite Hend, Hds. eexists. split; [done|]. split; [apply ended_ok; [done|by right]|done]. }
  unfold s1, setPointers, happened. cbn [pointers table m_pluginLibs handles loaded library_events]. rewrite Ho, SE_bind_eq.
  destruct (supports_all (handles s) plugin (getSupportedPolicyDescr plugin) (table s) (m_pluginLibs s) (S (handles s)) ({[handles s]} ∪ loaded s)
    ((library_events s ++ [LibraryOpened (handles s)]) ++ [LibraryCreate (handles s)])) as (m' & -> & H2 & H3); [set_solver|].
  rewrite SE_bind_eq. unfold modify. rewrite release_eq by (cbn; set_solver). unfold released. cbn [pointers setPointers keepLibrary].
  assert (({[+ handles s +]} ⊎ table_pointers m') ∖ {[+ handles s +]} = table_pointers m') as -> by multiset_solver.
  eexists. split; [done|].
  pose proof (kept_ok s m' (table_pointers m') Hs ltac:(intros h Hh; by rewrite H2, Ho)) as Hok.
  unfold open_life in Hok. unfold happened, setPointers, keepLibrary. case_bool_decide; (split; [|done]);
    cbn [table pointers m_pluginLibs handles loaded library_events]; rewrite <-!app_assoc; exact Hok.
Qed.

Lemma loadLibraries_spec m_dir s : libraries_ok s → only_table s →
  ∃ s', loadLibraries getSupportedPolicyDescr dlopen scandir m_dir s = (Ret tt, s') ∧ libraries_ok s' ∧ only_table s' ∧
    plain (table s') =
      (loadPlugins getSupportedPolicyDescr ((λ d_name, usable (m_dir +:+ d_name)) <$> default [] (plugin_files <$> scandir m_dir)) (plain (table s))).2.
Proof.
  intros Hs Ho. unfold loadLibraries, loadPlugins. destruct (scandir m_dir) as [entries|]; [|by exists s].
  change (default [] (plugin_files <$> Some entries)) with (plugin_files entries).
  revert s Hs Ho. induction (plugin_files entries) as [|f fs IH]; intros s Hs Ho; [by exists s|]. cbn [forEach fmap list_fmap].
  destruct (openLibrary_spec (m_dir +:+ f) s Hs Ho) as (s1 & H1 & Hs1 & Ho1 & Hp1). rewrite !SE_bind_eq, H1.
  destruct (IH s1 Hs1 Ho1) as (s2 & H2 & Hs2 & Ho2 & Hp2). exists s2. split; [exact H2|]. split; [done|]. split; [done|].
  rewrite Hp2, Hp1. destruct (usable (m_dir +:+ f)) as [pl|]; cbn [openPlugin]; [|done]. by rewrite insert_all_eq.
Qed.
End loading.

(** ** Unloading *)

Section unloading.
Context {Plugin : Type}.
Implicit Types (s : Libraries Plugin) (h : nat).
Abbreviation only_table s := (pointers s = table_pointers (table s)) (only parsing).

(** Pointers from elsewhere go, to objects that the table holds, too. *)
Lemma release_all hs s :
  libraries_ok s → pointers s = list_to_set_disj hs ⊎ table_pointers (table s) → Forall (λ h, h ∈ table_pointers (table s)) hs →
  forEach hs release s = (Ret tt, setPointers (table_pointers (table s)) s).
Proof.
  intros Hs Hp Hall. assert (∀ h, h ∈ table_pointers (table s) → h ∈ loaded s) as Hl by (intros h Hh; apply (ok_pointers _ Hs); rewrite Hp; multiset_solver).
  clear Hs. revert s Hp Hall Hl. induction hs as [|h hs IH]; intros s Hp Hall Hl; cbn [forEach].
  - cbn [list_to_set_disj] in Hp. rewrite gmultiset_disj_union_left_id in Hp. rewrite <-Hp. by destruct s.
  - apply Forall_cons in Hall as [Hh Hall]. rewrite SE_bind_eq, release_eq by auto. unfold released.
    assert (pointers s ∖ {[+ h +]} = list_to_set_disj hs ⊎ table_pointers (table s)) as Hp' by (rewrite Hp, list_to_set_disj_cons; multiset_solver).
    rewrite Hp', bool_decide_eq_true_2 by (cbn [pointers setPointers]; multiset_solver).
    by rewrite (IH (setPointers _ s)).
Qed.

Definition nulled (t : PolicyType) (m : PluginManager (nat * Plugin)) : PluginManager (nat * Plugin) :=
  mkPluginManager (alter (λ e, (e.1, None)) t (m_plugins m)).

Lemma reset_plugin_spec t s : libraries_ok s → only_table s →
  ∃ s', reset_plugin t s = (Ret tt, s') ∧ libraries_ok s' ∧ only_table s' ∧ table s' = nulled t (table s) ∧ handles s' = handles s.
Proof.
  intros Hs Ho. unfold reset_plugin. rewrite SE_bind_eq. unfold gets at 1. destruct (m_plugins (table s) !! t) as [[n [[h p]|]]|] eqn:Ht.
  2,3: exists s; split_and!; try done; unfold nulled; destruct (table s) as [ps]; cbn [m_plugins] in *; f_equal; apply map_eq; intros t';
    destruct (decide (t' = t)) as [->|Hn]; rewrite ?lookup_alter_eq, ?lookup_alter_ne, ?Ht by done; done.
  pose proof (table_reset _ _ _ _ Ht) as Hreset. cbn [fst] in Hreset. set (m' := mkPluginManager _) in *.
  assert (m' = nulled t (table s)) as Hm'.
  { unfold m', nulled. f_equal. apply map_eq. intros t'. destruct (decide (t' = t)) as [->|Hn].
    - by rewrite lookup_insert_eq, lookup_alter_eq, Ht.
    - by rewrite lookup_insert_ne, lookup_alter_ne by done. }
  assert (h ∈ loaded s) as Hh by (apply (ok_pointers _ Hs); rewrite Ho, Hreset; multiset_solver).
  rewrite SE_bind_eq. unfold modify at 1. rewrite release_eq by done. unfold released. change (pointers (setTable m' s)) with (pointers s).
  assert (pointers s ∖ {[+ h +]} = table_pointers m') as -> by (rewrite Ho, Hreset; multiset_solver).
  unfold happened, setPointers, setTable. cbn [table pointers m_pluginLibs handles loaded library_events].
  assert (∀ h', h' ∈ table_pointers m' → h' ∈ pointers s) as Hsub by (intros h'; rewrite Ho, Hreset; multiset_solver).
  assert (∀ h', h' ≠ h → h' ∈ table_pointers m' ↔ h' ∈ pointers s) as Hsame by (intros h'; rewrite Ho, Hreset; multiset_solver).
  assert (h ∈ pointers s) as Hin by (rewrite Ho, Hreset; multiset_solver).
  eexists. split; [done|].
  case_bool_decide as Hleft; cbn [table pointers handles]; (split; [|done]);
    (split; cbn [pointers m_pluginLibs handles loaded]; [apply Hs|apply Hs|intros h' ?%Hsub; by apply (ok_pointers _ Hs)|..]); intros h'.
  - apply Hs.
  - intros Hl. transitivity (events_of h' s); [done|]. rewrite (ok_open _ Hs h' Hl). unfold open_life.
    destruct (decide (h' = h)) as [->|Hn]; [by rewrite !bool_decide_eq_true_2|]. by rewrite (bool_decide_ext _ _ (Hsame h' Hn)).
  - apply Hs.
  - intros Hf. rewrite events_of_app, filter_cons_False; [rewrite app_nil_r; by apply Hs|]. cbn. intros <-. by apply (ok_fresh _ Hs) in Hh.
  - intros Hl. rewrite events_of_app, (ok_open _ Hs h' Hl). unfold open_life. destruct (decide (h' = h)) as [->|Hn].
    + rewrite filter_own by repeat constructor. by rewrite bool_decide_eq_true_2, bool_decide_eq_false_2.
    + rewrite filter_cons_False by (cbn; congruence). rewrite (bool_decide_ext _ _ (Hsame h' Hn)). by rewrite app_nil_r.
  - intros Hlt Hl. rewrite events_of_app, filter_cons_False; [rewrite app_nil_r; by apply Hs|]. cbn. congruence.
Qed.

Lemma reset_all ts s : libraries_ok s → only_table s →
  ∃ s', forEach ts reset_plugin s = (Ret tt, s') ∧ libraries_ok s' ∧ only_table s' ∧
    table s' = foldl (λ m t, nulled t m) (table s) ts ∧ handles s' = handles s.
Proof.
  revert s. induction ts as [|t ts IH]; intros s Hs Ho; [by exists s|]. cbn [forEach foldl].
  destruct (reset_plugin_spec t s Hs Ho) as (s1 & H1 & Hs1 & Ho1 & Ht1 & Hn1). rewrite SE_bind_eq, H1.
  destruct (IH s1 Hs1 Ho1) as (s2 & H2 & Hs2 & Ho2 & Ht2 & Hn2). exists s2. split_and!; [done..|by rewrite Ht2, Ht1|by rewrite Hn2].
Qed.

Lemma nulled_lookup ts m t n p : m_plugins (foldl (λ m t, nulled t m) m ts) !! t = Some (n, Some p) →
  (t ∉ ts) ∧ m_plugins m !! t = Some (n, Some p).
Proof.
  revert m. induction ts as [|t0 ts IH]; intros m; cbn [foldl]; [split; [apply not_elem_of_nil|done]|].
  intros [Hn H]%IH. cbn [nulled m_plugins] in H. destruct (decide (t = t0)) as [->|Hne].
  - rewrite lookup_alter_eq in H. destruct (m_plugins m !! t0) as [e|]; cbn in H; congruence.
  - rewrite lookup_alter_ne in H by done. split; [|done]. by apply not_elem_of_cons.
Qed.

Lemma nulled_all m : table_pointers (foldl (λ m t, nulled t m) m (plugin_types m)) = ∅.
Proof.
  unfold table_pointers. assert (∀ l : list nat, (∀ h, h ∉ l) → list_to_set_disj l =@{gmultiset nat} ∅) as -> ; [|done|].
  { intros [|h l] Hl; [done|]. destruct (Hl h). by left. }
  intros h Hh. unfold table_list in Hh. apply list_elem_of_omap in Hh as ([t [n [p|]]] & Hin & He); [|done].
  apply elem_of_map_to_list in Hin. apply nulled_lookup in Hin as [Hn Hm]. apply Hn. unfold plugin_types.
  rewrite merge_sort_Permutation. apply elem_of_elements, elem_of_dom. by eexists.
Qed.

Lemma close_all libs s : forEach libs dlclose s =
  (Ret tt, mkLibraries (table s) (m_pluginLibs s) (handles s) (loaded s ∖ list_to_set libs) (pointers s) (library_events s ++ (LibraryClosed <$> libs))).
Proof.
  revert s. induction libs as [|h libs IH]; intros s; cbn [forEach].
  - destruct s. cbn. by rewrite difference_empty_L, app_nil_r.
  - rewrite SE_bind_eq. unfold dlclose at 1. rewrite IH. cbn [table m_pluginLibs handles loaded pointers library_events fmap list_fmap list_to_set].
    by rewrite difference_union_distr_r_L, <-app_assoc, difference_difference_l_L, difference_union_distr_r_L.
Qed.

Lemma closed_once h libs : NoDup libs →
  filter (λ e, event_handle e = h) (LibraryClosed <$> libs) = if decide (h ∈ libs) then [LibraryClosed h] else [].
Proof.
  induction 1 as [|h' libs Hn _ IH]; [done|]. cbn [fmap list_fmap]. destruct (decide (h' = h)) as [->|Hne].
  - rewrite filter_cons_True, IH by done. rewrite decide_False by done. by rewrite decide_True by set_solver.
  - rewrite filter_cons_False, IH by done. apply decide_ext. set_solver.
Qed.

(** Who holds the pointers does not matter. *)
Lemma repointed_ok m p s : (∀ h, h ∈ p ↔ h ∈ pointers s) → libraries_ok s → libraries_ok (setPointers p (setTable m s)).
Proof.
  intros Hsame Hs. split; try apply Hs; cbn [setPointers setTable pointers loaded].
  - intros h ?%Hsame. by apply (ok_pointers _ Hs).
  - intros h Hh. transitivity (events_of h s); [done|]. rewrite (ok_open _ Hs h Hh). unfold open_life. by rewrite (bool_decide_ext _ _ (Hsame h)).
Qed.

(** At the end every library that was opened has had its whole life. *)
Lemma finalize_spec m_checks s :
  libraries_ok s → pointers s = list_to_set_disj (context_pointers m_checks) ⊎ table_pointers (table s) →
  Forall (λ h, h ∈ table_pointers (table s)) (context_pointers m_checks) →
  ∃ s', finalize m_checks s = (Ret tt, s') ∧ handles s' = handles s ∧
    ∀ h, if decide (h < handles s) then whole_life h (events_of h s') else events_of h s' = [].
Proof.
  intros Hs Hp Hall. unfold finalize. rewrite SE_bind_eq, release_all by done.
  change (setPointers (table_pointers (table s)) s) with (setPointers (table_pointers (table s)) (setTable (table s) s)).
  set (s1 := setPointers _ (setTable (table s) s)).
  assert (libraries_ok s1) as Hs1.
  { apply (repointed_ok (table s)); [|done]. intros h. rewrite Hp, gmultiset_elem_of_disj_union, elem_of_list_to_set_disj.
    rewrite Forall_forall in Hall. naive_solver. }
  unfold PluginManager_delete. rewrite SE_bind_eq. unfold gets at 1.
  destruct (reset_all (plugin_types (table s1)) s1 Hs1 eq_refl) as (s2 & H2 & Hs2 & Ho2 & Ht2 & Hn2). rewrite SE_bind_eq, H2, SE_bind_eq.
  unfold gets. rewrite close_all. rewrite Ht2, nulled_all in Ho2. eexists. split; [done|]. split; [exact Hn2|]. intros h.
  rewrite events_of_app, closed_once by apply Hs2. change (handles s) with (handles s1). rewrite <-Hn2.
  destruct (decide (h ∈ m_pluginLibs s2)) as [Hin|Hout].
  - apply (ok_loaded _ Hs2) in Hin. rewrite (ok_open _ Hs2 h Hin). unfold open_life. rewrite Ho2, bool_decide_eq_false_2 by multiset_solver.
    rewrite decide_True; [by right|]. destruct (decide (h < handles s2)); [done|]. by destruct (ok_fresh _ Hs2 h) as [? _]; [lia|].
  - rewrite app_nil_r. rewrite (ok_loaded _ Hs2) in Hout. case_decide; [by apply Hs2|]. apply Hs2. lia.
Qed.
End unloading.

(** ** The service uses what the table holds *)

Section service.
Context `{HO : HashOrder} {B D Plugin P : Type} `{SB : StorageBackend B} `{H : !Host B D (nat * Plugin) P}.
Context (fuel : nat) (T : gmultiset nat).

Definition plugin_use (s : Service (nat * Plugin) P B D) :
    PluginManager (nat * Plugin) * gmap LinkId (gmap Z (CheckContext (nat * Plugin))) :=
  (m_pluginManager s, m_checkRequestManager s).

(** The pointers of the table are the ones there were, and a pending check holds one of their
    objects. *)
Definition holds_table (x : PluginManager (nat * Plugin) * gmap LinkId (gmap Z (CheckContext (nat * Plugin)))) : Prop :=
  table_pointers x.1 = T ∧ ∀ l i c, getContext x.2 l i = Some c → (m_plugin c).1 ∈ T.

Abbreviation held := (of_part (B:=B) (D:=D) (P:=P) plugin_use holds_table) (only parsing).

Lemma held_on {X A} (getter : Service (nat * Plugin) P B D → X) setter (m : SE X A) :
  (∀ x s, plugin_use (setter x s) = plugin_use s) → keeps held (on getter setter m).
Proof. apply keeps_on. Qed.
Lemma held_audit key result : keeps held (audit_log key result).
Proof. by apply keeps_audit. Qed.
Lemma held_service : keeps held service.
Proof. apply keeps_gets. Qed.

Lemma held_checks (f : gmap LinkId (gmap Z (CheckContext (nat * Plugin))) → gmap LinkId (gmap Z (CheckContext (nat * Plugin)))) :
  (∀ ch l i c, getContext (f ch) l i = Some c → ∃ c', getContext ch l i = Some c' ∧ m_plugin c = m_plugin c') →
  keeps held (on m_checkRequestManager setChecks (modify f)).
Proof.
  intros Hf [sm s] [Ht Hc]. split; [exact Ht|]. intros l i c H1. apply Hf in H1 as (c' & H1 & ->). by eapply Hc.
Qed.
Lemma held_removeRequest c : keeps held (on m_checkRequestManager setChecks (modify (removeRequest c))).
Proof. apply held_checks. intros ch l i c'. rewrite getContext_removeRequest. case_decide; [done|]. by exists c'. Qed.
Lemma held_cancelContext c : keeps held (on m_checkRequestManager setChecks (modify (cancelContext c))).
Proof.
  apply held_checks. intros ch l i c'. rewrite getContext_cancelContext.
  destruct (getContext ch l i) as [c0|]; case_decide; cbn; intros [= <-]; by exists c0.
Qed.
Hint Resolve held_audit held_service held_removeRequest held_cancelContext : keeps.
Hint Extern 1 (keeps (of_part plugin_use _) (on _ _ _)) => (apply held_on; reflexivity) : keeps.

Lemma createContext_adds key request checkId (plugin : nat * Plugin) t ch l i c :
  getContext (createContext key request checkId plugin t ch).2 l i = Some c → m_plugin c = plugin ∨ getContext ch l i = Some c.
Proof.
  unfold createContext. set (link := m_responseQueue request).
  assert (∀ i, default ∅ (ch !! link) !! i = getContext ch link i) as Hd.
  { intros i'. unfold getContext. by destruct (ch !! link); cbn; rewrite ?lookup_empty. }
  assert (∀ cm, getContext (<[link := cm]> ch) l i = if decide (l = link) then cm !! i else getContext ch l i) as He.
  { intros cm. unfold getContext. destruct (decide (l = link)) as [->|]; [by rewrite lookup_insert_eq|by rewrite lookup_insert_ne]. }
  destruct (default ∅ (ch !! link) !! checkId) as [c0|]; cbn [snd]; rewrite He; (case_decide as Hl; [subst l|by right]).
  - rewrite Hd. by right.
  - destruct (decide (i = checkId)) as [->|]; [rewrite lookup_insert_eq; intros [= <-]; by left|].
    rewrite lookup_insert_ne, Hd by done. by right.
Qed.

Lemma held_askAgent context key checkId plugin agent data :
  plugin.1 ∈ T → keeps held (askAgent context key checkId plugin agent data).
Proof.
  intros Hp. unfold askAgent, talker_send, sendMessage. keep. intros [sm s] [Ht Hc]. unfold on.
  match goal with |- context [createContext _ _ _ _ ?t ?ch] => pose proof (createContext_adds key context checkId plugin t ch) as Hadd end.
  destruct (createContext _ _ _ _ _ _) as [r ch]. split; [exact Ht|]. cbn [snd] in *. intros l i c [-> |Hold]%Hadd; [done|by eapply Hc].
Qed.

(** What the look-up of a type gives is in the table. *)
Lemma held_getPlugin {A} ty (k : option (nat * Plugin) → SE (SocketManager * Service (nat * Plugin) P B D) A) :
  (∀ p, match p with Some plugin => plugin.1 ∈ T | None => True end → keeps held (k p)) →
  keeps held (on m_pluginManager setPluginManager (getPlugin ty) ≫= k).
Proof.
  intros Hk [sm s] [Ht Hc]. rewrite SE_bind_eq. unfold on. pose proof (table_pointers_getPlugin ty (m_pluginManager s)) as Hsame.
  assert (∀ p, (getPlugin ty (m_pluginManager s)).1 = Ret p → match p with Some plugin => plugin.1 ∈ T | None => True end) as Hin.
  { unfold getPlugin. destruct (m_plugins (m_pluginManager s) !! ty) as [[n [p|]]|] eqn:E; intros ? [= <-]; [|done..].
    rewrite <-Ht. by eapply table_lookup. }
  destruct (getPlugin ty (m_pluginManager s)) as [r pm]. cbn [fst snd] in *.
  assert (held (sm, setPluginManager pm s)) as Hst by (split; [by rewrite <-Ht|exact Hc]).
  destruct r as [p|e|]; [|done..]. by apply Hk; [apply Hin|].
Qed.

Hint Resolve held_askAgent : keeps.

Lemma held_check context key checkId : keeps held (check fuel context key checkId).
Proof. unfold check. keep. apply held_getPlugin. intros [plugin|] Hp; keep. Qed.
Lemma held_contextClosed fd : keeps held (contextClosed fd).
Proof.
  unfold contextClosed, cleanupAgent, cancelRequests, handleAgentTalkerDisconnection, handleClientDisconnection,
    talker_cancel, sendMessage, returnResponse. keep.
Qed.
Lemma held_closed fd : keeps held (sys_closed fd).
Proof. by intros [sm s] Hst. Qed.
Lemma held_SimpleCheck context key seq : keeps held (execute_SimpleCheckRequest fuel context key seq).
Proof.
  apply keeps_bind; [keep|intros result]. apply keeps_bind; [|intros; unfold returnResponse; keep].
  apply keeps_if; [keep|]. apply held_getPlugin. intros [plugin|] Hp; keep.
Qed.
Hint Resolve held_check held_SimpleCheck : keeps.

Lemma held_execute fd request : keeps held (Logic_execute fuel fd request).
Proof.
  unfold Logic_execute. keep;
    unfold execute_AdminCheckRequest, execute_AgentActionRequest, execute_AgentRegisterRequest, execute_CancelRequest,
      execute_CheckRequest, execute_DescriptionListRequest, execute_EraseRequest, execute_InsertOrUpdateBucketRequest, execute_ListRequest,
      execute_RemoveBucketRequest, execute_SetPoliciesRequest, guardedQuery, guardedUpdate, answerCode,
      checkPoliciesTypes, checkSinglePolicyType, onStorage, onPoliciesChanged, onMonitor, sendMonitorResponses, update, talker_send,
      talker_cancel, sendMessage, returnResponse, mainLoopStop; keep;
    apply keeps_disconnectAllClients; first [apply held_contextClosed|apply held_closed].
Qed.

Lemma held_reachable st st' : rtc (service_step fuel) st st' → held st → held st'.
Proof.
  induction 1 as [|st1 st2 st3 Hstep _ IH]; [done|]. intros Hn. apply IH. destruct Hstep as [fd r st|fd st|sm sm' s].
  - by apply held_execute.
  - by apply (keeps_closeSocket plugin_use holds_table contextClosed sys_closed fd held_contextClosed held_closed).
  - exact Hn.
Qed.
End service.

(** ** The table that a directory gives *)

Section properties.
Context {Plugin : Type}.
Context (getSupportedPolicyDescr : Plugin → list PolicyDescription) (dlopen : string → option (Library Plugin))
  (scandir : string → option (list (string * bool))) (m_dir : string).

Definition loaded_libraries : Libraries Plugin := (loadLibraries getSupportedPolicyDescr dlopen scandir m_dir Libraries_new).2.

(** The plugins of the files, in alphabetical order. *)
Definition plugins_of_files : list (option Plugin) :=
  (λ d_name, usable dlopen (m_dir +:+ d_name)) <$> default [] (plugin_files <$> scandir m_dir).

(** The entries that a plugin has for a type. *)
Definition entries_for (t : PolicyType) (plugin : option Plugin) : list (string * option Plugin) :=
  match plugin with
  | Some plugin => (λ d, (name d, Some plugin)) <$> filter (λ d, type d = t) (getSupportedPolicyDescr plugin)
  | None => []
  end.

Definition first_or {A} (o : option A) (l : list A) : option A := match o with Some _ => o | None => head l end.

Lemma insert_all_lookup (plugin : Plugin) ds m t :
  m_plugins (insert_all plugin ds m) !! t = first_or (m_plugins m !! t) ((λ d, (name d, Some plugin)) <$> filter (λ d, type d = t) ds).
Proof.
  revert m. induction ds as [|d ds IH]; intros m; [by cbn; destruct (m_plugins m !! t)|].
  unfold insert_all. cbn [foldl]. fold (insert_all plugin ds (insertPlugin plugin d m)). rewrite IH. unfold insertPlugin.
  destruct (decide (type d = t)) as [<-|Hn].
  - rewrite filter_cons_True by done. destruct (m_plugins m !! type d) eqn:E; [by rewrite E|]. cbn [m_plugins]. by rewrite lookup_insert_eq.
  - rewrite filter_cons_False by done. destruct (m_plugins m !! type d) eqn:E; [done|]. cbn [m_plugins]. by rewrite lookup_insert_ne.
Qed.

Lemma loadPlugins_lookup libraries m t :
  m_plugins (loadPlugins getSupportedPolicyDescr libraries m).2 !! t = first_or (m_plugins m !! t) (libraries ≫= entries_for t).
Proof.
  unfold loadPlugins. revert m. induction libraries as [|o libraries IH]; intros m; cbn [forEach]; [by cbn; destruct (m_plugins m !! t)|].
  rewrite SE_bind_eq, bind_cons. destruct o as [plugin|]; [|exact (IH m)].
  cbn [openPlugin entries_for]. rewrite insert_all_eq, IH, insert_all_lookup.
  destruct (m_plugins m !! t) as [e|]; [done|]. cbn [first_or]. by destruct (_ <$> filter _ _).
Qed.

(** Loading does not fail, gives the table that the rest of the development starts with, and for
    each type the plugin of the first file, in alphabetical order, that has one for it: hidden files,
    files that are not regular and libraries without the two symbols count for nothing. *)
Theorem first_plugin_serves :
  loadLibraries getSupportedPolicyDescr dlopen scandir m_dir Libraries_new = (Ret tt, loaded_libraries) ∧
  plain (table loaded_libraries) = (loadPlugins getSupportedPolicyDescr plugins_of_files PluginManager_new).2 ∧
  ∀ t, m_plugins (plain (table loaded_libraries)) !! t = head (plugins_of_files ≫= entries_for t).
Proof.
  destruct (loadLibraries_spec getSupportedPolicyDescr dlopen scandir m_dir Libraries_new libraries_ok_new eq_refl) as (s & Hl & _ & _ & Ht).
  unfold loaded_libraries. rewrite Hl. cbn [snd]. split; [done|]. split; [exact Ht|]. intros t. rewrite Ht, loadPlugins_lookup.
  cbn [table Libraries_new plain m_plugins PluginManager_new]. by rewrite fmap_empty, lookup_empty.
Qed.
End properties.

(** C38: A plugin lives as long as the service may use it, and not longer than its library.
    After any requests and closings, with checks pending or not, the table and the pending checks
    still hold the plugins that were loaded, so that none was destroyed meanwhile; and when the
    service ends, the pending checks and the table are given up without code of a closed library
    being run.  In the end each library that was opened is closed once, and its plugin, if
    it made one, was destroyed once before that. *)
Theorem plugins_outlive_use `{HO : HashOrder} {B D Plugin P : Type} `{SB : StorageBackend B} `{H : !Host B D (nat * Plugin) P}
    getSupportedPolicyDescr (dlopen : string → option (Library Plugin)) scandir m_dir fuel sm0 (s0 : Service (nat * Plugin) P B D) sm s :
  let l := loaded_libraries getSupportedPolicyDescr dlopen scandir m_dir in
  let held := list_to_set_disj (context_pointers (m_checkRequestManager s)) ⊎ table_pointers (m_pluginManager s) in
  m_pluginManager s0 = table l → m_checkRequestManager s0 = ∅ → rtc (service_step fuel) (sm0, s0) (sm, s) →
  (∀ h, h ∈ held ↔ h ∈ pointers l) ∧
  ∃ l', finalize (m_checkRequestManager s) (setPointers held (setTable (m_pluginManager s) l)) = (Ret tt, l') ∧
    ∀ h, if decide (h < handles l) then whole_life h (events_of h l') else events_of h l' = [].
Proof.
  intros l held Ht Hc Hsteps.
  destruct (loadLibraries_spec getSupportedPolicyDescr dlopen scandir m_dir Libraries_new libraries_ok_new eq_refl) as (l0 & Hl0 & Hok & Ho & _).
  assert (l = l0) as -> by (unfold l, loaded_libraries; by rewrite Hl0).
  assert (of_part plugin_use (holds_table (table_pointers (table l0))) (sm, s)) as [Htable Hheld].
  { apply (held_reachable fuel _ (sm0, s0) _ Hsteps). split; cbn; [by rewrite Ht|]. intros lk i c. by rewrite Hc. }
  cbn in Htable, Hheld.
  assert (Forall (λ h, h ∈ table_pointers (m_pluginManager s)) (context_pointers (m_checkRequestManager s))) as Hall.
  { rewrite Htable. apply Forall_forall. intros h Hh. unfold context_pointers in Hh.
    apply list_elem_of_fmap in Hh as (c & -> & (lk & i & Hlc)%elem_contexts). by eapply Hheld. }
  assert (∀ h, h ∈ held ↔ h ∈ pointers l0) as Hsame.
  { intros h. unfold held. rewrite gmultiset_elem_of_disj_union, elem_of_list_to_set_disj, Ho, <-Htable. rewrite Forall_forall in Hall. naive_solver. }
  split; [done|]. destruct (finalize_spec (m_checkRequestManager s) (setPointers held (setTable (m_pluginManager s) l0))) as (l' & H1 & _ & H2).
  - by apply repointed_ok.
  - done.
  - exact Hall.
  - by exists l'.
Qed.

(** ** A directory with three libraries *)

(** A host whose plugins have numbers. *)
#[local] Instance numbered_host `{H : Host B D Plugin P} : Host B D (nat * Plugin) P := {
  storage_save := storage_save;
  storage_load := storage_load;
  plugin_descr p := plugin_descr p.2;
  plugin_invalidate p := plugin_invalidate p.2;
  isServicePlugin p := isServicePlugin p.2;
  plugin_check p := plugin_check p.2;
  plugin_update p := plugin_update p.2;
}.

(** The second library has nothing new, the third one no [destroy]. *)
Definition demo_dlopen (path : string) : option (Library unit) :=
  if bool_decide (path = "/plugin/a.so") then Some (mkLibrary true true (Some tt))
  else if bool_decide (path = "/plugin/b.so") then Some (mkLibrary true true (Some tt))
  else if bool_decide (path = "/plugin/c.so") then Some (mkLibrary true false None) else None.
Definition demo_scandir (dir : string) : option (list (string * bool)) :=
  Some [("c.so", true); (".old", true); ("b.so", true); ("sub", false); ("a.so", true)].
Definition demo_libraries : Libraries unit := loaded_libraries plugin_descr demo_dlopen demo_scandir "/plugin/".

Abbreviation NumberedService := (Service (nat * unit) unit InMemoryStorageBackend (option InMemoryStorageBackend)) (only parsing).
Definition numbered_start : SocketManager * NumberedService :=
  (demo_sockets, setPluginManager (table demo_libraries) (Service_new demo_database AL_ALL tt (Some demo_database))).
Definition numbered_agent : SocketManager * NumberedService := (Logic_execute 5 2 (AgentRegisterRequest "agent" 1) numbered_start).2.
Definition numbered_asked : SocketManager * NumberedService := (Logic_execute 5 1 (CheckRequest net_key 7) numbered_agent).2.

(** A check waits for its agent while the service ends. *)
Lemma plugins_outlive_use_witness :
  context_pointers (m_checkRequestManager numbered_asked.2) = [0] ∧ handles demo_libraries = 3 ∧
  ∃ l', finalize (m_checkRequestManager numbered_asked.2)
      (setPointers (list_to_set_disj [0] ⊎ table_pointers (m_pluginManager numbered_asked.2))
        (setTable (m_pluginManager numbered_asked.2) demo_libraries)) = (Ret tt, l') ∧
    ∀ h, if decide (h < 3) then whole_life h (events_of h l') else events_of h l' = [].
Proof.
  split; [vm_compute; reflexivity|]. split; [vm_compute; reflexivity|].
  refine (proj2 (plugins_outlive_use plugin_descr demo_dlopen demo_scandir "/plugin/" 5 demo_sockets numbered_start.2
    numbered_asked.1 numbered_asked.2 eq_refl eq_refl _)).
  rewrite <-surjective_pairing. apply (rtc_l _ _ numbered_agent); [apply step_request|].
  apply (rtc_l _ _ numbered_asked); [apply step_request|]. apply rtc_refl.
Defined.
