(* ===== verification/PolicyChange.v ===== *)
(** * What follows a change of the policies

    [onPoliciesChanged] saves the database, closes the connections of all clients, whose
    cached decisions are void with that, and has the plugins forget theirs. *)
From S2P Require Import Prelude Text Types Bucket StorageBackend Storage.
From S2P Require Import BinaryQueue Serialization Frame Messages ProtocolClient Protocols SocketManager.
From S2P Require Import EntriesQueue Monitor PluginManager Agents PendingChecks.
From S2P Require Import InMemoryStorageBackend Service ServiceLemmas ServiceDemo.

(** What a slot of the descriptor table is used for. *)
Definition shape (d : Descriptor) : bool * bool * bool * option ProtocolKind :=
  (m_listen d, m_used d, m_client d, m_protocol d).
(** The test of [disconnectAllClients]. *)
Definition client_slot (x : bool * bool * bool * option ProtocolKind) : bool :=
  let '(listen, used, client, _) := x in used && client && negb listen.

(** A slot after all clients were closed. *)
Definition closed_slot (x : bool * bool * bool * option ProtocolKind) : bool * bool * bool * option ProtocolKind :=
  if client_slot x then shape Descriptor_new else x.

Section service.
Context `{HO : HashOrder} {B D Plugin P : Type} `{SB : StorageBackend B} `{H : !Host B D Plugin P}.
Abbreviation State := (SocketManager * Service Plugin P B D)%type (only parsing).
Implicit Types (sm : SocketManager) (s : Service Plugin P B D) (st : State).

(** The slots, the number of closings at each, the database and its file. *)
Definition slots st : list (bool * bool * bool * option ProtocolKind) := shape <$> m_fds st.1.
Definition closed_at st (i : nat) : nat := default 0 (closings st.2 !! i).
Definition saved st : B * D * bool := (m_storage st.2, disk st.2, m_dbCorrupted st.2).

Definition same_slots st st' : Prop :=
  slots st' = slots st ∧ closings st'.2 = closings st.2 ∧ saved st' = saved st.

Abbreviation quiet st := (keeps (same_slots st)) (only parsing).

Lemma quiet_on st {X A} (getter : Service Plugin P B D → X) setter (m : SE X A) :
  (∀ x s, closings (setter x s) = closings s ∧ m_storage (setter x s) = m_storage s ∧ disk (setter x s) = disk s ∧
    m_dbCorrupted (setter x s) = m_dbCorrupted s) → quiet st (on getter setter m).
Proof.
  intros Hp [sm s] (H1 & H2 & H3). unfold on. destruct (m (getter s)) as [r x].
  destruct (Hp x s) as (E1 & E2 & E3 & E4). unfold same_slots, saved in *. cbn [fst snd] in *.
  rewrite E1, E2, E3, E4. done.
Qed.

Lemma slots_insert (sm : SocketManager) s fd d d' :
  m_fds sm !! fd = Some d → shape d' = shape d →
  slots (setFds (<[fd := d']> (m_fds sm)) sm, s) = slots (sm, s).
Proof.
  intros Hd Hs. unfold slots. cbn [fst m_fds setFds]. rewrite list_fmap_insert, Hs.
  apply list_insert_id. by rewrite list_lookup_fmap, Hd.
Qed.

Lemma quiet_writeTo st link write : quiet st (writeTo link write).
Proof.
  unfold writeTo. keep; try apply keeps_gets. intros [sm s] (H1 & H2 & H3). unfold onDesc.
  destruct (m_fds sm !! link.1) as [d|] eqn:Hd; [|done]. destruct (write d (m_writeQueue d)) as [r q].
  cbn [snd].
  split; [|done]. by rewrite (slots_insert sm s link.1 d).
Qed.

Lemma quiet_audit st key result : quiet st (audit_log key result).
Proof. apply keeps_modify. intros [sm s] Hs. case_match; exact Hs. Qed.

Hint Resolve quiet_writeTo quiet_audit : keeps.
Hint Extern 1 (keeps (same_slots _) (on _ _ _)) => (apply quiet_on; by intros) : keeps.

Lemma quiet_contextClosed st fd : quiet st (contextClosed fd).
Proof.
  unfold contextClosed, cleanupAgent, cancelRequests, handleAgentTalkerDisconnection, handleClientDisconnection,
    talker_cancel, sendMessage, returnResponse, service. keep.
Qed.

Lemma quiet_onManager st f :
  (∀ sm sm', f sm = Ret sm' → m_fds sm' = m_fds sm) → quiet st (onManager f).
Proof.
  intros Hf [sm s] (H1 & H2 & H3). unfold onManager. destruct (f sm) as [sm'|e|] eqn:E; [|done..].
  split; [|done]. unfold slots in *. cbn [fst snd] in *. by rewrite (Hf sm sm' E).
Qed.

(** [closeSocket] empties the slot and counts a closing; nothing else is lost. *)
Lemma closeSocket_slot st fd st' :
  closeSocket contextClosed sys_closed fd st = (Ret tt, st') →
  slots st' = <[fd := shape Descriptor_new]> (slots st) ∧
  closings st'.2 = <[fd := S (closed_at st fd)]> (closings st.2) ∧ saved st' = saved st.
Proof.
  unfold closeSocket. rewrite SE_bind_eq.
  pose proof (quiet_contextClosed st fd st ltac:(done)) as Hq1.
  destruct (contextClosed fd st) as [[[]|e|] st1]; [|done..]. cbn [snd] in Hq1.
  assert (quiet st (removeReadSocket fd)) as Hr.
  { apply quiet_onManager. intros sm sm'. destruct (FD_CLR _ _); [|done..]. by intros [= <-]. }
  assert (quiet st (removeWriteSocket fd)) as Hw.
  { apply quiet_onManager. intros sm sm'. destruct (FD_CLR _ _); [|done..]. by intros [= <-]. }
  rewrite SE_bind_eq. specialize (Hr st1 Hq1). destruct (removeReadSocket fd st1) as [[[]|e|] st2]; [|done..].
  rewrite SE_bind_eq. specialize (Hw st2 Hr). destruct (removeWriteSocket fd st2) as [[[]|e|] [sm3 s3]]; [|done..].
  rewrite SE_bind_eq. cbn [snd] in Hw. destruct Hw as (E1 & E2 & E3). unfold onDesc.
  destruct (m_fds sm3 !! fd) as [d|] eqn:Hd; [|done]. cbn [modify]. unfold sys_closed. intros [= <-].
  unfold slots, saved, closed_at in *. cbn [fst snd m_fds setFds closings setClosings m_storage disk m_dbCorrupted] in *.
  rewrite list_fmap_insert, E1, E2. done.
Qed.

Definition client_at st (i : nat) : nat :=
  match slots st !! i with Some x => if client_slot x then 1 else 0 | None => 0 end.

(** The slots from [a] to [a + n] are visited. *)
Lemma disconnect_loop n a st st' :
  forEach (seq a n) (λ i, d ← desc i;
    if m_used d && m_client d && negb (m_listen d) then closeSocket contextClosed sys_closed i else mret tt) st =
    (Ret tt, st') →
  (∀ i, slots st' !! i = (if decide (a ≤ i < a + n) then closed_slot else id) <$> slots st !! i) ∧
  (∀ i, closed_at st' i = closed_at st i + (if decide (a ≤ i < a + n) then client_at st i else 0)) ∧
  saved st' = saved st.
Proof.
  revert a st. induction n as [|n IH]; intros a st; cbn [seq forEach].
  - intros [= <-]. split_and!; [| |done].
    + intros i. rewrite decide_False by lia. by rewrite option_fmap_id.
    + intros i. rewrite decide_False by lia. lia.
  - rewrite SE_bind_eq, SE_bind_eq. destruct st as [sm s]. unfold desc at 1.
    destruct (m_fds sm !! a) as [d|] eqn:Hd; [|done].
    assert (slots (sm, s) !! a = Some (shape d)) as Ha by (unfold slots; cbn; by rewrite list_lookup_fmap, Hd).
    change (m_used d && m_client d && negb (m_listen d)) with (client_slot (shape d)).
    destruct (client_slot (shape d)) eqn:Hc.
    + destruct (closeSocket contextClosed sys_closed a (sm, s)) as [[[]|e|] st1] eqn:E; [|done..]. intros Hrun.
      destruct (closeSocket_slot _ _ _ E) as (S1 & C1 & V1). destruct (IH (S a) st1 Hrun) as (S2 & C2 & V2).
      split_and!; [| |by rewrite V2].
      * intros i. rewrite S2, S1. destruct (decide (i = a)) as [->|Hne].
        -- rewrite decide_False by lia. rewrite decide_True by lia.
           rewrite list_lookup_insert_eq by (by eapply lookup_lt_Some). rewrite Ha. cbn. unfold closed_slot. by rewrite Hc.
        -- rewrite list_lookup_insert_ne by done. by repeat case_decide; try lia.
      * intros i. rewrite C2. unfold client_at, closed_at. rewrite C1, S1. destruct (decide (i = a)) as [->|Hne].
        -- rewrite decide_False by lia. rewrite decide_True by lia. rewrite lookup_insert_eq, Ha, Hc. unfold closed_at. cbn. lia.
        -- rewrite list_lookup_insert_ne, lookup_insert_ne by done. repeat case_decide; lia.
    + cbn [mret SE_ret]. intros Hrun. destruct (IH (S a) (sm, s) Hrun) as (S2 & C2 & V2). split_and!; [| |done].
      * intros i. rewrite S2. destruct (decide (i = a)) as [->|Hne].
        -- rewrite decide_False by lia. rewrite decide_True by lia. rewrite Ha. cbn. unfold closed_slot. by rewrite Hc.
        -- by repeat case_decide; try lia.
      * intros i. rewrite C2. destruct (decide (i = a)) as [->|Hne].
        -- rewrite decide_False by lia. rewrite decide_True by lia. unfold client_at. by rewrite Ha, Hc.
        -- repeat case_decide; lia.
Qed.

(** What [onPoliciesChanged] leaves of the database and of a slot. *)
Lemma policies_changed_slot sm s sm' s' :
  onPoliciesChanged (sm, s) = (Ret tt, (sm', s')) →
  storage_save (m_storage s) (disk s) = (Ret tt, disk s') ∧ m_storage s' = m_storage s ∧
  ∀ i d, (Z.of_nat i ≤ m_maxDesc sm)%Z → m_fds sm !! i = Some d →
    ∃ d', m_fds sm' !! i = Some d' ∧ shape d' = closed_slot (shape d) ∧
      closed_at (sm', s') i = closed_at (sm, s) i + (if client_slot (shape d) then 1 else 0).
Proof.
  unfold onPoliciesChanged. rewrite SE_bind_eq. unfold service at 1, gets. cbn [snd]. rewrite SE_bind_eq. unfold on at 1.
  destruct (storage_save (m_storage s) (disk s)) as [[[]|e|] d0] eqn:Hsave; [|done..]. rewrite SE_bind_eq.
  destruct (disconnectAllClients contextClosed sys_closed (sm, setDisk d0 s)) as [[[]|e|] [sm1 s1]] eqn:Hdis; [|done..].
  rewrite SE_bind_eq. unfold service, gets, on. cbn [snd]. destruct (invalidateAll _ _ _) as [r p1]. intros [= -> <- <-].
  unfold disconnectAllClients in Hdis. cbn [fst] in Hdis.
  destruct (disconnect_loop _ _ _ _ Hdis) as (Hs & Hc & [= Hst Hd]). cbn [snd fst] in *.
  cbn [disk setPluginState m_storage]. rewrite Hd, Hst. split_and!; [done..|].
  intros i d Hmax Hi. assert (0 ≤ i < 0 + Z.to_nat (m_maxDesc sm + 1)) as Hin by lia.
  assert (slots (sm, setDisk d0 s) !! i = Some (shape d)) as Hi' by (unfold slots; cbn; by rewrite list_lookup_fmap, Hi).
  specialize (Hs i). specialize (Hc i). unfold client_at in Hc. rewrite decide_True, Hi' in Hc by done.
  rewrite decide_True, Hi' in Hs by done. cbn in Hs.
  unfold slots in Hs. cbn [fst] in Hs. rewrite list_lookup_fmap in Hs.
  destruct (m_fds sm1 !! i) as [d'|] eqn:Hd'; [|done]. injection Hs as Hs. by exists d'.
Qed.

Lemma linkOf_closed_at sm s i : linkOf s i = (i, closed_at (sm, s) i).
Proof. done. Qed.

(** C13: A change of the policies reaches the clients: when [onPoliciesChanged] returns, the
    database in memory is saved, every connection of a client is closed and can never be
    answered again, and every other slot of the descriptor table, the listening sockets
    among them, is used as before and not closed. *)
Theorem policies_changed_disconnects sm s sm' s' :
  onPoliciesChanged (sm, s) = (Ret tt, (sm', s')) →
  storage_save (m_storage s) (disk s) = (Ret tt, disk s') ∧ m_storage s' = m_storage s ∧
  ∀ i d, (Z.of_nat i ≤ m_maxDesc sm)%Z → m_fds sm !! i = Some d →
    ∃ d', m_fds sm' !! i = Some d' ∧
      if client_slot (shape d)
      then shape d' = shape Descriptor_new ∧ linkOf s' i ≠ linkOf s i
      else shape d' = shape d ∧ linkOf s' i = linkOf s i.
Proof.
  intros Hrun. destruct (policies_changed_slot sm s sm' s' Hrun) as (Hsave & Hst & Hslots). split_and!; [done..|].
  intros i d Hmax Hi. destruct (Hslots i d Hmax Hi) as (d' & Hd' & Hs & Hc). exists d'. split; [done|].
  rewrite (linkOf_closed_at sm'), (linkOf_closed_at sm), Hc. unfold closed_slot in Hs. destruct (client_slot (shape d)).
  - split; [done|]. intros [= Hn]. lia.
  - split; [done|]. f_equal. lia.
Qed.
End service.

(** An administrator changes the policies while the client waits for the agent. *)
Lemma policies_changed_disconnects_witness :
  let st := onPoliciesChanged demo_asked in
  st.1 = Ret tt ∧ disk st.2.2 = Some demo_database ∧ linkOf st.2.2 1 ≠ linkOf demo_asked.2 1 ∧
  linkOf st.2.2 2 = linkOf demo_asked.2 2.
Proof.
  set (st := onPoliciesChanged demo_asked). cbv zeta.
  assert (onPoliciesChanged (demo_asked.1, demo_asked.2) = (Ret tt, (st.2.1, st.2.2))) as Hrun by (vm_compute; reflexivity).
  destruct (policies_changed_disconnects _ _ _ _ Hrun) as (Hsave & _ & Hslots).
  split; [vm_compute; reflexivity|]. split.
  { vm_compute. reflexivity. }
  assert (∃ d1 d2, m_fds demo_asked.1 !! 1 = Some d1 ∧ client_slot (shape d1) = true ∧
    m_fds demo_asked.1 !! 2 = Some d2 ∧ client_slot (shape d2) = false) as (d1 & d2 & H1 & C1 & H2 & C2).
  { eexists _, _. split; [vm_compute; reflexivity|]. split; [reflexivity|]. split; [vm_compute; reflexivity|reflexivity]. }
  assert (m_maxDesc demo_asked.1 = 3%Z) as Hmax by (vm_compute; reflexivity).
  destruct (Hslots 1 d1 ltac:(lia) H1) as (? & _ & Hc1). destruct (Hslots 2 d2 ltac:(lia) H2) as (? & _ & Hc2).
  rewrite C1 in Hc1. rewrite C2 in Hc2. split; [apply Hc1|apply Hc2].
Defined.
