(* ===== verification/FileLock.v ===== *)
(** * The lock on the database ([common/lock/FileLock])

    Service and administration library exclude each other by [flock] on a file.  [W] is the
    system; the calls are arguments, already repeated while they are interrupted
    ([TEMP_FAILURE_RETRY]). *)
From S2P Require Import Prelude Text.

Definition EWOULDBLOCK : Z := 11.

Inductive FlockOperation := LOCK_EX | LOCK_EX_NB | LOCK_UN.

Record Lockable := mkLockable { m_lockFd : nat }.

Section file_lock.
Context {W : Type}.
(** The descriptor, or [errno]. *)
Context (sys_open : string → W → (nat + Z) * W).
(** Success, or [errno]. *)
Context (sys_flock : nat → FlockOperation → W → option Z * W).

Definition Lockable_new (lockFilename : string) : SE W Lockable := λ w,
  match sys_open lockFilename w with
  | (inl fd, w') => (Ret (mkLockable fd), w')
  | (inr errno, w') => (Throw (FileLockAcquiringException errno), w')
  end.

Definition tryLock (m_lockable : Lockable) : SE W bool := λ w,
  match sys_flock (m_lockFd m_lockable) LOCK_EX_NB w with
  | (None, w') => (Ret true, w')
  | (Some errno, w') =>
      if (errno =? EWOULDBLOCK)%Z then (Ret false, w') else (Throw (FileLockAcquiringException errno), w')
  end.

Definition lock (m_lockable : Lockable) : SE W unit := λ w,
  match sys_flock (m_lockFd m_lockable) LOCK_EX w with
  | (None, w') => (Ret tt, w')
  | (Some errno, w') => (Throw (FileLockAcquiringException errno), w')
  end.

Definition unlock (m_lockable : Lockable) (w : W) : W := (sys_flock (m_lockFd m_lockable) LOCK_UN w).2.
End file_lock.
