(* ===== verification/OfflineLogic.v ===== *)
(** * Administration without the service ([admin/logic/OfflineLogic])

    Each call loads the database from the disk into a storage of its own, works on it and
    saves it.  The back end [B] and its files are those of Service.v ([Host], with the
    system [W] as the disk); [empty] is a back end without buckets, [libraries] the service's
    plugins in the plugin directory. *)
From S2P Require Import Prelude Text Types Api Bucket StorageBackend Storage.
From S2P Require Import BinaryQueue Serialization Frame Messages ProtocolClient ProtocolAdmin Protocols SocketManager.
From S2P Require Import EntriesQueue Monitor PluginManager Agents Service.

(** The unique pointers, null before the first call. *)
Record OfflineLogic (B Plugin : Type) := mkOfflineLogic {
  m_offlineStorage : option B;
  m_offlinePlugins : option (PluginManager Plugin);
}.
Arguments mkOfflineLogic {B Plugin}.
Arguments m_offlineStorage {B Plugin} _.
Arguments m_offlinePlugins {B Plugin} _.

Section offline.
Context `{HO : HashOrder} {B W Plugin P : Type} `{SB : StorageBackend B} `{H : !Host B W Plugin P}.
Context (fuel : nat) (empty : B) (libraries : list (option Plugin)).
(** [DB_FILES_SMACK_LABEL], if it is defined; [opendir] and [readdir] on the database directory;
    [smack_set_label_for_path]. *)
Context (DB_FILES_SMACK_LABEL : option string) (dbDir : string)
  (sys_readdir : W → option (list string) * W) (smack_set_label : string → string → W → bool * W).

Abbreviation Offline := (SE (OfflineLogic B Plugin * W)) (only parsing).

Definition OfflineLogic_new : OfflineLogic B Plugin := mkOfflineLogic None None.

(** Calls through the pointers; a null pointer is undefined behaviour. *)
Definition setOfflineStorage (b : B) : Offline unit := modify (λ '(o, w), (mkOfflineLogic (Some b) (m_offlinePlugins o), w)).
Definition setOfflinePlugins (m : PluginManager Plugin) : Offline unit :=
  modify (λ '(o, w), (mkOfflineLogic (m_offlineStorage o) (Some m), w)).
Definition onSystem {A} (m : SE W A) : Offline A := λ '(o, w), let '(r, w') := m w in (r, (o, w')).
Definition storage : Offline B :=
  s ← get; match m_offlineStorage s.1 with Some b => mret b | None => throw UndefinedBehaviour end.
Definition plugins : Offline (PluginManager Plugin) :=
  s ← get; match m_offlinePlugins s.1 with Some m => mret m | None => throw UndefinedBehaviour end.
Definition onStorage {A} (m : SE B A) : Offline A := λ '(o, w),
  match m_offlineStorage o with
  | Some b => let '(r, b') := m b in (r, (mkOfflineLogic (Some b') (m_offlinePlugins o), w))
  | None => (Throw UndefinedBehaviour, (o, w))
  end.

Definition acquireDatabase : Offline unit :=
  setOfflineStorage empty ;;
  b ← onSystem storage_load;
  setOfflineStorage b.

Definition acquirePlugins : Offline unit :=
  setOfflinePlugins (loadPlugins plugin_descr libraries PluginManager_new).2.

Definition checkSinglePolicyType (policyType : PolicyType) (allowBucket allowNone : bool) : Offline unit :=
  if allowBucket && (policyType =? BUCKET)%Z then mret tt
  else if allowNone && (policyType =? NONE)%Z then mret tt
  else if existsb (λ descr, type descr =? policyType)%Z predefinedPolicyDescr then mret tt
  else m_pluginManager ← plugins; reads (λ _, checkPolicyType m_pluginManager policyType).

Definition checkPoliciesTypes (policies : gmap PolicyBucketId (list Policy)) (allowBucket allowNone : bool) : Offline unit :=
  forEach (groups policies) (λ group,
    forEach group.2 (λ policy, checkSinglePolicyType (policyType (result policy)) allowBucket allowNone)).

Definition labelDatabaseFiles (w : W) : W :=
  match DB_FILES_SMACK_LABEL with
  | None => w
  | Some label =>
      match sys_readdir w with
      | (Some dbDirectory, w') => foldl (λ w d_name, (smack_set_label (dbDir +:+ d_name) label w).2) w' dbDirectory
      | (None, w') => w'
      end
  end.

Definition onPoliciesChanged : Offline unit :=
  b ← storage;
  onSystem (storage_save b) ;;
  modify (λ '(o, w), (o, labelDatabaseFiles w)).

(** [try { .. } catch ...; return CYNARA_API_SUCCESS;], without and with an output argument. *)
Definition returnCode (m : Offline unit) (handler : exn → option Z) : Offline Z :=
  tryCatch (m ;; mret CYNARA_API_SUCCESS) (λ e, match handler e with Some code => mret code | None => throw e end).
Definition returnValue {A} (m : Offline A) (handler : exn → option Z) : Offline (Z + A) :=
  tryCatch (a ← m; mret (inr a)) (λ e, match handler e with Some code => mret (inl code) | None => throw e end).

Definition setPolicies (insertOrUpdate : gmap PolicyBucketId (list Policy))
    (remove : gmap PolicyBucketId (list PolicyKey)) : Offline Z :=
  returnCode
    (acquireDatabase ;;
     acquirePlugins ;;
     checkPoliciesTypes insertOrUpdate true false ;;
     onStorage (insertPolicies (groups insertOrUpdate)) ;;
     onStorage (deletePolicies (groups remove)) ;;
     onPoliciesChanged)
    (λ e, match e with
          | BucketNotExistsException _ => Some CYNARA_API_BUCKET_NOT_FOUND
          | DatabaseCorruptedException => Some CYNARA_API_DATABASE_CORRUPTED
          | UnknownPolicyTypeException _ => Some CYNARA_API_INVALID_PARAM
          | _ => if isDatabaseException e then Some CYNARA_API_OPERATION_FAILED else None
          end).

Definition insertOrUpdateBucket (bucket : PolicyBucketId) (policyResult : PolicyResult) : Offline Z :=
  returnCode
    (acquireDatabase ;;
     acquirePlugins ;;
     checkSinglePolicyType (policyType policyResult) true true ;;
     onStorage (addOrUpdateBucket bucket policyResult) ;;
     onPoliciesChanged)
    (λ e, match e with
          | DefaultBucketSetNoneException | InvalidBucketIdException _ => Some CYNARA_API_OPERATION_NOT_ALLOWED
          | DatabaseCorruptedException => Some CYNARA_API_DATABASE_CORRUPTED
          | UnknownPolicyTypeException _ => Some CYNARA_API_INVALID_PARAM
          | _ => if isDatabaseException e then Some CYNARA_API_OPERATION_FAILED else None
          end).

Definition removeBucket (bucket : PolicyBucketId) : Offline Z :=
  returnCode
    (acquireDatabase ;;
     onStorage (Storage.deleteBucket bucket) ;;
     onPoliciesChanged)
    (λ e, match e with
          | BucketNotExistsException _ => Some CYNARA_API_BUCKET_NOT_FOUND
          | DefaultBucketDeletionException => Some CYNARA_API_OPERATION_NOT_ALLOWED
          | DatabaseCorruptedException => Some CYNARA_API_DATABASE_CORRUPTED
          | _ => if isDatabaseException e then Some CYNARA_API_OPERATION_FAILED else None
          end).

(** The handlers of the queries and of [erasePolicies]: no [DatabaseException]. *)
Definition queryHandler (e : exn) : option Z :=
  match e with
  | BucketNotExistsException _ => Some CYNARA_API_BUCKET_NOT_FOUND
  | DatabaseCorruptedException => Some CYNARA_API_DATABASE_CORRUPTED
  | _ => None
  end.

Definition adminCheck (startBucket : PolicyBucketId) (recursive : bool) (key : PolicyKey) : Offline (Z + PolicyResult) :=
  returnValue
    (acquireDatabase ;;
     b ← storage;
     reads (λ _, checkPolicy fuel b key startBucket recursive))
    queryHandler.

Definition listDescriptions : Offline (Z + list PolicyDescription) :=
  acquirePlugins ;;
  m_pluginManager ← plugins;
  mret (inr (predefinedPolicyDescr ++ getPolicyDescriptions m_pluginManager)).

Definition listPolicies (bucket : PolicyBucketId) (filter : PolicyKey) : Offline (Z + list Policy) :=
  returnValue
    (acquireDatabase ;;
     b ← storage;
     reads (λ _, Storage.listPolicies b bucket filter))
    queryHandler.

Definition erasePolicies (startBucket : PolicyBucketId) (recursive : bool) (filter : PolicyKey) : Offline Z :=
  returnCode
    (acquireDatabase ;;
     onStorage (Storage.erasePolicies fuel startBucket recursive filter) ;;
     onPoliciesChanged)
    queryHandler.
End offline.
