(* ===== verification/OnlineLogic.v ===== *)
(** * Administration through the service ([admin/logic/OnlineLogic])

    Each call is a request over the administration socket; the answer is turned into an
    error code.  The state is the socket client and the counter of sequence numbers (a
    static variable of the library).  [fuel] bounds the waiting on the socket, [rounds] the
    wake-ups without a whole response and [tries] the reconnections. *)
From S2P Require Import Prelude Text Types Api BinaryQueue Serialization Frame Messages.
From S2P Require Import ProtocolClient ProtocolAdmin Protocols SocketClient.

Record OnlineLogic := mkOnlineLogic {
  m_onlineSocketClient : SocketClient;
  onlineSequenceNumber : Z;
}.

Definition OnlineLogic_new : OnlineLogic := mkOnlineLogic (SocketClient_new PAdmin) 0.

Section online.
Context {W : Type}.
Context (sys_poll : PollEvent → SE W PollResult) (sys_getsockopt : SE W (Z + Z))
  (sys_socket : SE W (unit + Z)) (sys_connect : SE W ConnectResult)
  (sys_send : string → SE W SendResult) (sys_recv : SE W RecvResult).
Context (tries rounds fuel : nat).

Abbreviation Online := (SE (OnlineLogic * W)) (only parsing).

Definition onSocketClient {A} (m : SE (SocketClient * W) A) : Online A := λ '(o, w),
  let '(r, (c, w')) := m (m_onlineSocketClient o, w) in (r, (mkOnlineLogic c (onlineSequenceNumber o), w')).

(** [return ++sequenceNumber], on 16 bits *)
Definition generateSequenceNumber : Online Z :=
  modify (λ '(o, w), (mkOnlineLogic (m_onlineSocketClient o) ((onlineSequenceNumber o + 1) mod 2 ^ 16), w)) ;;
  gets (λ s, onlineSequenceNumber s.1).

Definition connect : Online bool := onSocketClient (SocketClient_connect sys_poll sys_getsockopt sys_socket sys_connect).
Definition ask (request : Request) : Online (option Response) :=
  onSocketClient (askCynaraServer sys_poll sys_send sys_recv rounds fuel request).

Definition ensureConnection : Online bool :=
  connected ← onSocketClient (SocketClient_isConnected sys_poll sys_getsockopt);
  if connected : bool then mret true else connect.

(** The loop of [getResponse]. *)
Fixpoint askAgain (tries : nat) (request : Request) : Online (option Response) :=
  match tries with
  | 0 => λ s, (OutOfFuel, s)
  | S tries' =>
      response ← ask request;
      match response with
      | Some response => mret (Some response)
      | None =>
          connected ← connect;
          if connected : bool then askAgain tries' request else mret None
      end
  end.

(** [cast] is the [dynamic_pointer_cast] to the class of the answer. *)
Definition getResponse {Res} (cast : Response → option Res) (request : Z → Request) : Online (Z + Res) :=
  connected ← ensureConnection;
  if negb connected then mret (inl CYNARA_API_SERVICE_NOT_AVAILABLE)
  else
    sequenceNumber ← generateSequenceNumber;
    response ← askAgain tries (request sequenceNumber);
    match response with
    | None => mret (inl CYNARA_API_SERVICE_NOT_AVAILABLE)
    | Some response =>
        match cast response with
        | None => mret (inl CYNARA_API_UNKNOWN_ERROR)
        | Some retResponse => mret (inr retResponse)
        end
    end.

Definition interpretCodeResponse (code : Z) : Z :=
  if (code =? CodeResponseCode.OK)%Z then CYNARA_API_SUCCESS
  else if (code =? CodeResponseCode.NOT_ALLOWED)%Z then CYNARA_API_OPERATION_NOT_ALLOWED
  else if (code =? CodeResponseCode.NO_BUCKET)%Z then CYNARA_API_BUCKET_NOT_FOUND
  else if (code =? CodeResponseCode.NO_POLICY_TYPE)%Z then CYNARA_API_INVALID_PARAM
  else if (code =? CodeResponseCode.FAILED)%Z then CYNARA_API_OPERATION_FAILED
  else if (code =? CodeResponseCode.DB_CORRUPTED)%Z then CYNARA_API_DATABASE_CORRUPTED
  else CYNARA_API_UNKNOWN_ERROR.

Definition asCode (r : Response) : option Z := match r with CodeResponse code _ => Some code | _ => None end.

(** The calls that are answered by a [CodeResponse]. *)
Definition getCode (request : Z → Request) : Online Z :=
  ret ← getResponse asCode request;
  match ret with
  | inl ret => mret ret
  | inr code => mret (interpretCodeResponse code)
  end.

Definition setPolicies (insertOrUpdate : gmap PolicyBucketId (list Policy))
    (remove : gmap PolicyBucketId (list PolicyKey)) : Online Z :=
  getCode (SetPoliciesRequest insertOrUpdate remove).

Definition insertOrUpdateBucket (bucket : PolicyBucketId) (policyResult : PolicyResult) : Online Z :=
  getCode (InsertOrUpdateBucketRequest bucket policyResult).

Definition removeBucket (bucket : PolicyBucketId) : Online Z := getCode (RemoveBucketRequest bucket).

Definition erasePolicies (startBucket : PolicyBucketId) (recursive : bool) (filter : PolicyKey) : Online Z :=
  getCode (EraseRequest startBucket recursive filter).

Definition adminCheck (startBucket : PolicyBucketId) (recursive : bool) (key : PolicyKey) : Online (Z + PolicyResult) :=
  ret ← getResponse (λ r, match r with AdminCheckResponse result bucketValid dbCorrupted _ => Some (result, bucketValid, dbCorrupted) | _ => None end)
          (AdminCheckRequest key startBucket recursive);
  match ret with
  | inl ret => mret (inl ret)
  | inr (result, bucketValid, dbCorrupted) =>
      if dbCorrupted : bool then mret (inl CYNARA_API_DATABASE_CORRUPTED)
      else if negb bucketValid then mret (inl CYNARA_API_BUCKET_NOT_FOUND)
      else mret (inr result)
  end.

Definition listPolicies (bucket : PolicyBucketId) (filter : PolicyKey) : Online (Z + list Policy) :=
  ret ← getResponse (λ r, match r with ListResponse policies bucketValid dbCorrupted _ => Some (policies, bucketValid, dbCorrupted) | _ => None end)
          (ListRequest bucket filter);
  match ret with
  | inl ret => mret (inl ret)
  | inr (policies, bucketValid, dbCorrupted) =>
      if dbCorrupted : bool then mret (inl CYNARA_API_DATABASE_CORRUPTED)
      else if negb bucketValid then mret (inl CYNARA_API_BUCKET_NOT_FOUND)
      else mret (inr policies)
  end.

Definition listDescriptions : Online (Z + list PolicyDescription) :=
  ret ← getResponse (λ r, match r with DescriptionListResponse descriptions dbCorrupted _ => Some (descriptions, dbCorrupted) | _ => None end)
          DescriptionListRequest;
  match ret with
  | inl ret => mret (inl ret)
  | inr (descriptions, dbCorrupted) =>
      if dbCorrupted : bool then mret (inl CYNARA_API_DATABASE_CORRUPTED) else mret (inr descriptions)
  end.
End online.
