(* ===== verification/AdminLogic.v ===== *)
(** * The administration library ([admin/logic/Logic], [admin/api/admin-api.cpp])

    [Logic] takes the lock of the service: who gets it works on the database directly
    (OfflineLogic.v), else the service is asked (OnlineLogic.v).  The interface checks and
    translates the arguments.  [W] is the system of both. *)
From S2P Require Import Prelude Text FileSystem Types Api Bucket StorageBackend Storage.
From S2P Require Import BinaryQueue Serialization Frame Messages ProtocolClient ProtocolAdmin Protocols SocketManager SocketClient.
From S2P Require Import EntriesQueue Monitor PluginManager Agents Service FileLock OfflineLogic OnlineLogic.

(** ** Operation codes and structures ([cynara-policy-types.h], [cynara-admin-types.h]) *)

Definition CYNARA_ADMIN_DELETE : Z := -1.
Definition CYNARA_ADMIN_DENY : Z := 0.
Definition CYNARA_ADMIN_NONE : Z := 1.
Definition CYNARA_ADMIN_BUCKET : Z := 65534.
Definition CYNARA_ADMIN_ALLOW : Z := 65535.

Definition CYNARA_ADMIN_WILDCARD : string := "*".

(** Strings are pointers; [None] is the null pointer. *)
Record cynara_admin_policy := mkAdminPolicy {
  ap_bucket : option string;
  ap_client : option string;
  ap_user : option string;
  ap_privilege : option string;
  ap_result : Z;
  ap_result_extra : option string;
}.

Record cynara_admin_policy_descr := mkAdminPolicyDescr {
  descr_result : Z;
  descr_name : option string;
}.

(** ** Functions of the interface without state *)

Definition int2PolicyType (type : Z) : option PolicyType :=
  if (type <? 0)%Z then None
  else if (65535 <? type)%Z then None
  else Some type.

(** The lambdas [feature] and [key] of [cynara_admin_set_policies]. *)
Definition api_feature (str : string) : PolicyKeyFeature :=
  if negb (bool_decide (CYNARA_ADMIN_WILDCARD = str)) then mkPolicyKeyFeature str else createWildcard.
Definition api_key (policy : cynara_admin_policy) : PolicyKey :=
  mkPolicyKey (api_feature (default "" (ap_client policy))) (api_feature (default "" (ap_user policy)))
    (api_feature (default "" (ap_privilege policy))).

(** The loop over the array; [i] is the index, an error code ends it. *)
Fixpoint collectPolicies (i : nat) (policies : list cynara_admin_policy)
    (insertOrUpdate : gmap PolicyBucketId (list Policy)) (remove : gmap PolicyBucketId (list PolicyKey)) :
    Z + (gmap PolicyBucketId (list Policy) * gmap PolicyBucketId (list PolicyKey)) :=
  match policies with
  | [] => inr (insertOrUpdate, remove)
  | policy :: policies' =>
      if CYNARA_MAX_VECTOR_SIZE <=? i then inl CYNARA_API_INVALID_PARAM
      else if negb (isStringValid (ap_bucket policy)) || negb (isStringValid (ap_client policy)) then inl CYNARA_API_INVALID_PARAM
      else if negb (isStringValid (ap_user policy)) || negb (isStringValid (ap_privilege policy)) then inl CYNARA_API_INVALID_PARAM
      else
        let bucket := default "" (ap_bucket policy) in
        if (ap_result policy =? CYNARA_ADMIN_NONE)%Z then inl CYNARA_API_INVALID_PARAM
        else if (ap_result policy =? CYNARA_ADMIN_DELETE)%Z then
          collectPolicies (S i) policies' insertOrUpdate (pushBack bucket (api_key policy) remove)
        else if (ap_result policy =? CYNARA_ADMIN_BUCKET)%Z && negb (isStringValid (ap_result_extra policy))
        then inl CYNARA_API_INVALID_PARAM
        else
          let extraStr := default "" (ap_result_extra policy) in
          match int2PolicyType (ap_result policy) with
          | None => inl CYNARA_API_INVALID_PARAM
          | Some policyType =>
              collectPolicies (S i) policies'
                (pushBack bucket (mkPolicy (api_key policy) (mkPolicyResult policyType extraStr)) insertOrUpdate) remove
          end
  end.

(** [strdup] of a string of the library: up to the first NUL; nothing for an empty extra. *)
Definition result_extra_of (metadata : string) : option string :=
  if bool_decide (metadata = "") then None else Some (c_str metadata).

Definition copyPolicy (bucket : string) (from : Policy) : cynara_admin_policy :=
  mkAdminPolicy (Some bucket) (Some (c_str (value (client (key from))))) (Some (c_str (value (user (key from)))))
    (Some (c_str (value (privilege (key from))))) (policyType (result from)) (result_extra_of (metadata (result from))).

Definition copyDescr (from : PolicyDescription) : cynara_admin_policy_descr :=
  mkAdminPolicyDescr (type from) (Some (c_str (name from))).

(** [createNullTerminatedArray]: the elements before the null pointer. *)
Definition createNullTerminatedArray {V T} (vectorized : list V) (copyFun : V → T) : list T := map copyFun vectorized.

(** ** [Logic] *)

Record AdminLogic (B Plugin : Type) := mkAdminLogic {
  m_onlineLogic : OnlineLogic;
  m_offlineLogic : OfflineLogic B Plugin;
  m_lockable : Lockable;
}.
Arguments mkAdminLogic {B Plugin}.
Arguments m_onlineLogic {B Plugin} _.
Arguments m_offlineLogic {B Plugin} _.
Arguments m_lockable {B Plugin} _.

Section admin.
Context `{HO : HashOrder} {B W Plugin P : Type} `{SB : StorageBackend B} `{H : !Host B W Plugin P}.
Context (depth : nat) (empty : B) (libraries : list (option Plugin)).
Context (DB_FILES_SMACK_LABEL : option string) (dbDir lockFile : string)
  (sys_readdir : W → option (list string) * W) (smack_set_label : string → string → W → bool * W).
Context (sys_open : string → W → (nat + Z) * W) (sys_flock : nat → FlockOperation → W → option Z * W).
Context (sys_poll : PollEvent → SE W PollResult) (sys_getsockopt : SE W (Z + Z))
  (sys_socket : SE W (unit + Z)) (sys_connect : SE W ConnectResult)
  (sys_send : string → SE W SendResult) (sys_recv : SE W RecvResult).
Context (tries rounds fuel : nat).

Abbreviation Admin := (SE (AdminLogic B Plugin * W)) (only parsing).

Definition Logic_new : SE W (AdminLogic B Plugin) :=
  m_lockable ← Lockable_new sys_open lockFile;
  mret (mkAdminLogic OnlineLogic_new OfflineLogic_new m_lockable).

(** Calls on the members. *)
Definition onOffline {A} (m : SE (OfflineLogic B Plugin * W) A) : Admin A := λ '(a, w),
  let '(r, (o, w')) := m (m_offlineLogic a, w) in (r, (mkAdminLogic (m_onlineLogic a) o (m_lockable a), w')).
Definition onOnline {A} (m : SE (OnlineLogic * W) A) : Admin A := λ '(a, w),
  let '(r, (o, w')) := m (m_onlineLogic a, w) in (r, (mkAdminLogic o (m_offlineLogic a) (m_lockable a), w')).

(** The lock is released however the call ends. *)
Definition callApiFunction {A} (offline : SE (OfflineLogic B Plugin * W) A) (online : SE (OnlineLogic * W) A) : Admin A := λ '(a, w),
  let '(r, (a', w')) :=
    (locked ← (λ '(a, w), let '(r, w') := tryLock sys_flock (m_lockable a) w in (r, (a, w')));
     if locked : bool then onOffline offline else onOnline online) (a, w) in
  (r, (a', unlock sys_flock (m_lockable a') w')).

Definition setPolicies (insertOrUpdate : gmap PolicyBucketId (list Policy))
    (remove : gmap PolicyBucketId (list PolicyKey)) : Admin Z :=
  callApiFunction
    (OfflineLogic.setPolicies empty libraries DB_FILES_SMACK_LABEL dbDir sys_readdir smack_set_label insertOrUpdate remove)
    (OnlineLogic.setPolicies sys_poll sys_getsockopt sys_socket sys_connect sys_send sys_recv tries rounds fuel insertOrUpdate remove).

Definition insertOrUpdateBucket (bucket : PolicyBucketId) (policyResult : PolicyResult) : Admin Z :=
  callApiFunction
    (OfflineLogic.insertOrUpdateBucket empty libraries DB_FILES_SMACK_LABEL dbDir sys_readdir smack_set_label bucket policyResult)
    (OnlineLogic.insertOrUpdateBucket sys_poll sys_getsockopt sys_socket sys_connect sys_send sys_recv tries rounds fuel bucket policyResult).

Definition removeBucket (bucket : PolicyBucketId) : Admin Z :=
  callApiFunction
    (OfflineLogic.removeBucket empty DB_FILES_SMACK_LABEL dbDir sys_readdir smack_set_label bucket)
    (OnlineLogic.removeBucket sys_poll sys_getsockopt sys_socket sys_connect sys_send sys_recv tries rounds fuel bucket).

Definition adminCheck (startBucket : PolicyBucketId) (recursive : bool) (key : PolicyKey) : Admin (Z + PolicyResult) :=
  callApiFunction
    (OfflineLogic.adminCheck depth empty startBucket recursive key)
    (OnlineLogic.adminCheck sys_poll sys_getsockopt sys_socket sys_connect sys_send sys_recv tries rounds fuel startBucket recursive key).

Definition listDescriptions : Admin (Z + list PolicyDescription) :=
  callApiFunction
    (OfflineLogic.listDescriptions libraries)
    (OnlineLogic.listDescriptions sys_poll sys_getsockopt sys_socket sys_connect sys_send sys_recv tries rounds fuel).

Definition listPolicies (bucket : PolicyBucketId) (filter : PolicyKey) : Admin (Z + list Policy) :=
  callApiFunction
    (OfflineLogic.listPolicies empty bucket filter)
    (OnlineLogic.listPolicies sys_poll sys_getsockopt sys_socket sys_connect sys_send sys_recv tries rounds fuel bucket filter).

Definition erasePolicies (startBucket : PolicyBucketId) (recursive : bool) (filter : PolicyKey) : Admin Z :=
  callApiFunction
    (OfflineLogic.erasePolicies depth empty DB_FILES_SMACK_LABEL dbDir sys_readdir smack_set_label startBucket recursive filter)
    (OnlineLogic.erasePolicies sys_poll sys_getsockopt sys_socket sys_connect sys_send sys_recv tries rounds fuel startBucket recursive filter).

(** ** The interface

    The handle is not null where these run; a null handle or output pointer gives
    [CYNARA_API_INVALID_PARAM].  A call with output arguments gives a code other than
    success, or the outputs. *)

Definition cynara_admin_initialize : SE W (Z + AdminLogic B Plugin) :=
  api_tryCatchValue
    (tryCatch (logic ← Logic_new; mret (inr logic))
       (λ e, match e with FileLockAcquiringException _ => mret (inl CYNARA_API_OPERATION_FAILED) | _ => throw e end)).

(** [policies] is the array before its null pointer. *)
Definition cynara_admin_set_policies (policies : option (list cynara_admin_policy)) : Admin Z :=
  match policies with
  | None => mret CYNARA_API_INVALID_PARAM
  | Some policies =>
      api_tryCatch
        (match collectPolicies 0 policies ∅ ∅ with
         | inl code => mret code
         | inr (insertOrUpdate, remove) => setPolicies insertOrUpdate remove
         end)
  end.

Definition cynara_admin_set_bucket (bucket : option string) (operation : Z) (extra : option string) : Admin Z :=
  if negb (isStringValid bucket) || negb (isExtraStringValid extra) then mret CYNARA_API_INVALID_PARAM
  else
    let bucket := default "" bucket in
    api_tryCatch
      (if (operation =? CYNARA_ADMIN_DELETE)%Z then removeBucket bucket
       else if (operation =? CYNARA_ADMIN_NONE)%Z then
         if negb (bool_decide (bucket = defaultPolicyBucketId)) then insertOrUpdateBucket bucket (PolicyResult_of NONE)
         else mret CYNARA_API_OPERATION_NOT_ALLOWED
       else if (operation =? CYNARA_ADMIN_BUCKET)%Z then mret CYNARA_API_INVALID_PARAM
       else
         let extraStr := default "" extra in
         match int2PolicyType operation with
         | None => mret CYNARA_API_INVALID_PARAM
         | Some policyType => insertOrUpdateBucket bucket (mkPolicyResult policyType extraStr)
         end).

Definition cynara_admin_check (start_bucket : option string) (recursive : Z) (client user privilege : option string) :
    Admin (Z + (Z * option string)) :=
  if negb (isStringValid start_bucket) || negb (isStringValid client) then mret (inl CYNARA_API_INVALID_PARAM)
  else if negb (isStringValid user) || negb (isStringValid privilege) then mret (inl CYNARA_API_INVALID_PARAM)
  else
    api_tryCatchValue
      (ret ← adminCheck (default "" start_bucket) (negb (recursive =? 0)%Z)
               (PolicyKey_of (default "" client) (default "" user) (default "" privilege));
       match ret with
       | inl ret => mret (inl ret)
       | inr policyResult => mret (inr (policyType policyResult, result_extra_of (metadata policyResult)))
       end).

Definition cynara_admin_list_policies (bucket client user privilege : option string) : Admin (Z + list cynara_admin_policy) :=
  if negb (isStringValid bucket) || negb (isStringValid client) then mret (inl CYNARA_API_INVALID_PARAM)
  else if negb (isStringValid user) || negb (isStringValid privilege) then mret (inl CYNARA_API_INVALID_PARAM)
  else
    api_tryCatchValue
      (ret ← listPolicies (default "" bucket) (PolicyKey_of (default "" client) (default "" user) (default "" privilege));
       match ret with
       | inl ret => mret (inl ret)
       | inr policiesVector => mret (inr (createNullTerminatedArray policiesVector (copyPolicy (default "" bucket))))
       end).

Definition cynara_admin_list_policies_descriptions : Admin (Z + list cynara_admin_policy_descr) :=
  api_tryCatchValue
    (ret ← listDescriptions;
     match ret with
     | inl ret => mret (inl ret)
     | inr descriptionsVector => mret (inr (createNullTerminatedArray descriptionsVector copyDescr))
     end).

Definition cynara_admin_erase (start_bucket : option string) (recursive : Z) (client user privilege : option string) : Admin Z :=
  if negb (isStringValid start_bucket) || negb (isStringValid client) then mret CYNARA_API_INVALID_PARAM
  else if negb (isStringValid user) || negb (isStringValid privilege) then mret CYNARA_API_INVALID_PARAM
  else
    api_tryCatch
      (erasePolicies (default "" start_bucket) (negb (recursive =? 0)%Z)
         (PolicyKey_of (default "" client) (default "" user) (default "" privilege))).
End admin.
