(* ===== verification/AdminTheorems.v ===== *)
(** * Theorems on administration

    With and without the service, an administrator's update has the same outcome; and what
    the interface of the library makes of the policies it is given. *)
From S2P Require Import Prelude Text Types Api Bucket StorageBackend Storage InMemoryStorageBackend.
From S2P Require Import BinaryQueue Serialization Frame Messages ProtocolClient ProtocolAdmin Protocols SocketManager.
From S2P Require Import EntriesQueue Monitor PluginManager Agents Service ServiceDemo ServiceErrors PolicyChange.
From S2P Require Import FileLock OfflineLogic OnlineLogic AdminLogic.

Lemma then_assoc {S} (a b c : SE S unit) s : ((a ;; b) ;; c) s = (a ;; b ;; c) s.
Proof. rewrite !SE_bind_eq. by destruct (a s) as [[?|?|] ?]. Qed.
Lemma then_assoc3 {S} (a b c d : SE S unit) s : ((a ;; b ;; c) ;; d) s = (a ;; b ;; c ;; d) s.
Proof. rewrite then_assoc, !(SE_bind_eq a). destruct (a s) as [[?|?|] ?]; [apply then_assoc|done..]. Qed.

Section updates.
Context `{HO : HashOrder} {B W Plugin P : Type} `{SB : StorageBackend B} `{H : !Host B W Plugin P}.
Context (depth : nat) (empty : B) (libraries : list (option Plugin)).
Context (DB_FILES_SMACK_LABEL : option string) (dbDir : string)
  (sys_readdir : W → option (list string) * W) (smack_set_label : string → string → W → bool * W).
Implicit Types (sm : SocketManager) (s : Service Plugin P B W) (o : OfflineLogic B Plugin) (w d : W) (pm : PluginManager Plugin).

(** ** Both programs do the same to the storage

    [op] is what an update does to the storage; [m] does [op] on the storage of the service,
    or of the offline logic, and nothing else. *)

Definition same_types pm1 pm2 : Prop := ∀ t, checkPolicyType pm1 t = checkPolicyType pm2 t.

Definition service_does pm (m : SE (SocketManager * Service Plugin P B W) unit) (op : SE B unit) : Prop := ∀ sm s,
  same_types pm (m_pluginManager s) → m (sm, s) = ((op (m_storage s)).1, (sm, setStorage (op (m_storage s)).2 s)).
Definition offline_does (po : option (PluginManager Plugin)) (m : SE (OfflineLogic B Plugin * W) unit) (op : SE B unit) : Prop :=
  ∀ b w, m (mkOfflineLogic (Some b) po, w) = ((op b).1, (mkOfflineLogic (Some (op b).2) po, w)).

Lemma service_does_then pm m1 m2 op1 op2 :
  service_does pm m1 op1 → service_does pm m2 op2 → service_does pm (m1 ;; m2) (op1 ;; op2).
Proof.
  intros H1 H2 sm s Hpm. rewrite !SE_bind_eq, H1 by done. destruct (op1 (m_storage s)) as [[[]|e|] b]; [|done..].
  cbn [fst snd]. by rewrite H2.
Qed.
Lemma offline_does_then po m1 m2 op1 op2 :
  offline_does po m1 op1 → offline_does po m2 op2 → offline_does po (m1 ;; m2) (op1 ;; op2).
Proof.
  intros H1 H2 b w. rewrite !SE_bind_eq, H1. destruct (op1 b) as [[[]|e|] b']; [|done..]. cbn [fst snd]. by rewrite H2.
Qed.

Lemma service_does_skip pm : service_does pm (mret tt) (mret tt).
Proof. intros sm s _. unfold mret, SE_ret. cbn. by rewrite setStorage_same. Qed.

Lemma service_does_each pm {A} (l : list A) m op :
  (∀ x, service_does pm (m x) (op x)) → service_does pm (forEach l m) (forEach l op).
Proof.
  intros Hx. induction l as [|x l IH]; cbn [forEach]; [apply service_does_skip|].
  apply (service_does_then pm _ _ _ _ (Hx x) IH).
Qed.
Lemma offline_does_each po {A} (l : list A) m op :
  (∀ x, offline_does po (m x) (op x)) → offline_does po (forEach l m) (forEach l op).
Proof.
  intros Hx. induction l as [|x l IH]; cbn [forEach]; [done|]. apply (offline_does_then po _ _ _ _ (Hx x) IH).
Qed.

Lemma service_does_storage pm op : service_does pm (Service.onStorage op) op.
Proof. intros sm s _. apply onStorage_eq. Qed.
Lemma offline_does_storage po op : offline_does po (onStorage op) op.
Proof. intros b w. unfold onStorage. cbn. by destruct (op b). Qed.

(** The type of one policy. *)
Definition type_op pm (t : PolicyType) (allowBucket allowNone : bool) : SE B unit :=
  if allowBucket && (t =? BUCKET)%Z then mret tt
  else if allowNone && (t =? NONE)%Z then mret tt
  else if existsb (λ descr, type descr =? t)%Z predefinedPolicyDescr then mret tt
  else reads (λ _, checkPolicyType pm t).

Lemma service_does_type pm t a n : service_does pm (Service.checkSinglePolicyType t a n) (type_op pm t a n).
Proof.
  intros sm s Hpm. unfold Service.checkSinglePolicyType, type_op.
  destruct (a && _); [by apply (service_does_skip pm)|]. destruct (n && _); [by apply (service_does_skip pm)|].
  destruct (existsb _ _); [by apply (service_does_skip pm)|]. rewrite SE_bind_eq. unfold service, gets, reads. cbn [fst snd].
  by rewrite Hpm, setStorage_same.
Qed.
Lemma offline_does_type pm t a n : offline_does (Some pm) (checkSinglePolicyType t a n) (type_op pm t a n).
Proof.
  intros b w. unfold checkSinglePolicyType, type_op.
  destruct (a && _); [done|]. destruct (n && _); [done|]. by destruct (existsb _ _).
Qed.

Definition types_op pm (policies : gmap PolicyBucketId (list Policy)) : SE B unit :=
  forEach (groups policies) (λ g, forEach g.2 (λ p, type_op pm (policyType (result p)) true false)).

Lemma service_does_types pm policies : service_does pm (Service.checkPoliciesTypes policies true false) (types_op pm policies).
Proof. apply service_does_each. intros g. apply service_does_each. intros p. apply service_does_type. Qed.
Lemma offline_does_types pm policies : offline_does (Some pm) (checkPoliciesTypes policies true false) (types_op pm policies).
Proof. apply offline_does_each. intros g. apply offline_does_each. intros p. apply offline_does_type. Qed.

(** ** The outcome of an update *)

(** The service can disconnect its clients and tell its plugins. *)
Definition undisturbed sm s : Prop := ∀ b d, ∃ st,
  (disconnectAllClients contextClosed sys_closed ;;
   s' ← service;
   on pluginState setPluginState (invalidateAll plugin_invalidate (m_pluginManager s'))) (sm, setDisk d (setStorage b s)) = (Ret tt, st).

(** The service writes [code], with the storage [b] and the disk [d]. *)
Definition replies s fd seq (run : outcome unit * (SocketManager * Service Plugin P B W)) code b d : Prop :=
  ∃ sm1 s1, run = returnResponse (contextOf s fd) (CodeResponse code seq) (sm1, s1) ∧ m_storage s1 = b ∧ disk s1 = d.

Lemma onPoliciesChanged_undisturbed sm s b :
  undisturbed sm s →
  match storage_save b (disk s) with
  | (Ret _, d) => ∃ sm1 s1, Service.onPoliciesChanged (sm, setStorage b s) = (Ret tt, (sm1, s1)) ∧ m_storage s1 = b ∧ disk s1 = d
  | (Throw e, d) => Service.onPoliciesChanged (sm, setStorage b s) = (Throw e, (sm, setDisk d (setStorage b s)))
  | (OutOfFuel, d) => (Service.onPoliciesChanged (sm, setStorage b s)).1 = OutOfFuel
  end.
Proof.
  intros Hun. rewrite onPoliciesChanged_eq. cbn [m_storage setStorage disk].
  destruct (storage_save b (disk s)) as [[[]|e|] d]; [|done..].
  destruct (Hun b d) as [st Hst]. rewrite SE_bind_eq in Hst.
  destruct (disconnectAllClients _ _ _) as [[[]|e|] [sm1 s1]] eqn:Hdis; [|done..].
  unfold disconnectAllClients in Hdis. destruct (disconnect_loop _ _ _ _ Hdis) as (_ & _ & [= Hst1 Hd1]).
  rewrite SE_bind_eq in Hst. unfold service, gets, on in Hst. cbn [snd fst] in Hst, Hst1, Hd1.
  destruct (invalidateAll _ _ _) as [r p]. injection Hst as -> _. eexists _, _. split; [done|]. by split.
Qed.

(** How the service ends an update that does [op]. *)
Lemma service_update pm m op hs sm s fd seq :
  service_does pm m op → same_types pm (m_pluginManager s) → m_dbCorrupted s = false → undisturbed sm s →
  let run := guardedUpdate m hs (contextOf s fd) seq (sm, s) in
  let ends e b d := match hs e with Some code => replies s fd seq run code b d | None => run.1 = Throw e end in
  match op (m_storage s) with
  | (Ret _, b) =>
      match storage_save b (disk s) with
      | (Ret _, d) => replies s fd seq run CodeResponseCode.OK b d
      | (Throw e, d) => ends e b d
      | (OutOfFuel, _) => run.1 = OutOfFuel
      end
  | (Throw e, b) => ends e b (disk s)
  | (OutOfFuel, _) => run.1 = OutOfFuel
  end.
Proof.
  intros Hm Hpm Hdb Hun run ends.
  assert (run = (code ← answerCode (m ;; Service.onPoliciesChanged) hs; returnResponse (contextOf s fd) (CodeResponse code seq)) (sm, s)) as Hrun.
  { unfold run, guardedUpdate. rewrite SE_bind_eq. unfold service, gets. cbn [snd]. by rewrite Hdb. }
  rewrite SE_bind_eq in Hrun. unfold answerCode, tryCatch in Hrun. rewrite SE_bind_eq, SE_bind_eq, Hm in Hrun by done.
  unfold ends. clear ends. destruct (op (m_storage s)) as [[[]|e|] b]; cbn [fst snd] in Hrun |- *.
  - pose proof (onPoliciesChanged_undisturbed sm s b Hun) as Hch.
    destruct (storage_save b (disk s)) as [[[]|e|] d].
    + destruct Hch as (sm1 & s1 & Hch & Hb & Hd). rewrite Hch in Hrun. by exists sm1, s1.
    + rewrite Hch in Hrun. destruct (hs e); rewrite Hrun; [|done]. by eexists _, _.
    + destruct (Service.onPoliciesChanged _) as [r ?]. cbn in Hch. subst r. by rewrite Hrun.
  - destruct (hs e); rewrite Hrun; [|done]. by eexists _, _.
  - by rewrite Hrun.
Qed.

Abbreviation label := (labelDatabaseFiles DB_FILES_SMACK_LABEL dbDir sys_readdir smack_set_label).
Abbreviation offline_save := (onPoliciesChanged DB_FILES_SMACK_LABEL dbDir sys_readdir smack_set_label).

(** How the offline logic ends it. *)
Lemma offline_update po m op ho b w :
  offline_does po m op →
  returnCode (m ;; offline_save) ho (mkOfflineLogic (Some b) po, w) =
    let ends e b d := (match ho e with Some ret => Ret ret | None => Throw e end, (mkOfflineLogic (Some b) po, d)) in
    match op b with
    | (Ret _, b') =>
        match storage_save b' w with
        | (Ret _, d) => (Ret CYNARA_API_SUCCESS, (mkOfflineLogic (Some b') po, label d))
        | (Throw e, d) => ends e b' d
        | (OutOfFuel, d) => (OutOfFuel, (mkOfflineLogic (Some b') po, d))
        end
    | (Throw e, b') => ends e b' w
    | (OutOfFuel, b') => (OutOfFuel, (mkOfflineLogic (Some b') po, w))
    end.
Proof.
  intros Hm. unfold returnCode, tryCatch. rewrite SE_bind_eq, SE_bind_eq, Hm. destruct (op b) as [[[]|e|] b']; cbn [fst snd].
  - destruct (storage_save b' w) as [[[]|e|] d] eqn:Hs; unfold onPoliciesChanged, storage, onSystem;
      rewrite SE_bind_eq, SE_bind_eq; cbn [get fst m_offlineStorage mret SE_ret]; rewrite SE_bind_eq, Hs; [done| |done].
    by destruct (ho e).
  - by destruct (ho e).
  - done.
Qed.

Lemma returnCode_ext (m m' : SE (OfflineLogic B Plugin * W) unit) ho st st' :
  m st = m' st' → returnCode m ho st = returnCode m' ho st'.
Proof. intros Hm. unfold returnCode, tryCatch. by rewrite !SE_bind_eq, Hm. Qed.

Lemma acquired {A} (m : SE (OfflineLogic B Plugin * W) A) o w b d :
  storage_load w = (Ret b, d) →
  (acquireDatabase empty ;; m) (o, w) = m (mkOfflineLogic (Some b) (m_offlinePlugins o), d).
Proof.
  intros Hl. rewrite SE_bind_eq. unfold acquireDatabase. rewrite SE_bind_eq. cbn [setOfflineStorage modify].
  rewrite SE_bind_eq. unfold onSystem. by rewrite Hl.
Qed.

Lemma plugins_acquired {A} (m : SE (OfflineLogic B Plugin * W) A) o w :
  (acquirePlugins libraries ;; m) (o, w) =
    m (mkOfflineLogic (m_offlineStorage o) (Some (loadPlugins plugin_descr libraries PluginManager_new).2), w).
Proof. by rewrite SE_bind_eq. Qed.

(** The call of the offline logic for a request. *)
Definition offline_call (request : Request) : SE (OfflineLogic B Plugin * W) Z :=
  match request with
  | SetPoliciesRequest inserted removed _ =>
      OfflineLogic.setPolicies empty libraries DB_FILES_SMACK_LABEL dbDir sys_readdir smack_set_label inserted removed
  | InsertOrUpdateBucketRequest bucketId result _ =>
      OfflineLogic.insertOrUpdateBucket empty libraries DB_FILES_SMACK_LABEL dbDir sys_readdir smack_set_label bucketId result
  | RemoveBucketRequest bucketId _ => OfflineLogic.removeBucket empty DB_FILES_SMACK_LABEL dbDir sys_readdir smack_set_label bucketId
  | EraseRequest startBucket recursive filter _ =>
      OfflineLogic.erasePolicies depth empty DB_FILES_SMACK_LABEL dbDir sys_readdir smack_set_label startBucket recursive filter
  | _ => mret 0%Z
  end.

Definition is_erase (request : Request) : bool := match request with EraseRequest _ _ _ _ => true | _ => false end.

(** What is compared: how the offline call ended, and the run of the service. *)
Definition agrees request fd s (run : outcome unit * (SocketManager * Service Plugin P B W))
    (call : outcome Z * (OfflineLogic B Plugin * W)) : Prop :=
  let seq := request_sequenceNumber request in
  match call with
  | (Ret ret, (o, w)) =>
      ret = CYNARA_API_DATABASE_CORRUPTED ∧ run.1 = Throw DatabaseCorruptedException ∨
      ∃ code b d, interpretCodeResponse code = ret ∧ replies s fd seq run code b d ∧ m_offlineStorage o = Some b ∧
        w = if (ret =? CYNARA_API_SUCCESS)%Z then label d else d
  | (Throw e, (o, w)) =>
      run.1 = Throw e ∨
      is_erase request = true ∧ isDatabaseException e = true ∧
        ∃ b, replies s fd seq run CodeResponseCode.FAILED b w ∧ m_offlineStorage o = Some b
  | (OutOfFuel, _) => run.1 = OutOfFuel
  end.

(** The handlers of both sides. *)
Definition handlers_agree (erase : bool) (hs ho : exn → option Z) : Prop := ∀ e,
  match ho e with
  | Some ret =>
      ret = CYNARA_API_DATABASE_CORRUPTED ∧ e = DatabaseCorruptedException ∧ hs e = None ∨
      ∃ code, hs e = Some code ∧ interpretCodeResponse code = ret ∧ ret ≠ CYNARA_API_SUCCESS
  | None => hs e = None ∨ erase = true ∧ isDatabaseException e = true ∧ hs e = Some CodeResponseCode.FAILED
  end.

Ltac handlers := clear; intros []; cbn;
  first [left; reflexivity | left; split_and!; reflexivity | right; split_and!; reflexivity
        | right; eexists; split_and!; [reflexivity|reflexivity|discriminate]].

Lemma updates_agree request pm po m op hs mo ho sm s fd :
  service_does pm m op → offline_does po mo op → same_types pm (m_pluginManager s) → m_dbCorrupted s = false → undisturbed sm s →
  handlers_agree (is_erase request) hs ho →
  agrees request fd s (guardedUpdate m hs (contextOf s fd) (request_sequenceNumber request) (sm, s))
    (returnCode (mo ;; offline_save) ho (mkOfflineLogic (Some (m_storage s)) po, disk s)).
Proof.
  intros Hm Hmo Hpm Hdb Hun Hh. rewrite (offline_update po mo op) by done.
  pose proof (service_update pm m op hs sm s fd (request_sequenceNumber request) Hm Hpm Hdb Hun) as Hs. cbv zeta in Hs |- *.
  assert (∀ e b d,
    match hs e with
    | Some code => replies s fd (request_sequenceNumber request) (guardedUpdate m hs (contextOf s fd) (request_sequenceNumber request) (sm, s)) code b d
    | None => (guardedUpdate m hs (contextOf s fd) (request_sequenceNumber request) (sm, s)).1 = Throw e
    end →
    agrees request fd s (guardedUpdate m hs (contextOf s fd) (request_sequenceNumber request) (sm, s))
      (match ho e with Some ret => Ret ret | None => Throw e end, (mkOfflineLogic (Some b) po, d))) as Hends.
  { intros e b d Hse. specialize (Hh e). unfold agrees. destruct (ho e) as [ret|].
    - destruct Hh as [(-> & -> & Hn)|(code & Hc & <- & Hne)]; [left; rewrite Hn in Hse; done|].
      right. rewrite Hc in Hse. exists code, b, d. split_and!; [done..|].
      by destruct (Z.eqb_spec (interpretCodeResponse code) CYNARA_API_SUCCESS).
    - destruct Hh as [Hn|(He & Hd & Hc)]; [left; by rewrite Hn in Hse|].
      right. rewrite Hc in Hse. split_and!; [done..|]. by exists b. }
  destruct (op (m_storage s)) as [[[]|e|] b]; [|by apply Hends|exact Hs].
  destruct (storage_save b (disk s)) as [[[]|e|] d]; [|by apply Hends|exact Hs].
  right. by exists CodeResponseCode.OK, b, d.
Qed.

(** What the updating requests do to the storage, with the plugin table [tbl]. *)
Definition tbl : PluginManager Plugin := (loadPlugins plugin_descr libraries PluginManager_new).2.
Definition update_op (request : Request) : SE B unit :=
  match request with
  | SetPoliciesRequest inserted removed _ => types_op tbl inserted ;; insertPolicies (groups inserted) ;; deletePolicies (groups removed)
  | InsertOrUpdateBucketRequest bucketId result _ => type_op tbl (policyType result) true true ;; addOrUpdateBucket bucketId result
  | RemoveBucketRequest bucketId _ => Storage.deleteBucket bucketId
  | EraseRequest startBucket recursive filter _ => Storage.erasePolicies depth startBucket recursive filter
  | _ => mret tt
  end.

(** Both sides of an update, by their parts. *)
Definition update_parts request o w (b : B) d : Prop := ∃ m hs po mo ho,
  (∀ sm s fd, Logic_execute depth fd request (sm, s) = guardedUpdate m hs (contextOf s fd) (request_sequenceNumber request) (sm, s)) ∧
  service_does tbl m (update_op request) ∧ offline_does po mo (update_op request) ∧ handlers_agree (is_erase request) hs ho ∧
  offline_call request (o, w) = returnCode (mo ;; offline_save) ho (mkOfflineLogic (Some b) po, d).

Lemma update_shape request o w b d :
  admin_update request = true → storage_load w = (Ret b, d) → update_parts request o w b d.
Proof.
  intros Hu Hload. destruct request; try discriminate Hu; unfold update_parts; cbn [offline_call update_op is_erase].
  - (* erasePolicies *)
    eexists _, _, _, _, _. split; [done|]. split; [apply service_does_storage|]. split; [apply offline_does_storage|].
    split; cycle 1. { exact (returnCode_ext _ _ _ _ _ (acquired _ _ _ _ _ Hload)). } handlers.
  - (* insertOrUpdateBucket *)
    eexists _, _, _, _, _. split; [done|].
    split; [apply service_does_then; [apply service_does_type|apply service_does_storage]|].
    split; [apply offline_does_then; [apply offline_does_type|apply offline_does_storage]|]. split; cycle 1.
    { etrans; [exact (returnCode_ext _ _ _ _ _ (acquired _ _ _ _ _ Hload))|].
      etrans; [exact (returnCode_ext _ _ _ _ _ (plugins_acquired _ _ _))|]. symmetry. exact (returnCode_ext _ _ _ _ _ (then_assoc _ _ _ _)). }
    handlers.
  - (* removeBucket *)
    eexists _, _, _, _, _. split; [done|]. split; [apply service_does_storage|]. split; [apply offline_does_storage|].
    split; cycle 1. { exact (returnCode_ext _ _ _ _ _ (acquired _ _ _ _ _ Hload)). } handlers.
  - (* setPolicies *)
    eexists _, _, _, _, _. split; [done|].
    split; [apply service_does_then; [apply service_does_types|apply service_does_then; apply service_does_storage]|].
    split; [apply offline_does_then; [apply offline_does_types|apply offline_does_then; apply offline_does_storage]|]. split; cycle 1.
    { etrans; [exact (returnCode_ext _ _ _ _ _ (acquired _ _ _ _ _ Hload))|].
      etrans; [exact (returnCode_ext _ _ _ _ _ (plugins_acquired _ _ _))|]. symmetry. exact (returnCode_ext _ _ _ _ _ (then_assoc3 _ _ _ _ _)). }
    handlers.
Qed.

End updates.

(** ** Runs *)

Definition no_labels (d : option InMemoryStorageBackend) : option (list string) * option InMemoryStorageBackend := (None, d).
Definition no_set_label (_ _ : string) (d : option InMemoryStorageBackend) : bool * option InMemoryStorageBackend := (true, d).

Abbreviation demo_offline_call := (offline_call (P:=unit) 5 (mkInMemory ∅) [Some tt] None "" no_labels no_set_label) (only parsing).


(** ** The arguments of [cynara_admin_set_policies]

    What the interface makes of an array of policies, against a specification without the
    loop. *)

Definition valid_policy (p : cynara_admin_policy) : bool :=
  isStringValid (ap_bucket p) && isStringValid (ap_client p) && isStringValid (ap_user p) && isStringValid (ap_privilege p) &&
  ((ap_result p =? CYNARA_ADMIN_DELETE)%Z ||
   (0 <=? ap_result p)%Z && (ap_result p <=? 65535)%Z && negb (ap_result p =? CYNARA_ADMIN_NONE)%Z &&
   (negb (ap_result p =? CYNARA_ADMIN_BUCKET)%Z || isStringValid (ap_result_extra p))).

(** The policy an element sets, the key it deletes; "*" stands for itself. *)
Definition policy_set (p : cynara_admin_policy) : option Policy :=
  if (ap_result p =? CYNARA_ADMIN_DELETE)%Z then None
  else Some (mkPolicy (PolicyKey_of (default "" (ap_client p)) (default "" (ap_user p)) (default "" (ap_privilege p)))
               (mkPolicyResult (ap_result p) (default "" (ap_result_extra p)))).
Definition key_deleted (p : cynara_admin_policy) : option PolicyKey :=
  if (ap_result p =? CYNARA_ADMIN_DELETE)%Z
  then Some (PolicyKey_of (default "" (ap_client p)) (default "" (ap_user p)) (default "" (ap_privilege p))) else None.

(** [m] groups by bucket what [f] takes from the elements, in their order. *)
Definition groups_by_bucket {V} (f : cynara_admin_policy → option V) (ps : list cynara_admin_policy)
    (m : gmap PolicyBucketId (list V)) : Prop := ∀ bucket,
  let vs := omap (λ p, if decide (default "" (ap_bucket p) = bucket) then f p else None) ps in
  m !! bucket = if decide (vs = []) then None else Some vs.

(** ** The loop *)

Definition collect {V} (f : cynara_admin_policy → option V) (m : gmap PolicyBucketId (list V)) (p : cynara_admin_policy) :=
  match f p with Some v => pushBack (default "" (ap_bucket p)) v m | None => m end.

Lemma api_feature_eq str : api_feature str = mkPolicyKeyFeature str.
Proof. unfold api_feature. destruct (decide (CYNARA_ADMIN_WILDCARD = str)) as [<-|Hne]; [done|]. by rewrite bool_decide_false. Qed.

Lemma api_key_eq p : api_key p = PolicyKey_of (default "" (ap_client p)) (default "" (ap_user p)) (default "" (ap_privilege p)).
Proof. unfold api_key. by rewrite !api_feature_eq. Qed.

Lemma int2PolicyType_eq t : int2PolicyType t = if (0 <=? t)%Z && (t <=? 65535)%Z then Some t else None.
Proof. unfold int2PolicyType. rewrite (Z.leb_antisym t 0), (Z.leb_antisym 65535 t). by destruct (t <? 0)%Z, (65535 <? t)%Z. Qed.

(** One element. *)
Lemma collectPolicies_step i p ps ins rem :
  collectPolicies i (p :: ps) ins rem =
    if (i <? CYNARA_MAX_VECTOR_SIZE) && valid_policy p
    then collectPolicies (S i) ps (collect policy_set ins p) (collect key_deleted rem p)
    else inl CYNARA_API_INVALID_PARAM.
Proof.
  cbn [collectPolicies]. rewrite Nat.leb_antisym. destruct (i <? CYNARA_MAX_VECTOR_SIZE); [|done]. cbn [andb negb].
  unfold valid_policy, collect, policy_set, key_deleted. rewrite int2PolicyType_eq, !api_key_eq.
  destruct (isStringValid (ap_bucket p)); [|done]. destruct (isStringValid (ap_client p)); [|done].
  destruct (isStringValid (ap_user p)); [|done]. destruct (isStringValid (ap_privilege p)); [|done]. cbn [andb negb orb].
  destruct (Z.eqb_spec (ap_result p) CYNARA_ADMIN_NONE) as [->|_]; [done|].
  destruct (Z.eqb_spec (ap_result p) CYNARA_ADMIN_DELETE) as [_|_]; [done|]. rewrite andb_true_r. cbn [orb].
  destruct (ap_result p =? CYNARA_ADMIN_BUCKET)%Z, (isStringValid (ap_result_extra p)), (0 <=? ap_result p)%Z, (ap_result p <=? 65535)%Z; done.
Qed.

Lemma collectPolicies_eq i ps ins rem :
  collectPolicies i ps ins rem =
    if forallb valid_policy ps && (length ps <=? CYNARA_MAX_VECTOR_SIZE - i)
    then inr (foldl (collect policy_set) ins ps, foldl (collect key_deleted) rem ps)
    else inl CYNARA_API_INVALID_PARAM.
Proof.
  revert i ins rem. induction ps as [|p ps IH]; intros i ins rem; [done|]. rewrite collectPolicies_step, IH.
  cbn [forallb foldl length]. destruct (valid_policy p); [|by rewrite andb_false_r]. rewrite andb_true_r. cbn [andb].
  destruct (Nat.ltb_spec i CYNARA_MAX_VECTOR_SIZE).
  - assert ((length ps <=? CYNARA_MAX_VECTOR_SIZE - S i) = (S (length ps) <=? CYNARA_MAX_VECTOR_SIZE - i)) as ->; [|done].
    destruct (Nat.leb_spec (length ps) (CYNARA_MAX_VECTOR_SIZE - S i)), (Nat.leb_spec (S (length ps)) (CYNARA_MAX_VECTOR_SIZE - i)); [done|lia|lia|done].
  - destruct (Nat.leb_spec (S (length ps)) (CYNARA_MAX_VECTOR_SIZE - i)); [lia|]. by rewrite andb_false_r.
Qed.

Lemma collect_groups {V} (f : cynara_admin_policy → option V) ps :
  groups_by_bucket f ps (foldl (collect f) ∅ ps).
Proof.
  induction ps as [|p ps IH] using rev_ind; intros bucket; cbv zeta; [done|].
  rewrite foldl_snoc, omap_app. specialize (IH bucket). cbv zeta in IH. set (m := foldl _ _ _) in *. set (vs := omap _ ps) in *.
  cbn [omap list_omap]. unfold collect. destruct (decide (default "" (ap_bucket p) = bucket)) as [Hb|Hb].
  - destruct (f p) as [v|]; [|by rewrite app_nil_r]. unfold pushBack. rewrite Hb, lookup_insert_eq, IH.
    rewrite (decide_False (P := vs ++ [v] = [])) by (by destruct vs). by destruct (decide (vs = [])) as [->|].
  - rewrite app_nil_r. destruct (f p) as [v|]; [|done]. unfold pushBack. by rewrite lookup_insert_ne.
Qed.

(** ** The calls that are made *)

Section admin.
Context `{HO : HashOrder} {B W Plugin P : Type} `{SB : StorageBackend B} `{H : !Host B W Plugin P}.

(** The arguments of [cynara_admin_set_policies].  One invalid element, or more than the
    limit, and the call is refused before anything is done.  Else the library is called
    with exactly the policies to set and the keys to delete, grouped by bucket in the order
    of the array, where the name "*" is the wildcard.  The extra of a policy that is not a
    link is not checked. *)
Theorem set_policies_arguments empty libraries label dbDir sys_readdir smack_set_label sys_flock
    sys_poll sys_getsockopt sys_socket sys_connect sys_send sys_recv tries rounds fuel
    (policies : list cynara_admin_policy) (st : AdminLogic B Plugin * W) :
  let set_policies := cynara_admin_set_policies empty libraries label dbDir sys_readdir smack_set_label sys_flock
    sys_poll sys_getsockopt sys_socket sys_connect sys_send sys_recv tries rounds fuel (Some policies) in
  if forallb valid_policy policies && (length policies <=? CYNARA_MAX_VECTOR_SIZE)
  then ∃ insertOrUpdate remove, groups_by_bucket policy_set policies insertOrUpdate ∧ groups_by_bucket key_deleted policies remove ∧
    set_policies st =
      api_tryCatch (AdminLogic.setPolicies empty libraries label dbDir sys_readdir smack_set_label sys_flock
        sys_poll sys_getsockopt sys_socket sys_connect sys_send sys_recv tries rounds fuel insertOrUpdate remove) st
  else set_policies st = (Ret CYNARA_API_INVALID_PARAM, st).
Proof.
  cbv zeta. unfold cynara_admin_set_policies. rewrite collectPolicies_eq, Nat.sub_0_r.
  destruct (forallb valid_policy policies && _); [|done].
  exists (foldl (collect policy_set) ∅ policies), (foldl (collect key_deleted) ∅ policies).
  split; [apply collect_groups|]. split; [apply collect_groups|]. done.
Qed.
End admin.
