(* ===== verification/AdminCrashSafety.v ===== *)
(** * Offline administration survives power failures

    The offline logic on the database files of FileSystem.v. *)
From S2P Require Import Prelude Text Types Api Bucket StorageBackend Storage InMemoryStorageBackend.
From S2P Require Import StorageSerialization FileSystem Persistence CrashSafety PersistenceTheorems.
From S2P Require Import BinaryQueue Serialization Frame Messages ProtocolClient ProtocolAdmin Protocols SocketManager.
From S2P Require Import EntriesQueue Monitor PluginManager Agents Service ServiceErrors.
From S2P Require Import FileLock OfflineLogic OnlineLogic AdminLogic AdminTheorems.

Section disk.
Context {HO : HashOrder} {Plugin P : Type} {H : Host InMemoryStorageBackend world Plugin P}.
Context (dbDir : string) (Hdir : lacks "000" dbDir).
(** The storage is loaded from the files and saved to them. *)
Context (save_files : ∀ b, storage_save b = im_save (HO:=HO) (at_disk dbDir) b).
Context (load_files : storage_load = im_load (HO:=HO) (at_disk dbDir)).
Context (depth : nat) (libraries : list (option Plugin)).
Context (sys_readdir : world → option (list string) * world) (smack_set_label : string → string → world → bool * world).

(** The call, and what it does to the storage. *)
Definition disk_call : Request → SE (OfflineLogic InMemoryStorageBackend Plugin * world) Z :=
  offline_call (P:=P) depth (mkInMemory ∅) libraries None (at_disk dbDir) sys_readdir smack_set_label.
Definition disk_op : Request → SE InMemoryStorageBackend unit := update_op (P:=P) (W:=world) depth libraries.

(** Loading that fails ends the call. *)
Lemma call_not_loaded request o w r w' :
  admin_update request = true → storage_load w = (r, w') → (∀ b, r ≠ Ret b) →
  (disk_call request (o, w)).1 ≠ Ret CYNARA_API_SUCCESS ∧ (disk_call request (o, w)).2.2 = w'.
Proof.
  intros Hu Hl Hr.
  assert (∀ (m : SE (OfflineLogic InMemoryStorageBackend Plugin * world) unit),
    (acquireDatabase (mkInMemory ∅) ;; m) (o, w) =
      (match r with Ret _ => Ret tt | Throw e => Throw e | OutOfFuel => OutOfFuel end,
       (mkOfflineLogic (Some (mkInMemory ∅)) (m_offlinePlugins o), w'))) as Hacq.
  { intros m. rewrite SE_bind_eq. unfold acquireDatabase. rewrite SE_bind_eq. cbn [setOfflineStorage modify].
    rewrite SE_bind_eq. unfold onSystem. rewrite Hl. destruct r as [b|e|]; [by destruct (Hr b)|done..]. }
  destruct request; try discriminate Hu; unfold disk_call; cbn [offline_call];
    unfold OfflineLogic.erasePolicies, OfflineLogic.insertOrUpdateBucket, OfflineLogic.removeBucket, OfflineLogic.setPolicies,
      returnCode, tryCatch; rewrite SE_bind_eq, Hacq; (destruct r as [b|e|]; [by destruct (Hr b)| |done]); by destruct e.
Qed.

(** C20: An administrator's update without the service is all or nothing on the disk.  However
    the call ends, whatever system calls fail with an error that the code is told, and
    wherever the power fails, loading afterwards returns the database as it was or with the
    whole update; the whole update if the call had returned success, and never a part of an
    update that is refused.  The database before and after must be storable and have the
    default bucket, and no write of a stream may have failed, which the code does not notice
    (full_disk_loses_database). *)
Theorem offline_update_crash_safe {HO' : HashOrder} request o B s plan s' :
  admin_update request = true →
  storable_buckets B → is_Some (B !! defaultPolicyBucketId) → on_disk (HO:=HO) dbDir s B →
  let op := disk_op request (mkInMemory B) in
  let B' := m_buckets op.2 in
  (op.1 = Ret tt → storable_buckets B' ∧ is_Some (B' !! defaultPolicyBucketId)) →
  let run := disk_call request (o, mkWorld s plan false) in
  w_lost run.2.2 = false → crash (w_fs run.2.2) s' →
  ∃ k B'' s'', (B'' = B ∧ run.1 ≠ Ret CYNARA_API_SUCCESS ∨ B'' = B' ∧ op.1 = Ret tt) ∧
    ∀ n, k ≤ n → im_load (HO:=HO') (at_disk dbDir) (mkWorld s' (replicate n Works) false) =
      (Ret (mkInMemory B''), mkWorld s'' (replicate (n - k) Works) false).
Proof.
  intros Hu HB Hdef Hs op B' HB' run Hlost Hcrash.
  enough (on_disk (HO:=HO) dbDir s' B ∧ run.1 ≠ Ret CYNARA_API_SUCCESS ∨ on_disk (HO:=HO) dbDir s' B' ∧ op.1 = Ret tt)
    as [[Hon Hret]|[Hon Hret]].
  { destruct (load_determined (HO':=HO') dbDir B s' Hdir HB Hdef Hon) as (k & s'' & Hk). exists k, B, s''. split; [by left|done]. }
  { destruct (HB' Hret) as [HB1 Hdef1].
    destruct (load_determined (HO':=HO') dbDir B' s' Hdir HB1 Hdef1 Hon) as (k & s'' & Hk). exists k, B', s''. split; [by right|done]. }
  clear HO'. pose proof (spec_im_load (HOi:=HO) (HOd:=HO) dbDir Hdir B s HB Hdef Hs plan) as Hload. fold (at_disk dbDir) in Hload.
  rewrite <-load_files in Hload. pose proof (kept_im_load (at_disk dbDir) false (mkWorld s plan false) eq_refl) as Hquiet.
  rewrite <-load_files in Hquiet. destruct (storage_load (mkWorld s plan false)) as [r w] eqn:Hl.
  destruct w as [s1 plan1 l]. unfold lost in Hquiet. cbn in Hquiet. specialize (Hload Hquiet). subst l.
  assert ((∀ b, r ≠ Ret b) → recovering (HO:=HO) dbDir s1 B →
    on_disk (HO:=HO) dbDir s' B ∧ run.1 ≠ Ret CYNARA_API_SUCCESS) as Hfail.
  { intros Hr Hrec. destruct (call_not_loaded request o _ _ _ Hu Hl Hr) as [Hret Hw]. split; [|done].
    unfold run in Hcrash. rewrite Hw in Hcrash. by eapply recovering_crash. }
  destruct r as [b|e|]; [clear Hfail|left; apply Hfail; [done|by destruct Hload]|left; by apply Hfail].
  destruct Hload as ((-> & Hc & Hcl) & _). cbn in Hc, Hcl.
  destruct (update_shape depth (mkInMemory ∅) libraries None (at_disk dbDir) sys_readdir smack_set_label request o _ _ _ Hu Hl)
    as (m & hs & po & mo & ho & _ & _ & Hmo & Hh & Hrun).
  unfold run, disk_call in *. clear run. rewrite Hrun, (offline_update None _ sys_readdir smack_set_label po mo _ ho _ _ Hmo) in Hlost, Hcrash |- *.
  assert (∀ e, match ho e with Some ret => Ret ret | None => Throw e end ≠ Ret CYNARA_API_SUCCESS) as Hho.
  { intros e He. specialize (Hh e). destruct (ho e) as [ret|]; [|done]. injection He as ->.
    destruct Hh as [[Hbad _]|(? & _ & _ & Hne)]; [discriminate Hbad|done]. }
  fold (disk_op request) op in Hlost, Hcrash |- *. destruct op as [[[]|e|] b'] eqn:Hop; cbn [fst snd] in *.
  - destruct (HB' eq_refl) as [HB1 _]. rewrite save_files in Hlost, Hcrash |- *.
    assert (crash (w_fs (im_save (at_disk dbDir) (mkInMemory (m_buckets b')) (mkWorld s1 plan1 false)).2) s') as Hcr.
    { destruct b'. by destruct (im_save _ _ _) as [[?|?|] ?]. }
    assert (w_lost (im_save (at_disk dbDir) (mkInMemory (m_buckets b')) (mkWorld s1 plan1 false)).2 = false) as Hls.
    { destruct b'. by destruct (im_save _ _ _) as [[?|?|] ?]. }
    destruct (save_ends dbDir B (m_buckets b') s1 plan1 s' Hdir HB HB1 Hc Hcl Hls Hcr) as [Hon|[Hon Hret]]; [by right|left].
    split; [done|]. destruct b'. destruct (im_save _ _ _) as [[[]|e|] ?]; cbn in *; [done|apply Hho|done].
  - left. split; [|apply Hho]. left. by eapply committed_crash.
  - left. split; [|done]. left. by eapply committed_crash.
Qed.
End disk.

(** ** A run: a bucket is added, and the power fails after the call has returned *)

Definition file_host `{HashOrder} (dbDir : string) : Host InMemoryStorageBackend world (list PolicyDescription) unit := {|
  storage_save b := im_save (at_disk dbDir) b;
  storage_load := im_load (at_disk dbDir);
  plugin_descr descriptions := descriptions;
  plugin_invalidate _ p := p;
  isServicePlugin _ := true;
  plugin_check _ _ _ _ r p := ((ANSWER_READY, r, "", ""), p);
  plugin_update _ _ _ _ _ r p := ((SUCCESS, r), p);
|}.

Definition add_sys : Request := InsertOrUpdateBucketRequest "sys" (PolicyResult_of DENY) 1.
Definition sys_db : Buckets := <["sys" := mkPolicyBucket ∅ (PolicyResult_of DENY) "sys"]> old_db.

Lemma offline_update_crash_safe_witness :
  let run := disk_call (H:=file_host "/db") "/db" 5 [] (λ w, (None, w)) (λ _ _ w, (true, w)) add_sys
    (OfflineLogic_new, mkWorld old_disk (replicate 200 Works) false) in
  run.1 = Ret CYNARA_API_SUCCESS ∧
  ∃ k B'' s'', (B'' = old_db ∧ run.1 ≠ Ret CYNARA_API_SUCCESS ∨ B'' = sys_db) ∧
    ∀ n, k ≤ n → im_load (at_disk "/db") (mkWorld (flushed (w_fs run.2.2)) (replicate n Works) false) =
      (Ret (mkInMemory B''), mkWorld s'' (replicate (n - k) Works) false).
Proof.
  set (run := disk_call _ _ _ _ _ _ _). cbv zeta. split; [vm_compute; reflexivity|].
  destruct (offline_update_crash_safe (H:=file_host "/db") "/db" eq_refl (λ b, eq_refl) eq_refl 5 [] (λ w, (None, w)) (λ _ _ w, (true, w))
    add_sys OfflineLogic_new old_db old_disk (replicate 200 Works) (flushed (w_fs run.2.2))) as (k & B'' & s'' & HB & Hk).
  - reflexivity.
  - decide_by_compute.
  - decide_by_compute.
  - left. apply old_disk_committed.
  - intros _. split; decide_by_compute.
  - vm_compute. reflexivity.
  - apply crash_flushed.
  - exists k, B'', s''. split; [|exact Hk]. destruct HB as [HB|[-> _]]; [by left|]. right. vm_compute. reflexivity.
Defined.
