(* ===== verification/AgentLogic.v ===== *)
(** * The agent library ([agent/socket], [agent/logic], [agent/api], [common/notify])

    An agent registers for a type of policies and then takes requests of the service and
    answers them; another thread can end its waiting.  [W] is the system.  [fuel] bounds
    the waiting on the socket and [rounds] the wake-ups without a whole response. *)
From S2P Require Import Prelude Text Types Api BinaryQueue Serialization Frame Messages.
From S2P Require Import ProtocolClient ProtocolAdmin ProtocolAgent Protocols SocketClient Agents.

(** ** [FdNotifyObject]: an event descriptor *)

Record FdNotifyObject := mkFdNotifyObject { m_eventFd : option nat }.

Section notify.
Context {W : Type}.
(** The descriptor, or an error; [eventfd_write] and [eventfd_read], false on an error. *)
Context (sys_eventfd : W → option nat * W) (sys_eventfd_write sys_eventfd_read : option nat → W → bool * W).

Definition notify_init : SE (FdNotifyObject * W) bool := λ '(n, w),
  match sys_eventfd w with
  | (Some fd, w') => (Ret true, (mkFdNotifyObject (Some fd), w'))
  | (None, w') => (Ret false, (mkFdNotifyObject None, w'))
  end.
Definition notify : SE (FdNotifyObject * W) bool := λ '(n, w),
  let '(ok, w') := sys_eventfd_write (m_eventFd n) w in (Ret ok, (n, w')).
Definition snooze : SE (FdNotifyObject * W) bool := λ '(n, w),
  let '(ok, w') := sys_eventfd_read (m_eventFd n) w in (Ret ok, (n, w')).
End notify.

(** ** [AgentSocketClient] *)

Inductive AgentSocketState := SS_DISCONNECTED | SS_CONNECTED | SS_RECONNECTED | SS_REQUEST | SS_QUITREQUEST | SS_ERROR.

(** What [poll] on the connection and the event descriptor gives: an error, or which of the
    two are readable. *)
Inductive EventPoll := EventPollError | EventPolled (cynara notified : bool).

(** The socket, the protocol with the read queue, and the write queue are those of a
    [SocketClient]; [m_notifyFd] is not set when it is -1. *)
Record AgentSocketClient := mkAgentSocketClient {
  m_agentSocket : SocketClient;
  m_notifyFd : option nat;
}.

Section agent_socket.
Context {W : Type}.
Context (sys_poll : PollEvent → SE W PollResult) (sys_getsockopt : SE W (Z + Z))
  (sys_socket : SE W (unit + Z)) (sys_connect : SE W ConnectResult)
  (sys_send : string → SE W SendResult) (sys_recv : SE W RecvResult)
  (sys_poll_events : option nat → W → EventPoll * W).
Context (rounds fuel : nat).

Abbreviation AgentClient := (SE (AgentSocketClient * W)) (only parsing).

Definition AgentSocketClient_new : AgentSocketClient := mkAgentSocketClient (SocketClient_new PAgent) None.

Definition setNotifyFd (fd : option nat) (c : AgentSocketClient) : AgentSocketClient := mkAgentSocketClient (m_agentSocket c) fd.

Definition onMembers {A} (m : SE (SocketClient * W) A) : AgentClient A := λ '(c, w),
  let '(r, (s, w')) := m (m_agentSocket c, w) in (r, (mkAgentSocketClient s (m_notifyFd c), w')).

Definition agent_extract : SE (SocketClient * W) (option Response) :=
  c ← client_; withHeader (extractResponseFromBuffer (m_clientProtocol c)).

Definition getBufferedResponse : AgentClient (option Response) := onMembers agent_extract.

(** Bytes are received into the read queue. *)
Definition agent_receive : SE (SocketClient * W) bool := receiveIntoReadQueue sys_poll sys_recv fuel.

Fixpoint receiveResponse_loop (rounds : nat) : SE (SocketClient * W) (option Response) :=
  match rounds with
  | 0 => λ s, (OutOfFuel, s)
  | S rounds' =>
      response ← agent_extract;
      match response with
      | Some response => mret (Some response)
      | None =>
          received ← agent_receive;
          if negb received then mret None else receiveResponse_loop rounds'
      end
  end.
Definition receiveResponseFromServer : AgentClient (option Response) := onMembers (receiveResponse_loop rounds).

(** The bytes of [data] are moved to the socket. *)
Definition sendDataToServer (data : BinaryQueue) : AgentClient bool :=
  status ← onMembers (withSocket (sendToServer sys_poll sys_send fuel data));
  mret (negb (bool_decide (status = CONNECTION_LOST))).

Definition agent_askCynaraServer (request : Request) : AgentClient (option Response) :=
  queue ← onMembers (c ← client_;
                     withWriteQueue (protocol_executeRequest (m_clientProtocol c) request) ;;
                     withWriteQueue (λ q, (Ret q, BinaryQueue_new)));
  sent ← sendDataToServer queue;
  if negb sent then mret None else receiveResponseFromServer.

Definition waitForEvent : AgentClient AgentSocketState := λ '(c, w),
  match sys_poll_events (m_notifyFd c) w with
  | (EventPollError, w') => (Ret SS_ERROR, (c, w'))
  | (EventPolled cynara notified, w') =>
      (Ret (if notified then SS_QUITREQUEST else if cynara then SS_REQUEST else SS_ERROR), (c, w'))
  end.

Definition agent_isConnected : AgentClient bool := onMembers (SocketClient_isConnected sys_poll sys_getsockopt).

(** The queues are cleared; the header that the protocol has read stays. *)
Definition resetState : AgentClient unit := onMembers (
  withHeader (modify (λ h, setHeaderContent (queue_clear (m_frameHeaderContent h)).2 h)) ;;
  withWriteQueue queue_clear).

Definition agent_connect : AgentClient AgentSocketState :=
  connected ← agent_isConnected;
  if connected : bool then mret SS_CONNECTED
  else
    status ← onMembers (withSocket (Socket_connect sys_poll sys_getsockopt sys_socket sys_connect));
    if bool_decide (status = CONNECTION_SUCCEEDED) then resetState ;; mret SS_RECONNECTED
    else mret SS_DISCONNECTED.
End agent_socket.

(** ** [Logic] *)

(** [agentSequence] is the static counter of the library. *)
Record AgentLogic := mkAgentLogic {
  m_agentType : string;
  m_agentSocketClient : AgentSocketClient;
  m_responseBuffer : BinaryQueue;
  m_notify : FdNotifyObject;
  agentSequence : Z;
}.

Section agent.
Context {W : Type}.
Context (sys_poll : PollEvent → SE W PollResult) (sys_getsockopt : SE W (Z + Z))
  (sys_socket : SE W (unit + Z)) (sys_connect : SE W ConnectResult)
  (sys_send : string → SE W SendResult) (sys_recv : SE W RecvResult)
  (sys_poll_events : option nat → W → EventPoll * W).
Context (sys_eventfd : W → option nat * W) (sys_eventfd_write sys_eventfd_read : option nat → W → bool * W).
Context (rounds fuel : nat).

Abbreviation Agent := (SE (AgentLogic * W)) (only parsing).

Definition onAgentSocket {A} (m : SE (AgentSocketClient * W) A) : Agent A := λ '(a, w),
  let '(r, (c, w')) := m (m_agentSocketClient a, w) in
  (r, (mkAgentLogic (m_agentType a) c (m_responseBuffer a) (m_notify a) (agentSequence a), w')).
Definition onNotify {A} (m : SE (FdNotifyObject * W) A) : Agent A := λ '(a, w),
  let '(r, (n, w')) := m (m_notify a, w) in
  (r, (mkAgentLogic (m_agentType a) (m_agentSocketClient a) (m_responseBuffer a) n (agentSequence a), w')).
Definition onResponseBuffer {A} (m : SE BinaryQueue A) : Agent A := λ '(a, w),
  let '(r, q) := m (m_responseBuffer a) in
  (r, (mkAgentLogic (m_agentType a) (m_agentSocketClient a) q (m_notify a) (agentSequence a), w)).

(** [return ++sequenceNumber], on 16 bits *)
Definition agent_generateSequenceNumber : Agent Z :=
  modify (λ '(a, w), (mkAgentLogic (m_agentType a) (m_agentSocketClient a) (m_responseBuffer a) (m_notify a)
                        ((agentSequence a + 1) mod 2 ^ 16), w)) ;;
  gets (λ s, agentSequence s.1).

(** The constructor: without an event descriptor the agent can not be interrupted. *)
Definition AgentLogic_new (agentType : string) (sequence : Z) (w : W) : AgentLogic * W :=
  match notify_init sys_eventfd (mkFdNotifyObject None, w) with
  | (Ret true, (n, w')) => (mkAgentLogic agentType (setNotifyFd (m_eventFd n) AgentSocketClient_new) BinaryQueue_new n sequence, w')
  | (_, (n, w')) => (mkAgentLogic agentType AgentSocketClient_new BinaryQueue_new n sequence, w')
  end.

Definition registerInCynara : Agent Z :=
  sequenceNumber ← agent_generateSequenceNumber;
  s ← get;
  response ← onAgentSocket (agent_askCynaraServer sys_poll sys_send sys_recv rounds fuel
                              (AgentRegisterRequest (m_agentType s.1) sequenceNumber));
  mret (match response with
        | None => CYNARA_API_SERVICE_NOT_AVAILABLE
        | Some (AgentRegisterResponse code _) =>
            if (code =? AgentRegisterCode.DONE)%Z then CYNARA_API_SUCCESS
            else if (code =? AgentRegisterCode.REJECTED)%Z then CYNARA_API_ACCESS_DENIED
            else CYNARA_API_UNKNOWN_ERROR
        | Some _ => CYNARA_API_UNKNOWN_ERROR
        end).

Definition agent_ensureConnection : Agent Z :=
  state ← onAgentSocket (agent_connect sys_poll sys_getsockopt sys_socket sys_connect);
  match state with
  | SS_CONNECTED => mret CYNARA_API_SUCCESS
  | SS_RECONNECTED => registerInCynara
  | SS_DISCONNECTED => mret CYNARA_API_SERVICE_NOT_AVAILABLE
  | SS_REQUEST | SS_QUITREQUEST => mret CYNARA_API_UNKNOWN_ERROR
  | SS_ERROR => mret CYNARA_API_SERVICE_NOT_AVAILABLE
  end.

(** The request as type, data and number. *)
Definition asAction (response : Response) : Z + (Z * RawBuffer * Z) :=
  match response with
  | AgentActionResponse type data seq => inr (type, data, seq)
  | _ => inl CYNARA_API_UNKNOWN_ERROR
  end.

Definition getRequest : Agent (Z + (Z * RawBuffer * Z)) :=
  ret ← agent_ensureConnection;
  if negb (ret =? CYNARA_API_SUCCESS)%Z then mret (inl ret)
  else
    responsePtr ← onAgentSocket getBufferedResponse;
    match responsePtr with
    | Some response => mret (asAction response)
    | None =>
        state ← onAgentSocket (waitForEvent sys_poll_events);
        match state with
        | SS_QUITREQUEST => _ ← onNotify (snooze sys_eventfd_read); mret (inl CYNARA_API_INTERRUPTED)
        | SS_REQUEST =>
            responsePtr ← onAgentSocket (receiveResponseFromServer sys_poll sys_recv rounds fuel);
            match responsePtr with
            | None => mret (inl CYNARA_API_SERVICE_NOT_AVAILABLE)
            | Some response => mret (asAction response)
            end
        | _ => mret (inl CYNARA_API_UNKNOWN_ERROR)
        end
    end.

Definition putResponse (responseType : Z) (sequenceNumber : Z) (pluginData : RawBuffer) : Agent Z :=
  connected ← onAgentSocket (agent_isConnected sys_poll sys_getsockopt);
  if negb connected then mret CYNARA_API_SERVICE_NOT_AVAILABLE
  else
    onResponseBuffer queue_clear ;;
    onResponseBuffer (protocol_executeRequest PAgent (AgentActionRequest responseType pluginData sequenceNumber)) ;;
    queue ← onResponseBuffer (λ q, (Ret q, BinaryQueue_new));
    sent ← onAgentSocket (sendDataToServer sys_poll sys_send fuel queue);
    mret (if sent : bool then CYNARA_API_SUCCESS else CYNARA_API_SERVICE_NOT_AVAILABLE).

Definition cancelWaiting : Agent Z :=
  ok ← onNotify (notify sys_eventfd_write);
  mret (if ok : bool then CYNARA_API_SUCCESS else CYNARA_API_UNKNOWN_ERROR).

(** ** The interface

    The handle and the output pointers are not null where these run; a null one gives
    [CYNARA_API_INVALID_PARAM].  A request comes as type, number and data. *)

Definition cynara_agent_get_request : Agent (Z + (Z * Z * RawBuffer)) :=
  tryCatch
    (ret ← getRequest;
     match ret with
     | inl ret => mret (inl ret)
     | inr (type, data, seq) => mret (inr (type, seq, data))
     end)
    (λ e, match exception_code e with Some code => mret (inl code) | None => throw e end).

(** [data] is null for [None]; [data_size] is the size the caller gives. *)
Definition cynara_agent_put_response (resp_type req_id : Z) (data : option RawBuffer) (data_size : nat) : Agent Z :=
  if negb (resp_type =? CYNARA_MSG_TYPE_ACTION)%Z && negb (resp_type =? CYNARA_MSG_TYPE_CANCEL)%Z
  then mret CYNARA_API_INVALID_PARAM
  else
    match data with
    | None => if 0 <? data_size then mret CYNARA_API_INVALID_PARAM else api_tryCatch (putResponse resp_type req_id [])
    | Some data =>
        if data_size =? 0 then mret CYNARA_API_INVALID_PARAM
        else api_tryCatch (putResponse resp_type req_id (take data_size data))
    end.

Definition cynara_agent_cancel_waiting : Agent Z := api_tryCatch cancelWaiting.
End agent.
