(* ===== verification/AgentTheorems.v ===== *)
(** * Theorems on the agent library

    An agent that is registered takes the requests of the service in the order they were
    written, however their bytes arrive; a cancellation ends one waiting.  What goes wrong:
    a reconnection in the middle of a message, and a connection that is still in progress. *)
From S2P Require Import Prelude Text Types Api BinaryQueue Serialization Frame Messages.
From S2P Require Import ProtocolClient ProtocolAdmin ProtocolAgent Protocols SocketClient ClientTheorems Agents AgentLogic.

(** ** A connected agent *)

(** The agent is connected and not sending, [s] being the bytes received and not decoded. *)
Definition socket_ready (c : AgentSocketClient) (s : string) : Prop :=
  client_ready (m_agentSocket c) PAgent s ∧ m_open (m_socket (m_agentSocket c)) = true ∧
  m_connectionInProgress (m_socket (m_agentSocket c)) = false.
Definition agent_ready (a : AgentLogic) (s : string) : Prop := socket_ready (m_agentSocketClient a) s.

(** A request of the service: type, number and data. *)
Definition agent_request := (Z * Z * RawBuffer)%type.
Definition as_response (r : agent_request) : Response := let '(type, seq, data) := r in AgentActionResponse type data seq.

(** Something is there to read, and no cancellation. *)
Definition wire_events (fd : option nat) (w : Wire) : EventPoll * Wire := (EventPolled true false, w).
Definition wire_eventfd_read (fd : option nat) (w : Wire) : bool * Wire := (true, w).

Abbreviation wire_getRequest n k fuel :=
  (getRequest wire_poll wire_getsockopt wire_socket wire_connect (wire_send n) wire_recv wire_events
     wire_eventfd_read k fuel) (only parsing).
Abbreviation wire_get_request n k fuel :=
  (cynara_agent_get_request wire_poll wire_getsockopt wire_socket wire_connect (wire_send n) wire_recv wire_events
     wire_eventfd_read k fuel) (only parsing).

(** [n] calls of the function. *)
Fixpoint take_requests n k fuel (calls : nat) : SE (AgentLogic * Wire) (list (Z + agent_request)) :=
  match calls with
  | 0 => mret []
  | S calls => r ← wire_get_request n k fuel; rs ← take_requests n k fuel calls; mret (r :: rs)
  end.

(** ** Receiving *)

(** The buffer starts with a response that is complete, or is a part of it. *)
Lemma extract_next p r later h s t :
  response_ok p r → awaits h s → s +:+ t = response_frame p r +:+ later →
  (∃ h' u, extractResponseFromBuffer p h = (Ret (Some r), h') ∧ awaits h' u ∧ u +:+ t = later) ∨
  (∃ h' u, extractResponseFromBuffer p h = (Ret None, h') ∧ awaits h' s ∧ s +:+ u = response_frame p r ∧ u ≠ "" ∧
     t = u +:+ later).
Proof.
  intros Hr Haw Hs. rewrite extractResponse_frame by exact (response_ok_frame p r Hr).
  pose proof (message_fits (ProtocolLaws:=response_laws p) r Hr) as [Hfit Hseq].
  pose proof (message_decoded (ProtocolLaws:=response_laws p) r Hr) as Hdec.
  destruct (app_split _ _ _ _ Hs) as [(u & -> & Hlater)|(u & Hu & Hne & ->)].
  - left. destruct (extractFrame_complete _ h _ _ r u Hseq Hfit Haw Hdec) as (h' & H1 & Haw'). by exists h', u.
  - right. destruct (extractFrame_partial (responseSwitch p) h s _ _ u Hseq Hfit Haw Hu Hne) as (h' & H1 & Haw').
    by exists h', u.
Qed.

Lemma agent_extract_eq (c : SocketClient) (w : Wire) s r h :
  client_ready c PAgent s → extractResponseFromBuffer PAgent (m_clientHeader c) = (r, h) →
  agent_extract (c, w) = (r, (withHeaderOf c h, w)).
Proof.
  intros (Hp & _) He. unfold agent_extract. rewrite SE_bind_eq. unfold client_, gets. cbn [fst].
  unfold withHeader. by rewrite Hp, He; unfold withHeaderOf; rewrite Hp.
Qed.

Lemma agent_receive_reads fuel c w s pieces rest :
  client_ready c PAgent s → w_reads w = map Received pieces ++ RecvAgain :: rest → length pieces < fuel →
  ∃ h, agent_receive wire_poll wire_recv fuel (c, w) = (Ret true, (withHeaderOf c h, mkWire (w_sent w) rest)) ∧
    awaits h (s +:+ fields pieces).
Proof. exact (receive_reads fuel c w PAgent s pieces true rest). Qed.

(** What waits and what arrives start with a response: it is what the agent gets. *)
Lemma receiveResponse_gets r later rounds n fuel c w s :
  response_ok PAgent r → client_ready c PAgent s → s +:+ fields (concat rounds) = response_frame PAgent r +:+ later →
  w_reads w = arrivals rounds → Forall (λ pieces, length pieces < fuel) rounds → length rounds < n →
  ∃ h rounds' s', receiveResponse_loop wire_poll wire_recv fuel n (c, w) =
      (Ret (Some r), (withHeaderOf c h, mkWire (w_sent w) (arrivals rounds'))) ∧
    awaits h s' ∧ s' +:+ fields (concat rounds') = later ∧ (∃ used, rounds = used ++ rounds').
Proof.
  intros Hr. revert n c w s. induction rounds as [|pieces rounds IH]; intros [|n] c w s Hc Hs Hw Hf Hn; cbn [length] in Hn; try lia;
    cbn [receiveResponse_loop]; destruct (extract_next _ _ _ _ _ _ Hr (proj2 (proj2 (proj2 (proj2 Hc)))) Hs)
      as [(h & u & Hx & Haw & Hu)|(h & u & Hx & Haw & Hu & Hne & Ht)];
    rewrite SE_bind_eq, (agent_extract_eq _ _ _ _ _ Hc Hx).
  - exists h, [], u. rewrite <-Hw. destruct w. split; [done|]. split; [done|]. split; [done|]. by exists [].
  - by destruct u.
  - exists h, (pieces :: rounds), u. rewrite <-Hw. destruct w. split; [done|]. split; [done|]. split; [done|]. by exists [].
  - apply Forall_cons in Hf as [Hp Hf].
    assert (w_reads w = map Received pieces ++ RecvAgain :: arrivals rounds) as Hw1.
    { rewrite Hw. unfold arrivals. cbn. by rewrite <-app_assoc. }
    pose proof (client_ready_header c PAgent s h s Hc Haw) as Hc1.
    destruct (agent_receive_reads fuel _ w s pieces _ Hc1 Hw1 Hp) as (h2 & H2 & Haw2). rewrite SE_bind_eq, H2. cbn [negb].
    destruct (IH n (withHeaderOf c h2) (mkWire (w_sent w) (arrivals rounds)) (s +:+ fields pieces))
      as (h3 & rounds' & s' & H3 & Haw3 & Hl & used & ->); [|..|done|lia|].
    + by apply (client_ready_header c PAgent s).
    + cbn [concat] in Hs. by rewrite fields_app, <-str_app_assoc in Hs.
    + done.
    + unfold withHeaderOf in *. cbn [m_socket m_clientProtocol m_clientHeader m_clientWriteQueue] in *. rewrite H3.
      exists h3, rounds', s'. split; [done|]. split; [done|]. split; [done|]. by exists (pieces :: used).
Qed.

(** ** Taking requests *)

Definition withClient (a : AgentLogic) (s : SocketClient) : AgentLogic :=
  mkAgentLogic (m_agentType a) (mkAgentSocketClient s (m_notifyFd (m_agentSocketClient a))) (m_responseBuffer a)
    (m_notify a) (agentSequence a).

Lemma withClient_same a : withClient a (m_agentSocket (m_agentSocketClient a)) = a.
Proof. by destruct a as [? []]. Qed.

Lemma agent_ready_header a s h s' :
  agent_ready a s → awaits h s' → agent_ready (withClient a (withHeaderOf (m_agentSocket (m_agentSocketClient a)) h)) s'.
Proof. intros (Hc & ? & ?) Haw. split_and!; [by apply (client_ready_header _ _ s)|done..]. Qed.

Section taking.
Context (sys_send : string → SE Wire SendResult) (sys_recv : SE Wire RecvResult).

(** A connected agent goes on without a system call that changes something. *)
Lemma agent_ensureConnection_ready k fuel a (w : Wire) s :
  agent_ready a s →
  agent_ensureConnection wire_poll wire_getsockopt wire_socket wire_connect sys_send sys_recv k fuel (a, w) =
    (Ret CYNARA_API_SUCCESS, (a, w)).
Proof.
  intros (_ & Ho & Hp). destruct a as [t [[[]] fd] b n sq]. cbn in Ho, Hp. subst. reflexivity.
Qed.
End taking.

Lemma onAgentSocket_client {A} (m : SE (SocketClient * Wire) A) a w r s w' :
  m (m_agentSocket (m_agentSocketClient a), w) = (r, (s, w')) →
  onAgentSocket (onMembers m) (a, w) = (r, (withClient a s, w')).
Proof. intros H. unfold onAgentSocket, onMembers. by rewrite H. Qed.

(** The bytes waiting and arriving start with a request: the agent gets it. *)
Lemma getRequest_gets n k fuel a w s (type seq : Z) (data : RawBuffer) later rounds :
  let r := AgentActionResponse type data seq in
  response_ok PAgent r → agent_ready a s → s +:+ fields (concat rounds) = response_frame PAgent r +:+ later →
  w_reads w = arrivals rounds → Forall (λ pieces, length pieces < fuel) rounds → length rounds < k →
  ∃ a' rounds' s', wire_getRequest n k fuel (a, w) =
      (Ret (inr (type, data, seq)), (a', mkWire (w_sent w) (arrivals rounds'))) ∧
    agent_ready a' s' ∧ s' +:+ fields (concat rounds') = later ∧ (∃ used, rounds = used ++ rounds').
Proof.
  intros r Hr Ha Hs Hw Hf Hk. unfold getRequest.
  rewrite SE_bind_eq, (agent_ensureConnection_ready _ _ _ _ _ _ s) by done.
  change (negb (CYNARA_API_SUCCESS =? CYNARA_API_SUCCESS)%Z) with false. cbn match.
  pose proof Ha as (Hc & _). pose proof Hc as (_ & _ & _ & _ & Hh).
  destruct (extract_next _ _ _ _ _ _ Hr Hh Hs) as [(h & u & Hx & Haw & Hu)|(h & u & Hx & Haw & Hu & Hne & Ht)];
    pose proof (agent_extract_eq _ w _ _ _ Hc Hx) as He;
    rewrite SE_bind_eq; unfold getBufferedResponse; rewrite (onAgentSocket_client _ _ _ _ _ _ He).
  - exists (withClient a (withHeaderOf (m_agentSocket (m_agentSocketClient a)) h)), rounds, u.
    rewrite <-Hw. destruct w. split; [done|]. split; [by apply (agent_ready_header a s)|]. split; [done|]. by exists [].
  - set (a1 := withClient a _). pose proof (agent_ready_header a s h s Ha Haw) as Ha1. fold a1 in Ha1.
    rewrite SE_bind_eq. change (onAgentSocket (waitForEvent wire_events) (a1, w)) with
      (Ret SS_REQUEST : outcome AgentSocketState, (withClient a1 (m_agentSocket (m_agentSocketClient a1)), w)).
    rewrite withClient_same. cbn match. rewrite SE_bind_eq. unfold receiveResponseFromServer.
    destruct (receiveResponse_gets r later rounds k fuel _ w s Hr (proj1 Ha1) Hs Hw Hf Hk)
      as (h2 & rounds' & s' & H2 & Haw2 & Hl & Hused).
    rewrite (onAgentSocket_client _ _ _ _ _ _ H2).
    exists (withClient a1 (withHeaderOf (m_agentSocket (m_agentSocketClient a1)) h2)), rounds', s'.
    split; [done|]. split; [by apply (agent_ready_header a1 s)|]. by split.
Qed.

(** The bytes of a sequence of requests. *)
Definition requests_frames (requests : list agent_request) : string :=
  fields (map (λ r, response_frame PAgent (as_response r)) requests).

(** C21: Requests are delivered: an agent that is registered gets from consecutive calls of
    [cynara_agent_get_request] exactly the requests the service wrote, in their order and with
    their types, numbers and data, in whatever pieces and wake-ups the bytes arrive (several
    requests in one piece, or one over many); it sends nothing, and is then ready for more. *)
Theorem agent_requests_delivered requests n k fuel a w rounds :
  Forall (λ r, response_ok PAgent (as_response r)) requests → agent_ready a "" →
  fields (concat rounds) = requests_frames requests → w_reads w = arrivals rounds →
  Forall (λ pieces, length pieces < fuel) rounds → length rounds < k →
  ∃ a' rounds', take_requests n k fuel (length requests) (a, w) =
      (Ret (map inr requests), (a', mkWire (w_sent w) (arrivals rounds'))) ∧
    agent_ready a' "" ∧ fields (concat rounds') = "".
Proof.
  intros Hok Ha Hs Hw Hf Hk.
  assert (∃ a' rounds' s', take_requests n k fuel (length requests) (a, w) =
      (Ret (map inr requests), (a', mkWire (w_sent w) (arrivals rounds'))) ∧
    agent_ready a' s' ∧ s' +:+ fields (concat rounds') = "") as (a' & rounds' & s' & H1 & Ha' & Hl).
  { assert (∃ s, agent_ready a s ∧ s +:+ fields (concat rounds) = requests_frames requests) as (s & Has & Hss)
      by (by exists ""). clear Ha Hs.
    revert a w s rounds Has Hss Hw Hf Hk. induction Hok as [|[[type seq] data] requests Hr Hok IH]; intros a w s rounds Ha Hs Hw Hf Hk.
    - exists a, rounds, s. split; [|by split]. rewrite <-Hw. by destruct w.
    - destruct (getRequest_gets n k fuel a w s type seq data (requests_frames requests) rounds Hr Ha Hs Hw Hf Hk)
        as (a1 & rounds1 & s1 & H1 & Ha1 & Hl1 & used & ->).
      destruct (IH a1 (mkWire (w_sent w) (arrivals rounds1)) s1 rounds1 Ha1 Hl1) as (a2 & rounds2 & s2 & H2 & Ha2 & Hl2).
      { done. } { by apply Forall_app in Hf as [_ ?]. } { rewrite length_app in Hk. lia. }
      exists a2, rounds2, s2. split; [|by split]. cbn [length take_requests map].
      rewrite SE_bind_eq. unfold cynara_agent_get_request, tryCatch. rewrite SE_bind_eq, H1. cbn.
      by rewrite SE_bind_eq, H2. }
  exists a', rounds'. split; [done|]. by destruct s'.
Qed.

Definition example_agent : AgentLogic :=
  mkAgentLogic "AgentType"
    (mkAgentSocketClient (mkSocketClient (mkSocket true false "" 0 0 BinaryQueue_new) PAgent
       (ProtocolFrameHeader_new BinaryQueue_new) BinaryQueue_new) (Some 5))
    BinaryQueue_new (mkFdNotifyObject (Some 5)) 1.
Lemma example_agent_ready : agent_ready example_agent "".
Proof. split_and!; try done; by split_and!. Defined.

Definition example_requests : list agent_request :=
  [(CYNARA_MSG_TYPE_ACTION, 7%Z, [1%Z; 2%Z; 3%Z]); (CYNARA_MSG_TYPE_CANCEL, 7%Z, [])].

Lemma agent_requests_delivered_witness :
  let all := requests_frames example_requests in
  let rounds := [[stake 3 all; substr 3 15 all]; []; [sdrop 18 all]] in
  ∃ a' rounds', take_requests 7 4 100 2 (example_agent, mkWire "" (arrivals rounds)) =
      (Ret (map inr example_requests), (a', mkWire "" (arrivals rounds'))) ∧
    agent_ready a' "" ∧ fields (concat rounds') = "".
Proof.
  intros all rounds.
  apply (agent_requests_delivered example_requests 7 4 100 example_agent (mkWire "" (arrivals rounds)) rounds).
  - decide_by_compute.
  - apply example_agent_ready.
  - vm_compute. reflexivity.
  - reflexivity.
  - decide_by_compute.
  - cbn. lia.
Defined.
