(* ===== verification/AgentRegistration.v ===== *)
(** * An agent connects and registers

    The connection of the agent is lost or was not made yet; the next call connects and
    registers.  This works when no message was cut: the header of a cut message survives;
    and a connection that is still in progress is never registered. *)
From S2P Require Import Prelude Text Types Api BinaryQueue Serialization Frame Messages.
From S2P Require Import ProtocolClient ProtocolAdmin ProtocolAgent Protocols SocketClient ClientTheorems Agents AgentLogic AgentTheorems.

(** ** A wire that can hang up

    The end of a connection stays the next thing to read, and hangs the socket up, until a
    new connection is made. *)
Definition hang_poll (event : PollEvent) : SE Wire PollResult := λ w,
  match event with
  | POLLHUP => (Ret (match w_reads w with RecvEof :: _ => PollReady | _ => PollTimeout end), w)
  | _ => (Ret PollReady, w)
  end.
Definition new_reads (w : Wire) : list RecvResult := match w_reads w with RecvEof :: reads => reads | reads => reads end.
Definition hang_connect : SE Wire ConnectResult := λ w, (Ret ConnectOk, mkWire (w_sent w) (new_reads w)).

Abbreviation hang_ensureConnection n k fuel :=
  (agent_ensureConnection hang_poll wire_getsockopt wire_socket hang_connect (wire_send n) wire_recv k fuel) (only parsing).
Abbreviation hang_registerInCynara n k fuel :=
  (registerInCynara hang_poll (wire_send n) wire_recv k fuel) (only parsing).

(** The agent has no connection: it was not made, or the service closed it.  [h] is what the
    protocol has of the last message. *)
Definition disconnected (a : AgentLogic) (w : Wire) : Prop :=
  let c := m_agentSocket (m_agentSocketClient a) in
  m_clientProtocol c = PAgent ∧ m_connectionInProgress (m_socket c) = false ∧
  (m_open (m_socket c) = true → ∃ reads, w_reads w = RecvEof :: reads).

(** The agent after it has connected. *)
Definition reconnected (a : AgentLogic) : AgentLogic :=
  let c := m_agentSocket (m_agentSocketClient a) in
  withClient a (mkSocketClient (setOpen true (Socket_close (m_socket c))) PAgent
    (setHeaderContent BinaryQueue_new (m_clientHeader c)) BinaryQueue_new).

Definition register_request (a : AgentLogic) : Request :=
  AgentRegisterRequest (m_agentType a) ((agentSequence a + 1) mod 2 ^ 16).

(** The agent with the next sequence number. *)
Definition nextSequence (a : AgentLogic) : AgentLogic :=
  mkAgentLogic (m_agentType a) (m_agentSocketClient a) (m_responseBuffer a) (m_notify a) ((agentSequence a + 1) mod 2 ^ 16).

Lemma hang_isConnected s (w : Wire) :
  m_open s = true → m_connectionInProgress s = false → (∀ reads, w_reads w ≠ RecvEof :: reads) →
  Socket_isConnected hang_poll wire_getsockopt (s, w) = (Ret true, (s, w)).
Proof.
  destruct s as [? ? ? ? ? ?], w as [sent reads]. cbn. intros -> -> Hne.
  destruct reads as [|[] reads]; try reflexivity. by destruct (Hne reads).
Qed.

Lemma hang_isDisconnected s (w : Wire) :
  m_connectionInProgress s = false → (m_open s = true → ∃ reads, w_reads w = RecvEof :: reads) →
  Socket_isConnected hang_poll wire_getsockopt (s, w) = (Ret false, (s, w)).
Proof.
  destruct s as [op ? ? ? ? ?], w as [sent reads]. cbn. intros -> Hopen.
  destruct op; [|reflexivity]. destruct Hopen as [? ->]; [done|]. reflexivity.
Qed.

Lemma hang_Socket_connect s (w : Wire) :
  m_connectionInProgress s = false → (∀ reads, new_reads w ≠ RecvEof :: reads) →
  Socket_connect hang_poll wire_getsockopt wire_socket hang_connect (s, w) =
    (Ret CONNECTION_SUCCEEDED, (setOpen true (Socket_close s), mkWire (w_sent w) (new_reads w))).
Proof.
  intros Hip Hne. unfold Socket_connect. rewrite SE_bind_eq.
  change (onSocket Socket_close (s, w)) with (Ret tt : outcome unit, (Socket_close s, w)). cbn match.
  rewrite SE_bind_eq. change (createSocket wire_socket (Socket_close s, w)) with
    (Ret tt : outcome unit, (setOpen true (Socket_close s), w)). cbn match.
  rewrite SE_bind_eq. change (connectSocket hang_connect (setOpen true (Socket_close s), w)) with
    (Ret CONNECTION_SUCCEEDED : outcome ConnectionStatus,
      (setOpen true (Socket_close s), mkWire (w_sent w) (new_reads w))). cbn match.
  rewrite bool_decide_eq_true_2 by done. cbn [negb]. rewrite SE_bind_eq.
  by rewrite hang_isConnected.
Qed.

Lemma agent_reconnects n k fuel a w :
  disconnected a w → (∀ reads, new_reads w ≠ RecvEof :: reads) →
  hang_ensureConnection n k fuel (a, w) = hang_registerInCynara n k fuel (reconnected a, mkWire (w_sent w) (new_reads w)).
Proof.
  intros (Hp & Hip & Hopen) Hne. unfold agent_ensureConnection. rewrite SE_bind_eq.
  assert (onAgentSocket (agent_connect hang_poll wire_getsockopt wire_socket hang_connect) (a, w) =
    (Ret SS_RECONNECTED, (reconnected a, mkWire (w_sent w) (new_reads w)))) as ->; [|done].
  destruct a as [t [[sk p h wq] fd] b nt sn]. cbn in Hp, Hip, Hopen. subst p.
  pose proof (hang_isDisconnected sk w Hip Hopen) as H1. pose proof (hang_Socket_connect sk w Hip Hne) as H2.
  unfold onAgentSocket, agent_connect. cbn [m_agentSocketClient]. rewrite SE_bind_eq.
  unfold agent_isConnected, onMembers at 1, SocketClient_isConnected, withSocket. cbn [m_agentSocket m_socket].
  rewrite H1. cbn [m_agentSocket m_notifyFd]. rewrite SE_bind_eq. unfold onMembers at 1, withSocket. cbn [m_agentSocket m_socket].
  rewrite H2. rewrite bool_decide_eq_true_2 by done. reflexivity.
Qed.

(** ** The registration *)

(** The request is sent; then the response is waited for, with the same header. *)
Lemma agent_ask_sends n k fuel request c w s :
  0 < n → client_ready (m_agentSocket c) PAgent s → request_ok PAgent request →
  String.length (frame_bytes (request_sequenceNumber request) (request_body PAgent request)) < fuel →
  ∃ sk, socket_idle sk ∧ m_open sk = m_open (m_socket (m_agentSocket c)) ∧
    m_connectionInProgress sk = m_connectionInProgress (m_socket (m_agentSocket c)) ∧
    agent_askCynaraServer hang_poll (wire_send n) wire_recv k fuel request (c, w) =
      receiveResponseFromServer hang_poll wire_recv k fuel
        (mkAgentSocketClient (mkSocketClient sk PAgent (m_clientHeader (m_agentSocket c)) BinaryQueue_new) (m_notifyFd c),
         mkWire (w_sent w +:+ frame_bytes (request_sequenceNumber request) (request_body PAgent request)) (w_reads w)).
Proof.
  intros Hn (Hp & Hidle & Hokw & Hbw & Haw) Hreq Hf. destruct c as [[sk p h wq] fd].
  cbn [m_agentSocket m_notifyFd m_clientProtocol m_socket m_clientWriteQueue m_clientHeader] in *. subst p.
  destruct (message_written (ProtocolLaws:=request_laws PAgent) request wq Hreq Hokw) as (data & Hd & Hokd & Hbd).
  rewrite Hbw, str_app_nil_l in Hbd. rewrite <-Hbd in Hf |- *.
  destruct (sendToServer_sends n fuel sk w data Hn Hidle Hokd Hf) as (sk' & Hs & Hidle' & Ho & Hip).
  exists sk'. split; [done|]. split; [done|]. split; [done|].
  unfold agent_askCynaraServer. rewrite SE_bind_eq.
  assert (onMembers (W:=Wire) (c ← client_; withWriteQueue (protocol_executeRequest (m_clientProtocol c) request) ;;
      withWriteQueue (λ q, (Ret q, BinaryQueue_new))) (mkAgentSocketClient (mkSocketClient sk PAgent h wq) fd, w) =
    (Ret data, (mkAgentSocketClient (mkSocketClient sk PAgent h BinaryQueue_new) fd, w))) as ->.
  { unfold onMembers. cbn [m_agentSocket]. rewrite SE_bind_eq. unfold client_, gets. cbn [fst m_clientProtocol].
    rewrite SE_bind_eq. unfold withWriteQueue at 1. cbn [m_clientWriteQueue]. by rewrite Hd. }
  rewrite SE_bind_eq. unfold sendDataToServer. rewrite SE_bind_eq. unfold onMembers at 1, withSocket. cbn [m_agentSocket m_socket].
  change (sendToServer hang_poll (wire_send n) fuel data (sk, w)) with (sendToServer wire_poll (wire_send n) fuel data (sk, w)).
  rewrite Hs. rewrite bool_decide_eq_false_2 by done. reflexivity.
Qed.

(** Reading does not look at hang-ups. *)
Lemma hang_receives n fuel s :
  receiveResponse_loop hang_poll wire_recv fuel n s = receiveResponse_loop wire_poll wire_recv fuel n s.
Proof. reflexivity. Qed.

(** What a call returns for the code of a registration. *)
Definition registration_code (code : Z) : Z :=
  if (code =? AgentRegisterCode.DONE)%Z then CYNARA_API_SUCCESS
  else if (code =? AgentRegisterCode.REJECTED)%Z then CYNARA_API_ACCESS_DENIED
  else CYNARA_API_UNKNOWN_ERROR.

(** What the protocol has of the last message when the queues have been cleared. *)
Definition cleared_header (a : AgentLogic) : ProtocolFrameHeader :=
  setHeaderContent BinaryQueue_new (m_clientHeader (m_agentSocket (m_agentSocketClient a))).
Definition register_frame (a : AgentLogic) : string :=
  frame_bytes (request_sequenceNumber (register_request a)) (request_body PAgent (register_request a)).

Lemma client_ready_intro sk p h s : socket_idle sk → awaits h s → client_ready (mkSocketClient sk p h BinaryQueue_new) p s.
Proof. intros Hs Hh. split; [done|]. split; [done|]. split; [apply queue_ok_new|]. by split. Qed.

(** What the registration does with the answer is up to the loop that waits for it. *)
Lemma register_asks n k fuel a w s :
  0 < n → disconnected a w → (∀ reads, new_reads w ≠ RecvEof :: reads) → request_ok PAgent (register_request a) →
  awaits (cleared_header a) s → String.length (register_frame a) < fuel →
  ∃ c, client_ready c PAgent s ∧ m_clientHeader c = cleared_header a ∧
    (∀ h s, awaits h s → agent_ready (withClient a (withHeaderOf c h)) s) ∧
    ∀ r c' w', receiveResponse_loop wire_poll wire_recv fuel k (c, mkWire (w_sent w +:+ register_frame a) (new_reads w)) = (r, (c', w')) →
      hang_ensureConnection n k fuel (a, w) =
        (match r with
         | Ret None => Ret CYNARA_API_SERVICE_NOT_AVAILABLE
         | Ret (Some (AgentRegisterResponse code _)) => Ret (registration_code code)
         | Ret (Some _) => Ret CYNARA_API_UNKNOWN_ERROR
         | Throw e => Throw e
         | OutOfFuel => OutOfFuel
         end, (nextSequence (withClient a c'), w')).
Proof.
  intros Hn Hd Hne Hreq Hh Hf. rewrite agent_reconnects by done. destruct Hd as (_ & Hip & _).
  set (c0 := m_agentSocketClient (reconnected a)).
  assert (client_ready (m_agentSocket c0) PAgent s) as Hc0 by (by apply client_ready_intro).
  destruct (agent_ask_sends n k fuel (register_request a) c0 (mkWire (w_sent w) (new_reads w)) s Hn Hc0 Hreq Hf)
    as (sk & Hidle & Ho & Hi & Hask).
  set (c := mkSocketClient sk PAgent _ _) in Hask. exists c. split; [|split; [done|split]].
  - by apply client_ready_intro.
  - intros h s' Haw. split; [by apply client_ready_intro|]. split; [done|]. cbn. by rewrite Hi.
  - intros r c' w' Hloop. unfold registerInCynara. rewrite SE_bind_eq.
    change (agent_generateSequenceNumber (reconnected a, mkWire (w_sent w) (new_reads w))) with
      (Ret ((agentSequence a + 1) mod 2 ^ 16)%Z : outcome Z, (nextSequence (reconnected a), mkWire (w_sent w) (new_reads w))).
    cbn match. rewrite SE_bind_eq. cbn [get]. rewrite SE_bind_eq. unfold onAgentSocket at 1.
    change (AgentRegisterRequest (m_agentType (fst _)) ((agentSequence a + 1) mod 2 ^ 16)) with (register_request a).
    change (m_agentSocketClient (nextSequence (reconnected a))) with c0. rewrite Hask.
    unfold receiveResponseFromServer, onMembers. cbn [m_agentSocket]. rewrite hang_receives. cbn [w_sent w_reads]. fold (register_frame a). rewrite Hloop.
    destruct r as [[[]|]| |]; reflexivity.
Qed.

(** The next wake-up is that of the new connection. *)
Lemma arrivals_no_eof rounds reads : arrivals rounds ≠ RecvEof :: reads.
Proof. by destruct rounds as [|[]]. Qed.

(** C22: An agent without a connection, whose reader is between two messages (it has not
    connected yet, or the service has not closed the connection in the middle of one, which
    is [cut_message_breaks_registration]), connects and registers: it sends exactly the
    registration of its type with the next sequence number; the call goes on when the service
    answers that it is done, and ends with [CYNARA_API_ACCESS_DENIED] when it rejects the
    agent; requests that arrive behind the answer are kept for later calls. *)
Theorem agent_registers n k fuel a w rounds code seq later reqdata :
  0 < n → disconnected a w → awaits (cleared_header a) "" → request_ok PAgent (register_request a) →
  protocol_executeRequest PAgent (register_request a) BinaryQueue_new = (Ret tt, reqdata) →
  response_ok PAgent (AgentRegisterResponse code seq) →
  fields (concat rounds) = response_frame PAgent (AgentRegisterResponse code seq) +:+ later →
  new_reads w = arrivals rounds → Forall (λ pieces, length pieces < fuel) rounds → length rounds < k →
  String.length (bytes reqdata) < fuel →
  ∃ a' rounds' s', hang_ensureConnection n k fuel (a, w) =
      (Ret (registration_code code), (a', mkWire (w_sent w +:+ bytes reqdata) (arrivals rounds'))) ∧
    agent_ready a' s' ∧ s' +:+ fields (concat rounds') = later ∧ agentSequence a' = ((agentSequence a + 1) mod 2 ^ 16)%Z.
Proof.
  intros Hn Hd Hh Hreq Hrd Hr Hs Hw Hp Hk Hf. rewrite (executeRequest_bytes _ _ _ Hreq Hrd) in Hf |- *.
  assert (∀ reads, new_reads w ≠ RecvEof :: reads) as Hne by (intros reads; rewrite Hw; apply arrivals_no_eof).
  destruct (register_asks n k fuel a w "" Hn Hd Hne Hreq Hh Hf) as (c & Hc & _ & Hready & Hloop).
  destruct (receiveResponse_gets (AgentRegisterResponse code seq) later rounds k fuel c
    (mkWire (w_sent w +:+ register_frame a) (new_reads w)) "" Hr Hc Hs Hw Hp Hk) as (h & rounds' & s' & H1 & Haw & Hl & _).
  eexists _, rounds', s'. split; [exact (Hloop _ _ _ H1)|]. split; [exact (Hready h s' Haw)|]. by split.
Qed.

Definition example_new_agent : AgentLogic :=
  (AgentLogic_new (λ w : Wire, (Some 5, w)) "AgentType" 0 (mkWire "" [])).1.

Lemma agent_registers_witness :
  let answer := response_frame PAgent (AgentRegisterResponse AgentRegisterCode.DONE 1) in
  let frame := register_frame example_new_agent in
  ∃ reqdata, protocol_executeRequest PAgent (register_request example_new_agent) BinaryQueue_new = (Ret tt, reqdata) ∧
  ∃ a' rounds' s', hang_ensureConnection 7 3 100 (example_new_agent, mkWire "" (arrivals [[stake 5 answer]; [sdrop 5 answer]])) =
      (Ret CYNARA_API_SUCCESS, (a', mkWire ("" +:+ bytes reqdata) (arrivals rounds'))) ∧
    agent_ready a' s' ∧ s' +:+ fields (concat rounds') = "" ∧ agentSequence a' = ((0 + 1) mod 2 ^ 16)%Z.
Proof.
  intros answer frame. eexists. split; [vm_compute; reflexivity|].
  apply (agent_registers 7 3 100 example_new_agent (mkWire "" (arrivals [[stake 5 answer]; [sdrop 5 answer]]))
    [[stake 5 answer]; [sdrop 5 answer]] AgentRegisterCode.DONE 1 ""); try reflexivity.
  - lia.
  - by split_and!.
  - by split_and!.
  - decide_by_compute.
  - decide_by_compute.
  - decide_by_compute.
  - cbn. lia.
  - apply Nat.ltb_lt. vm_compute. reflexivity.
Defined.

(** ** A message cut by the end of the connection *)

(** A complete frame with an operation code that the protocol does not have. *)
Lemma extractFrame_wrong {A} (switch : Z → SE ProtocolFrameHeader A) h seq op fs rest e :
  is_uint 16 seq → is_uint 8 op → body_fits (le_bytes 1 op +:+ fs) →
  awaits h (frame_bytes seq (le_bytes 1 op +:+ fs) +:+ rest) → (∀ h, switch op h = (Throw e, h)) →
  ∃ h', extractFrame switch h = (Throw e, h') ∧ awaits h' (fs +:+ rest).
Proof.
  intros Hseq Hop Hfit Haw Hsw.
  destruct (deserializeHeader_complete h seq _ rest Hseq Hfit Haw) as (h1 & H1 & Hc1 & Hs1 & Hok1 & Hb1).
  rewrite str_app_assoc in Hb1.
  destruct (reads_header_fields deserialize_opCode (le_bytes 1 op) op (Frame.resetState h1) (fs +:+ rest))
    as (q2 & H2 & Hok2 & Hb2); [by apply reads_opCode|done|done|].
  unfold extractFrame. rewrite SE_bind_eq, H1, SE_bind_eq. cbn [get]. rewrite Hc1, SE_bind_eq. cbn [modify].
  rewrite SE_bind_eq, H2, SE_bind_eq, Hsw. eexists. split; [done|]. by split_and!.
Qed.

(** The signature of a frame is not an operation code of an agent. *)
Lemma signature_is_no_response h :
  agent_responseSwitch 67 h = (Throw (InvalidProtocolException WrongOpCode), h).
Proof. reflexivity. Qed.

(** A frame that is read as the body of another message. *)
Lemma extract_misread h len seq m seq2 body2 :
  is_uint 16 seq → awaits h (frame_header len seq +:+ frame_bytes seq2 body2) → 0 < m → m ≤ String.length (frame_bytes seq2 body2) →
  len = Z.of_nat (frameHeaderLength + m) → (len < 2 ^ 32)%Z →
  ∃ h', extractResponseFromBuffer PAgent h = (Throw (InvalidProtocolException WrongOpCode), h').
Proof.
  intros Hseq Haw Hm Hle -> Hlen. set (f := frame_bytes seq2 body2) in *.
  destruct m as [|m]; [lia|]. set (fs := stake m (sdrop 1 f)).
  assert (f = le_bytes 1 67 +:+ sdrop 1 f) as Hf by reflexivity.
  assert (String.length (le_bytes 1 67 +:+ fs) = S m) as Hl.
  { rewrite str_length_app, le_bytes_length. unfold fs. rewrite str_length_stake, str_length_sdrop. lia. }
  rewrite extractResponse_frame by done.
  destruct (extractFrame_wrong (responseSwitch PAgent) h seq 67 fs (sdrop m (sdrop 1 f))
    (InvalidProtocolException WrongOpCode)) as (h' & H1 & _); [done|done| | |exact signature_is_no_response|by exists h'].
  - unfold body_fits. rewrite Hl. done.
  - unfold frame_bytes. rewrite Hl, !str_app_assoc. unfold fs. by rewrite stake_sdrop, <-Hf.
Qed.

(** Before the answer arrives nothing is complete; then it is read as the rest of the old message. *)
Lemma loop_misreads k fuel c w len seq m seq2 body2 :
  1 < k → 1 < fuel → client_ready c PAgent (frame_header len seq) → w_reads w = arrivals [[frame_bytes seq2 body2]] →
  is_uint 16 seq → len = Z.of_nat (frameHeaderLength + m) → (len < 2 ^ 32)%Z → 0 < m → m ≤ String.length (frame_bytes seq2 body2) →
  ∃ h, receiveResponse_loop wire_poll wire_recv fuel k (c, w) =
    (Throw (InvalidProtocolException WrongOpCode), (withHeaderOf c h, mkWire (w_sent w) [])).
Proof.
  intros Hk Hfu Hc Hw Hseq Hl Hlen Hm Hle. set (answer := frame_bytes seq2 body2) in *. set (s0 := frame_header len seq) in *.
  pose proof Hc as (_ & _ & _ & _ & Haw).
  assert (String.length (stake m answer) = m) as Hlm by (by rewrite str_length_stake, Nat.min_l).
  destruct (extractFrame_partial (responseSwitch PAgent) (m_clientHeader c) s0 seq (stake m answer) (stake m answer))
    as (h1 & H1 & Haw1); [done| |done| | |].
  { unfold body_fits. by rewrite Hlm, <-Hl. }
  { unfold frame_bytes. by rewrite Hlm, <-Hl. }
  { intros E. rewrite E in Hlm. cbn in Hlm. lia. }
  pose proof (client_ready_header c PAgent s0 h1 s0 Hc Haw1) as Hc1.
  destruct (agent_receive_reads fuel (withHeaderOf c h1) w s0 [answer] [] Hc1) as (h2 & H2 & Haw2); [by rewrite Hw|done|].
  unfold fields in Haw2. cbn [foldr] in Haw2. rewrite str_app_nil_r in Haw2.
  destruct (extract_misread h2 len seq m seq2 body2) as (h3 & H3); [done..|].
  destruct k as [|[|k]]; [lia|lia|]. exists h3. cbn [receiveResponse_loop]. rewrite SE_bind_eq.
  rewrite (agent_extract_eq c w s0 (Ret None) h1) by (done || by rewrite extractResponse_frame).
  rewrite SE_bind_eq, H2. cbn [negb]. erewrite SE_bind_Throw; [reflexivity|].
  by rewrite (agent_extract_eq _ _ _ _ _ (client_ready_header c PAgent s0 h2 _ Hc Haw2) H3).
Qed.

Abbreviation hang_get_request n k fuel :=
  (cynara_agent_get_request hang_poll wire_getsockopt wire_socket hang_connect (wire_send n) wire_recv wire_events
     wire_eventfd_read k fuel) (only parsing).

(** The header of a message that was cut by the end of its connection outlives the
    connection, although the queues are cleared: the agent connects and registers, but the
    service's answer to the registration is read as the body of the old message, so the call
    of [cynara_agent_get_request] ends with [CYNARA_API_INVALID_PARAM], although the agent is
    registered. *)
Theorem cut_message_breaks_registration n k fuel a w type data seq s u code seq2 :
  let r := AgentActionResponse type data seq in
  let answer := response_frame PAgent (AgentRegisterResponse code seq2) in
  0 < n → 1 < k → 1 < fuel → disconnected a w → request_ok PAgent (register_request a) → response_ok PAgent r →
  m_headerComplete (m_clientHeader (m_agentSocket (m_agentSocketClient a))) = true →
  awaits (m_clientHeader (m_agentSocket (m_agentSocketClient a))) s → s +:+ u = response_frame PAgent r →
  String.length (response_body PAgent r) ≤ String.length answer →
  new_reads w = arrivals [[answer]] → String.length (register_frame a) < fuel →
  ∃ a' w', hang_get_request n k fuel (a, w) = (Ret (inl CYNARA_API_INVALID_PARAM), (a', w')) ∧
    w_sent w' = w_sent w +:+ register_frame a ∧ w_reads w' = [].
Proof.
  intros r answer Hn Hk Hfu Hd Hreq Hr Hhc Haw Hs Hle Hw Hf.
  pose proof (message_fits (ProtocolLaws:=response_laws PAgent) r Hr) as [Hfit Hseq].
  assert (0 < String.length (response_body PAgent r)) as Hpos.
  { destruct (message_decoded (ProtocolLaws:=response_laws PAgent) r Hr) as (op & fs & _ & -> & _).
    rewrite str_length_app, le_bytes_length. lia. }
  destruct Haw as (Hok & Hbc & Haw). rewrite Hhc in Haw. destruct Haw as (Hlen & Hsq & ->).
  set (h := m_clientHeader (m_agentSocket (m_agentSocketClient a))) in *.
  rewrite str_app_assoc in Hs. apply frame_header_inj in Hs as (Hl & Hq & _); [|done|done| |done].
  2:{ unfold is_uint, body_fits in *. lia. }
  set (s0 := frame_header (m_frameLength h) (m_sequenceNumber h)).
  assert (awaits (cleared_header a) s0) as Haw0.
  { split; [apply queue_ok_new|]. split; [done|]. unfold cleared_header. cbn. fold h. rewrite Hhc. by split_and!. }
  assert (∀ reads, new_reads w ≠ RecvEof :: reads) as Hne by (intros reads; rewrite Hw; apply arrivals_no_eof).
  destruct (register_asks n k fuel a w s0 Hn Hd Hne Hreq Haw0 Hf) as (c & Hc & Hch & _ & Hloop).
  set (w1 := mkWire (w_sent w +:+ register_frame a) (new_reads w)) in *.
  destruct (loop_misreads k fuel c w1 _ _ (String.length (response_body PAgent r)) seq2
    (response_body PAgent (AgentRegisterResponse code seq2)) Hk Hfu Hc) as (h3 & H3); [exact Hw|done|by rewrite Hl| |done|done|].
  { unfold is_uint in Hlen. lia. }
  specialize (Hloop _ _ _ H3). exists (nextSequence (withClient a (withHeaderOf c h3))), (mkWire (w_sent w1) []).
  split; [|done]. unfold cynara_agent_get_request, tryCatch, getRequest. rewrite SE_bind_eq.
  by erewrite SE_bind_Throw by exact Hloop.
Qed.

(** The agent has read the first twelve bytes of a request when the service closes the
    connection. *)
Definition example_cut_agent : AgentLogic :=
  let s := requests_frames [(CYNARA_MSG_TYPE_ACTION, 7%Z, [1%Z; 2%Z; 3%Z])] in
  match agent_receive wire_poll wire_recv 100 (m_agentSocket (m_agentSocketClient example_agent), mkWire "" (arrivals [[stake 12 s]])) with
  | (_, (c, w)) => withClient example_agent (agent_extract (c, w)).2.1
  end.

Lemma cut_message_breaks_registration_witness :
  let answer := response_frame PAgent (AgentRegisterResponse AgentRegisterCode.DONE 2) in
  let w := mkWire "" (RecvEof :: arrivals [[answer]]) in
  ∃ a' w', hang_get_request 7 3 100 (example_cut_agent, w) = (Ret (inl CYNARA_API_INVALID_PARAM), (a', w')) ∧
    w_sent w' = "" +:+ register_frame example_cut_agent ∧ w_reads w' = [].
Proof.
  intros answer w.
  apply (cut_message_breaks_registration 7 3 100 example_cut_agent w CYNARA_MSG_TYPE_ACTION [1%Z; 2%Z; 3%Z] 7
    (stake 12 (requests_frames [(CYNARA_MSG_TYPE_ACTION, 7%Z, [1%Z; 2%Z; 3%Z])]))
    (sdrop 12 (requests_frames [(CYNARA_MSG_TYPE_ACTION, 7%Z, [1%Z; 2%Z; 3%Z])])) AgentRegisterCode.DONE 2);
    try (vm_compute; reflexivity).
  - lia.
  - lia.
  - lia.
  - split; [done|]. split; [done|]. intros _. by eexists.
  - decide_by_compute.
  - decide_by_compute.
  - split; [split; [decide_by_compute|by vm_compute]|]. split; [done|]. split; [decide_by_compute|]. split; [decide_by_compute|]. vm_compute. reflexivity.
  - apply Nat.leb_le. vm_compute. reflexivity.
  - apply Nat.ltb_lt. vm_compute. reflexivity.
Defined.

(** ** A connection that is in progress

    [AgentSocketClient::connect] takes a connection in progress for a failure, but the socket
    takes it for a connection from then on. *)

Section in_progress.
Context {W : Type}.
Context (sys_poll : PollEvent → SE W PollResult) (sys_getsockopt : SE W (Z + Z))
  (sys_socket : SE W (unit + Z)) (sys_connect : SE W ConnectResult)
  (sys_send : string → SE W SendResult) (sys_recv : SE W RecvResult)
  (sys_poll_events : option nat → W → EventPoll * W)
  (sys_eventfd_write sys_eventfd_read : option nat → W → bool * W) (rounds fuel : nat).

(** The connection is in progress. *)
Definition socket_in_progress (s : Socket * W) : Prop := m_connectionInProgress s.1 = true.
Definition client_in_progress (c : SocketClient * W) : Prop := m_connectionInProgress (m_socket c.1) = true.
Definition in_progress (a : AgentLogic * W) : Prop :=
  m_connectionInProgress (m_socket (m_agentSocket (m_agentSocketClient a.1))) = true.

(** ** It stays so *)

Lemma system_in_progress {A} (m : SE W A) : keeps socket_in_progress (system m).
Proof. intros [s w] Hs. unfold system. by destruct (m w). Qed.
Lemma onSocket_in_progress f :
  (∀ s, m_connectionInProgress (f s) = m_connectionInProgress s) → keeps socket_in_progress (onSocket (W:=W) f).
Proof. intros Hf. apply keeps_modify. intros [s w] Hs. unfold socket_in_progress in *. cbn. by rewrite Hf. Qed.
Lemma waitForSocket_in_progress e : keeps socket_in_progress (waitForSocket sys_poll e).
Proof. unfold waitForSocket. pose proof @system_in_progress. keep. Qed.
Lemma sendBuffer_in_progress n : keeps socket_in_progress (sendBuffer sys_poll sys_send n).
Proof.
  induction n as [|n IH]; cbn [sendBuffer]; [apply keeps_fuel|].
  pose proof @system_in_progress. pose proof waitForSocket_in_progress. unfold socket_. keep. by apply onSocket_in_progress.
Qed.
Lemma flattenSendQueue_in_progress : keeps socket_in_progress (flattenSendQueue (W:=W)).
Proof. intros [s w] Hs. unfold flattenSendQueue. by destruct (flattenConsume _ _) as [[] ?]. Qed.
Lemma sendToServer_in_progress q : keeps socket_in_progress (sendToServer sys_poll sys_send fuel q).
Proof.
  pose proof (λ n, sendBuffer_in_progress n). pose proof flattenSendQueue_in_progress.
  unfold sendToServer, loadSendBuffer. keep; by apply onSocket_in_progress.
Qed.
Definition receiving_in_progress (s : BinaryQueue * (Socket * W)) : Prop := m_connectionInProgress s.2.1 = true.
Lemma ofSocket_in_progress {A} (m : SE (Socket * W) A) : keeps socket_in_progress m → keeps receiving_in_progress (ofSocket m).
Proof. intros Hm [q s] Hs. unfold ofSocket. specialize (Hm s Hs). by destruct (m s). Qed.
Lemma ofQueue_in_progress {A} (m : SE BinaryQueue A) : keeps receiving_in_progress (ofQueue (W:=W) m).
Proof. intros [q s] Hs. unfold ofQueue. by destruct (m q). Qed.
Lemma receiveLoop_in_progress n : keeps receiving_in_progress (receiveLoop (W:=W) sys_recv n).
Proof.
  induction n as [|n IH]; cbn [receiveLoop]; [apply keeps_fuel|].
  pose proof @ofQueue_in_progress. pose proof (ofSocket_in_progress _ (system_in_progress sys_recv)). keep.
Qed.
Lemma receive_in_progress : keeps client_in_progress (receiveIntoReadQueue sys_poll sys_recv fuel).
Proof.
  assert (keeps receiving_in_progress (receiveFromServer sys_poll sys_recv fuel)) as Hr.
  { pose proof (ofSocket_in_progress _ (waitForSocket_in_progress POLLIN)). pose proof (receiveLoop_in_progress fuel).
    unfold receiveFromServer. keep. }
  intros [c w] Hc. unfold receiveIntoReadQueue. specialize (Hr (m_frameHeaderContent (m_clientHeader c), (m_socket c, w)) Hc).
  by destruct (receiveFromServer _ _ _ _) as [r [q [s w']]].
Qed.

Lemma withSocket_in_progress {A} (m : SE (Socket * W) A) : keeps socket_in_progress m → keeps client_in_progress (withSocket m).
Proof. intros Hm [c w] Hc. unfold withSocket. specialize (Hm (m_socket c, w) Hc). by destruct (m _) as [r [s w']]. Qed.
Lemma withHeader_in_progress {A} (m : Reader A) : keeps client_in_progress (withHeader (W:=W) m).
Proof. intros [c w] Hc. unfold withHeader. by destruct (m _). Qed.
Lemma withWriteQueue_in_progress {A} (m : SE BinaryQueue A) : keeps client_in_progress (withWriteQueue (W:=W) m).
Proof. intros [c w] Hc. unfold withWriteQueue. by destruct (m _). Qed.

(** The connection is in progress and no registration has been tried since [sequence]. *)
Definition stuck (sequence : Z) (a : AgentLogic * W) : Prop := in_progress a ∧ agentSequence a.1 = sequence.

Lemma onMembers_stuck {A} (m : SE (SocketClient * W) A) n : keeps client_in_progress m → keeps (stuck n) (onAgentSocket (onMembers m)).
Proof.
  intros Hm [a w] [Ha Hn]. unfold onAgentSocket, onMembers. specialize (Hm (m_agentSocket (m_agentSocketClient a), w) Ha).
  by destruct (m _) as [r [s w']].
Qed.

Lemma isConnected_in_progress a :
  in_progress a → onAgentSocket (agent_isConnected sys_poll sys_getsockopt) a = (Ret true, a).
Proof.
  destruct a as [[t [[sk p h wq] fd] b nt sn] w]. unfold in_progress. cbn. intros Hp.
  unfold onAgentSocket, agent_isConnected, onMembers, SocketClient_isConnected, withSocket. cbn [m_agentSocketClient m_agentSocket m_socket].
  unfold Socket_isConnected. rewrite SE_bind_eq. unfold socket_, gets. cbn [fst]. by rewrite Hp.
Qed.

Abbreviation stuck_ensureConnection :=
  (agent_ensureConnection sys_poll sys_getsockopt sys_socket sys_connect sys_send sys_recv rounds fuel).

Lemma ensureConnection_in_progress a : in_progress a → stuck_ensureConnection a = (Ret CYNARA_API_SUCCESS, a).
Proof.
  intros Ha. pose proof (isConnected_in_progress a Ha) as Hc. unfold agent_ensureConnection. rewrite SE_bind_eq.
  assert (onAgentSocket (agent_connect sys_poll sys_getsockopt sys_socket sys_connect) a = (Ret SS_CONNECTED, a)) as ->; [|done].
  destruct a as [[t c b nt sn] w]. unfold onAgentSocket in *. cbn [m_agentSocketClient] in *.
  destruct (agent_isConnected _ _ (c, w)) as [r [c' w']] eqn:E. injection Hc as -> -> ->.
  unfold agent_connect. by rewrite SE_bind_eq, E.
Qed.

Lemma receive_stuck n k : keeps (stuck n) (onAgentSocket (receiveResponseFromServer sys_poll sys_recv k fuel)).
Proof.
  apply onMembers_stuck. unfold receiveResponseFromServer. induction k as [|k IH]; cbn [receiveResponse_loop]; [apply keeps_fuel|].
  pose proof @withHeader_in_progress. unfold agent_extract, agent_receive, client_.
  pose proof receive_in_progress. keep.
Qed.

(** ** The calls of an agent *)

Inductive agent_call := CallGetRequest | CallPutResponse (type seq : Z) (data : option RawBuffer) (size : nat) | CallCancel.

Definition run_call (call : agent_call) (a : AgentLogic * W) : AgentLogic * W :=
  match call with
  | CallGetRequest => (cynara_agent_get_request sys_poll sys_getsockopt sys_socket sys_connect sys_send sys_recv
      sys_poll_events sys_eventfd_read rounds fuel a).2
  | CallPutResponse type seq data size => (cynara_agent_put_response sys_poll sys_getsockopt sys_send fuel type seq data size a).2
  | CallCancel => (cynara_agent_cancel_waiting sys_eventfd_write a).2
  end.

Lemma onNotify_stuck {A} (m : SE (FdNotifyObject * W) A) n : keeps (stuck n) (onNotify m).
Proof. intros [a w] Ha. unfold onNotify. by destruct (m _) as [r [x w']]. Qed.
Lemma onResponseBuffer_stuck {A} (m : SE BinaryQueue A) n : keeps (stuck n) (onResponseBuffer (W:=W) m).
Proof. intros [a w] Ha. unfold onResponseBuffer. by destruct (m _) as [r q]. Qed.
Lemma waitForEvent_stuck n : keeps (stuck n) (onAgentSocket (waitForEvent sys_poll_events)).
Proof. intros [a w] Ha. unfold onAgentSocket, waitForEvent. by destruct (sys_poll_events _ _) as [[] w']. Qed.

Lemma sendDataToServer_stuck n q : keeps (stuck n) (onAgentSocket (sendDataToServer sys_poll sys_send fuel q)).
Proof.
  intros [a w] Ha. pose proof (onMembers_stuck _ n (withSocket_in_progress _ (sendToServer_in_progress q)) (a, w) Ha) as H.
  unfold onAgentSocket, sendDataToServer in *. rewrite SE_bind_eq. by destruct (onMembers _ _) as [[] [c w']].
Qed.

Lemma getRequest_stuck n :
  keeps (stuck n) (getRequest sys_poll sys_getsockopt sys_socket sys_connect sys_send sys_recv sys_poll_events sys_eventfd_read rounds fuel).
Proof.
  assert (keeps (stuck n) (onAgentSocket (W:=W) getBufferedResponse)) as Hbuffered.
  { apply onMembers_stuck. pose proof @withHeader_in_progress. unfold agent_extract, client_. keep. }
  pose proof (receive_stuck n). pose proof (waitForEvent_stuck n). pose proof @onNotify_stuck.
  intros a Ha. unfold getRequest. rewrite SE_bind_eq, ensureConnection_in_progress by apply Ha.
  change (negb (CYNARA_API_SUCCESS =? CYNARA_API_SUCCESS)%Z) with false. cbn match. revert a Ha.
  match goal with |- ∀ a, _ → stuck n (?m a).2 => change (keeps (stuck n) m) end. keep.
Qed.

Lemma putResponse_stuck n type seq data : keeps (stuck n) (putResponse sys_poll sys_getsockopt sys_send fuel type seq data).
Proof.
  assert (keeps (stuck n) (onAgentSocket (agent_isConnected sys_poll sys_getsockopt))).
  { intros a Ha. by rewrite isConnected_in_progress by apply Ha. }
  pose proof @onResponseBuffer_stuck. pose proof (sendDataToServer_stuck n). unfold putResponse. keep.
Qed.

Lemma run_call_stuck n call a : stuck n a → stuck n (run_call call a).
Proof.
  pose proof (getRequest_stuck n). pose proof (putResponse_stuck n). pose proof @onNotify_stuck. revert a.
  destruct call as [|type seq data size|]; cbn [run_call].
  - assert (keeps (stuck n) (cynara_agent_get_request sys_poll sys_getsockopt sys_socket sys_connect sys_send sys_recv
      sys_poll_events sys_eventfd_read rounds fuel)) as Hk; [|exact Hk]. unfold cynara_agent_get_request. keep.
  - assert (keeps (stuck n) (cynara_agent_put_response sys_poll sys_getsockopt sys_send fuel type seq data size)) as Hk; [|exact Hk].
    unfold cynara_agent_put_response, api_tryCatch. keep.
  - assert (keeps (stuck n) (cynara_agent_cancel_waiting (W:=W) sys_eventfd_write)) as Hk; [|exact Hk].
    unfold cynara_agent_cancel_waiting, api_tryCatch, cancelWaiting. keep.
Qed.

Lemma run_calls_stuck n calls a : stuck n a → stuck n (foldr run_call a calls).
Proof. intros Ha. induction calls as [|call calls IH]; [done|]. by apply run_call_stuck. Qed.

(** The socket is made and its connection is not ready. *)
Lemma Socket_connect_in_progress s w w1 w2 :
  sys_socket w = (Ret (inl tt), w1) → sys_connect w1 = (Ret ConnectInProgress, w2) →
  Socket_connect sys_poll sys_getsockopt sys_socket sys_connect (s, w) =
    (Ret CONNECTION_IN_PROGRESS, (setInProgress true (setOpen true (Socket_close s)), w2)).
Proof.
  intros Hs Hc. unfold Socket_connect. rewrite SE_bind_eq.
  change (onSocket Socket_close (s, w)) with (Ret tt : outcome unit, (Socket_close s, w)). cbn match.
  assert (createSocket sys_socket (Socket_close s, w) = (Ret tt, (setOpen true (Socket_close s), w1))) as H1.
  { unfold createSocket. rewrite SE_bind_eq. unfold system. by rewrite Hs. }
  assert (connectSocket sys_connect (setOpen true (Socket_close s), w1) =
    (Ret CONNECTION_IN_PROGRESS, (setInProgress true (setOpen true (Socket_close s)), w2))) as H2.
  { unfold connectSocket. rewrite SE_bind_eq. unfold system. by rewrite Hc. }
  by rewrite SE_bind_eq, H1, SE_bind_eq, H2, bool_decide_eq_false_2.
Qed.

Lemma agent_connect_in_progress a w w1 w2 :
  let sk := m_socket (m_agentSocket (m_agentSocketClient a)) in
  m_open sk = false → m_connectionInProgress sk = false →
  sys_socket w = (Ret (inl tt), w1) → sys_connect w1 = (Ret ConnectInProgress, w2) →
  ∃ a', stuck_ensureConnection (a, w) = (Ret CYNARA_API_SERVICE_NOT_AVAILABLE, (a', w2)) ∧ stuck (agentSequence a) (a', w2).
Proof.
  destruct a as [t [[sk p h wq] fd] b nt sn]. cbn. intros Ho Hp Hs Hc.
  exists (mkAgentLogic t (mkAgentSocketClient (mkSocketClient (setInProgress true (setOpen true (Socket_close sk))) p h wq) fd) b nt sn).
  split; [|done]. unfold agent_ensureConnection. rewrite SE_bind_eq. unfold onAgentSocket at 1, agent_connect.
  cbn [m_agentSocketClient]. rewrite SE_bind_eq.
  unfold agent_isConnected, SocketClient_isConnected, onMembers at 1, withSocket. cbn [m_agentSocket m_socket].
  assert (Socket_isConnected sys_poll sys_getsockopt (sk, w) = (Ret false, (sk, w))) as ->.
  { unfold Socket_isConnected. rewrite SE_bind_eq. unfold socket_, gets. cbn [fst]. by rewrite Hp, Ho. }
  cbn match. rewrite SE_bind_eq. unfold onMembers at 1. cbn [m_agentSocket m_socket].
  by rewrite (Socket_connect_in_progress sk w w1 w2), bool_decide_eq_false_2.
Qed.

(** When the system reports that the connection is still in progress, the call of
    [cynara_agent_get_request] fails with [CYNARA_API_SERVICE_NOT_AVAILABLE], and the agent is
    of no use from then on: whatever calls follow and whatever the system does, the connection
    counts as made, so no call connects again and no call registers the agent (its sequence
    number stays). *)
Theorem connection_in_progress_never_registers a w w1 w2 calls :
  m_open (m_socket (m_agentSocket (m_agentSocketClient a))) = false →
  m_connectionInProgress (m_socket (m_agentSocket (m_agentSocketClient a))) = false →
  sys_socket w = (Ret (inl tt), w1) → sys_connect w1 = (Ret ConnectInProgress, w2) →
  let first := cynara_agent_get_request sys_poll sys_getsockopt sys_socket sys_connect sys_send sys_recv
    sys_poll_events sys_eventfd_read rounds fuel (a, w) in
  first.1 = Ret (inl CYNARA_API_SERVICE_NOT_AVAILABLE) ∧ first.2.2 = w2 ∧
  let later := foldr run_call first.2 calls in
  stuck_ensureConnection later = (Ret CYNARA_API_SUCCESS, later) ∧ agentSequence later.1 = agentSequence a.
Proof.
  intros Ho Hp Hs Hc. destruct (agent_connect_in_progress a w w1 w2 Ho Hp Hs Hc) as (a1 & He & Ha1).
  assert (cynara_agent_get_request sys_poll sys_getsockopt sys_socket sys_connect sys_send sys_recv
    sys_poll_events sys_eventfd_read rounds fuel (a, w) = (Ret (inl CYNARA_API_SERVICE_NOT_AVAILABLE), (a1, w2))) as ->.
  { unfold cynara_agent_get_request, tryCatch, getRequest. by rewrite SE_bind_eq, SE_bind_eq, He. }
  intros first. split; [done|]. split; [done|]. intros later.
  destruct (run_calls_stuck _ calls (a1, w2) Ha1) as [Hl Hn].
  split; [by apply ensureConnection_in_progress|done].
Qed.
End in_progress.

(** A system whose connections are never ready at once. *)
Definition slow_agent : AgentLogic := (AgentLogic_new (λ w : unit, (Some 5, w)) "AgentType" 0 tt).1.

Lemma connection_in_progress_never_registers_witness :
  let poll := λ _ : PollEvent, (mret PollReady : SE unit PollResult) in
  let calls := [CallGetRequest; CallCancel; CallPutResponse CYNARA_MSG_TYPE_ACTION 3 None 0] in
  let first := cynara_agent_get_request poll (mret (inl 0%Z)) (mret (inl tt)) (mret ConnectInProgress) (λ d, mret (Sent 1))
    (mret RecvAgain) (λ _ w, (EventPolled true false, w)) (λ _ w, (true, w)) 5 9 (slow_agent, tt) in
  first.1 = Ret (inl CYNARA_API_SERVICE_NOT_AVAILABLE) ∧ first.2.2 = tt ∧
  let later := foldr (run_call poll (mret (inl 0%Z)) (mret (inl tt)) (mret ConnectInProgress) (λ d, mret (Sent 1))
    (mret RecvAgain) (λ _ w, (EventPolled true false, w)) (λ _ w, (true, w)) (λ _ w, (true, w)) 5 9) first.2 calls in
  agent_ensureConnection poll (mret (inl 0%Z)) (mret (inl tt)) (mret ConnectInProgress) (λ d, mret (Sent 1))
    (mret RecvAgain) 5 9 later = (Ret CYNARA_API_SUCCESS, later) ∧ agentSequence later.1 = 0%Z.
Proof.
  intros poll calls.
  apply (connection_in_progress_never_registers poll (mret (inl 0%Z)) (mret (inl tt)) (mret ConnectInProgress) (λ d, mret (Sent 1))
    (mret RecvAgain) (λ _ w, (EventPolled true false, w)) (λ _ w, (true, w)) (λ _ w, (true, w)) 5 9 slow_agent tt tt tt calls);
    reflexivity.
Defined.
