(* ===== verification/MonitorLibrary.v ===== *)
(** * The monitor library ([monitor/socket], [monitor/logic], [monitor/api])

    One thread waits in [entriesGet] for the entries the service has recorded; others may
    end its waiting with [entriesFlush], or finish.  The calls run concurrently on one
    object, so each is a sequence of points and a step of a thread runs from one point to
    the next: one critical section of [m_mutexCond], one operation on the socket, one call
    of a condition variable or of the event descriptor.  A thread in a condition variable
    sleeps until it is notified (or wakes without reason) and then looks at its condition.

    [W] is the system; [rounds] and [fuel] bound the waiting on the socket: an operation
    that needs more is not a step. *)
From S2P Require Import Prelude Text Types Api BinaryQueue Serialization Frame Messages.
From S2P Require Import ProtocolClient ProtocolAdmin ProtocolAgent Protocols SocketClient AgentLogic.

(** ** [MonitorSocketClient] *)

Inductive MonitorEvent := FETCH_ENTRIES | NOTIFY_RETURN.

(** The socket, the protocol with the read queue, and the write queue are those of a
    [SocketClient]; [m_notifyFd] is [None] when it is -1. *)
Record MonitorSocketClient := mkMonitorSocketClient {
  m_monitorSocket : SocketClient;
  m_monitorNotifyFd : option nat;
}.
Definition MonitorSocketClient_new : MonitorSocketClient := mkMonitorSocketClient (SocketClient_new PMonitorGet) None.
Definition monitor_setNotifyFd (fd : option nat) (c : MonitorSocketClient) : MonitorSocketClient :=
  mkMonitorSocketClient (m_monitorSocket c) fd.

Section monitor_socket.
Context {W : Type}.
Context (sys_poll : PollEvent → SE W PollResult) (sys_getsockopt : SE W (Z + Z))
  (sys_socket : SE W (unit + Z)) (sys_connect : SE W ConnectResult)
  (sys_send : string → SE W SendResult) (sys_recv : SE W RecvResult)
  (sys_poll_events : option nat → W → EventPoll * W).
Context (rounds fuel : nat).

Abbreviation MonitorClient := (SE (MonitorSocketClient * W)) (only parsing).

Definition onMonitorSocket {A} (m : SE (SocketClient * W) A) : MonitorClient A := λ '(c, w),
  let '(r, (s, w')) := m (m_monitorSocket c, w) in (r, (mkMonitorSocketClient s (m_monitorNotifyFd c), w')).

Definition monitor_isConnected : MonitorClient bool := onMonitorSocket (withSocket (Socket_isConnected sys_poll sys_getsockopt)).

Definition monitor_connect : MonitorClient bool :=
  status ← onMonitorSocket (withSocket (Socket_connect sys_poll sys_getsockopt sys_socket sys_connect));
  match status with
  | CONNECTION_SUCCEEDED => mret true
  | CONNECTION_IN_PROGRESS =>
      status ← onMonitorSocket (withSocket (completeConnection sys_poll sys_getsockopt));
      mret (bool_decide (status = CONNECTION_SUCCEEDED))
  | _ => mret false
  end.

Definition monitor_sendRequest (request : Request) : MonitorClient bool :=
  status ← onMonitorSocket (sendRequest sys_poll sys_send fuel request);
  mret (negb (bool_decide (status = CONNECTION_LOST))).

(** [None] when [poll] fails, else what [event] was set to: nothing, when neither
    descriptor is readable. *)
Definition monitor_waitForEvent : MonitorClient (option (option MonitorEvent)) := λ '(c, w),
  match sys_poll_events (m_monitorNotifyFd c) w with
  | (EventPollError, w') => (Ret None, (c, w'))
  | (EventPolled cynara notified, w') =>
      (Ret (Some (if cynara then Some FETCH_ENTRIES else if notified then Some NOTIFY_RETURN else None)), (c, w'))
  end.

Definition asEntriesResponse (response : Response) : option (list MonitorEntry) :=
  match response with MonitorGetEntriesResponse entries _ => Some entries | _ => None end.

(** The loop is that of [SocketClient::askCynaraServer]. *)
Definition fetchEntries : MonitorClient (option (list MonitorEntry)) :=
  response ← onMonitorSocket (awaitResponse sys_poll sys_recv rounds fuel);
  mret (response ≫= asEntriesResponse).
End monitor_socket.

(** ** [Logic] *)

(** [m_reentrantGuard] is the thread that holds the mutex, [monitorSequence] the static
    counter, [m_bufferSize] the configuration. *)
Record MonitorClientLogic := mkMonitorClientLogic {
  m_reentrantGuard : option nat;
  m_bufferSize : Z;
  m_monitorNotify : FdNotifyObject;
  m_monitorClient : MonitorSocketClient;
  m_connectionResolved : bool;
  m_isRunning : bool;
  monitorSequence : Z;
}.

(** Setters of the model. *)
Definition setGuard (t : option nat) (m : MonitorClientLogic) : MonitorClientLogic :=
  mkMonitorClientLogic t (m_bufferSize m) (m_monitorNotify m) (m_monitorClient m) (m_connectionResolved m) (m_isRunning m) (monitorSequence m).
Definition setMonitorNotify (n : FdNotifyObject) (m : MonitorClientLogic) : MonitorClientLogic :=
  mkMonitorClientLogic (m_reentrantGuard m) (m_bufferSize m) n (m_monitorClient m) (m_connectionResolved m) (m_isRunning m) (monitorSequence m).
Definition setMonitorClient (c : MonitorSocketClient) (m : MonitorClientLogic) : MonitorClientLogic :=
  mkMonitorClientLogic (m_reentrantGuard m) (m_bufferSize m) (m_monitorNotify m) c (m_connectionResolved m) (m_isRunning m) (monitorSequence m).
Definition setConnectionResolved (m : MonitorClientLogic) : MonitorClientLogic :=
  mkMonitorClientLogic (m_reentrantGuard m) (m_bufferSize m) (m_monitorNotify m) (m_monitorClient m) true (m_isRunning m) (monitorSequence m).
Definition setRunning (b : bool) (m : MonitorClientLogic) : MonitorClientLogic :=
  mkMonitorClientLogic (m_reentrantGuard m) (m_bufferSize m) (m_monitorNotify m) (m_monitorClient m) (m_connectionResolved m) b (monitorSequence m).
Definition setMonitorSequence (n : Z) (m : MonitorClientLogic) : MonitorClientLogic :=
  mkMonitorClientLogic (m_reentrantGuard m) (m_bufferSize m) (m_monitorNotify m) (m_monitorClient m) (m_connectionResolved m) (m_isRunning m) n.

(** The buffer size of a default configuration, and its setter. *)
Definition DEFAULT_BUFFER_SIZE : Z := 100.
Definition CYNARA_MAX_MONITOR_BUFFER_SIZE : Z := 65535.
Definition cynara_monitor_configuration_set_buffer_size (buffer_size : Z) : SE Z Z :=
  if (CYNARA_MAX_MONITOR_BUFFER_SIZE <? buffer_size)%Z then mret CYNARA_API_INVALID_PARAM
  else api_tryCatch (put buffer_size ;; mret CYNARA_API_SUCCESS).

Definition MonitorClientLogic_new (bufferSize sequence : Z) : MonitorClientLogic :=
  mkMonitorClientLogic None bufferSize (mkFdNotifyObject None) MonitorSocketClient_new false false sequence.

(** ** Threads *)

(** What [entriesGet] will give. *)
Definition GetResult : Type := outcome (Z + list MonitorEntry).

(** Where a thread in [entriesGet] is: before the reentrancy guard, in [sendAndFetch]
    between the constructor and the destructor of its [StatusChangeWrapper], before the
    notification of [m_finishedCV], before the guard is released. *)
Inductive GetPoint :=
| GetTryLock
| GetStart
| GetConnect
| GetSend
| GetWait
| GetFetch
| GetSnooze
| GetStop (r : GetResult)
| GetNotify (r : GetResult)
| GetUnlock (r : GetResult).

Inductive FlushPoint := FlushRunning | FlushCheck | FlushWaiting | FlushSend.
Inductive FinishPoint := FinishRunning | FinishNotify | FinishCheck | FinishWaiting | FinishDelete.

Inductive Thread :=
| InGet (p : GetPoint)
| InFlush (p : FlushPoint)
| InFinish (p : FinishPoint)
| GetReturned (r : Z + list MonitorEntry)
| FlushReturned (code : Z)
| FinishReturned (code : Z)
| Crashed.

(** The three calls a client makes. *)
#[global] Instance Thread_Crashed_dec (t : Thread) : Decision (t = Crashed).
Proof. destruct t; (left; reflexivity) || (right; discriminate). Defined.

Inductive MonitorCall := CallGet | CallFlush | CallFinish.
Definition enter (call : MonitorCall) : Thread :=
  match call with
  | CallGet => InGet GetTryLock
  | CallFlush => InFlush FlushRunning
  | CallFinish => InFinish FinishRunning
  end.

Section monitor.
Context {W : Type}.
Context (sys_poll : PollEvent → SE W PollResult) (sys_getsockopt : SE W (Z + Z))
  (sys_socket : SE W (unit + Z)) (sys_connect : SE W ConnectResult)
  (sys_send : string → SE W SendResult) (sys_recv : SE W RecvResult)
  (sys_poll_events : option nat → W → EventPoll * W).
Context (sys_eventfd : W → option nat * W) (sys_eventfd_write sys_eventfd_read : option nat → W → bool * W).

Abbreviation Monitor := (SE (MonitorClientLogic * W)) (only parsing).

Definition onLibrary (f : MonitorClientLogic → MonitorClientLogic) : Monitor unit := modify (λ '(m, w), (f m, w)).
Definition onMonitorClient {A} (o : SE (MonitorSocketClient * W) A) : Monitor A := λ '(m, w),
  let '(r, (c, w')) := o (m_monitorClient m, w) in (r, (setMonitorClient c m, w')).
Definition onMonitorNotify {A} (o : SE (FdNotifyObject * W) A) : Monitor A := λ '(m, w),
  let '(r, (n, w')) := o (m_monitorNotify m, w) in (r, (setMonitorNotify n m, w')).

(** [return ++sequenceNumber], on 16 bits *)
Definition monitor_generateSequenceNumber : Monitor Z :=
  onLibrary (λ m, setMonitorSequence ((monitorSequence m + 1) mod 2 ^ 16) m) ;;
  gets (λ s, monitorSequence s.1).

Definition monitor_init : Monitor Z :=
  ok ← onMonitorNotify (notify_init sys_eventfd);
  if negb ok then mret CYNARA_API_UNKNOWN_ERROR
  else
    onLibrary (λ m, setMonitorClient (monitor_setNotifyFd (m_eventFd (m_monitorNotify m)) (m_monitorClient m)) m) ;;
    mret CYNARA_API_SUCCESS.

(** [cynara_monitor_initialize]; [p_conf] is the configuration, when there is one. *)
Definition cynara_monitor_initialize (p_conf : option Z) (sequence : Z) (w : W) : (Z + MonitorClientLogic) * W :=
  let '(r, (m, w')) := api_tryCatch monitor_init (MonitorClientLogic_new (default DEFAULT_BUFFER_SIZE p_conf) sequence, w) in
  match r with
  | Ret ret => (if (ret =? CYNARA_API_SUCCESS)%Z then inr m else inl ret, w')
  | _ => (inl CYNARA_API_UNKNOWN_ERROR, w')
  end.

Section steps.
Context (rounds fuel : nat).

(** [connect], under [m_mutexCond]: true when there is a connection. *)
Definition logic_connect : Monitor bool :=
  onLibrary setConnectionResolved ;;
  connected ← onMonitorClient (monitor_isConnected sys_poll sys_getsockopt);
  if connected : bool then mret true
  else onMonitorClient (monitor_connect sys_poll sys_getsockopt sys_socket sys_connect).

(** The points of [sendAndFetch]. *)
Definition sendAndFetch_connect : Monitor GetPoint :=
  connected ← logic_connect;
  mret (if connected : bool then GetSend else GetStop (Ret (inl CYNARA_API_SERVICE_NOT_AVAILABLE))).

Definition sendAndFetch_send : Monitor GetPoint :=
  sequenceNumber ← monitor_generateSequenceNumber;
  s ← get;
  sent ← onMonitorClient (monitor_sendRequest sys_poll sys_send fuel (MonitorGetEntriesRequest (m_bufferSize s.1) sequenceNumber));
  mret (if sent : bool then GetWait else GetStop (Ret (inl CYNARA_API_UNKNOWN_ERROR))).

(** A [switch] on an [event] that was not set is undefined. *)
Definition sendAndFetch_wait : Monitor GetPoint :=
  event ← onMonitorClient (monitor_waitForEvent sys_poll_events);
  match event with
  | None => mret (GetStop (Ret (inl CYNARA_API_SERVICE_NOT_AVAILABLE)))
  | Some (Some FETCH_ENTRIES) => mret GetFetch
  | Some (Some NOTIFY_RETURN) => mret GetSnooze
  | Some None => throw UndefinedBehaviour
  end.

Definition sendAndFetch_fetch : Monitor GetPoint :=
  response ← onMonitorClient (fetchEntries sys_poll sys_recv rounds fuel);
  mret (GetStop (Ret (match response with
                      | None => inl CYNARA_API_UNKNOWN_ERROR
                      | Some entries => inr entries
                      end))).

(** The vector of entries stays empty. *)
Definition sendAndFetch_snooze : Monitor GetPoint :=
  _ ← onMonitorNotify (snooze sys_eventfd_read); mret (GetStop (Ret (inr []))).

(** An exception unwinds to the destructor of the [StatusChangeWrapper]. *)
Definition unwind (m : Monitor GetPoint) : Monitor Thread :=
  p ← tryCatch m (λ e, if bool_decide (e = UndefinedBehaviour) then throw e else mret (GetStop (Throw e)));
  mret (InGet p).

(** The interface catches what was thrown; a code other than success is returned as such. *)
Definition get_return (r : GetResult) : Monitor Thread :=
  result ← api_tryCatchValue (λ s, (r, s)); mret (GetReturned result).

Definition get_step (tid : nat) (p : GetPoint) : Monitor Thread :=
  match p with
  | GetTryLock =>
      s ← get;
      match m_reentrantGuard s.1 with
      | Some _ => mret (GetReturned (inl CYNARA_API_OPERATION_NOT_ALLOWED))
      | None => onLibrary (setGuard (Some tid)) ;; mret (InGet GetStart)
      end
  | GetStart => onLibrary (setRunning true) ;; mret (InGet GetConnect)
  | GetConnect => unwind sendAndFetch_connect
  | GetSend => unwind sendAndFetch_send
  | GetWait => unwind sendAndFetch_wait
  | GetFetch => unwind sendAndFetch_fetch
  | GetSnooze => unwind sendAndFetch_snooze
  | GetStop r => onLibrary (setRunning false) ;; mret (InGet (GetNotify r))
  | GetNotify r => mret (InGet (GetUnlock r))
  | GetUnlock r => onLibrary (setGuard None) ;; get_return r
  end.

Definition isRunning : Monitor bool := gets (λ s, m_isRunning s.1).

(** The critical section of [waitForConnectionResolved], from a look at the condition:
    [None] when it does not hold and the thread has to wait. *)
Definition waitForConnectionResolved : Monitor (option bool) :=
  s ← get;
  if negb (m_connectionResolved s.1) then mret None
  else connected ← onMonitorClient (monitor_isConnected sys_poll sys_getsockopt); mret (Some connected).

(** [entriesFlush] within the interface. *)
Definition flush_catch (m : Monitor Thread) : Monitor Thread :=
  tryCatch m (λ e, match exception_code e with Some code => mret (FlushReturned code) | None => throw e end).

Definition flush_step (p : FlushPoint) : Monitor Thread :=
  flush_catch
    match p with
    | FlushRunning =>
        running ← isRunning;
        mret (if running : bool then InFlush FlushCheck else FlushReturned CYNARA_API_OPERATION_NOT_ALLOWED)
    | FlushCheck =>
        resolved ← waitForConnectionResolved;
        mret (match resolved with
              | None => InFlush FlushWaiting
              | Some connected => if connected : bool then InFlush FlushSend else FlushReturned CYNARA_API_SERVICE_NOT_AVAILABLE
              end)
    | FlushWaiting => mret (InFlush FlushWaiting)
    | FlushSend =>
        sequenceNumber ← monitor_generateSequenceNumber;
        sent ← onMonitorClient (monitor_sendRequest sys_poll sys_send fuel (MonitorGetFlushRequest sequenceNumber));
        mret (FlushReturned (if sent : bool then CYNARA_API_SUCCESS else CYNARA_API_UNKNOWN_ERROR))
    end.
(** [notifyFinish] and the destruction in [cynara_monitor_finish]. *)
Definition finish_step (p : FinishPoint) : Monitor Thread :=
  match p with
  | FinishRunning => running ← isRunning; mret (InFinish (if running : bool then FinishNotify else FinishDelete))
  | FinishNotify =>
      ok ← onMonitorNotify (notify sys_eventfd_write);
      mret (InFinish (if ok : bool then FinishCheck else FinishDelete))
  | FinishCheck => running ← isRunning; mret (InFinish (if running : bool then FinishWaiting else FinishDelete))
  | FinishWaiting => mret (InFinish FinishWaiting)
  | FinishDelete => mret (FinishReturned CYNARA_API_SUCCESS)
  end.
End steps.

(** ** Interleavings *)

(** The object, the system, whether the object has been deleted, and the threads. *)
Record MonitorConfig := mkMonitorConfig {
  monitorLogic : MonitorClientLogic;
  monitorSystem : W;
  monitorDeleted : bool;
  threads : gmap nat Thread;
}.

Definition MonitorConfig_new (m : MonitorClientLogic) (w : W) : MonitorConfig := mkMonitorConfig m w false ∅.

(** In a call, and not asleep in a condition variable. *)
Definition in_call (t : Thread) : bool :=
  match t with InGet _ | InFlush _ | InFinish _ => true | _ => false end.
Definition asleep (t : Thread) : bool :=
  match t with InFlush FlushWaiting | InFinish FinishWaiting => true | _ => false end.

(** [m_connectedCV.notify_all()] at the end of [connect], however it ends, and
    [m_finishedCV.notify_all()]. *)
Definition wake (p : GetPoint) (t : Thread) : Thread :=
  match p, t with
  | GetConnect, InFlush FlushWaiting => InFlush FlushCheck
  | GetNotify _, InFinish FinishWaiting => InFinish FinishCheck
  | _, t => t
  end.
Definition wakes (t : Thread) : Thread → Thread := match t with InGet p => wake p | _ => id end.

Definition thread_step (rounds fuel : nat) (tid : nat) (t : Thread) : Monitor Thread :=
  match t with
  | InGet p => get_step rounds fuel tid p
  | InFlush p => flush_step fuel p
  | InFinish p => finish_step p
  | t => mret t
  end.

Definition deletes (t : Thread) : bool := match t with InFinish FinishDelete => true | _ => false end.

(** Whoever touches a deleted object crashes. *)
Definition step (rounds fuel : nat) (tid : nat) (c : MonitorConfig) : option MonitorConfig :=
  match threads c !! tid with
  | None => None
  | Some t =>
      if negb (in_call t) || asleep t then None
      else if monitorDeleted c then
        Some (mkMonitorConfig (monitorLogic c) (monitorSystem c) true (<[tid := Crashed]> (threads c)))
      else
        match thread_step rounds fuel tid t (monitorLogic c, monitorSystem c) with
        | (Ret t', (m, w)) => Some (mkMonitorConfig m w (deletes t) (wakes t <$> <[tid := t']> (threads c)))
        | (Throw _, (m, w)) => Some (mkMonitorConfig m w false (<[tid := Crashed]> (threads c)))
        | (OutOfFuel, _) => None
        end
  end.

(** A thread that is in no call makes one, on an object that is still there. *)
Definition start (tid : nat) (call : MonitorCall) (c : MonitorConfig) : option MonitorConfig :=
  if monitorDeleted c then None
  else
    match threads c !! tid with
    | Some t => if in_call t || bool_decide (t = Crashed) then None
                else Some (mkMonitorConfig (monitorLogic c) (monitorSystem c) false (<[tid := enter call]> (threads c)))
    | None => Some (mkMonitorConfig (monitorLogic c) (monitorSystem c) false (<[tid := enter call]> (threads c)))
    end.

Inductive MonitorStep : MonitorConfig → MonitorConfig → Prop :=
| step_start tid call c c' : start tid call c = Some c' → MonitorStep c c'
| step_run rounds fuel tid c c' : step rounds fuel tid c = Some c' → MonitorStep c c'
| step_wake_flush tid c :
    threads c !! tid = Some (InFlush FlushWaiting) →
    MonitorStep c (mkMonitorConfig (monitorLogic c) (monitorSystem c) (monitorDeleted c) (<[tid := InFlush FlushCheck]> (threads c)))
| step_wake_finish tid c :
    threads c !! tid = Some (InFinish FinishWaiting) →
    MonitorStep c (mkMonitorConfig (monitorLogic c) (monitorSystem c) (monitorDeleted c) (<[tid := InFinish FinishCheck]> (threads c)))
| step_system w c :
    MonitorStep c (mkMonitorConfig (monitorLogic c) w (monitorDeleted c) (threads c)).

(** A schedule: the threads in the order in which they run, with the calls they make. *)
Definition run_event (rounds fuel : nat) (e : nat * option MonitorCall) (c : MonitorConfig) : option MonitorConfig :=
  match e with
  | (tid, Some call) => start tid call c
  | (tid, None) => step rounds fuel tid c
  end.
Fixpoint run_schedule (rounds fuel : nat) (l : list (nat * option MonitorCall)) (c : MonitorConfig) : option MonitorConfig :=
  match l with
  | [] => Some c
  | e :: l' => c' ← run_event rounds fuel e c; run_schedule rounds fuel l' c'
  end.

(** One thread alone: [cynara_monitor_entries_get], with at most [n] steps. *)
Fixpoint run_thread (rounds fuel n : nat) (tid : nat) (c : MonitorConfig) : option MonitorConfig :=
  match n with
  | 0 => Some c
  | S n' =>
      match threads c !! tid with
      | Some t => if in_call t then c' ← step rounds fuel tid c; run_thread rounds fuel n' tid c' else Some c
      | None => Some c
      end
  end.
End monitor.
