(* ===== verification/MonitorTheorems.v ===== *)
(** * Theorems on the threads of the monitor library

    The invariant of every interleaving of the calls: one [entriesGet] at a time, and no
    sleeping thread that nobody will wake. *)
From S2P Require Import Prelude Text Types Api BinaryQueue Serialization Frame Messages.
From S2P Require Import ProtocolClient ProtocolAdmin ProtocolAgent Protocols SocketClient AgentLogic MonitorLibrary.

(** ** Operations with a result and a preserved property *)

Definition gives {S A} (I : S → Prop) (Q : A → Prop) (m : SE S A) : Prop :=
  ∀ s, I s → I (m s).2 ∧ ∀ a, (m s).1 = Ret a → Q a.

Section giving.
Context {S : Type} (I : S → Prop).

Lemma gives_ret {A} (Q : A → Prop) a : Q a → gives I Q (mret a).
Proof. intros Ha s Hs. split; [done|]. by intros b [= <-]. Qed.
Lemma gives_throw {A} (Q : A → Prop) e : gives I Q (throw e).
Proof. intros s Hs. by split. Qed.
Lemma gives_keeps {A} (m : SE S A) : keeps I m → gives I (λ _, True) m.
Proof. intros Hm s Hs. split; [by apply Hm|done]. Qed.
Lemma gives_bind {A B} (Q1 : A → Prop) (Q : B → Prop) m (k : A → SE S B) :
  gives I Q1 m → (∀ a, Q1 a → gives I Q (k a)) → gives I Q (m ≫= k).
Proof.
  intros Hm Hk s Hs. rewrite SE_bind_eq. destruct (Hm s Hs) as [Hs' Ha]. destruct (m s) as [[a|e|] s']; [|done|done].
  by apply Hk; [apply Ha|].
Qed.
Lemma gives_then {A B} (Q : B → Prop) (m : SE S A) (k : A → SE S B) :
  keeps I m → (∀ a, gives I Q (k a)) → gives I Q (m ≫= k).
Proof. intros Hm Hk. apply (gives_bind (λ _, True)); [by apply gives_keeps|by intros]. Qed.
Lemma gives_tryCatch {A} (Q : A → Prop) m h : gives I Q m → (∀ e, gives I Q (h e)) → gives I Q (tryCatch m h).
Proof.
  intros Hm Hh s Hs. unfold tryCatch. destruct (Hm s Hs) as [Hs' Ha]. destruct (m s) as [[a|e|] s']; [done| |done].
  by apply Hh.
Qed.
Lemma gives_weaken {A} (Q Q' : A → Prop) m : gives I Q m → (∀ a, Q a → Q' a) → gives I Q' m.
Proof. intros Hm HQ s Hs. destruct (Hm s Hs) as [? Ha]. split; [done|]. intros a ?. by apply HQ, Ha. Qed.
End giving.

(** ** What the steps of a thread do *)

(** The part of the object that the threads use to agree. *)
Definition settings (m : MonitorClientLogic) : option nat * bool * bool :=
  (m_reentrantGuard m, m_connectionResolved m, m_isRunning m).

(** Holding the reentrancy guard; being counted as running. *)
Definition holding (p : GetPoint) : bool := match p with GetTryLock => false | _ => true end.
Definition running (p : GetPoint) : bool :=
  match p with GetConnect | GetSend | GetWait | GetFetch | GetSnooze | GetStop _ => true | _ => false end.
Definition connecting (p : GetPoint) : bool := match p with GetConnect => true | _ => false end.
Definition holds (t : Thread) : bool := match t with InGet p => holding p | _ => false end.

(** The steps that are left until [entriesGet] returns, at most. *)
Definition steps_left (t : Thread) : nat :=
  match t with
  | InGet GetTryLock => 9 | InGet GetStart => 8 | InGet GetConnect => 7 | InGet GetSend => 6
  | InGet GetWait => 5 | InGet (GetFetch | GetSnooze) => 4 | InGet (GetStop _) => 3
  | InGet (GetNotify _) => 2 | InGet (GetUnlock _) => 1
  | _ => 0
  end.

(** The steps the other calls have left, before they return or go to sleep. *)
Definition others_left (t : Thread) : nat :=
  match t with
  | InFlush FlushRunning => 3 | InFlush FlushCheck => 2 | InFlush (FlushWaiting | FlushSend) => 1
  | InFinish FinishRunning => 4 | InFinish FinishNotify => 3 | InFinish FinishCheck => 2
  | InFinish (FinishWaiting | FinishDelete) => 1
  | _ => 0
  end.

Section steps.
Context {W : Type}.
Context (sys_poll : PollEvent → SE W PollResult) (sys_getsockopt : SE W (Z + Z))
  (sys_socket : SE W (unit + Z)) (sys_connect : SE W ConnectResult)
  (sys_send : string → SE W SendResult) (sys_recv : SE W RecvResult)
  (sys_poll_events : option nat → W → EventPoll * W).
Context (sys_eventfd_write sys_eventfd_read : option nat → W → bool * W).
Context (rounds fuel : nat).
Implicit Types s : MonitorClientLogic * W.

Abbreviation agreed f := (λ s : MonitorClientLogic * W, settings s.1 = f) (only parsing).

Lemma onMonitorClient_keeps {A} (o : SE (MonitorSocketClient * W) A) f : keeps (agreed f) (onMonitorClient o).
Proof. intros [m w] Hm. unfold onMonitorClient. by destruct (o _) as [r [c w']]. Qed.
Lemma onMonitorNotify_keeps {A} (o : SE (FdNotifyObject * W) A) f : keeps (agreed f) (onMonitorNotify o).
Proof. intros [m w] Hm. unfold onMonitorNotify. by destruct (o _) as [r [c w']]. Qed.
Lemma generateSequenceNumber_keeps f : keeps (agreed f) (monitor_generateSequenceNumber (W:=W)).
Proof. unfold monitor_generateSequenceNumber, onLibrary. keep. by apply keeps_modify; intros []. Qed.
Hint Resolve onMonitorClient_keeps onMonitorNotify_keeps generateSequenceNumber_keeps : keeps.

(** A point of [sendAndFetch] after [connect]: still running, and nearer to the end. *)
Definition next_point (p p' : GetPoint) : Prop :=
  running p' = true ∧ p' ≠ GetConnect ∧ steps_left (InGet p') < steps_left (InGet p).

Lemma unwind_gives f p m :
  running p = true → steps_left (InGet p) > 3 →
  gives (agreed f) (next_point p) m →
  gives (agreed f) (λ t, ∃ p', t = InGet p' ∧ next_point p p') (unwind (W:=W) m).
Proof.
  intros Hp Hleft Hm. unfold unwind. eapply gives_bind; [|intros p' Hp'; apply gives_ret; by exists p'].
  apply gives_tryCatch; [done|]. intros e. destruct (bool_decide _); [apply gives_throw|].
  apply gives_ret. by split_and!.
Qed.

Ltac next := split_and!; [done|done|cbn; lia].

Lemma get_step_send f :
  gives (agreed f) (next_point GetSend) (sendAndFetch_send sys_poll sys_send fuel).
Proof.
  unfold sendAndFetch_send. apply gives_then; [keep|intros n]. apply gives_then; [keep|intros s].
  apply gives_then; [keep|intros []]; apply gives_ret; next.
Qed.
Lemma get_step_wait f : gives (agreed f) (next_point GetWait) (sendAndFetch_wait sys_poll_events).
Proof.
  unfold sendAndFetch_wait. apply gives_then; [keep|]. intros [[[]|]|]; first [apply gives_throw|apply gives_ret; next].
Qed.
Lemma get_step_fetch f : gives (agreed f) (next_point GetFetch) (sendAndFetch_fetch sys_poll sys_recv rounds fuel).
Proof. unfold sendAndFetch_fetch. apply gives_then; [keep|intros r]. apply gives_ret; next. Qed.
Lemma get_step_snooze f : gives (agreed f) (next_point GetSnooze) (sendAndFetch_snooze sys_eventfd_read).
Proof. unfold sendAndFetch_snooze. apply gives_then; [keep|intros r]. apply gives_ret; next. Qed.

(** What [connect] leaves, however it ends. *)
Lemma get_step_connect g r b s :
  settings s.1 = (g, r, b) →
  settings (sendAndFetch_connect sys_poll sys_getsockopt sys_socket sys_connect s).2.1 = (g, true, b) ∧
  ∀ p, (sendAndFetch_connect sys_poll sys_getsockopt sys_socket sys_connect s).1 = Ret p → next_point GetConnect p.
Proof.
  intros Hs. unfold sendAndFetch_connect, logic_connect. rewrite SE_bind_eq, SE_bind_eq.
  unfold onLibrary, modify. destruct s as [m w].
  assert (settings (setConnectionResolved m) = (g, true, b)) as Hm by (unfold settings in *; cbn in *; by simplify_eq).
  assert (gives (agreed (g, true, b)) (λ _, True)
    (connected ← onMonitorClient (monitor_isConnected sys_poll sys_getsockopt);
     if connected : bool then mret true else onMonitorClient (monitor_connect sys_poll sys_getsockopt sys_socket sys_connect))) as He.
  { apply gives_keeps. keep. }
  destruct (He (setConnectionResolved m, w) Hm) as [Hs' _]. clear He. unfold onLibrary, modify in Hs'.
  destruct (mbind (M:=SE (MonitorClientLogic * W)) _ _ _) as [[connected|e|] s'].
  - split; [done|]. intros p [= <-]. destruct connected; next.
  - done.
  - done.
Qed.

(** A step of a thread in [sendAndFetch]. *)
Lemma get_step_working tid p m w :
  running p = true → (∀ r, p ≠ GetStop r) →
  match get_step sys_poll sys_getsockopt sys_socket sys_connect sys_send sys_recv sys_poll_events sys_eventfd_read rounds fuel
          tid p (m, w) with
  | (Ret t, (m', _)) => ∃ p', t = InGet p' ∧ next_point p p' ∧
      settings m' = (m_reentrantGuard m, m_connectionResolved m || connecting p, m_isRunning m)
  | _ => True
  end.
Proof.
  intros Hp Hstop.
  assert (∀ o, gives (agreed (settings m)) (next_point p) o → p ≠ GetConnect →
    match unwind (W:=W) o (m, w) with
    | (Ret t, (m', _)) => ∃ p', t = InGet p' ∧ next_point p p' ∧
        settings m' = (m_reentrantGuard m, m_connectionResolved m || connecting p, m_isRunning m)
    | _ => True
    end) as Hwork.
  { intros o Ho Hc. apply (unwind_gives _ _ _ Hp) in Ho; [|by destruct p; cbn; try lia; try done; edestruct Hstop].
    destruct (Ho (m, w) eq_refl) as [Hm Ht]. destruct (unwind o (m, w)) as [[t|e|] [m' w']]; [|done|done].
    destruct (Ht t eq_refl) as (p' & -> & Hn). exists p'. split; [done|]. split; [done|].
    replace (connecting p) with false by (by destruct p). rewrite orb_false_r. exact Hm. }
  destruct p as [| | | | | | |r|r|r]; try done; cbn [get_step]; try by apply Hwork.
  - unfold unwind, tryCatch. rewrite SE_bind_eq.
    destruct (get_step_connect (m_reentrantGuard m) (m_connectionResolved m) (m_isRunning m) (m, w) eq_refl) as [Hm Hr].
    destruct (sendAndFetch_connect _ _ _ _ _) as [[p|e|] [m' w']]; cbn [fst snd] in *; [| |done].
    + exists p. split; [done|]. split; [by apply Hr|]. by rewrite orb_true_r.
    + destruct (bool_decide _); [done|]. exists (GetStop (Throw e)). split; [done|]. split; [next|]. by rewrite orb_true_r.
  - by apply Hwork; [apply get_step_send|].
  - by apply Hwork; [apply get_step_wait|].
  - by apply Hwork; [apply get_step_fetch|].
  - by apply Hwork; [apply get_step_snooze|].
  - by edestruct Hstop.
Qed.

(** A step of [entriesFlush] or of [cynara_monitor_finish] changes none of the settings, and
    a thread goes to sleep only on the condition it has looked at. *)
Lemma flush_step_shape p m w :
  match flush_step sys_poll sys_getsockopt sys_send fuel p (m, w) with
  | (Ret t, (m', _)) => settings m' = settings m ∧
      match t with
      | InFlush FlushCheck => p = FlushRunning ∧ m_isRunning m = true
      | InFlush FlushWaiting => p = FlushWaiting ∨ p = FlushCheck ∧ m_connectionResolved m = false
      | InFlush FlushSend => p = FlushCheck
      | FlushReturned _ => True
      | _ => False
      end
  | _ => True
  end.
Proof.
  set (Q := λ t, match t with
      | InFlush FlushCheck => p = FlushRunning ∧ m_isRunning m = true
      | InFlush FlushWaiting => p = FlushWaiting ∨ p = FlushCheck ∧ m_connectionResolved m = false
      | InFlush FlushSend => p = FlushCheck
      | FlushReturned _ => True
      | _ => False
      end).
  assert (gives (agreed (settings m)) Q (flush_step sys_poll sys_getsockopt sys_send fuel p)) as He.
  { apply gives_tryCatch; [|intros e; destruct (exception_code e); [by apply gives_ret|apply gives_throw]].
    destruct p.
    - intros s Hs. cbn. split; [done|]. intros t [= <-]. unfold settings in Hs. simplify_eq. by destruct (m_isRunning s.1).
    - unfold waitForConnectionResolved. intros s Hs. rewrite !SE_bind_eq. cbn [get].
      destruct (m_connectionResolved s.1) eqn:Hr; cbn [negb].
      + assert (gives (agreed (settings m)) Q
          (resolved ← (connected ← onMonitorClient (monitor_isConnected sys_poll sys_getsockopt); mret (Some connected));
           mret (match resolved with
              | None => InFlush FlushWaiting
              | Some connected => if connected : bool then InFlush FlushSend else FlushReturned CYNARA_API_SERVICE_NOT_AVAILABLE
              end))) as He.
        { eapply (gives_bind _ (λ r, r ≠ None)).
          - apply gives_then; [keep|intros a]. by apply gives_ret.
          - intros [[]|] ?; by apply gives_ret. }
        specialize (He s Hs). by rewrite !SE_bind_eq in He.
      + cbn. split; [done|]. intros t [= <-]. right. unfold settings in Hs. simplify_eq. split; [done|congruence].
    - apply gives_ret. by left.
    - apply gives_then; [keep|intros n]. apply gives_then; [keep|intros b]. by apply gives_ret. }
  destruct (He (m, w) eq_refl) as [Hm Ht]. destruct (flush_step _ _ _ _ _ _) as [[t|e|] [m' w']]; [|done|done].
  split; [done|]. by apply Ht.
Qed.

Lemma finish_step_shape p m w :
  match finish_step sys_eventfd_write p (m, w) with
  | (Ret t, (m', _)) => settings m' = settings m ∧
      match t with
      | InFinish FinishWaiting => p = FinishWaiting ∨ p = FinishCheck ∧ m_isRunning m = true
      | InFinish _ => others_left t < others_left (InFinish p)
      | FinishReturned _ => True
      | _ => False
      end
  | _ => True
  end.
Proof.
  destruct p; cbn [finish_step]; rewrite ?SE_bind_eq; try (by split); try (by split; [|left]).
  - unfold isRunning, gets. cbn. destruct (m_isRunning m); (split; [done|cbn; lia]).
  - unfold onMonitorNotify, notify. destruct (sys_eventfd_write _ _) as [[] w']; (split; [done|cbn; lia]).
  - unfold isRunning, gets. cbn. destruct (m_isRunning m); (split; [done|]); [by right|cbn; lia].
Qed.
End steps.

(** ** The invariant *)

Record agree (m : MonitorClientLogic) (ths : gmap nat Thread) : Prop := {
  agree_guard t th : ths !! t = Some th → holds th = true ↔ m_reentrantGuard m = Some t;
  agree_present t : m_reentrantGuard m = Some t → ∃ p, ths !! t = Some (InGet p);
  agree_running t p : ths !! t = Some (InGet p) → holding p = true → m_isRunning m = running p;
  agree_idle : m_reentrantGuard m = None → m_isRunning m = false;
  agree_connected t p : ths !! t = Some (InGet p) → running p = true → connecting p = false → m_connectionResolved m = true;
  agree_flush t p : ths !! t = Some (InFlush p) → p = FlushCheck ∨ p = FlushWaiting → m_connectionResolved m = false → m_isRunning m = true;
  agree_flush_asleep t : ths !! t = Some (InFlush FlushWaiting) → m_connectionResolved m = false;
  agree_finish_asleep t : ths !! t = Some (InFinish FinishWaiting) →
    m_isRunning m = true ∨ ∃ g r, ths !! g = Some (InGet (GetNotify r));
}.

(** A thread is at a point where the notification of [cv] will come from. *)
Lemma running_holds p : running p = true → holding p = true.
Proof. by destruct p. Qed.

Section agree.
Implicit Types (m : MonitorClientLogic) (ths : gmap nat Thread).

(** Two objects with the same settings. *)
Lemma settings_eq m m' : settings m' = settings m →
  m_reentrantGuard m' = m_reentrantGuard m ∧ m_connectionResolved m' = m_connectionResolved m ∧ m_isRunning m' = m_isRunning m.
Proof. unfold settings. by intros [= -> -> ->]. Qed.

(** A thread that does not hold the guard moves. *)
Lemma agree_bystander m m' ths t th :
  agree m ths → (∀ th0, ths !! t = Some th0 → holds th0 = false) → holds th = false → settings m' = settings m →
  (∀ p, th = InFlush p → p = FlushCheck ∨ p = FlushWaiting → m_connectionResolved m = false → m_isRunning m = true) →
  (th = InFlush FlushWaiting → m_connectionResolved m = false) →
  (th = InFinish FinishWaiting → m_isRunning m = true ∨ ∃ g r, ths !! g = Some (InGet (GetNotify r))) →
  agree m' (<[t := th]> ths).
Proof.
  intros [Hg Hp Hr Hi Hc Hf Hfa Hna] Ht Hth (Eg & Ec & Er)%settings_eq Hflush Hasleep Hfinish.
  assert (∀ t' p, <[t := th]> ths !! t' = Some (InGet p) → holding p = true → ths !! t' = Some (InGet p)) as Hget.
  { intros t' p [[<- ->]|[? ?]]%lookup_insert_Some Hh; [by cbn in Hth; rewrite Hth in Hh|done]. }
  assert (m_reentrantGuard m ≠ Some t) as Hnot.
  { intros Hgt. destruct (Hp t Hgt) as [p Hpt]. apply (Hg t) in Hpt as Hh. specialize (Ht _ Hpt). by rewrite (proj2 Hh Hgt) in Ht. }
  assert (∀ g r, ths !! g = Some (InGet (GetNotify r)) → ∃ g r, <[t := th]> ths !! g = Some (InGet (GetNotify r))) as Hnotify.
  { intros g r Hgr. exists g, r. rewrite lookup_insert_ne; [done|]. intros <-. by specialize (Ht _ Hgr). }
  split; rewrite ?Eg, ?Ec, ?Er; eauto.
  - intros t' th' [[<- <-]|[Hne Hl]]%lookup_insert_Some; [|by apply Hg]. rewrite Hth. by split.
  - intros t' Hgt. destruct (Hp t' Hgt) as [p Hpt]. exists p. rewrite lookup_insert_ne by congruence. done.
  - intros t' p Hl Hh. eapply Hc; [by apply Hget, running_holds|done].
  - intros t' p [[<- ->]|[Hne Hl]]%lookup_insert_Some; [by apply Hflush|by apply (Hf t')].
  - intros t' [[<- ->]|[Hne Hl]]%lookup_insert_Some; [by apply Hasleep|by apply (Hfa t')].
  - intros t' [[<- ->]|[Hne Hl]]%lookup_insert_Some.
    + destruct (Hfinish eq_refl) as [?|(g & r & ?)]; [by left|right; eauto].
    + destruct (Hna t' Hl) as [?|(g & r & ?)]; [by left|right; eauto].
Qed.

Lemma wake_holds p th : holds (wake p th) = holds th.
Proof. by destruct p, th as [|[]|[]| | | |]. Qed.
Lemma wake_get p th q : wake p th = InGet q ↔ th = InGet q.
Proof. by destruct p, th as [|[]|[]| | | |]. Qed.
Lemma lookup_wake_get p ths t q : (wake p <$> ths) !! t = Some (InGet q) ↔ ths !! t = Some (InGet q).
Proof.
  rewrite lookup_fmap_Some. split; [|intros ?; exists (InGet q); by rewrite wake_get].
  intros (th & Hw & Hl). apply wake_get in Hw. by subst.
Qed.

(** The thread that holds the guard goes on within [entriesGet]. *)
Lemma agree_holder m m' ths t p p' :
  agree m ths → ths !! t = Some (InGet p) → holding p = true → holding p' = true →
  m_reentrantGuard m' = Some t → m_isRunning m' = running p' →
  m_connectionResolved m' = m_connectionResolved m || connecting p →
  (running p' = true → connecting p' = false → m_connectionResolved m' = true) →
  (running p = true → running p' = false → ∃ r, p' = GetNotify r) →
  ((∃ r, p = GetNotify r) ∨ (∀ r, p ≠ GetNotify r)) →
  agree m' (wake p <$> <[t := InGet p']> ths).
Proof.
  intros [Hg Hp Hr Hi Hc Hf Hfa Hna] Hl Hh Hh' Eg Er Ec Hres Hstop Hnot.
  assert (m_reentrantGuard m = Some t) as Hgt by (by apply (Hg t _ Hl)).
  assert (∀ t' q, t' ≠ t → ths !! t' = Some (InGet q) → holding q = false) as Hothers.
  { intros t' q Hne Hq. destruct (holding q) eqn:Hhq; [|done]. pose proof (proj1 (Hg _ _ Hq) Hhq). congruence. }
  split.
  - intros t' th (th0 & <- & [[<- <-]|[Hne Hl']]%lookup_insert_Some)%lookup_fmap_Some; rewrite wake_holds, Eg.
    + cbn. by rewrite Hh'.
    + pose proof (Hg _ _ Hl') as Hiff. rewrite Hgt in Hiff. done.
  - intros t'. rewrite Eg. intros [= <-]. exists p'. apply lookup_wake_get, lookup_insert_eq.
  - intros t' q [[<- [= ->]]|[Hne Hl']]%lookup_wake_get%lookup_insert_Some Hq; [done|].
    rewrite (Hothers t' q) in Hq; done.
  - by rewrite Eg.
  - intros t' q [[<- [= ->]]|[Hne Hl']]%lookup_wake_get%lookup_insert_Some Hq Hcq; [by apply Hres|].
    apply running_holds in Hq. by rewrite (Hothers t' q) in Hq.
  - intros t' q Hq Hpq Hrq. rewrite Ec in Hrq. apply orb_false_iff in Hrq as [Hrq Hcp].
    assert (m_isRunning m = true) as Hrun.
    { apply lookup_fmap_Some in Hq as (th & Hw & [[<- <-]|[Hne Hl']]%lookup_insert_Some); [by destruct p|].
      destruct th as [|q0|[]| | | |]; try (by destruct p).
      eapply (Hf t' q0); [done| |done]. destruct p, q0; cbn in *; by destruct Hpq; simplify_eq; auto. }
    rewrite (Hr _ _ Hl Hh) in Hrun. rewrite (Hc _ _ Hl Hrun Hcp) in Hrq. done.
  - intros t' (th & Hw & [[<- <-]|[Hne Hl']]%lookup_insert_Some)%lookup_fmap_Some; [by destruct p|].
    assert (th = InFlush FlushWaiting ∧ connecting p = false) as [-> Hcp] by (by destruct p, th as [|[]|[]| | | |]).
    by rewrite Ec, Hcp, (Hfa t' Hl').
  - intros t' (th & Hw & [[<- <-]|[Hne Hl']]%lookup_insert_Some)%lookup_fmap_Some; [by destruct p|].
    assert (th = InFinish FinishWaiting) as -> by (by destruct p, th as [|[]|[]| | | |]).
    destruct Hnot as [[r ->]|Hnot]; [done|].
    rewrite Er. destruct (running p') eqn:Hrp'; [by left|right].
    destruct (Hna t' Hl') as [Hrun|(g & r & Hgr)].
    + rewrite (Hr _ _ Hl Hh) in Hrun. destruct (Hstop Hrun eq_refl) as [r ->]. exists t, r. apply lookup_wake_get, lookup_insert_eq.
    + destruct (decide (g = t)) as [->|Hgt']; [rewrite Hl in Hgr; injection Hgr as ->; by edestruct Hnot|].
      by specialize (Hothers _ _ Hgt' Hgr).
Qed.

(** The guard is taken, and released. *)
Lemma agree_acquire m ths t :
  agree m ths → m_reentrantGuard m = None → ths !! t = Some (InGet GetTryLock) → agree (setGuard (Some t) m) (<[t := InGet GetStart]> ths).
Proof.
  intros [Hg Hp Hr Hi Hc Hf Hfa Hna] Hnone Hl.
  assert (∀ t' q, ths !! t' = Some (InGet q) → holding q = false) as Hothers.
  { intros t' q Hq. destruct (holding q) eqn:Hhq; [|done]. pose proof (proj1 (Hg _ _ Hq) Hhq). congruence. }
  split; cbn [setGuard m_reentrantGuard m_isRunning m_connectionResolved].
  - intros t' th [[<- <-]|[Hne Hl']]%lookup_insert_Some; [done|]. rewrite (Hg _ _ Hl'), Hnone. split; congruence.
  - intros t' [= <-]. exists GetStart. apply lookup_insert_eq.
  - intros t' q [[<- [= <-]]|[Hne Hl']]%lookup_insert_Some Hq; [cbn; by apply Hi|by rewrite (Hothers _ _ Hl') in Hq].
  - done.
  - intros t' q [[<- [= <-]]|[Hne Hl']]%lookup_insert_Some Hq; [done|]. apply running_holds in Hq. by rewrite (Hothers _ _ Hl') in Hq.
  - intros t' q [[<- ?]|[Hne Hl']]%lookup_insert_Some; [done|by apply (Hf t')].
  - intros t' [[<- ?]|[Hne Hl']]%lookup_insert_Some; [done|by apply (Hfa t')].
  - intros t' [[<- ?]|[Hne Hl']]%lookup_insert_Some; [done|]. destruct (Hna t' Hl') as [?|(g & r & Hgr)]; [by left|].
    by specialize (Hothers _ _ Hgr).
Qed.

Lemma agree_release m ths t r th :
  agree m ths → ths !! t = Some (InGet (GetUnlock r)) → in_call th = false → agree (setGuard None m) (<[t := th]> ths).
Proof.
  intros [Hg Hp Hr Hi Hc Hf Hfa Hna] Hl Hth.
  assert (m_reentrantGuard m = Some t) as Hgt by (by apply (Hg t _ Hl)).
  assert (m_isRunning m = false) as Hrun by apply (Hr _ _ Hl eq_refl).
  assert (∀ t' q, t' ≠ t → ths !! t' = Some (InGet q) → holding q = false) as Hothers.
  { intros t' q Hne Hq. destruct (holding q) eqn:Hhq; [|done]. pose proof (proj1 (Hg _ _ Hq) Hhq). congruence. }
  split; cbn [setGuard m_reentrantGuard m_isRunning m_connectionResolved].
  - intros t' th' [[<- <-]|[Hne Hl']]%lookup_insert_Some; [by destruct th|]. rewrite (Hg _ _ Hl'), Hgt. split; congruence.
  - done.
  - intros t' q [[<- ->]|[Hne Hl']]%lookup_insert_Some Hq; [done|]. by rewrite (Hothers t' q) in Hq.
  - done.
  - intros t' q [[<- ->]|[Hne Hl']]%lookup_insert_Some Hq; [done|]. apply running_holds in Hq. by rewrite (Hothers t' q) in Hq.
  - intros t' q [[<- ->]|[Hne Hl']]%lookup_insert_Some; [done|by apply (Hf t')].
  - intros t' [[<- ->]|[Hne Hl']]%lookup_insert_Some; [done|by apply (Hfa t')].
  - intros t' [[<- ->]|[Hne Hl']]%lookup_insert_Some; [done|]. destruct (Hna t' Hl') as [?|(g & r' & Hgr)]; [by left|].
    destruct (decide (g = t)) as [->|Hgt']; [by rewrite Hl in Hgr|]. by specialize (Hothers _ _ Hgt' Hgr).
Qed.

Lemma agree_start m ths t call :
  agree m ths → (∀ th, ths !! t = Some th → in_call th = false) → agree m (<[t := enter call]> ths).
Proof.
  intros Ha Ht. apply (agree_bystander m m); [done| |by destruct call|done|destruct call; cbn; naive_solver..].
  intros th Hl. specialize (Ht th Hl). by destruct th.
Qed.

Lemma wake_flush_agree m ths t :
  agree m ths → ths !! t = Some (InFlush FlushWaiting) → agree m (<[t := InFlush FlushCheck]> ths).
Proof.
  intros Ha Hl. apply (agree_bystander m m); [done|intros th Hl'; simplify_eq; done|done|done| |done|done].
  intros p _ _ Hr. apply (agree_flush _ _ Ha t FlushWaiting Hl); auto.
Qed.
Lemma wake_finish_agree m ths t :
  agree m ths → ths !! t = Some (InFinish FinishWaiting) → agree m (<[t := InFinish FinishCheck]> ths).
Proof.
  intros Ha Hl. apply (agree_bystander m m); [done|intros th Hl'; simplify_eq; done|done..].
Qed.
Lemma agree_new bufferSize seq : agree (MonitorClientLogic_new bufferSize seq) ∅.
Proof. split; by try (intros ? ?%lookup_empty_Some || intros ? ? ?%lookup_empty_Some). Qed.

Lemma wake_quiet p ths : connecting p = false → (∀ r, p ≠ GetNotify r) → wake p <$> ths = ths.
Proof.
  intros Hc Hn. rewrite <-(map_fmap_id ths) at 2. apply map_fmap_ext. intros _ th _.
  destruct p; try done. by edestruct Hn.
Qed.
End agree.

Section reachable.
Context {W : Type}.
Context (sys_poll : PollEvent → SE W PollResult) (sys_getsockopt : SE W (Z + Z))
  (sys_socket : SE W (unit + Z)) (sys_connect : SE W ConnectResult)
  (sys_send : string → SE W SendResult) (sys_recv : SE W RecvResult)
  (sys_poll_events : option nat → W → EventPoll * W).
Context (sys_eventfd_write sys_eventfd_read : option nat → W → bool * W).
Implicit Types c : MonitorConfig (W:=W).

Abbreviation MStep := (MonitorStep sys_poll sys_getsockopt sys_socket sys_connect sys_send sys_recv sys_poll_events
  sys_eventfd_write sys_eventfd_read) (only parsing).
Abbreviation mstep := (step sys_poll sys_getsockopt sys_socket sys_connect sys_send sys_recv sys_poll_events
  sys_eventfd_write sys_eventfd_read) (only parsing).

(** Everything is as it should be until the object is deleted or a thread has crashed. *)
Definition over c : Prop := monitorDeleted c = true ∨ ∃ t, threads c !! t = Some Crashed.
Definition sound c : Prop := over c ∨ agree (monitorLogic c) (threads c).

Lemma get_step_agree rounds fuel t p m w ths :
  agree m ths → ths !! t = Some (InGet p) →
  match get_step sys_poll sys_getsockopt sys_socket sys_connect sys_send sys_recv sys_poll_events sys_eventfd_read rounds fuel
          t p (m, w) with
  | (Ret th, (m', _)) => agree m' (wake p <$> <[t := th]> ths)
  | _ => True
  end.
Proof.
  intros Ha Hl. assert ((∃ r, p = GetStop r) ∨ ∀ r, p ≠ GetStop r) as Hs by (destruct p; by eauto || by right).
  destruct (running p) eqn:Hrun; [destruct Hs as [[r ->]|Hns]|].
  - cbn. assert (m_reentrantGuard m = Some t) as Hg by (by apply (agree_guard _ _ Ha t _ Hl)).
    apply (agree_holder m _ ths t (GetStop r) (GetNotify r) Ha Hl); [done|done|done|done| |done|by eauto|by right].
    cbn. by rewrite orb_false_r.
  - assert (m_reentrantGuard m = Some t) as Hg by (apply (agree_guard _ _ Ha t _ Hl); by apply running_holds).
    pose proof (get_step_working sys_poll sys_getsockopt sys_socket sys_connect sys_send sys_recv sys_poll_events sys_eventfd_read
      rounds fuel t p m w Hrun) as Hw.
    destruct (get_step _ _ _ _ _ _ _ _ _ _ _ _ _) as [[th|e|] [m' w']]; [|done|done].
    destruct Hw as (p' & -> & (Hrun' & Hc' & _) & [= Eg Ec Er]); [done|].
    apply (agree_holder m m' ths t p p' Ha Hl); [by apply running_holds..|by rewrite Eg| |done| |by rewrite Hrun'|].
    + by rewrite Er, Hrun', (agree_running _ _ Ha t p Hl), Hrun by (by apply running_holds).
    + intros _ _. rewrite Ec. destruct (connecting p) eqn:Hcp; [by rewrite orb_true_r|].
      by rewrite (agree_connected _ _ Ha t p Hl Hrun Hcp).
    + right. by intros r ->.
  - destruct p as [| | | | | | |r|r|r]; try done; cbn [get_step]; rewrite SE_bind_eq || (cbn [mret SE_ret]; unfold mret, SE_ret).
    + cbn [get fst]. destruct (m_reentrantGuard m) eqn:Hg; [|rewrite SE_bind_eq]; cbn -[wake]; rewrite (wake_quiet GetTryLock) by done.
      * apply (agree_bystander m m); try done. intros th Hl'. by simplify_eq.
      * by apply agree_acquire.
    + assert (m_reentrantGuard m = Some t) as Hg by (by apply (agree_guard _ _ Ha t _ Hl)).
      apply (agree_holder m _ ths t GetStart GetConnect Ha Hl); [done|done|done|done| |done|done|by right].
      cbn. by rewrite orb_false_r.
    + assert (m_reentrantGuard m = Some t) as Hg by (by apply (agree_guard _ _ Ha t _ Hl)).
      apply (agree_holder m _ ths t (GetNotify r) (GetUnlock r) Ha Hl); [done|done|done| | |done|done|left; by eauto].
      * by rewrite (agree_running _ _ Ha t _ Hl).
      * by rewrite orb_false_r.
    + unfold onLibrary. cbn [modify]. unfold get_return. rewrite SE_bind_eq. unfold api_tryCatchValue, tryCatch.
      destruct r as [v|e|]; [| |done]; cbn -[wake].
      * rewrite (wake_quiet (GetUnlock _)) by done. by eapply agree_release.
      * destruct (exception_code e); [|done]. cbn -[wake]. rewrite (wake_quiet (GetUnlock _)) by done. by eapply agree_release.
Qed.

Lemma thread_step_agree rounds fuel t th m w ths :
  agree m ths → ths !! t = Some th → in_call th = true →
  match thread_step sys_poll sys_getsockopt sys_socket sys_connect sys_send sys_recv sys_poll_events sys_eventfd_write sys_eventfd_read
          rounds fuel t th (m, w) with
  | (Ret th', (m', _)) => agree m' (wakes th <$> <[t := th']> ths)
  | _ => True
  end.
Proof.
  intros Ha Hl Hin. destruct th as [p|p|p| | | |]; try done; cbn [thread_step wakes].
  - by apply get_step_agree.
  - pose proof (flush_step_shape sys_poll sys_getsockopt sys_send fuel p m w) as Hs.
    destruct (flush_step _ _ _ _ _ _) as [[th'|e|] [m' w']]; [|done|done]. destruct Hs as [Hs Ht].
    rewrite map_fmap_id. apply (agree_bystander m m'); [done|intros th0 ?; by simplify_eq|by destruct th' as [| | | | | |]|done| | |].
    + intros q -> [-> | ->] Hr; [by destruct Ht|]. destruct Ht as [->|[-> Hc]]; apply (agree_flush _ _ Ha t _ Hl); auto.
    + intros ->. destruct Ht as [->|[-> Hc]]; [by apply (agree_flush_asleep _ _ Ha t)|done].
    + by intros ->.
  - pose proof (finish_step_shape sys_eventfd_write p m w) as Hs.
    destruct (finish_step _ _ _) as [[th'|e|] [m' w']]; [|done|done]. destruct Hs as [Hs Ht].
    rewrite map_fmap_id. apply (agree_bystander m m'); [done|intros th0 ?; by simplify_eq|by destruct th' as [| | | | | |]|done| | |].
    + by intros q ->.
    + by intros ->.
    + intros ->. destruct Ht as [->|[-> Hr]]; [by apply (agree_finish_asleep _ _ Ha t)|by left].
Qed.

(** A crash stays. *)
Lemma crash_stays th (ths : gmap nat Thread) t t' th' :
  ths !! t = Some Crashed → (∀ th0, ths !! t' = Some th0 → th0 ≠ Crashed) → (wakes th <$> <[t' := th']> ths) !! t = Some Crashed.
Proof.
  intros Hl Hne. rewrite lookup_fmap, lookup_insert_ne, Hl by (intros ->; by apply (Hne _ Hl)).
  cbn. by destruct th as [[]| | | | | |].
Qed.

Lemma step_sound rounds fuel t c c' : mstep rounds fuel t c = Some c' → sound c → sound c'.
Proof.
  unfold step. destruct (threads c !! t) as [th|] eqn:Hl; [|done].
  destruct (in_call th) eqn:Hin; [|done]. destruct (asleep th); [done|]. cbn [negb orb].
  destruct (monitorDeleted c) eqn:Hd; [intros [= <-] _; left; by left|].
  destruct (thread_step _ _ _ _ _ _ _ _ _ _ _ _ _ _) as [[th'|e|] [m' w']] eqn:Hs; intros [= <-] [[?|[t0 Hc]]|Ha].
  - by congruence.
  - left. right. exists t0. apply crash_stays; [done|]. intros th0 ? ->. by simplify_eq.
  - right. pose proof (thread_step_agree rounds fuel t th (monitorLogic c) (monitorSystem c) _ Ha Hl Hin) as Hag. by rewrite Hs in Hag.
  - left. right. exists t. apply lookup_insert_eq.
  - left. right. exists t. apply lookup_insert_eq.
  - left. right. exists t. apply lookup_insert_eq.
Qed.

Lemma start_sound t call c c' : start t call c = Some c' → sound c → sound c'.
Proof.
  unfold start. destruct (monitorDeleted c) eqn:Hd; [done|].
  assert ((∀ th, threads c !! t = Some th → in_call th = false ∧ th ≠ Crashed) → sound c →
    sound (mkMonitorConfig (monitorLogic c) (monitorSystem c) false (<[t := enter call]> (threads c)))) as Hok.
  { intros Hth [[?|[t0 Hc]]|Ha]; [by congruence| |].
    - left. right. exists t0. cbn. rewrite lookup_insert_ne; [done|]. intros ->. by destruct (Hth _ Hc).
    - right. apply agree_start; [done|]. intros th Hl. by apply Hth. }
  destruct (threads c !! t) as [th|] eqn:Hl.
  - destruct (in_call th) eqn:Hin; [done|]. cbn [orb]. destruct (bool_decide_reflect (th = Crashed)); [done|].
    intros [= <-]. apply Hok. intros th0 ?. by simplify_eq.
  - intros [= <-]. apply Hok. by intros th0 ?.
Qed.

Lemma MonitorStep_sound c c' : MStep c c' → sound c → sound c'.
Proof.
  intros [t call c0 c1 Hs|rounds fuel t c0 c1 Hs|t c0 Hl|t c0 Hl|w c0].
  - by apply (start_sound t call).
  - by apply (step_sound rounds fuel t).
  - intros [[?|[t0 Hc]]|Ha]; [left; by left|left; right; exists t0; cbn; by rewrite lookup_insert_ne by congruence|right; by apply wake_flush_agree].
  - intros [[?|[t0 Hc]]|Ha]; [left; by left|left; right; exists t0; cbn; by rewrite lookup_insert_ne by congruence|right; by apply wake_finish_agree].
  - done.
Qed.

Lemma initialize_agree (sys_eventfd : W → option nat * W) p_conf seq w m w' :
  cynara_monitor_initialize sys_eventfd p_conf seq w = (inr m, w') → agree m ∅.
Proof.
  unfold cynara_monitor_initialize, api_tryCatch, tryCatch, monitor_init. rewrite SE_bind_eq.
  unfold onMonitorNotify at 1, notify_init. cbn [MonitorClientLogic_new m_monitorNotify]. destruct (sys_eventfd w) as [[fd|] w1]; cbn.
  - intros [= <- <-]. split; by try (intros ? ?%lookup_empty_Some || intros ? ? ?%lookup_empty_Some).
  - by intros [= ].
Qed.

(** In every interleaving, until the object is deleted or a thread has crashed. *)
Lemma reachable_agree (sys_eventfd : W → option nat * W) p_conf seq w m w' c :
  cynara_monitor_initialize sys_eventfd p_conf seq w = (inr m, w') → rtc MStep (MonitorConfig_new m w') c → ¬ over c →
  agree (monitorLogic c) (threads c).
Proof.
  intros Hinit Hr Hover. assert (sound c) as [?|?]; [|done|done].
  assert (sound (MonitorConfig_new m w')) as Hs by (right; by apply (initialize_agree sys_eventfd p_conf seq w m w')).
  clear -Hr Hs. induction Hr as [|c1 c2 c3 H12 _ IH]; [done|]. by apply IH, (MonitorStep_sound c1).
Qed.

Lemma run_schedule_reaches rounds fuel l c c' :
  run_schedule sys_poll sys_getsockopt sys_socket sys_connect sys_send sys_recv sys_poll_events sys_eventfd_write sys_eventfd_read
    rounds fuel l c = Some c' → rtc MStep c c'.
Proof.
  revert c. induction l as [|[t [call|]] l IH]; intros c; cbn [run_schedule run_event]; [by intros [= ->]|..].
  - destruct (start t call c) as [c1|] eqn:Hs; [|done]. intros Hr. eapply rtc_l; [by apply (step_start _ _ _ _ _ _ _ _ _ t call)|by apply IH].
  - destruct (mstep rounds fuel t c) as [c1|] eqn:Hs; [|done]. intros Hr.
    eapply rtc_l; [by apply (step_run _ _ _ _ _ _ _ _ _ rounds fuel t)|by apply IH].
Qed.

Lemma not_over c : monitorDeleted c = false → map_Forall (λ _ th, th ≠ Crashed) (threads c) → ¬ over c.
Proof. intros Hd Hth [?|[t Ht]]; [congruence|by apply (Hth t Crashed Ht)]. Qed.

(** A sleeping thread and who will wake it. *)
Lemma step_threads rounds fuel g p c c' th :
  threads c !! g = Some (InGet p) → mstep rounds fuel g c = Some c' → ¬ over c' → ∀ t, t ≠ g → threads c !! t = Some th →
  threads c' !! t = Some (wake p th).
Proof.
  intros Hg Hs Hover t Hne Hl. unfold step in Hs. rewrite Hg in Hs. cbn [in_call asleep negb orb] in Hs.
  destruct (monitorDeleted c); [injection Hs as <-; by destruct Hover; left|].
  destruct (thread_step _ _ _ _ _ _ _ _ _ _ _ _ _ _) as [[th'|e|] [m' w']]; [| |done]; injection Hs as <-.
  - cbn. by rewrite lookup_fmap, lookup_insert_ne, Hl by done.
  - destruct Hover. right. exists g. apply lookup_insert_eq.
Qed.

Lemma step_get_inv rounds fuel t p c c' :
  threads c !! t = Some (InGet p) → mstep rounds fuel t c = Some c' → ¬ over c' →
  ∃ th m w, get_step sys_poll sys_getsockopt sys_socket sys_connect sys_send sys_recv sys_poll_events sys_eventfd_read rounds fuel t p
      (monitorLogic c, monitorSystem c) = (Ret th, (m, w)) ∧ threads c' !! t = Some (wake p th).
Proof.
  intros Hl Hs Hover. unfold step in Hs. rewrite Hl in Hs. cbn [in_call asleep negb orb] in Hs.
  destruct (monitorDeleted c); [injection Hs as <-; by destruct Hover; left|]. cbn [thread_step wakes deletes] in Hs.
  destruct (get_step _ _ _ _ _ _ _ _ _ _ _ _ _) as [[th|e|] [m w]]; [| |done]; injection Hs as <-.
  - exists th, m, w. split; [done|]. cbn. by rewrite lookup_fmap, lookup_insert_eq.
  - destruct Hover. right. exists t. apply lookup_insert_eq.
Qed.
End reachable.

(** ** The properties *)

Section properties.
Context {W : Type}.
Context (sys_poll : PollEvent → SE W PollResult) (sys_getsockopt : SE W (Z + Z))
  (sys_socket : SE W (unit + Z)) (sys_connect : SE W ConnectResult)
  (sys_send : string → SE W SendResult) (sys_recv : SE W RecvResult)
  (sys_poll_events : option nat → W → EventPoll * W).
Context (sys_eventfd : W → option nat * W) (sys_eventfd_write sys_eventfd_read : option nat → W → bool * W).

Abbreviation MStep := (MonitorStep sys_poll sys_getsockopt sys_socket sys_connect sys_send sys_recv sys_poll_events
  sys_eventfd_write sys_eventfd_read) (only parsing).
Abbreviation mstep := (step sys_poll sys_getsockopt sys_socket sys_connect sys_send sys_recv sys_poll_events
  sys_eventfd_write sys_eventfd_read) (only parsing).

(** A thread that sleeps in a flush: another is about to connect. *)
Lemma flush_waker m ths t :
  agree m ths → ths !! t = Some (InFlush FlushWaiting) → ∃ g, g ≠ t ∧ ths !! g = Some (InGet GetConnect).
Proof.
  intros Ha Hl. pose proof (agree_flush_asleep _ _ Ha t Hl) as Hr.
  pose proof (agree_flush _ _ Ha t FlushWaiting Hl (or_intror eq_refl) Hr) as Hrun.
  destruct (m_reentrantGuard m) as [g|] eqn:Hg; [|by rewrite (agree_idle _ _ Ha Hg) in Hrun].
  destruct (agree_present _ _ Ha g Hg) as [p Hp].
  assert (holding p = true) as Hh by (by apply (proj2 (agree_guard _ _ Ha g _ Hp))).
  rewrite (agree_running _ _ Ha g p Hp Hh) in Hrun. exists g. split; [by intros ->; simplify_eq|].
  destruct (connecting p) eqn:Hc; [by destruct p|]. by rewrite (agree_connected _ _ Ha g p Hp Hrun Hc) in Hr.
Qed.

Lemma finish_waker m ths t :
  agree m ths → ths !! t = Some (InFinish FinishWaiting) →
  ∃ g p, g ≠ t ∧ ths !! g = Some (InGet p) ∧ (running p = true ∨ ∃ r, p = GetNotify r).
Proof.
  intros Ha Hl. destruct (agree_finish_asleep _ _ Ha t Hl) as [Hrun|(g & r & Hg)].
  - destruct (m_reentrantGuard m) as [g|] eqn:Hg; [|by rewrite (agree_idle _ _ Ha Hg) in Hrun].
    destruct (agree_present _ _ Ha g Hg) as [p Hp].
    assert (holding p = true) as Hh by (by apply (proj2 (agree_guard _ _ Ha g _ Hp))).
    rewrite (agree_running _ _ Ha g p Hp Hh) in Hrun. exists g, p. split; [by intros ->; simplify_eq|by auto].
  - exists g, (GetNotify r). split; [by intros ->; simplify_eq|by eauto].
Qed.

(** C11: The threads of the monitor agree in every interleaving of their calls: at most one
    is inside [entriesGet], and [m_isRunning] says whether it is between the two ends of
    [sendAndFetch].  No wake-up is lost: while a thread sleeps in [entriesFlush] another is
    about to connect, and its step wakes the sleeper; while a thread sleeps in
    [cynara_monitor_finish] another is on its way to the notification that wakes it. *)
Theorem monitor_threads_agree p_conf seq w m w' c :
  cynara_monitor_initialize sys_eventfd p_conf seq w = (inr m, w') → rtc MStep (MonitorConfig_new m w') c → ¬ over c →
  (∀ t1 t2 p1 p2, threads c !! t1 = Some (InGet p1) → threads c !! t2 = Some (InGet p2) →
    holding p1 = true → holding p2 = true → t1 = t2) ∧
  (m_isRunning (monitorLogic c) = true ↔ ∃ t p, threads c !! t = Some (InGet p) ∧ running p = true) ∧
  (∀ t, threads c !! t = Some (InFlush FlushWaiting) →
    ∃ g, threads c !! g = Some (InGet GetConnect) ∧
      ∀ rounds fuel c', mstep rounds fuel g c = Some c' → ¬ over c' → threads c' !! t = Some (InFlush FlushCheck)) ∧
  (∀ t, threads c !! t = Some (InFinish FinishWaiting) →
    ∃ g p, threads c !! g = Some (InGet p) ∧ (running p = true ∨ ∃ r, p = GetNotify r) ∧
      ∀ rounds fuel c' r, p = GetNotify r → mstep rounds fuel g c = Some c' → ¬ over c' → threads c' !! t = Some (InFinish FinishCheck)).
Proof.
  intros Hinit Hr Hover.
  pose proof (reachable_agree sys_poll sys_getsockopt sys_socket sys_connect sys_send sys_recv sys_poll_events
    sys_eventfd_write sys_eventfd_read sys_eventfd p_conf seq w m w' c Hinit Hr Hover) as Ha. split_and!.
  - intros t1 t2 p1 p2 H1 H2 Hh1 Hh2. apply (agree_guard _ _ Ha t1 _ H1) in Hh1. apply (agree_guard _ _ Ha t2 _ H2) in Hh2. congruence.
  - split.
    + intros Hrun. destruct (m_reentrantGuard (monitorLogic c)) as [g|] eqn:Hg; [|by rewrite (agree_idle _ _ Ha Hg) in Hrun].
      destruct (agree_present _ _ Ha g Hg) as [p Hp]. exists g, p. split; [done|].
      rewrite <-(agree_running _ _ Ha g p Hp); [done|]. by apply (proj2 (agree_guard _ _ Ha g _ Hp)).
    + intros (t & p & Hl & Hp). by rewrite (agree_running _ _ Ha t p Hl (running_holds p Hp)).
  - intros t Hl. destruct (flush_waker _ _ t Ha Hl) as (g & Hne & Hg). exists g. split; [done|]. intros rounds fuel c' Hs Hov.
    exact (step_threads sys_poll sys_getsockopt sys_socket sys_connect sys_send sys_recv sys_poll_events
      sys_eventfd_write sys_eventfd_read rounds fuel g GetConnect c c' _ Hg Hs Hov t (not_eq_sym Hne) Hl).
  - intros t Hl. destruct (finish_waker _ _ t Ha Hl) as (g & p & Hne & Hg & Hp). exists g, p. split; [done|]. split; [done|].
    intros rounds fuel c' r -> Hs Hov.
    exact (step_threads sys_poll sys_getsockopt sys_socket sys_connect sys_send sys_recv sys_poll_events
      sys_eventfd_write sys_eventfd_read rounds fuel g (GetNotify r) c c' _ Hg Hs Hov t (not_eq_sym Hne) Hl).
Qed.

(** *** The calls end *)

Definition total (f : Thread → nat) (ths : gmap nat Thread) : nat := sum_list (f <$> (map_to_list ths).*2).

Lemma total_delete f ths t th : ths !! t = Some th → total f ths = f th + total f (delete t ths).
Proof. intros Hl. unfold total. by rewrite <-(map_to_list_delete ths t th Hl). Qed.
Lemma total_insert f ths t th : total f (<[t := th]> ths) = f th + total f (delete t ths).
Proof. rewrite (total_delete f (<[t := th]> ths) t th) by apply lookup_insert_eq. by rewrite delete_insert_eq. Qed.
Lemma total_fmap f g ths : total f (g <$> ths) = total (f ∘ g) ths.
Proof. unfold total. rewrite map_to_list_fmap, <-!list_fmap_compose. done. Qed.
Lemma total_ext f g ths : (∀ th, f th = g th) → total f ths = total g ths.
Proof. intros Hfg. unfold total. f_equal. apply list_fmap_ext. intros i th _. apply Hfg. Qed.

Lemma steps_left_wake p th : steps_left (wake p th) = steps_left th.
Proof. by destruct p, th as [|[]|[]| | | |]. Qed.
Lemma total_wakes th ths : total steps_left (wakes th <$> ths) = total steps_left ths.
Proof. rewrite total_fmap. apply total_ext. intros th0. destruct th; [apply steps_left_wake|done..]. Qed.

Lemma get_step_nearer rounds fuel t p m w :
  match get_step sys_poll sys_getsockopt sys_socket sys_connect sys_send sys_recv sys_poll_events sys_eventfd_read rounds fuel
          t p (m, w) with
  | (Ret th, _) => steps_left th < steps_left (InGet p)
  | _ => True
  end.
Proof.
  assert ((∃ r, p = GetStop r) ∨ ∀ r, p ≠ GetStop r) as Hs by (destruct p; by eauto || by right).
  destruct (running p) eqn:Hrun; [destruct Hs as [[r ->]|Hns]|].
  - cbn [get_step]. rewrite SE_bind_eq. cbn. lia.
  - pose proof (get_step_working sys_poll sys_getsockopt sys_socket sys_connect sys_send sys_recv sys_poll_events sys_eventfd_read
      rounds fuel t p m w Hrun Hns) as Hw.
    destruct (get_step _ _ _ _ _ _ _ _ _ _ _ _ _) as [[th|e|] [m' w']]; [|done|done]. by destruct Hw as (p' & -> & (_ & _ & ?) & _).
  - destruct p as [| | | | | | |r|r|r]; try done; cbn [get_step]; rewrite ?SE_bind_eq; try by (cbn; lia).
    + cbn [get fst]. destruct (m_reentrantGuard m); [|rewrite SE_bind_eq]; cbn; lia.
    + unfold onLibrary, get_return, api_tryCatchValue, tryCatch. cbn [modify]. rewrite SE_bind_eq.
      destruct r as [v|e|]; [cbn; lia| |done]. destruct (exception_code e); cbn; [lia|done].
Qed.

Lemma thread_step_nearer rounds fuel t th m w :
  in_call th = true → asleep th = false →
  match thread_step sys_poll sys_getsockopt sys_socket sys_connect sys_send sys_recv sys_poll_events sys_eventfd_write sys_eventfd_read
          rounds fuel t th (m, w) with
  | (Ret th', _) => steps_left th' < steps_left th ∨
      steps_left th' = steps_left th ∧ others_left th' < others_left th ∧ wakes th = id
  | _ => True
  end.
Proof.
  intros Hin Has. destruct th as [p|p|p| | | |]; try done; cbn [thread_step wakes].
  - pose proof (get_step_nearer rounds fuel t p m w) as Hn. destruct (get_step _ _ _ _ _ _ _ _ _ _ _ _ _) as [[]?]; by auto.
  - pose proof (flush_step_shape sys_poll sys_getsockopt sys_send fuel p m w) as Hs.
    destruct (flush_step _ _ _ _ _ _) as [[th'|e|] [m' w']] eqn:Hf; [|done|done]. destruct Hs as [_ Ht]. right.
    destruct th' as [|[]| | | | |]; try done; (split; [done|]; split; [|done]).
    + destruct Ht as [-> _]. cbn. lia.
    + destruct Ht as [->|[-> _]]; [done|]. cbn. lia.
    + rewrite Ht. cbn. lia.
    + destruct p; cbn; try lia.
  - pose proof (finish_step_shape sys_eventfd_write p m w) as Hs.
    destruct (finish_step _ _ _) as [[th'|e|] [m' w']]; [|done|done]. destruct Hs as [_ Ht]. right.
    destruct th' as [| |[]| | | |]; try done; (split; [done|]; split; [|done]); try done.
    + destruct Ht as [->|[-> _]]; [done|]. cbn. lia.
    + destruct p; cbn; lia.
Qed.

(** The steps left altogether: a wake-up costs a step of a thread in [entriesGet]. *)
Definition work_left (c : MonitorConfig (W:=W)) : nat * nat := (total steps_left (threads c), total others_left (threads c)).
Definition nearer (a b : nat * nat) : Prop := a.1 < b.1 ∨ a.1 = b.1 ∧ a.2 < b.2.

Lemma nearer_wf : well_founded nearer.
Proof.
  intros [n k]. revert k. induction (lt_wf n) as [n _ IHn]. intros k. induction (lt_wf k) as [k _ IHk].
  constructor. intros [n' k'] [Hlt|[Heq Hlt]]; cbn in *; [by apply IHn|]. subst. by apply IHk.
Qed.

Lemma total_step th ths t th' :
  ths !! t = Some th → in_call th = true →
  steps_left th' < steps_left th ∨ steps_left th' = steps_left th ∧ others_left th' < others_left th ∧ wakes th = id →
  nearer (total steps_left (wakes th <$> <[t := th']> ths), total others_left (wakes th <$> <[t := th']> ths))
    (total steps_left ths, total others_left ths).
Proof.
  intros Hl Hin Hs. unfold nearer. cbn [fst snd]. rewrite total_wakes, total_insert, (total_delete steps_left ths t th Hl).
  destruct Hs as [Hlt|(Heq & Hlt & ->)]; [left; lia|right]. split; [lia|].
  rewrite map_fmap_id, total_insert, (total_delete others_left ths t th Hl). lia.
Qed.

Lemma crash_nearer th : in_call th = true →
  steps_left Crashed < steps_left th ∨ steps_left Crashed = steps_left th ∧ others_left Crashed < others_left th.
Proof. destruct th as [[]|[]|[]| | | |]; cbn; intros; try done; try (left; lia); right; lia. Qed.

Lemma mstep_nearer rounds fuel t c c' : mstep rounds fuel t c = Some c' → nearer (work_left c') (work_left c).
Proof.
  unfold step. destruct (threads c !! t) as [th|] eqn:Hl; [|done].
  destruct (in_call th) eqn:Hin; [|done]. destruct (asleep th) eqn:Has; [done|]. cbn [negb orb].
  assert (∀ m w d, nearer (work_left (mkMonitorConfig m w d (<[t := Crashed]> (threads c)))) (work_left c)) as Hcrash.
  { intros m w d. unfold work_left, nearer. cbn [fst snd threads].
    rewrite !total_insert, (total_delete steps_left _ _ _ Hl), (total_delete others_left _ _ _ Hl).
    destruct (crash_nearer th Hin) as [?|[? ?]]; [left|right]; lia. }
  destruct (monitorDeleted c); [by intros [= <-]|].
  pose proof (thread_step_nearer rounds fuel t th (monitorLogic c) (monitorSystem c) Hin Has) as Hn.
  destruct (thread_step _ _ _ _ _ _ _ _ _ _ _ _ _ _) as [[th'|e|] [m' w']]; intros [= <-]; [|by apply Hcrash].
  by apply total_step.
Qed.

(** C12: The calls of the monitor end.  No run of the threads goes on for ever: there is no
    infinite sequence of steps, whatever the order in which the threads run and whatever
    the system does within a step.  And no run stops early: in every reachable state in
    which some call is not over, some thread that is in a call is not asleep, and it can
    step unless its operation on the socket does not end. *)
Theorem monitor_calls_end :
  well_founded (λ c' c : MonitorConfig (W:=W), ∃ rounds fuel t, mstep rounds fuel t c = Some c') ∧
  ∀ p_conf seq w m w' c,
    cynara_monitor_initialize sys_eventfd p_conf seq w = (inr m, w') → rtc MStep (MonitorConfig_new m w') c → ¬ over c →
    (∃ t th, threads c !! t = Some th ∧ in_call th = true) →
    ∃ t th, threads c !! t = Some th ∧ in_call th = true ∧ asleep th = false ∧
      ∀ rounds fuel, is_Some (mstep rounds fuel t c) ∨
        (thread_step sys_poll sys_getsockopt sys_socket sys_connect sys_send sys_recv sys_poll_events sys_eventfd_write sys_eventfd_read
           rounds fuel t th (monitorLogic c, monitorSystem c)).1 = OutOfFuel.
Proof.
  split.
  - apply (wf_projected nearer work_left); [|exact nearer_wf]. intros c' c (rounds & fuel & t & Hs). by apply (mstep_nearer rounds fuel t).
  - intros p_conf seq w m w' c Hinit Hr Hover (t & th & Hl & Hin).
    pose proof (reachable_agree sys_poll sys_getsockopt sys_socket sys_connect sys_send sys_recv sys_poll_events
      sys_eventfd_write sys_eventfd_read sys_eventfd p_conf seq w m w' c Hinit Hr Hover) as Ha.
    assert (∃ t th, threads c !! t = Some th ∧ in_call th = true ∧ asleep th = false) as (t1 & th1 & Hl1 & Hin1 & Has1).
    { destruct (asleep th) eqn:Has; [|by exists t, th]. destruct th as [|[]|[]| | | |]; try done.
      - destruct (flush_waker _ _ t Ha Hl) as (g & _ & Hg). by exists g, (InGet GetConnect).
      - destruct (finish_waker _ _ t Ha Hl) as (g & p & _ & Hg & _). by exists g, (InGet p). }
    exists t1, th1. split_and!; [done..|]. intros rounds fuel. unfold step. rewrite Hl1, Hin1, Has1. cbn [negb orb].
    destruct (monitorDeleted c); [by left|].
    destruct (thread_step _ _ _ _ _ _ _ _ _ _ _ _ _ _) as [[th'|e|] [m1 w1]]; [by left|by left|by right].
Qed.
End properties.
