(* ===== verification/MonitorDemo.v ===== *)
(** * The monitor library at work

    One thread alone gets the entries the service has written.  Two interleavings that go
    wrong: a flush that reaches the service before the request it is to end, and the
    deletion of the object under a thread that is just leaving [entriesGet]. *)
From S2P Require Import Prelude Text Types Api BinaryQueue Serialization Frame Messages.
From S2P Require Import ProtocolClient ProtocolAdmin ProtocolAgent Protocols SocketClient ClientTheorems AgentLogic.
From S2P Require Import EntriesQueue Monitor MonitorLibrary MonitorTheorems.

(** Both descriptors of [poll], [cynara] being the connection. *)
Definition wire_events (cynara notified : bool) (fd : option nat) (w : Wire) : EventPoll * Wire := (EventPolled cynara notified, w).
Definition wire_eventfd (w : Wire) : option nat * Wire := (Some 0, w).
Definition wire_eventfd_write (fd : option nat) (w : Wire) : bool * Wire := (true, w).
Definition wire_eventfd_read (fd : option nat) (w : Wire) : bool * Wire := (true, w).

Section alone.
Context (n : nat) (sys_poll_events : option nat → Wire → EventPoll * Wire) (rounds fuel : nat).

Abbreviation alone_step := (get_step wire_poll wire_getsockopt wire_socket wire_connect (wire_send n) wire_recv sys_poll_events
  wire_eventfd_read rounds fuel) (only parsing).
Abbreviation alone := (run_thread wire_poll wire_getsockopt wire_socket wire_connect (wire_send n) wire_recv sys_poll_events
  wire_eventfd_write wire_eventfd_read rounds fuel) (only parsing).

(** One step of a thread in [entriesGet], then the others. *)
Lemma alone_next k t p m w ths th m' w' :
  ths !! t = Some (InGet p) → alone_step t p (m, w) = (Ret th, (m', w')) → wake p th = th →
  ∃ ths', alone (S k) t (mkMonitorConfig m w false ths) = alone k t (mkMonitorConfig m' w' false ths') ∧
    ths' !! t = Some th.
Proof.
  intros Hl Hs Hw. cbn [run_thread threads]. rewrite Hl. cbn [in_call]. unfold step. cbn [threads]. rewrite Hl.
  cbn [in_call asleep negb orb monitorDeleted monitorLogic monitorSystem thread_step]. rewrite Hs. cbn [deletes wakes].
  eexists. split; [reflexivity|]. rewrite lookup_fmap, lookup_insert_eq. cbn. by rewrite Hw.
Qed.

Lemma try_lock_alone t m w :
  m_reentrantGuard m = None → alone_step t GetTryLock (m, w) = (Ret (InGet GetStart), (setGuard (Some t) m, w)).
Proof. intros Hg. cbn [get_step]. rewrite SE_bind_eq. cbn [get fst]. by rewrite Hg. Qed.
Lemma start_alone t m w : alone_step t GetStart (m, w) = (Ret (InGet GetConnect), (setRunning true m, w)).
Proof. done. Qed.
Lemma stop_alone t r m w : alone_step t (GetStop r) (m, w) = (Ret (InGet (GetNotify r)), (setRunning false m, w)).
Proof. done. Qed.
Lemma notify_alone t r m w : alone_step t (GetNotify r) (m, w) = (Ret (InGet (GetUnlock r)), (m, w)).
Proof. done. Qed.
Lemma unlock_alone t v m w : alone_step t (GetUnlock (Ret v)) (m, w) = (Ret (GetReturned v), (setGuard None m, w)).
Proof. done. Qed.

Lemma connect_alone m w s :
  client_ready (m_monitorSocket (m_monitorClient m)) PMonitorGet s →
  ∃ cs, sendAndFetch_connect wire_poll wire_getsockopt wire_socket wire_connect (m, w) =
      (Ret GetSend, (setMonitorClient (mkMonitorSocketClient cs (m_monitorNotifyFd (m_monitorClient m))) (setConnectionResolved m), w)) ∧
    client_ready cs PMonitorGet s ∧
    ∀ fd w', monitor_isConnected wire_poll wire_getsockopt (mkMonitorSocketClient cs fd, w') = (Ret true, (mkMonitorSocketClient cs fd, w')).
Proof.
  destruct m as [g bs nt [[sk cp h wq] fd] cr ir sq]. intros (Hp & Hidle & Hok & Hb & Haw).
  destruct sk as [[] [] sb pos end_ q]; (eexists; split; [vm_compute; reflexivity|]; split_and!; done).
Qed.

Lemma send_alone m w s f :
  0 < n → client_ready (m_monitorSocket (m_monitorClient m)) PMonitorGet s →
  let seq := ((monitorSequence m + 1) mod 2 ^ 16)%Z in
  let request := MonitorGetEntriesRequest (m_bufferSize m) seq in
  request_ok PMonitorGet request → String.length (frame_bytes seq (request_body PMonitorGet request)) < f →
  ∃ cs, sendAndFetch_send wire_poll (wire_send n) f (m, w) =
      (Ret GetWait, (setMonitorClient (mkMonitorSocketClient cs (m_monitorNotifyFd (m_monitorClient m))) (setMonitorSequence seq m),
                     mkWire (w_sent w +:+ frame_bytes seq (request_body PMonitorGet request)) (w_reads w))) ∧
    client_ready cs PMonitorGet s.
Proof.
  intros Hn Hc seq request Hreq Hf.
  destruct (sendRequest_sends n f _ w PMonitorGet s request Hn Hc Hreq Hf) as (cs & Hs & Hc'). exists cs. split; [|done].
  unfold sendAndFetch_send, monitor_generateSequenceNumber. rewrite SE_bind_eq, SE_bind_eq. unfold onLibrary, modify. fold seq.
  cbn [gets get]. rewrite SE_bind_eq. unfold gets, get. cbn [fst]. rewrite SE_bind_eq. cbn [setMonitorSequence m_bufferSize monitorSequence].
  unfold onMonitorClient, monitor_sendRequest. cbn [m_monitorClient]. rewrite SE_bind_eq. unfold onMonitorSocket.
  cbn [m_monitorClient m_monitorSocket setMonitorSequence]. fold request. rewrite Hs. rewrite bool_decide_eq_false_2 by done. reflexivity.
Qed.

Lemma wait_alone m w : sys_poll_events (m_monitorNotifyFd (m_monitorClient m)) w = (EventPolled true true, w) ∨
  sys_poll_events (m_monitorNotifyFd (m_monitorClient m)) w = (EventPolled true false, w) →
  ∃ c, sendAndFetch_wait sys_poll_events (m, w) = (Ret GetFetch, (setMonitorClient c m, w)) ∧ c = m_monitorClient m.
Proof.
  intros He. exists (m_monitorClient m). split; [|done]. unfold sendAndFetch_wait. rewrite SE_bind_eq.
  unfold onMonitorClient, monitor_waitForEvent. destruct m as [? ? ? [? ?] ? ? ?]. cbn in *. by destruct He as [-> | ->].
Qed.

Lemma fetch_alone m w entries seq later arriving k f s rest :
  let response := MonitorGetEntriesResponse entries seq in
  response_ok PMonitorGet response → client_ready (m_monitorSocket (m_monitorClient m)) PMonitorGet s → arriving ≠ [] →
  s +:+ fields (concat arriving) = response_frame PMonitorGet response +:+ later →
  w_reads w = arrivals arriving ++ rest → Forall (λ pieces, length pieces < f) arriving → length arriving ≤ k →
  ∃ cs arriving' s', sendAndFetch_fetch wire_poll wire_recv k f (m, w) =
      (Ret (GetStop (Ret (inr entries))),
       (setMonitorClient (mkMonitorSocketClient cs (m_monitorNotifyFd (m_monitorClient m))) m, mkWire (w_sent w) (arrivals arriving' ++ rest))) ∧
    client_ready cs PMonitorGet s' ∧ s' +:+ fields (concat arriving') = later.
Proof.
  intros response Hr Hc Hne Hs Hw Hp Hk.
  destruct (awaitResponse_gets PMonitorGet response later arriving k f _ w s rest Hr Hc Hne Hs Hw Hp Hk)
    as (cs & arriving' & s' & H1 & Hc' & Hl & _).
  exists cs, arriving', s'. split; [|done]. unfold sendAndFetch_fetch. rewrite SE_bind_eq. unfold onMonitorClient, fetchEntries.
  rewrite SE_bind_eq. unfold onMonitorSocket. by rewrite H1.
Qed.
End alone.

Lemma unwind_Ret (m : SE (MonitorClientLogic * Wire) GetPoint) s p s' : m s = (Ret p, s') → unwind m s = (Ret (InGet p), s').
Proof. intros H. unfold unwind, tryCatch. by rewrite SE_bind_eq, H. Qed.

(** C23: The entries are delivered: a thread that calls [cynara_monitor_entries_get] while no
    other does, whether or not there is a connection yet, sends exactly the request for as
    many entries as are configured and returns, in nine steps of its own, exactly the
    entries of the response the service wrote, in whatever pieces and wake-ups it arrives;
    a notification that is waiting does not matter.  Afterwards the guard is free again and
    the client is ready for the next call. *)
Theorem monitor_entries_delivered n notified k fuel t c c1 entries seq arriving reqdata data :
  let m := monitorLogic c in
  let request := MonitorGetEntriesRequest (m_bufferSize m) ((monitorSequence m + 1) mod 2 ^ 16) in
  let response := MonitorGetEntriesResponse entries seq in
  0 < n → m_reentrantGuard m = None → client_ready (m_monitorSocket (m_monitorClient m)) PMonitorGet "" →
  request_ok PMonitorGet request → response_ok PMonitorGet response → start t CallGet c = Some c1 →
  protocol_executeRequest PMonitorGet request BinaryQueue_new = (Ret tt, reqdata) →
  protocol_executeResponse PMonitorGet response BinaryQueue_new = (Ret tt, data) →
  fields (concat arriving) = bytes data → w_reads (monitorSystem c) = arrivals arriving →
  Forall (λ pieces, length pieces < fuel) arriving → length arriving ≤ k → String.length (bytes reqdata) < fuel →
  ∃ c2 arriving', run_thread wire_poll wire_getsockopt wire_socket wire_connect (wire_send n) wire_recv (wire_events true notified)
      wire_eventfd_write wire_eventfd_read k fuel 9 t c1 = Some c2 ∧
    threads c2 !! t = Some (GetReturned (inr entries)) ∧
    m_reentrantGuard (monitorLogic c2) = None ∧ m_isRunning (monitorLogic c2) = false ∧
    client_ready (m_monitorSocket (m_monitorClient (monitorLogic c2))) PMonitorGet "" ∧
    monitorSystem c2 = mkWire (w_sent (monitorSystem c) +:+ bytes reqdata) (arrivals arriving').
Proof.
  intros m request response Hn Hguard Hc Hreq Hresp Hstart Hrd Hd Hs Hw Hp Hk Hf.
  pose proof (executeRequest_bytes _ _ _ Hreq Hrd) as Eq. pose proof (executeResponse_bytes _ _ _ Hresp Hd) as Er.
  rewrite Eq in Hf |- *. rewrite Er in Hs.
  assert (∃ ths, c1 = mkMonitorConfig m (monitorSystem c) false ths ∧ ths !! t = Some (InGet GetTryLock)) as (ths & -> & Hl).
  { unfold start in Hstart. destruct (monitorDeleted c); [done|]. exists (<[t := enter CallGet]> (threads c)).
    split; [|apply lookup_insert_eq]. by destruct (threads c !! t) as [th|]; [destruct (_ || _)|]; simplify_eq. }
  clear Hstart. set (w := monitorSystem c) in *. clearbody w m.
  assert (∀ k0 p m0 w0 ths0 th m' w', ths0 !! t = Some (InGet p) →
    get_step wire_poll wire_getsockopt wire_socket wire_connect (wire_send n) wire_recv (wire_events true notified) wire_eventfd_read
      k fuel t p (m0, w0) = (Ret th, (m', w')) → wake p th = th →
    ∃ ths', run_thread wire_poll wire_getsockopt wire_socket wire_connect (wire_send n) wire_recv (wire_events true notified)
      wire_eventfd_write wire_eventfd_read k fuel (S k0) t (mkMonitorConfig m0 w0 false ths0) =
      run_thread wire_poll wire_getsockopt wire_socket wire_connect (wire_send n) wire_recv (wire_events true notified)
      wire_eventfd_write wire_eventfd_read k fuel k0 t (mkMonitorConfig m' w' false ths') ∧ ths' !! t = Some th) as next.
  { intros. by eapply alone_next. }
  edestruct (next 8 GetTryLock m w ths _ _ _ Hl (try_lock_alone _ _ _ _ _ _ _ Hguard) eq_refl) as (ths1 & -> & Hl1).
  edestruct (next 7 GetStart (setGuard (Some t) m) w ths1 _ _ _ Hl1 (start_alone _ _ _ _ _ _ _) eq_refl) as (ths2 & -> & Hl2).
  set (m1 := setRunning true (setGuard (Some t) m)).
  destruct (connect_alone m1 w "" Hc) as (cs1 & H1 & Hc1 & _).
  edestruct (next 6 GetConnect m1 w ths2 _ _ _ Hl2 (unwind_Ret _ _ _ _ H1) eq_refl) as (ths3 & -> & Hl3).
  set (m2 := setMonitorClient _ (setConnectionResolved m1)).
  destruct (send_alone n m2 w "" fuel Hn Hc1 Hreq Hf) as (cs2 & H2 & Hc2).
  edestruct (next 5 GetSend m2 w ths3 _ _ _ Hl3 (unwind_Ret _ _ _ _ H2) eq_refl) as (ths4 & -> & Hl4).
  set (m3 := setMonitorClient _ (setMonitorSequence _ m2)). set (w1 := mkWire _ (w_reads w)).
  destruct (wait_alone (wire_events true notified) m3 w1) as (c3 & H3 & ->); [destruct notified; by auto|].
  edestruct (next 4 GetWait m3 w1 ths4 _ _ _ Hl4 (unwind_Ret _ _ _ _ H3) eq_refl) as (ths5 & -> & Hl5).
  set (m4 := setMonitorClient _ m3).
  destruct (fetch_alone m4 w1 entries seq "" arriving k fuel "" [] Hresp Hc2) as (cs4 & arriving' & s' & H4 & Hc4 & Hs').
  { intros ->. by apply (f_equal String.length) in Hs. }
  { by rewrite str_app_nil_l, str_app_nil_r. }
  { by rewrite app_nil_r. }
  { done. }
  { done. }
  rewrite app_nil_r in H4.
  edestruct (next 3 GetFetch m4 w1 ths5 _ _ _ Hl5 (unwind_Ret _ _ _ _ H4) eq_refl) as (ths6 & -> & Hl6).
  set (m5 := setMonitorClient _ m4). set (w2 := mkWire _ (arrivals arriving')).
  edestruct (next 2 (GetStop _) m5 w2 ths6 _ _ _ Hl6 (stop_alone _ _ _ _ _ _ _ _) eq_refl) as (ths7 & -> & Hl7).
  edestruct (next 1 (GetNotify _) (setRunning false m5) w2 ths7 _ _ _ Hl7 (notify_alone _ _ _ _ _ _ _ _) eq_refl) as (ths8 & -> & Hl8).
  edestruct (next 0 (GetUnlock _) (setRunning false m5) w2 ths8 _ _ _ Hl8 (unlock_alone _ _ _ _ _ _ _ _) eq_refl) as (ths9 & -> & Hl9).
  eexists _, arriving'. split; [reflexivity|]. split_and!; [done..|by destruct s'|done].
Qed.

(** ** A flush before the request *)

Section races.
Context (n : nat) (sys_poll_events : option nat → Wire → EventPoll * Wire) (rounds fuel : nat).

Abbreviation wire_thread := (thread_step wire_poll wire_getsockopt wire_socket wire_connect (wire_send n) wire_recv sys_poll_events
  wire_eventfd_write wire_eventfd_read rounds fuel) (only parsing).
Abbreviation wire_schedule := (run_schedule wire_poll wire_getsockopt wire_socket wire_connect (wire_send n) wire_recv sys_poll_events
  wire_eventfd_write wire_eventfd_read rounds fuel) (only parsing).

Lemma schedule_call t call l m w ths :
  ths !! t = None →
  wire_schedule ((t, Some call) :: l) (mkMonitorConfig m w false ths) = wire_schedule l (mkMonitorConfig m w false (<[t := enter call]> ths)).
Proof. intros Hl. cbn [run_schedule run_event]. unfold start. cbn [monitorDeleted threads]. by rewrite Hl. Qed.

Lemma schedule_step t l m w ths th th' m' w' :
  ths !! t = Some th → in_call th = true → asleep th = false → wire_thread t th (m, w) = (Ret th', (m', w')) →
  wire_schedule ((t, None) :: l) (mkMonitorConfig m w false ths) =
    wire_schedule l (mkMonitorConfig m' w' (deletes th) (wakes th <$> <[t := th']> ths)).
Proof.
  intros Hl Hin Has Hs. cbn [run_schedule run_event]. unfold step. cbn [monitorDeleted threads monitorLogic monitorSystem].
  by rewrite Hl, Hin, Has, Hs.
Qed.

Lemma running_flush m w :
  m_isRunning m = true →
  flush_step wire_poll wire_getsockopt (wire_send n) fuel FlushRunning (m, w) = (Ret (InFlush FlushCheck), (m, w)).
Proof. intros Hr. unfold flush_step, flush_catch, tryCatch, isRunning. rewrite SE_bind_eq. unfold gets. cbn [fst]. by rewrite Hr. Qed.

Lemma not_running_finish m w :
  m_isRunning m = false → finish_step wire_eventfd_write FinishRunning (m, w) = (Ret (InFinish FinishDelete), (m, w)).
Proof. intros Hr. cbn [finish_step]. unfold isRunning. rewrite SE_bind_eq. unfold gets. cbn [fst]. by rewrite Hr. Qed.

Lemma check_flush m w :
  m_connectionResolved m = true → monitor_isConnected wire_poll wire_getsockopt (m_monitorClient m, w) = (Ret true, (m_monitorClient m, w)) →
  flush_step wire_poll wire_getsockopt (wire_send n) fuel FlushCheck (m, w) = (Ret (InFlush FlushSend), (m, w)).
Proof.
  intros Hr Hc. unfold flush_step, flush_catch, tryCatch. rewrite SE_bind_eq. unfold waitForConnectionResolved. rewrite SE_bind_eq.
  cbn [get fst]. rewrite Hr. cbn [negb]. rewrite SE_bind_eq. unfold onMonitorClient. rewrite Hc. by destruct m.
Qed.

Lemma send_flush m w s :
  0 < n → client_ready (m_monitorSocket (m_monitorClient m)) PMonitorGet s →
  let seq := ((monitorSequence m + 1) mod 2 ^ 16)%Z in
  let request := MonitorGetFlushRequest seq in
  request_ok PMonitorGet request → String.length (frame_bytes seq (request_body PMonitorGet request)) < fuel →
  ∃ cs, flush_step wire_poll wire_getsockopt (wire_send n) fuel FlushSend (m, w) =
      (Ret (FlushReturned CYNARA_API_SUCCESS),
       (setMonitorClient (mkMonitorSocketClient cs (m_monitorNotifyFd (m_monitorClient m))) (setMonitorSequence seq m),
        mkWire (w_sent w +:+ frame_bytes seq (request_body PMonitorGet request)) (w_reads w))) ∧
    client_ready cs PMonitorGet s.
Proof.
  intros Hn Hc seq request Hreq Hf.
  destruct (sendRequest_sends n fuel _ w PMonitorGet s request Hn Hc Hreq Hf) as (cs & Hs & Hc'). exists cs. split; [|done].
  unfold flush_step, flush_catch, tryCatch, monitor_generateSequenceNumber. rewrite SE_bind_eq, SE_bind_eq. unfold onLibrary, modify. fold seq.
  unfold gets. cbn [fst]. rewrite SE_bind_eq. cbn [setMonitorSequence monitorSequence].
  unfold onMonitorClient, monitor_sendRequest. cbn [m_monitorClient]. rewrite SE_bind_eq. unfold onMonitorSocket.
  cbn [m_monitorClient m_monitorSocket setMonitorSequence]. fold request. rewrite Hs. rewrite bool_decide_eq_false_2 by done. reflexivity.
Qed.

(** A flush can come before the request it is to end.  [entriesFlush] waits only until
    [entriesGet] is connected, not until it has sent its request: in this order of the
    threads the flush is sent first and succeeds, then the request is sent and [entriesGet]
    waits for its answer.  The service reads the two in this order, and its [flushClient]
    does nothing for a client it does not know yet: the flush is lost, and [entriesGet]
    does not return. *)
Theorem flush_overtakes_request t1 t2 c s :
  let m := monitorLogic c in
  let seq1 := ((monitorSequence m + 1) mod 2 ^ 16)%Z in
  let seq2 := ((seq1 + 1) mod 2 ^ 16)%Z in
  let flush := MonitorGetFlushRequest seq1 in
  let request := MonitorGetEntriesRequest (m_bufferSize m) seq2 in
  t1 ≠ t2 → 0 < n → monitorDeleted c = false → m_reentrantGuard m = None → threads c !! t1 = None → threads c !! t2 = None →
  client_ready (m_monitorSocket (m_monitorClient m)) PMonitorGet s →
  request_ok PMonitorGet flush → request_ok PMonitorGet request →
  String.length (frame_bytes seq1 (request_body PMonitorGet flush)) < fuel →
  String.length (frame_bytes seq2 (request_body PMonitorGet request)) < fuel →
  (∃ c', wire_schedule [(t1, Some CallGet); (t1, None); (t1, None); (t1, None);
                        (t2, Some CallFlush); (t2, None); (t2, None); (t2, None); (t1, None)] c = Some c' ∧
    threads c' !! t2 = Some (FlushReturned CYNARA_API_SUCCESS) ∧ threads c' !! t1 = Some (InGet GetWait) ∧
    w_sent (monitorSystem c') = w_sent (monitorSystem c) +:+ frame_bytes seq1 (request_body PMonitorGet flush) +:+
      frame_bytes seq2 (request_body PMonitorGet request)) ∧
  ∀ k context (l : MonitorLogic), m_clients l !! m_clientId context = None → flushClient k context l = (Ret tt, l).
Proof.
  intros m seq1 seq2 flush request Hne Hn Hd Hguard Hl1 Hl2 Hc Hflush Hreq Hf1 Hf2. split.
  2: { intros k context l Hl. unfold flushClient. rewrite SE_bind_eq. cbn [get]. by rewrite Hl. }
  destruct c as [m0 w d ths]. subst m. cbn [monitorLogic monitorSystem monitorDeleted threads] in *. subst d.
  rewrite schedule_call by done. set (ths1 := <[t1 := enter CallGet]> ths).
  erewrite (schedule_step t1); [|by unfold ths1; simplify_map_eq|done|done|by apply try_lock_alone]. cbn [deletes].
  erewrite (schedule_step t1); [|by unfold ths1; simplify_map_eq|done|done|by apply start_alone]. cbn [deletes].
  set (m1 := setRunning true (setGuard (Some t1) m0)).
  destruct (connect_alone m1 w s Hc) as (cs1 & H1 & Hc1 & Hcon).
  erewrite (schedule_step t1); [|by unfold ths1; simplify_map_eq|done|done|by apply unwind_Ret]. cbn [deletes].
  set (m2 := setMonitorClient _ (setConnectionResolved m1)).
  rewrite schedule_call by (unfold ths1; by simplify_map_eq).
  erewrite (schedule_step t2); [|by simplify_map_eq|done|done|exact (running_flush m2 w eq_refl)]. cbn [deletes].
  erewrite (schedule_step t2); [|by simplify_map_eq|done|done|exact (check_flush m2 w eq_refl (Hcon _ _))]. cbn [deletes].
  destruct (send_flush m2 w s Hn Hc1 Hflush Hf1) as (cs2 & H2 & Hc2).
  erewrite (schedule_step t2); [|by simplify_map_eq|done|done|exact H2]. cbn [deletes].
  set (m3 := setMonitorClient _ (setMonitorSequence _ m2)). set (w1 := mkWire _ (w_reads w)).
  destruct (send_alone n m3 w1 s fuel Hn Hc2 Hreq Hf2) as (cs3 & H3 & Hc3).
  erewrite (schedule_step t1); [|by unfold ths1; simplify_map_eq|done|done|by apply unwind_Ret]. cbn [deletes].
  eexists. split; [reflexivity|]. cbn [threads monitorSystem]. split_and!; [by simplify_map_eq..|].
  unfold w1. cbn [w_sent]. by rewrite str_app_assoc.
Qed.

(** ** Deletion under a thread *)

(** [cynara_monitor_finish] can delete the object under a thread.  It waits only while
    [m_isRunning] is set, but a thread in [entriesGet] holds the reentrancy guard and uses
    the object before it sets that flag and after it has cleared it.  When the object is
    finished in between, it is deleted at once, and the next step of the thread touches
    freed memory. *)
Theorem finish_deletes_under_get sys_eventfd p_conf seq w m w' c g t p :
  cynara_monitor_initialize sys_eventfd p_conf seq w = (inr m, w') →
  rtc (MonitorStep wire_poll wire_getsockopt wire_socket wire_connect (wire_send n) wire_recv sys_poll_events
    wire_eventfd_write wire_eventfd_read) (MonitorConfig_new m w') c → ¬ over c →
  threads c !! g = Some (InGet p) → holding p = true → running p = false → threads c !! t = None →
  ∃ c1 c2, wire_schedule [(t, Some CallFinish); (t, None); (t, None)] c = Some c1 ∧
    monitorDeleted c1 = true ∧ threads c1 !! t = Some (FinishReturned CYNARA_API_SUCCESS) ∧ threads c1 !! g = Some (InGet p) ∧
    wire_schedule [(g, None)] c1 = Some c2 ∧ threads c2 !! g = Some Crashed.
Proof.
  intros Hinit Hr Hover Hg Hh Hrun Ht.
  pose proof (reachable_agree _ _ _ _ _ _ _ _ _ sys_eventfd p_conf seq w m w' c Hinit Hr Hover) as Ha.
  assert (monitorDeleted c = false) as Hd by (destruct (monitorDeleted c) eqn:Hd; [by destruct Hover; left|done]).
  assert (m_isRunning (monitorLogic c) = false) as Hnot by (by rewrite (agree_running _ _ Ha g p Hg Hh)).
  assert (g ≠ t) as Hne by congruence.
  destruct c as [m1 w1 d ths]. cbn [monitorLogic monitorDeleted threads] in *. subst d.
  rewrite schedule_call by done.
  erewrite (schedule_step t); [|by simplify_map_eq|done|done|exact (not_running_finish _ _ Hnot)]. cbn [deletes].
  erewrite (schedule_step t); [|by simplify_map_eq|done|done|reflexivity]. cbn [deletes].
  eexists. eexists. split; [reflexivity|]. split; [done|]. cbn [threads]. split; [by simplify_map_eq|].
  assert (∀ f : Thread → Thread, f = id → (f <$> <[t:=FinishReturned CYNARA_API_SUCCESS]> (f <$> <[t:=InFinish FinishDelete]> (<[t:=enter CallFinish]> ths))) !! g =
    Some (InGet p)) as Hg' by (intros f ->; rewrite !map_fmap_id; by simplify_map_eq).
  split; [by apply Hg'|]. cbn [run_schedule run_event]. unfold step. cbn [threads]. rewrite Hg' by done.
  cbn [in_call asleep negb orb monitorDeleted]. split; [reflexivity|]. apply lookup_insert_eq.
Qed.
End races.

(** A client that has been initialised, and a response for it. *)
Definition demo_monitor : MonitorClientLogic :=
  match cynara_monitor_initialize wire_eventfd (Some 3%Z) 0 (mkWire "" []) with
  | (inr m, _) => m
  | _ => MonitorClientLogic_new 0 0
  end.
Definition demo_entries : list MonitorEntry :=
  [MonitorEntry.mk (PolicyKey_of "app" "1000" "camera") CYNARA_API_ACCESS_ALLOWED (mkTimespec 7 5)].
Definition demo_arriving (data : string) : list (list string) := [[stake 3 data]; []; [sdrop 3 data]].

Lemma monitor_entries_delivered_witness :
  let response := MonitorGetEntriesResponse demo_entries 1 in
  let data := response_frame PMonitorGet response in
  ∃ reqdata c2 arriving', run_thread wire_poll wire_getsockopt wire_socket wire_connect (wire_send 5) wire_recv (wire_events true false)
      wire_eventfd_write wire_eventfd_read 3 99 9 1
      (mkMonitorConfig demo_monitor (mkWire "" (arrivals (demo_arriving data))) false {[1 := InGet GetTryLock]}) = Some c2 ∧
    threads c2 !! 1 = Some (GetReturned (inr demo_entries)) ∧
    m_reentrantGuard (monitorLogic c2) = None ∧ m_isRunning (monitorLogic c2) = false ∧
    client_ready (m_monitorSocket (m_monitorClient (monitorLogic c2))) PMonitorGet "" ∧
    monitorSystem c2 = mkWire ("" +:+ bytes reqdata) (arrivals arriving').
Proof.
  intros response data. eexists.
  eapply (monitor_entries_delivered 5 false 3 99 1 (mkMonitorConfig demo_monitor (mkWire "" (arrivals (demo_arriving data))) false ∅) _
    demo_entries 1 (demo_arriving data)).
  - lia.
  - reflexivity.
  - split_and!; decide_by_compute.
  - decide_by_compute.
  - decide_by_compute.
  - reflexivity.
  - vm_compute; reflexivity.
  - vm_compute; reflexivity.
  - vm_compute; reflexivity.
  - reflexivity.
  - decide_by_compute.
  - cbn. lia.
  - apply Nat.ltb_lt. vm_compute. reflexivity.
Defined.

(** A thread about to connect, one asleep in a flush and one asleep in finish. *)
Definition demo_start : MonitorConfig := MonitorConfig_new demo_monitor (mkWire "" []).
Definition demo_run (l : list (nat * option MonitorCall)) : MonitorConfig :=
  default demo_start (run_schedule wire_poll wire_getsockopt wire_socket wire_connect (wire_send 5) wire_recv (wire_events true false)
    wire_eventfd_write wire_eventfd_read 3 99 l demo_start).
Definition demo_asleep : list (nat * option MonitorCall) :=
  [(1, Some CallGet); (1, None); (1, None); (2, Some CallFlush); (2, None); (2, None);
   (3, Some CallFinish); (3, None); (3, None); (3, None)].

Lemma demo_asleep_threads : threads (demo_run demo_asleep) =
  {[1 := InGet GetConnect; 2 := InFlush FlushWaiting; 3 := InFinish FinishWaiting]}.
Proof. vm_compute. reflexivity. Qed.

Lemma monitor_threads_agree_witness :
  (∃ g, threads (demo_run demo_asleep) !! g = Some (InGet GetConnect) ∧
    ∀ rounds fuel c', step wire_poll wire_getsockopt wire_socket wire_connect (wire_send 5) wire_recv (wire_events true false)
      wire_eventfd_write wire_eventfd_read rounds fuel g (demo_run demo_asleep) = Some c' → ¬ over c' →
      threads c' !! 2 = Some (InFlush FlushCheck)) ∧
  (∃ g p, threads (demo_run demo_asleep) !! g = Some (InGet p) ∧ (running p = true ∨ ∃ r, p = GetNotify r)).
Proof.
  destruct (monitor_threads_agree wire_poll wire_getsockopt wire_socket wire_connect (wire_send 5) wire_recv (wire_events true false)
    wire_eventfd wire_eventfd_write wire_eventfd_read (Some 3%Z) 0 (mkWire "" []) demo_monitor (mkWire "" []) (demo_run demo_asleep))
    as (_ & _ & Hflush & Hfinish).
  - vm_compute. reflexivity.
  - apply (run_schedule_reaches _ _ _ _ _ _ _ _ _ 3 99 demo_asleep). vm_compute. reflexivity.
  - apply not_over; [vm_compute; reflexivity|]. rewrite demo_asleep_threads. decide_by_compute.
  - split; [apply Hflush; rewrite demo_asleep_threads; reflexivity|].
    destruct (Hfinish 3) as (g & p & Hg & Hp & _); [rewrite demo_asleep_threads; reflexivity|]. exists g, p. exact (conj Hg Hp).
Defined.

Lemma monitor_calls_end_witness :
  ∃ t th, threads (demo_run demo_asleep) !! t = Some th ∧ in_call th = true ∧ asleep th = false ∧
    ∀ rounds fuel,
      is_Some (step wire_poll wire_getsockopt wire_socket wire_connect (wire_send 5) wire_recv (wire_events true false)
        wire_eventfd_write wire_eventfd_read rounds fuel t (demo_run demo_asleep)) ∨
      (thread_step wire_poll wire_getsockopt wire_socket wire_connect (wire_send 5) wire_recv (wire_events true false)
        wire_eventfd_write wire_eventfd_read rounds fuel t th
        (monitorLogic (demo_run demo_asleep), monitorSystem (demo_run demo_asleep))).1 = OutOfFuel.
Proof.
  apply (proj2 (monitor_calls_end wire_poll wire_getsockopt wire_socket wire_connect (wire_send 5) wire_recv (wire_events true false)
    wire_eventfd wire_eventfd_write wire_eventfd_read) (Some 3%Z) 0%Z (mkWire "" []) demo_monitor (mkWire "" [])).
  - vm_compute. reflexivity.
  - apply (run_schedule_reaches _ _ _ _ _ _ _ _ _ 3 99 demo_asleep). vm_compute. reflexivity.
  - apply not_over; [vm_compute; reflexivity|]. rewrite demo_asleep_threads. decide_by_compute.
  - exists 1, (InGet GetConnect). split; [rewrite demo_asleep_threads; reflexivity|reflexivity].
Defined.

Lemma flush_overtakes_request_witness :
  ∃ c', run_schedule wire_poll wire_getsockopt wire_socket wire_connect (wire_send 5) wire_recv (wire_events true false)
      wire_eventfd_write wire_eventfd_read 3 99
      [(1, Some CallGet); (1, None); (1, None); (1, None); (2, Some CallFlush); (2, None); (2, None); (2, None); (1, None)]
      demo_start = Some c' ∧
    threads c' !! 2 = Some (FlushReturned CYNARA_API_SUCCESS) ∧ threads c' !! 1 = Some (InGet GetWait).
Proof.
  destruct (flush_overtakes_request 5 (wire_events true false) 3 99 1 2 demo_start "") as [(c' & Hc' & H2 & H1 & _) _].
  - done.
  - lia.
  - reflexivity.
  - reflexivity.
  - reflexivity.
  - reflexivity.
  - split_and!; decide_by_compute.
  - decide_by_compute.
  - decide_by_compute.
  - apply Nat.ltb_lt. vm_compute. reflexivity.
  - apply Nat.ltb_lt. vm_compute. reflexivity.
  - exists c'. exact (conj Hc' (conj H2 H1)).
Defined.

(** The thread has taken the guard and is not yet counted as running. *)
Definition demo_entered : list (nat * option MonitorCall) := [(1, Some CallGet); (1, None)].

Lemma demo_entered_threads : threads (demo_run demo_entered) = {[1 := InGet GetStart]}.
Proof. vm_compute. reflexivity. Qed.

Lemma finish_deletes_under_get_witness :
  ∃ c1 c2, run_schedule wire_poll wire_getsockopt wire_socket wire_connect (wire_send 5) wire_recv (wire_events true false)
      wire_eventfd_write wire_eventfd_read 3 99 [(2, Some CallFinish); (2, None); (2, None)] (demo_run demo_entered) = Some c1 ∧
    monitorDeleted c1 = true ∧ threads c1 !! 2 = Some (FinishReturned CYNARA_API_SUCCESS) ∧ threads c1 !! 1 = Some (InGet GetStart) ∧
    run_schedule wire_poll wire_getsockopt wire_socket wire_connect (wire_send 5) wire_recv (wire_events true false)
      wire_eventfd_write wire_eventfd_read 3 99 [(1, None)] c1 = Some c2 ∧ threads c2 !! 1 = Some Crashed.
Proof.
  apply (finish_deletes_under_get 5 (wire_events true false) 3 99 wire_eventfd (Some 3%Z) 0 (mkWire "" []) demo_monitor (mkWire "" [])).
  - vm_compute. reflexivity.
  - apply (run_schedule_reaches _ _ _ _ _ _ _ _ _ 3 99 demo_entered). vm_compute. reflexivity.
  - apply not_over; [vm_compute; reflexivity|]. rewrite demo_entered_threads. decide_by_compute.
  - rewrite demo_entered_threads. reflexivity.
  - reflexivity.
  - reflexivity.
  - rewrite demo_entered_threads. reflexivity.
Defined.
