(* ===== verification/CyadOptions.v ===== *)
(** * Options and words of the command line tool ([cyad/CommandlineParser], [PolicyTypeTranslator])

    The table of the options with what is made of it for [getopt_long] and for the help,
    the error texts, and the words a user writes for yes and for a type of policy.  Text
    is in the C locale. *)
From S2P Require Import Prelude Text Types Api Bucket StorageBackend Storage.
From S2P Require Import BinaryQueue Serialization Frame Messages ProtocolClient ProtocolAdmin Protocols SocketManager SocketClient.
From S2P Require Import EntriesQueue Monitor PluginManager Agents Service FileLock OfflineLogic OnlineLogic AdminLogic.

(** A string within quotation marks. *)
Definition quoted (s : string) : string := String "034" (s +:+ String "034" "").

(** ** [CmdlineOpts] *)

Inductive CmdlineOpt :=
| OptSetBucket | OptDeleteBucket | OptSetPolicy | OptErase | OptCheck | OptListPolicies | OptListPoliciesDesc
| OptType | OptMetadata | OptClient | OptUser | OptPrivilege | OptAll | OptBulk | OptBucket | OptRecursive
| OptHelp | OptHumanize.
#[global] Instance CmdlineOpt_eq_dec : EqDecision CmdlineOpt.
Proof. solve_decision. Defined.

(** The value of the enumerator: the letter of the option. *)
Definition opt_char (opt : CmdlineOpt) : ascii :=
  match opt with
  | OptSetBucket => "b" | OptDeleteBucket => "d" | OptSetPolicy => "s" | OptErase => "e" | OptCheck => "a"
  | OptListPolicies => "l" | OptListPoliciesDesc => "g"
  | OptType => "t" | OptMetadata => "m" | OptClient => "c" | OptUser => "u" | OptPrivilege => "p" | OptAll => "A"
  | OptBulk => "f" | OptBucket => "k" | OptRecursive => "r"
  | OptHelp => "h" | OptHumanize => "H"
  end%char.

Inductive OptHasArg := NoArgument | RequiredArgument.
Inductive OptIsReq := NotRequired | Required.

Record CmdlineOptDesc := mkCmdlineOptDesc {
  longOption : string;
  shortOption : ascii;
  helpArgument : string;
  helpDescription : string;
  hasArg : OptHasArg;
  isReq : OptIsReq;
}.

Definition commandlineOptions (opt : CmdlineOpt) : CmdlineOptDesc :=
  match opt with
  | OptSetBucket => mkCmdlineOptDesc "set-bucket" (opt_char OptSetBucket) "set-bucket=<name>" "name of bucket to add or alter" RequiredArgument NotRequired
  | OptDeleteBucket => mkCmdlineOptDesc "delete-bucket" (opt_char OptDeleteBucket) "delete-bucket=<name>" "name of bucket to delete" RequiredArgument Required
  | OptSetPolicy => mkCmdlineOptDesc "set-policy" (opt_char OptSetPolicy) "" "" NoArgument NotRequired
  | OptErase => mkCmdlineOptDesc "erase" (opt_char OptErase) "erase=<name>" "name of bucket to erase policies from" RequiredArgument Required
  | OptCheck => mkCmdlineOptDesc "check" (opt_char OptCheck) "check" "" NoArgument NotRequired
  | OptListPolicies => mkCmdlineOptDesc "list-policies" (opt_char OptListPolicies) "list-policies=<bucket>" "name of bucket to list policies from" RequiredArgument Required
  | OptListPoliciesDesc => mkCmdlineOptDesc "list-policies-descriptions" (opt_char OptListPoliciesDesc) "list-policies-descriptions" "" NoArgument NotRequired
  | OptType => mkCmdlineOptDesc "type" (opt_char OptType) "type=<type>" "policy type" RequiredArgument Required
  | OptMetadata => mkCmdlineOptDesc "metadata" (opt_char OptMetadata) "metadata=<metadata>" "metadata for policy" RequiredArgument NotRequired
  | OptClient => mkCmdlineOptDesc "client" (opt_char OptClient) "client=<client>" "client value" RequiredArgument Required
  | OptUser => mkCmdlineOptDesc "user" (opt_char OptUser) "user=<user>" "user value" RequiredArgument Required
  | OptPrivilege => mkCmdlineOptDesc "privilege" (opt_char OptPrivilege) "privilege=<privilege>" "privilege value" RequiredArgument Required
  | OptAll => mkCmdlineOptDesc "all" (opt_char OptAll) "all"
      ("list all - equivalent to -c " +:+ quoted "#" +:+ " -u " +:+ quoted "#" +:+ " -p " +:+ quoted "#") NoArgument NotRequired
  | OptBulk => mkCmdlineOptDesc "bulk" (opt_char OptBulk) "bulk=<filename>" "path or - for stdin" RequiredArgument NotRequired
  | OptBucket => mkCmdlineOptDesc "bucket" (opt_char OptBucket) "bucket=<name>" "name of bucket; omit for default" RequiredArgument NotRequired
  | OptRecursive => mkCmdlineOptDesc "recursive" (opt_char OptRecursive) "recursive=<yes|no>" "if linked buckets should be processed as well" RequiredArgument Required
  | OptHelp => mkCmdlineOptDesc "help" (opt_char OptHelp) "help" "print help message" NoArgument NotRequired
  | OptHumanize => mkCmdlineOptDesc "human-readable" (opt_char OptHumanize) "human-readable" "print policy types in human readable format" NoArgument NotRequired
  end.

(** [struct option] of [getopt.h]: name, whether it has an argument, value; a list has no
    need of the entry of zeros at the end. *)
Definition makeLongOptions (opts : list CmdlineOpt) : list (string * OptHasArg * ascii) :=
  map (λ opt, (longOption (commandlineOptions opt), hasArg (commandlineOptions opt), opt_char opt)) opts.

(** The leading colon makes [getopt_long] tell a missing argument from an unknown option. *)
Definition makeShortOptions (opts : list CmdlineOpt) : string :=
  ":" +:+ foldr (λ opt s, String (shortOption (commandlineOptions opt))
                            (match hasArg (commandlineOptions opt) with RequiredArgument => ":" +:+ s | NoArgument => s end)) "" opts.

Fixpoint spaces (n : nat) : string := match n with 0 => "" | S n' => " " +:+ spaces n' end.
Definition optWidth : nat := 33.

Definition help_head (header : string) (opt : CmdlineOpt) : string :=
  header +:+ " (with -" +:+ String (shortOption (commandlineOptions opt)) "" +:+ " or --" +:+ longOption (commandlineOptions opt) +:+ ")".
Definition help_opt (opt : CmdlineOpt) : string :=
  let prefix := "  -" +:+ String (shortOption (commandlineOptions opt)) "" +:+ ", --" +:+ helpArgument (commandlineOptions opt) in
  let spaceLen := if String.length prefix <? optWidth then optWidth - String.length prefix else 1 in
  prefix +:+ spaces spaceLen +:+ helpDescription (commandlineOptions opt) +:+
  match isReq (commandlineOptions opt) with Required => " - required" | NotRequired => "" end.

Definition help_lines (lines : list string) : string := foldr (λ line s, line +:+ endl +:+ s) "" lines.

Definition makeHelp : string :=
  help_lines ["Usage: cyad [OPTIONS]"; "";
    help_head "Bucket set options" OptSetBucket; help_opt OptSetBucket; help_opt OptType; help_opt OptMetadata; "";
    help_head "Bucket delete options" OptDeleteBucket; help_opt OptDeleteBucket; "";
    help_head "Policy set options" OptSetPolicy; help_opt OptBucket; help_opt OptClient; help_opt OptUser; help_opt OptPrivilege;
    help_opt OptType; help_opt OptMetadata; help_opt OptBulk; "";
    "Bulk file"; "  For each policy a single line should be present with the folowing information:";
    "    <bucket>;<client>;<user>;<privilege>;<type as decimal>;[metadata]"; "  In stdin input mode, double empty line ends this mode."; "";
    help_head "Policy erase options" OptErase; help_opt OptErase; help_opt OptRecursive; help_opt OptClient; help_opt OptUser;
    help_opt OptPrivilege; "";
    help_head "Administrative policy check options" OptCheck; help_opt OptBucket; help_opt OptRecursive; help_opt OptClient;
    help_opt OptUser; help_opt OptPrivilege; help_opt OptHumanize; "";
    help_head "Policies list options" OptListPolicies; help_opt OptListPolicies; help_opt OptClient; help_opt OptUser;
    help_opt OptPrivilege; help_opt OptAll; help_opt OptHumanize; "";
    help_head "Policies descriptions list options" OptListPoliciesDesc; help_opt OptListPoliciesDesc; "";
    help_head "Help options" OptHelp] +:+ help_opt OptHelp.

(** ** [CmdlineErrors] *)

Definition inOption (option : CmdlineOpt) (prefix : string) : string :=
  prefix +:+ " in --" +:+ longOption (commandlineOptions option) +:+ " (-" +:+ String (shortOption (commandlineOptions option)) "" +:+ ")".
Definition unknownError : string := "Unknown error".
Definition noOption : string := "No option specified".
Definition unknownOption : string := "Unknown option".
Definition unknownOptionIn (option : CmdlineOpt) : string := inOption option "Unknown option".
Definition noType : string := "No --policy specified".
Definition noBucket : string := "No bucket specified".
Definition invalidType : string := "Invalid --policy option".
Definition optionMissing (option : CmdlineOpt) : string := inOption option "One or more option missing".
Definition argumentMissing (option : CmdlineOpt) : string := inOption option "One or more argument missing".

(** ** Words *)

Definition tolower_char (c : ascii) : ascii :=
  let n := N_of_ascii c in if ((65 <=? n) && (n <=? 90))%N then ascii_of_N (n + 32) else c.
Fixpoint tolower (s : string) : string := match s with "" => "" | String c s' => String (tolower_char c) (tolower s') end.

Definition yeses : list string := ["y"; "1"; "yes"; "true"; "on"; "yeah"; "yep"; "of course"; "sure thing"].

(** The value in lower case is computed and not used. *)
Definition isYes (value : string) : bool :=
  let lower_value := tolower value in bool_decide (value ∈ yeses).

(** [std::stoi(s, nullptr, 0)]: as [stoi16] in [Text], the base being that of the prefix: 16
    after [0x], 8 after [0], else 10. *)
Definition stoi0 (s : string) : option Z :=
  let s1 := sdrop (skip_spaces s) s in
  let '(neg, sg) := read_sign s1 in
  let s2 := sdrop sg s1 in
  let p := hex_prefix s2 in
  let base := if p =? 2 then 16%N else match s2 with String "0" _ => 8%N | _ => 10%N end in
  let '(v, cnt) := read_digits base (sdrop p s2) 0 0 in
  let z := if neg then (- Z.of_N v)%Z else Z.of_N v in
  if (cnt =? 0) || (z <? - 2 ^ 31)%Z || (2 ^ 31 <=? z)%Z then None else Some z.

(** An [int] as [PolicyType]: it is cut to 16 bits. *)
Definition as_PolicyType (z : Z) : PolicyType := (z mod 2 ^ 16)%Z.

Definition stoi_PolicyType (policy : string) : outcome PolicyType :=
  match stoi0 policy with Some z => Ret (as_PolicyType z) | None => Throw PolicyParsingException end.

(** [HumanReadableParser::policyType] *)
Definition humanReadable_policyType (rawPolicy : string) : outcome PolicyType :=
  if bool_decide (rawPolicy = "DENY") then Ret CYNARA_ADMIN_DENY
  else if bool_decide (rawPolicy = "NONE") then Ret CYNARA_ADMIN_NONE
  else if bool_decide (rawPolicy = "BUCKET") then Ret CYNARA_ADMIN_BUCKET
  else if bool_decide (rawPolicy = "ALLOW") then Ret CYNARA_ADMIN_ALLOW
  else stoi_PolicyType rawPolicy.

(** ** [PolicyTypeTranslator] *)

Definition BUCKET_LITERAL : string := "bucket".
Definition NONE_LITERAL : string := "none".

Abbreviation PolicyDescriptions := (list (Z * string)) (only parsing).

(** [descs] is the array before its null pointer; the descriptions are appended. *)
Definition setDescriptions (descs : list cynara_admin_policy_descr) (m_descs : PolicyDescriptions) : PolicyDescriptions :=
  m_descs ++ map (λ d, (descr_result d, tolower (default "" (descr_name d)))) descs.

Definition translate (m_descs : PolicyDescriptions) (rawPolicy : string) : outcome PolicyType :=
  let policy := tolower rawPolicy in
  match list_find (λ it, it.2 = policy) m_descs with
  | Some (_, it) => Ret (as_PolicyType it.1)
  | None =>
      if bool_decide (policy = NONE_LITERAL) then Ret CYNARA_ADMIN_NONE
      else if bool_decide (policy = BUCKET_LITERAL) then Ret CYNARA_ADMIN_BUCKET
      else stoi_PolicyType policy
  end.

Definition humanize (m_descs : PolicyDescriptions) (policy : Z) : string :=
  match list_find (λ it, it.1 = policy) m_descs with
  | Some (_, it) => it.2
  | None =>
      if (policy =? CYNARA_ADMIN_NONE)%Z then NONE_LITERAL
      else if (policy =? CYNARA_ADMIN_BUCKET)%Z then BUCKET_LITERAL
      else int_to_string policy
  end.

(** ** [cynara_strerror] ([common/error/api.cpp]) *)

Definition error_message (errnum : Z) : option string :=
  if (errnum =? CYNARA_API_INTERRUPTED)%Z then Some "API call interrupted by user"
  else if (errnum =? CYNARA_API_ACCESS_NOT_RESOLVED)%Z then Some "Access not resolved"
  else if (errnum =? CYNARA_API_ACCESS_ALLOWED)%Z then Some "Access granted"
  else if (errnum =? CYNARA_API_ACCESS_DENIED)%Z then Some "Access denied"
  else if (errnum =? CYNARA_API_SUCCESS)%Z then Some "Operation successful"
  else if (errnum =? CYNARA_API_CACHE_MISS)%Z then Some "Value not in cache"
  else if (errnum =? CYNARA_API_MAX_PENDING_REQUESTS)%Z then Some "Pending requests exceeded maximum"
  else if (errnum =? CYNARA_API_OUT_OF_MEMORY)%Z then Some "Out of memory"
  else if (errnum =? CYNARA_API_INVALID_PARAM)%Z then Some "Invalid param"
  else if (errnum =? CYNARA_API_SERVICE_NOT_AVAILABLE)%Z then Some "Service not available"
  else if (errnum =? CYNARA_API_METHOD_NOT_SUPPORTED)%Z then Some "Method not supported"
  else if (errnum =? CYNARA_API_OPERATION_NOT_ALLOWED)%Z then Some "Operation not allowed"
  else if (errnum =? CYNARA_API_OPERATION_FAILED)%Z then Some "Operation failed"
  else if (errnum =? CYNARA_API_BUCKET_NOT_FOUND)%Z then Some "Bucket not found"
  else if (errnum =? CYNARA_API_UNKNOWN_ERROR)%Z then Some "Unknown error"
  else if (errnum =? CYNARA_API_CONFIGURATION_ERROR)%Z then Some "Configuration error"
  else if (errnum =? CYNARA_API_INVALID_COMMANDLINE_PARAM)%Z then Some "Invalid parameter in command-line"
  else if (errnum =? CYNARA_API_BUFFER_TOO_SHORT)%Z then Some "Buffer too short"
  else if (errnum =? CYNARA_API_DATABASE_CORRUPTED)%Z then Some "Database corrupted"
  else if (errnum =? CYNARA_API_PERMISSION_DENIED)%Z then Some "Not enough permission to perform action"
  else None.

(** The code, and what is written to [buf] when there is one ([has_buf]). *)
Definition cynara_strerror (errnum : Z) (has_buf : bool) (buflen : nat) : Z * option string :=
  if negb has_buf then (CYNARA_API_INVALID_PARAM, None)
  else
    match error_message errnum with
    | None => (CYNARA_API_INVALID_PARAM, None)
    | Some message =>
        if buflen <? String.length message + 1 then (CYNARA_API_BUFFER_TOO_SHORT, None)
        else (CYNARA_API_SUCCESS, Some message)
    end.
