(* ===== verification/CyadParser.v ===== *)
(** * The command line of the tool ([CyadCommandlineParser], [CyadCommand])

    [getopt_long] of the C library is a parameter: it is given the long and the short
    options and yields the next option of the command line, with its argument, or the end.
    [G] is where it stands in the command line; the parser resets it first.  [fuel] bounds
    the options of a command line. *)
From S2P Require Import Prelude Text Types Bucket StorageBackend Storage CyadOptions.

(** The type as the user wrote it. *)
Record RawPolicyResult := mkRawPolicyResult { raw_type : string; raw_metadata : string }.

Inductive CyadCommand :=
| ErrorCyadCommand (message : string)
| HelpCyadCommand
| SetBucketCyadCommand (bucketId : PolicyBucketId) (policyResult : RawPolicyResult)
| DeleteBucketCyadCommand (bucketId : PolicyBucketId)
| SetPolicyCyadCommand (bucketId : PolicyBucketId) (policyResult : RawPolicyResult) (policyKey : PolicyKey)
| SetPolicyBulkCyadCommand (filename : string)
| EraseCyadCommand (bucketId : PolicyBucketId) (recursive : bool) (policyKey : PolicyKey)
| CheckCyadCommand (bucketId : PolicyBucketId) (recursive : bool) (policyKey : PolicyKey) (humanize : bool)
| ListPoliciesCyadCommand (bucketId : PolicyBucketId) (policyKey : PolicyKey) (humanize : bool)
| ListPoliciesDescCyadCommand.

(** What [getopt_long] gives: -1, or a character (['?'] for an unknown option, [':'] for a
    missing argument) with [optarg], null for [None], and [optopt]. *)
Inductive Getopt := GetoptEnd | GetoptOption (opt : ascii) (optarg : option string) (optopt : ascii).

Definition is_opt (opt : ascii) (o : CmdlineOpt) : bool := bool_decide (opt = opt_char o).

(** A string made of a null pointer is undefined. *)
Definition from_optarg (optarg : option string) : outcome string :=
  match optarg with Some s => Ret s | None => Throw UndefinedBehaviour end.

(** [OptionsValues] *)
Abbreviation OptionsValues := (gmap ascii string) (only parsing).
Definition values_empty (opts : list CmdlineOpt) : OptionsValues := list_to_map (map (λ o, (opt_char o, "")) opts).
Definition values_get (values : OptionsValues) (o : CmdlineOpt) : string := default "" (values !! opt_char o).
Definition values_missing (values : OptionsValues) : bool := existsb (λ val, bool_decide (val.2 = "")) (map_to_list values).
Definition values_key (values : OptionsValues) : PolicyKey :=
  PolicyKey_of (values_get values OptClient) (values_get values OptUser) (values_get values OptPrivilege).

Section parser.
Context {G : Type} (getopt_long : list (string * OptHasArg * ascii) → string → G → Getopt * G) (fuel : nat).

Definition next_option (opts : list CmdlineOpt) : SE G Getopt := λ g,
  let '(o, g') := getopt_long (makeLongOptions opts) (makeShortOptions opts) g in (Ret o, g').

(** The [while] loop over the options, [body] being its [switch]: it goes on with new
    variables or returns a command. *)
Fixpoint option_loop {V} (fuel : nat) (opts : list CmdlineOpt) (body : ascii → option string → V → outcome (V + CyadCommand)) (v : V) :
    SE G (V + CyadCommand) :=
  match fuel with
  | 0 => λ g, (OutOfFuel, g)
  | S fuel' =>
      opt ← next_option opts;
      match opt with
      | GetoptEnd => mret (inl v)
      | GetoptOption opt optarg _ =>
          next ← reads (λ _, body opt optarg v);
          match next with
          | inl v' => option_loop fuel' opts body v'
          | inr command => mret (inr command)
          end
      end
  end.

Definition setBucket_switch (opt : ascii) (optarg : option string) (v : string * string) : outcome ((string * string) + CyadCommand) :=
  let '(policy, metadata) := v in
  if is_opt opt OptType then policy ← from_optarg optarg; Ret (inl (policy, metadata))
  else if is_opt opt OptMetadata then metadata ← from_optarg optarg; Ret (inl (policy, metadata))
  else Ret (inr (ErrorCyadCommand (unknownOptionIn OptSetBucket))).

Definition parseSetBucket (bucketId : PolicyBucketId) : SE G CyadCommand :=
  parsed ← option_loop fuel [OptType; OptMetadata] setBucket_switch ("", "");
  mret match parsed with
       | inr command => command
       | inl (policy, metadata) =>
           if bool_decide (policy = "") then ErrorCyadCommand noType
           else SetBucketCyadCommand bucketId (mkRawPolicyResult policy metadata)
       end.

Definition parseDeleteBucket (bucketId : PolicyBucketId) : SE G CyadCommand :=
  opt ← next_option [];
  mret match opt with
       | GetoptEnd => DeleteBucketCyadCommand bucketId
       | _ => ErrorCyadCommand (unknownOptionIn OptDeleteBucket)
       end.

Definition setPolicy_switch (opt : ascii) (optarg : option string) (v : OptionsValues * string * string) :
    outcome ((OptionsValues * string * string) + CyadCommand) :=
  let '(values, bucket, metadata) := v in
  if is_opt opt OptClient || is_opt opt OptUser || is_opt opt OptPrivilege || is_opt opt OptType
  then value ← from_optarg optarg; Ret (inl (<[opt := value]> values, bucket, metadata))
  else if is_opt opt OptBucket then bucket ← from_optarg optarg; Ret (inl (values, bucket, metadata))
  else if is_opt opt OptMetadata then metadata ← from_optarg optarg; Ret (inl (values, bucket, metadata))
  else if is_opt opt OptBulk then filename ← from_optarg optarg; Ret (inr (SetPolicyBulkCyadCommand filename))
  else if bool_decide (opt = ":"%char) then Ret (inr (ErrorCyadCommand (argumentMissing OptSetPolicy)))
  else Ret (inr (ErrorCyadCommand (unknownOptionIn OptSetPolicy))).

Definition parseSetPolicy : SE G CyadCommand :=
  parsed ← option_loop fuel [OptClient; OptUser; OptPrivilege; OptBucket; OptType; OptMetadata; OptBulk] setPolicy_switch
             (values_empty [OptClient; OptUser; OptPrivilege; OptType], defaultPolicyBucketId, "");
  mret match parsed with
       | inr command => command
       | inl (values, bucket, metadata) =>
           if values_missing values then ErrorCyadCommand (optionMissing OptSetPolicy)
           else SetPolicyCyadCommand bucket (mkRawPolicyResult (values_get values OptType) metadata) (values_key values)
       end.

Definition erase_switch (opt : ascii) (optarg : option string) (values : OptionsValues) : outcome (OptionsValues + CyadCommand) :=
  if is_opt opt OptRecursive || is_opt opt OptClient || is_opt opt OptUser || is_opt opt OptPrivilege
  then value ← from_optarg optarg; Ret (inl (<[opt := value]> values))
  else if bool_decide (opt = ":"%char) then Ret (inr (ErrorCyadCommand (argumentMissing OptErase)))
  else Ret (inr (ErrorCyadCommand (unknownOptionIn OptErase))).

Definition parseErase (bucketId : PolicyBucketId) : SE G CyadCommand :=
  parsed ← option_loop fuel [OptRecursive; OptClient; OptUser; OptPrivilege] erase_switch
             (values_empty [OptRecursive; OptClient; OptUser; OptPrivilege]);
  mret match parsed with
       | inr command => command
       | inl values =>
           if values_missing values then ErrorCyadCommand (optionMissing OptErase)
           else EraseCyadCommand bucketId (isYes (values_get values OptRecursive)) (values_key values)
       end.

Definition check_switch (opt : ascii) (optarg : option string) (v : OptionsValues * string * bool) :
    outcome ((OptionsValues * string * bool) + CyadCommand) :=
  let '(values, bucketId, humanize) := v in
  if is_opt opt OptRecursive || is_opt opt OptClient || is_opt opt OptUser || is_opt opt OptPrivilege
  then value ← from_optarg optarg; Ret (inl (<[opt := value]> values, bucketId, humanize))
  else if is_opt opt OptBucket then bucketId ← from_optarg optarg; Ret (inl (values, bucketId, humanize))
  else if is_opt opt OptHumanize then Ret (inl (values, bucketId, true))
  else if bool_decide (opt = ":"%char) then Ret (inr (ErrorCyadCommand (argumentMissing OptCheck)))
  else Ret (inr (ErrorCyadCommand (unknownOptionIn OptCheck))).

Definition parseCheck : SE G CyadCommand :=
  parsed ← option_loop fuel [OptBucket; OptRecursive; OptClient; OptUser; OptPrivilege; OptHumanize] check_switch
             (values_empty [OptRecursive; OptClient; OptUser; OptPrivilege], defaultPolicyBucketId, false);
  mret match parsed with
       | inr command => command
       | inl (values, bucketId, humanize) =>
           if values_missing values then ErrorCyadCommand (optionMissing OptCheck)
           else CheckCyadCommand bucketId (isYes (values_get values OptRecursive)) (values_key values) humanize
       end.

Definition list_switch (opt : ascii) (optarg : option string) (v : OptionsValues * bool * bool) :
    outcome ((OptionsValues * bool * bool) + CyadCommand) :=
  let '(values, listAll, humanize) := v in
  if is_opt opt OptClient || is_opt opt OptUser || is_opt opt OptPrivilege
  then value ← from_optarg optarg; Ret (inl (<[opt := value]> values, listAll, humanize))
  else if is_opt opt OptAll then Ret (inl (values, true, humanize))
  else if is_opt opt OptHumanize then Ret (inl (values, listAll, true))
  else if bool_decide (opt = ":"%char) then Ret (inr (ErrorCyadCommand (argumentMissing OptListPolicies)))
  else Ret (inr (ErrorCyadCommand (unknownOptionIn OptListPolicies))).

(** With [--all] an empty value becomes the one that matches all. *)
Definition parseListPolicies (bucketId : PolicyBucketId) : SE G CyadCommand :=
  parsed ← option_loop fuel [OptClient; OptUser; OptPrivilege; OptAll; OptHumanize] list_switch
             (values_empty [OptClient; OptUser; OptPrivilege], false, false);
  mret match parsed with
       | inr command => command
       | inl (values, listAll, humanize) =>
           let values' := if listAll : bool then (λ v, if bool_decide (v = "") then anyValue else v) <$> values else values in
           if values_missing values' then ErrorCyadCommand (optionMissing OptListPolicies)
           else ListPoliciesCyadCommand bucketId (values_key values') humanize
       end.

(** Every branch of the [switch] returns. *)
Definition parseMain : SE G CyadCommand :=
  opt ← next_option [OptHelp; OptSetBucket; OptDeleteBucket; OptSetPolicy; OptErase; OptCheck; OptListPolicies; OptListPoliciesDesc];
  match opt with
  | GetoptEnd => mret (ErrorCyadCommand noOption)
  | GetoptOption opt optarg optopt =>
      if is_opt opt OptHelp then mret HelpCyadCommand
      else if is_opt opt OptSetBucket then bucket ← reads (λ _, from_optarg optarg); parseSetBucket bucket
      else if is_opt opt OptDeleteBucket then bucket ← reads (λ _, from_optarg optarg); parseDeleteBucket bucket
      else if is_opt opt OptSetPolicy then parseSetPolicy
      else if is_opt opt OptErase then bucket ← reads (λ _, from_optarg optarg); parseErase bucket
      else if is_opt opt OptCheck then parseCheck
      else if is_opt opt OptListPolicies then bucket ← reads (λ _, from_optarg optarg); parseListPolicies bucket
      else if is_opt opt OptListPoliciesDesc then mret ListPoliciesDescCyadCommand
      else if bool_decide (opt = "?"%char) then mret (ErrorCyadCommand unknownOption)
      else if bool_decide (opt = ":"%char) then
        if is_opt optopt OptSetBucket || is_opt optopt OptDeleteBucket || is_opt optopt OptErase || is_opt optopt OptListPolicies
        then mret (ErrorCyadCommand noBucket) else mret (ErrorCyadCommand unknownError)
      else mret (ErrorCyadCommand unknownOption)
  end.
End parser.
