(* ===== verification/CyadLogic.v ===== *)
(** * The command line tool ([cyad]: [AdminPolicyParser], [CynaraAdminPolicies], [CommandsDispatcher], [Cyad])

    A command line is parsed to a command, and the command is done with the administration
    library, which the tool sees as an interface.  What is written to the two output
    streams is kept as text. *)
From S2P Require Import Prelude Text FileSystem Types Logging Api Bucket StorageBackend Storage StorageSerialization.
From S2P Require Import BinaryQueue Serialization Frame Messages ProtocolClient ProtocolAdmin Protocols SocketManager SocketClient.
From S2P Require Import EntriesQueue Monitor PluginManager Agents Service FileLock OfflineLogic OnlineLogic AdminLogic.
From S2P Require Import CyadOptions CyadParser.

(** ** [CynaraAdminPolicies]: an array for the library *)

(** [m_policies] is the vector of pointers, null for [None]. *)
Record CynaraAdminPolicies := mkCynaraAdminPolicies {
  m_policies : list (option cynara_admin_policy);
  m_sealed : bool;
}.
Definition CynaraAdminPolicies_new : CynaraAdminPolicies := mkCynaraAdminPolicies [] false.

(** [strdup(str.c_str())] *)
Definition duplicateString (str : string) : option string := Some (c_str str).

Definition add (bucketId : PolicyBucketId) (policyResult : PolicyResult) (policyKey : PolicyKey) (p : CynaraAdminPolicies) :
    outcome CynaraAdminPolicies :=
  if m_sealed p then Throw LogicError
  else
    let policy := mkAdminPolicy (duplicateString bucketId) (duplicateString (value (client policyKey)))
      (duplicateString (value (user policyKey))) (duplicateString (value (privilege policyKey))) (policyType policyResult)
      (if bool_decide (metadata policyResult = "") then None else duplicateString (metadata policyResult)) in
    Ret (mkCynaraAdminPolicies (m_policies p ++ [Some policy]) (m_sealed p)).

Definition seal (p : CynaraAdminPolicies) : CynaraAdminPolicies := mkCynaraAdminPolicies (m_policies p ++ [None]) true.

Definition data (p : CynaraAdminPolicies) : outcome (list (option cynara_admin_policy)) :=
  if m_sealed p then Ret (m_policies p) else Throw LogicError.

(** [strdup] of a pointer; a null one is only looked at for the extra. *)
Definition strdup (s : option string) : outcome (option string) :=
  match s with Some s => Ret (Some (c_str s)) | None => Throw UndefinedBehaviour end.

Definition duplicate_policy (p : option cynara_admin_policy) : outcome (option cynara_admin_policy) :=
  match p with
  | None => Throw UndefinedBehaviour
  | Some p =>
      bucket ← strdup (ap_bucket p);
      client ← strdup (ap_client p);
      user ← strdup (ap_user p);
      privilege ← strdup (ap_privilege p);
      extra ← match ap_result_extra p with Some _ => strdup (ap_result_extra p) | None => Ret None end;
      Ret (Some (mkAdminPolicy bucket client user privilege (ap_result p) extra))
  end.

Fixpoint duplicate_policies (l : list (option cynara_admin_policy)) : outcome (list (option cynara_admin_policy)) :=
  match l with
  | [] => Ret []
  | p :: l' => p ← duplicate_policy p; ps ← duplicate_policies l'; Ret (p :: ps)
  end.

(** All but the last, and a null pointer. *)
Definition duplicate (p : CynaraAdminPolicies) : outcome (list (option cynara_admin_policy)) :=
  if negb (m_sealed p) then Throw LogicError
  else dup ← duplicate_policies (take (length (m_policies p) - 1) (m_policies p)); Ret (dup ++ [None]).

(** What a function that walks the array to its null pointer sees. *)
Fixpoint until_null (l : list (option cynara_admin_policy)) : list cynara_admin_policy :=
  match l with Some p :: l' => p :: until_null l' | _ => [] end.

(** ** [AdminPolicyParser] *)

Definition nextToken : string → nat → outcome (string * nat) := parseToken.
Definition lastToken (line : string) (beginToken : nat) : string :=
  if beginToken <? String.length line then sdrop beginToken line else "".

Section parse.
Context (translatePolicy : string → outcome PolicyType).

(** The body of the loop: bucket, key, result. *)
Definition parse_line (line : string) : outcome (PolicyBucketId * PolicyResult * PolicyKey) :=
  '(bucketId, beginToken) ← nextToken line 0;
  '(policyKey, beginToken) ← parseKey line beginToken;
  '(rawType, beginToken) ← nextToken line beginToken;
  policyType ← translatePolicy rawType;
  let metadata := lastToken line beginToken in
  Ret (bucketId, mkPolicyResult policyType metadata, policyKey).

Fixpoint parse_from (lines : list string) (lineNum : nat) (policies : CynaraAdminPolicies) : outcome CynaraAdminPolicies :=
  match lines with
  | [] | "" :: _ => Ret policies
  | line :: lines' =>
      policies ← withLineNumber lineNum ('(bucketId, policyResult, policyKey) ← parse_line line; add bucketId policyResult policyKey policies);
      parse_from lines' (S lineNum) policies
  end.

(** [AdminPolicyParser::parse] on the text of the stream *)
Definition parse (input : string) : outcome CynaraAdminPolicies :=
  policies ← parse_from (getlines recordSeparator input) 1 CynaraAdminPolicies_new;
  Ret (seal policies).
End parse.

(** ** The interface of the administration library *)

(** [A] is the handle, [W] the system; the arguments that the tool passes. *)
Class BaseAdminApiWrapper (A W : Type) := {
  api_initialize : SE W (Z + A);
  api_finish : SE (A * W) Z;
  api_set_policies : list (option cynara_admin_policy) → SE (A * W) Z;
  api_set_bucket : option string → Z → option string → SE (A * W) Z;
  api_check : option string → Z → option string → option string → option string → SE (A * W) (Z + (Z * option string));
  api_list_policies : option string → option string → option string → option string → SE (A * W) (Z + list cynara_admin_policy);
  api_erase : option string → Z → option string → option string → option string → SE (A * W) Z;
  api_list_policies_descriptions : SE (A * W) (Z + list cynara_admin_policy_descr);
}.

(** ** [DispatcherIO]: the text of standard input and of the files, nothing for a file that
    can not be opened *)
Class BaseDispatcherIO (W : Type) := {
  io_stdin : W → string * W;
  io_file : string → W → option string * W;
}.

Section dispatcher.
Context {A W : Type} `{API : !BaseAdminApiWrapper A W} `{IO : !BaseDispatcherIO W}.

(** The handle, the policy translator, the system, and what was written. *)
Record CommandsDispatcher := mkCommandsDispatcher {
  m_cynaraAdmin : A;
  m_policyTranslator : list (Z * string);
  dispatcherSystem : W;
  dispatcher_cout : string;
  dispatcher_cerr : string;
}.

Abbreviation Dispatch := (SE CommandsDispatcher) (only parsing).

Definition cout (s : string) : Dispatch unit :=
  modify (λ d, mkCommandsDispatcher (m_cynaraAdmin d) (m_policyTranslator d) (dispatcherSystem d) (dispatcher_cout d +:+ s) (dispatcher_cerr d)).
Definition cerr (s : string) : Dispatch unit :=
  modify (λ d, mkCommandsDispatcher (m_cynaraAdmin d) (m_policyTranslator d) (dispatcherSystem d) (dispatcher_cout d) (dispatcher_cerr d +:+ s)).

Definition onApi {R} (m : SE (A * W) R) : Dispatch R := λ d,
  let '(r, (a, w)) := m (m_cynaraAdmin d, dispatcherSystem d) in
  (r, mkCommandsDispatcher a (m_policyTranslator d) w (dispatcher_cout d) (dispatcher_cerr d)).

Definition openFile (filename : string) : Dispatch string := λ d,
  let '(text, w) :=
    if bool_decide (filename = "-") then io_stdin (dispatcherSystem d)
    else let '(t, w) := io_file filename (dispatcherSystem d) in (default "" t, w) in
  (Ret text, mkCommandsDispatcher (m_cynaraAdmin d) (m_policyTranslator d) w (dispatcher_cout d) (dispatcher_cerr d)).

Definition printAdminApiError (errnum : Z) : Dispatch unit :=
  let '(ret, buf) := cynara_strerror errnum true 256 in
  cerr ("Cynara: [" +:+ int_to_string errnum +:+ "] ") ;;
  if (ret =? CYNARA_API_SUCCESS)%Z then cerr (default "" buf +:+ endl)
  else if (ret =? CYNARA_API_INVALID_PARAM)%Z then cerr ("Unknown error (sic!)" +:+ endl)
  else if (ret =? CYNARA_API_BUFFER_TOO_SHORT)%Z then cerr ("Error message too long" +:+ endl)
  else cerr ("Unknown error (sic! sic!)" +:+ endl).

(** An error code is printed and returned. *)
Definition report (ret : Z) : Dispatch Z :=
  (if negb (ret =? CYNARA_API_SUCCESS)%Z then printAdminApiError ret else mret tt) ;; mret ret.

Definition invalid_policy : Dispatch Z :=
  cerr ("Invalid policy" +:+ endl) ;; mret CYNARA_API_INVALID_COMMANDLINE_PARAM.

Definition onTranslator {R} (f : list (Z * string) → outcome R) : Dispatch R := reads (λ d, f (m_policyTranslator d)).

Definition execute_help : Dispatch Z := cout (makeHelp +:+ endl) ;; mret CYNARA_API_SUCCESS.

Definition execute_error (message : string) : Dispatch Z :=
  cerr ("There was an error in command-line options:" +:+ endl) ;;
  cerr (message +:+ ", use '-h' or '--help' to print help message" +:+ endl) ;;
  mret CYNARA_API_INVALID_COMMANDLINE_PARAM.

Definition execute_deleteBucket (bucketId : PolicyBucketId) : Dispatch Z :=
  ret ← onApi (api_set_bucket (Some (c_str bucketId)) CYNARA_ADMIN_DELETE None);
  report ret.

Definition catch_parsing (m : Dispatch Z) : Dispatch Z :=
  tryCatch m (λ e, if bool_decide (e = PolicyParsingException) then invalid_policy else throw e).

Definition execute_setBucket (bucketId : PolicyBucketId) (policyResult : RawPolicyResult) : Dispatch Z :=
  let metadata := if bool_decide (raw_metadata policyResult = "") then None else Some (c_str (raw_metadata policyResult)) in
  catch_parsing
    (policyType ← onTranslator (λ descs, translate descs (raw_type policyResult));
     ret ← onApi (api_set_bucket (Some (c_str bucketId)) policyType metadata);
     report ret).

(** The exception of [translate] is caught before anything is asked of the library. *)
Definition execute_setPolicy (bucketId : PolicyBucketId) (policyResult : RawPolicyResult) (policyKey : PolicyKey) : Dispatch Z :=
  policies ← tryCatch
    (policyType ← onTranslator (λ descs, translate descs (raw_type policyResult));
     policies ← reads (λ _, add bucketId (mkPolicyResult policyType (raw_metadata policyResult)) policyKey CynaraAdminPolicies_new);
     mret (Some (seal policies)))
    (λ e, if bool_decide (e = PolicyParsingException) then mret None else throw e);
  match policies with
  | None => invalid_policy
  | Some policies =>
      array ← reads (λ _, data policies);
      ret ← onApi (api_set_policies array);
      report ret
  end.

Definition execute_setPolicyBulk (filename : string) : Dispatch Z :=
  input ← openFile filename;
  tryCatch
    (policies ← onTranslator (λ descs, parse (translate descs) input);
     array ← reads (λ _, data policies);
     ret ← onApi (api_set_policies array);
     report ret)
    (λ e, match e with
          | BucketRecordCorruptedException line lineNumber =>
              cerr (BucketRecordCorruptedException_message line lineNumber) ;; mret CYNARA_API_INVALID_COMMANDLINE_PARAM
          | PolicyParsingException => invalid_policy
          | _ => throw e
          end).

Definition bool_int (b : bool) : Z := if b then 1 else 0.
Definition c_client (key : PolicyKey) : option string := Some (c_str (value (client key))).
Definition c_user (key : PolicyKey) : option string := Some (c_str (value (user key))).
Definition c_privilege (key : PolicyKey) : option string := Some (c_str (value (privilege key))).

Definition execute_erase (bucketId : PolicyBucketId) (recursive : bool) (key : PolicyKey) : Dispatch Z :=
  ret ← onApi (api_erase (Some (c_str bucketId)) (bool_int recursive) (c_client key) (c_user key) (c_privilege key));
  report ret.

Definition policyTypeString (humanReadable : bool) (descs : list (Z * string)) (result : Z) : string :=
  if humanReadable then humanize descs result else int_to_string result.

Definition execute_check (bucketId : PolicyBucketId) (recursive : bool) (key : PolicyKey) (humanReadable : bool) : Dispatch Z :=
  ret ← onApi (api_check (Some (c_str bucketId)) (bool_int recursive) (c_client key) (c_user key) (c_privilege key));
  match ret with
  | inr (result, resultExtra) =>
      type ← onTranslator (λ descs, Ret (policyTypeString humanReadable descs result));
      cout (type +:+ ";") ;;
      cout (default "" resultExtra) ;;
      cout endl ;;
      mret CYNARA_API_SUCCESS
  | inl ret => printAdminApiError ret ;; mret ret
  end.

Definition policy_line (humanReadable : bool) (descs : list (Z * string)) (p : cynara_admin_policy) : string :=
  default "" (ap_bucket p) +:+ ";" +:+ default "" (ap_client p) +:+ ";" +:+ default "" (ap_user p) +:+ ";" +:+
  default "" (ap_privilege p) +:+ ";" +:+ policyTypeString humanReadable descs (ap_result p) +:+ ";" +:+
  default "" (ap_result_extra p) +:+ endl.

Definition execute_listPolicies (bucketId : PolicyBucketId) (key : PolicyKey) (humanReadable : bool) : Dispatch Z :=
  ret ← onApi (api_list_policies (Some (c_str bucketId)) (c_client key) (c_user key) (c_privilege key));
  match ret with
  | inr policies =>
      forEach policies (λ p,
        line ← onTranslator (λ descs, Ret (policy_line humanReadable descs p));
        cout line) ;;
      mret CYNARA_API_SUCCESS
  | inl ret => printAdminApiError ret ;; mret ret
  end.

Definition execute_listPoliciesDesc : Dispatch Z :=
  descs ← onTranslator Ret;
  forEach descs (λ desc, cout (int_to_string desc.1 +:+ ";" +:+ desc.2 +:+ endl)) ;;
  mret CYNARA_API_SUCCESS.

(** [command->run(dispatcher)] *)
Definition execute (command : CyadCommand) : Dispatch Z :=
  match command with
  | ErrorCyadCommand message => execute_error message
  | HelpCyadCommand => execute_help
  | SetBucketCyadCommand bucketId policyResult => execute_setBucket bucketId policyResult
  | DeleteBucketCyadCommand bucketId => execute_deleteBucket bucketId
  | SetPolicyCyadCommand bucketId policyResult policyKey => execute_setPolicy bucketId policyResult policyKey
  | SetPolicyBulkCyadCommand filename => execute_setPolicyBulk filename
  | EraseCyadCommand bucketId recursive policyKey => execute_erase bucketId recursive policyKey
  | CheckCyadCommand bucketId recursive policyKey humanReadable => execute_check bucketId recursive policyKey humanReadable
  | ListPoliciesCyadCommand bucketId policyKey humanReadable => execute_listPolicies bucketId policyKey humanReadable
  | ListPoliciesDescCyadCommand => execute_listPoliciesDesc
  end.

(** ** [Cyad] *)

Definition initPolicyTranslator : Dispatch unit :=
  ret ← onApi api_list_policies_descriptions;
  match ret with
  | inr descs => modify (λ d, mkCommandsDispatcher (m_cynaraAdmin d) (setDescriptions descs (m_policyTranslator d)) (dispatcherSystem d)
                              (dispatcher_cout d) (dispatcher_cerr d))
  | inl ret => printAdminApiError ret ;; throw (AdminLibraryInitializationFailedException ret)
  end.

(** What is printed when there is no dispatcher yet. *)
Definition initialize_error (errnum : Z) : string :=
  "Cynara: [" +:+ int_to_string errnum +:+ "] " +:+
  match cynara_strerror errnum true 256 with
  | (_, Some message) => message
  | (ret, None) =>
      if (ret =? CYNARA_API_INVALID_PARAM)%Z then "Unknown error (sic!)"
      else if (ret =? CYNARA_API_BUFFER_TOO_SHORT)%Z then "Error message too long" else "Unknown error (sic! sic!)"
  end +:+ endl.

(** What is left when the tool ends: its code, the system, the two texts. *)
Record CyadExit := mkCyadExit { exit_code : outcome Z; exit_system : W; exit_cout : string; exit_cerr : string }.

(** The destructor of the dispatcher. *)
Definition dispatcher_delete (r : outcome Z) (d : CommandsDispatcher) : CyadExit :=
  let finish := (ret ← onApi api_finish; if negb (ret =? CYNARA_API_SUCCESS)%Z then printAdminApiError ret else mret tt) in
  let d' := (finish d).2 in
  mkCyadExit r (dispatcherSystem d') (dispatcher_cout d') (dispatcher_cerr d').

Definition init_failed (errnum : Z) : string := "Failed to initialize libcynara-admin: " +:+ int_to_string errnum +:+ endl.

Context {G : Type} (getopt_long : list (string * OptHasArg * ascii) → string → G → Getopt * G) (fuel : nat).

(** [Cyad::run], [std::bad_alloc] being [NoMemoryException]. *)
Definition cyad_run (g : G) : Dispatch Z :=
  tryCatch
    (command ← reads (λ _, (parseMain getopt_long fuel g).1); execute command)
    (λ e, if bool_decide (e = NoMemoryException)
          then cerr ("Cyad could not allocate memory" +:+ endl) ;; mret CYNARA_API_OUT_OF_MEMORY
          else throw e).

(** The constructor and [run]: a dispatcher that can not be made is destroyed with its
    handle only when its constructor had finished. *)
Definition Cyad (g : G) (w : W) : CyadExit :=
  match api_initialize w with
  | (Ret (inl ret), w1) => mkCyadExit (Ret ret) w1 "" (initialize_error ret +:+ init_failed ret)
  | (Ret (inr a), w1) =>
      match initPolicyTranslator (mkCommandsDispatcher a [] w1 "" "") with
      | (Ret _, d) => let '(r, d') := cyad_run g d in dispatcher_delete r d'
      | (Throw (AdminLibraryInitializationFailedException ret), d) =>
          mkCyadExit (Ret ret) (dispatcherSystem d) (dispatcher_cout d) (dispatcher_cerr d +:+ init_failed ret)
      | (Throw e, d) => mkCyadExit (Throw e) (dispatcherSystem d) (dispatcher_cout d) (dispatcher_cerr d)
      | (OutOfFuel, d) => mkCyadExit OutOfFuel (dispatcherSystem d) (dispatcher_cout d) (dispatcher_cerr d)
      end
  | (Throw e, w1) => mkCyadExit (Throw e) w1 "" ""
  | (OutOfFuel, w1) => mkCyadExit OutOfFuel w1 "" ""
  end.

(** [main]: an exception that was not caught; its text is not modelled. *)
Definition cyad_main (g : G) (w : W) : CyadExit :=
  let e := Cyad g w in
  match exit_code e with
  | Throw UndefinedBehaviour => e
  | Throw _ => mkCyadExit (Ret CYNARA_API_UNKNOWN_ERROR) (exit_system e) (exit_cout e) (exit_cerr e)
  | _ => e
  end.
End dispatcher.

(** ** [AdminApiWrapper]: the administration library *)

Section wrapper.
Context `{HO : HashOrder} {B W Plugin P : Type} `{SB : StorageBackend B} `{H : !Host B W Plugin P}.
Context (depth : nat) (empty : B) (libraries : list (option Plugin)).
Context (DB_FILES_SMACK_LABEL : option string) (dbDir lockFile : string)
  (sys_readdir : W → option (list string) * W) (smack_set_label : string → string → W → bool * W).
Context (sys_open : string → W → (nat + Z) * W) (sys_flock : nat → FlockOperation → W → option Z * W).
Context (sys_poll : PollEvent → SE W PollResult) (sys_getsockopt : SE W (Z + Z))
  (sys_socket : SE W (unit + Z)) (sys_connect : SE W ConnectResult)
  (sys_send : string → SE W SendResult) (sys_recv : SE W RecvResult).
Context (tries rounds fuel : nat).

(** The handle is deleted; the descriptor of the lock file is closed with it. *)
Definition cynara_admin_finish : SE (AdminLogic B Plugin * W) Z := mret CYNARA_API_SUCCESS.

Definition AdminApiWrapper : BaseAdminApiWrapper (AdminLogic B Plugin) W := {|
  api_initialize := cynara_admin_initialize lockFile sys_open;
  api_finish := cynara_admin_finish;
  api_set_policies := λ policies,
    cynara_admin_set_policies empty libraries DB_FILES_SMACK_LABEL dbDir sys_readdir smack_set_label sys_flock
      sys_poll sys_getsockopt sys_socket sys_connect sys_send sys_recv tries rounds fuel (Some (until_null policies));
  api_set_bucket :=
    cynara_admin_set_bucket empty libraries DB_FILES_SMACK_LABEL dbDir sys_readdir smack_set_label sys_flock
      sys_poll sys_getsockopt sys_socket sys_connect sys_send sys_recv tries rounds fuel;
  api_check :=
    cynara_admin_check depth empty sys_flock
      sys_poll sys_getsockopt sys_socket sys_connect sys_send sys_recv tries rounds fuel;
  api_list_policies :=
    cynara_admin_list_policies empty sys_flock
      sys_poll sys_getsockopt sys_socket sys_connect sys_send sys_recv tries rounds fuel;
  api_erase :=
    cynara_admin_erase depth empty DB_FILES_SMACK_LABEL dbDir sys_readdir smack_set_label sys_flock
      sys_poll sys_getsockopt sys_socket sys_connect sys_send sys_recv tries rounds fuel;
  api_list_policies_descriptions :=
    cynara_admin_list_policies_descriptions libraries sys_flock
      sys_poll sys_getsockopt sys_socket sys_connect sys_send sys_recv tries rounds fuel;
|}.
End wrapper.
