(* ===== verification/CyadTheorems.v ===== *)
(** * Theorems on the command line tool

    What [std::stoi] makes of a printed number, and with it: what the tool lists can be
    fed back in bulk; a number for a type wraps around; a command line that sets a policy
    asks the library for exactly that policy.  At the end a small library and a [getopt_long]
    on which these theorems apply. *)
From S2P Require Import Prelude Text FileSystem Types Api Bucket StorageBackend Storage StorageSerialization.
From S2P Require Import BinaryQueue Serialization Frame Messages ProtocolClient ProtocolAdmin Protocols SocketManager SocketClient.
From S2P Require Import EntriesQueue Monitor PluginManager Agents Service FileLock OfflineLogic OnlineLogic AdminLogic.
From S2P Require Import CyadOptions CyadParser CyadLogic.

(** ** Printed numbers *)

Lemma print_go_lead fuel n acc :
  (n < 2 ^ N.of_nat fuel)%N → (0 < n)%N → ∃ d s, print_go 10 fuel n acc = String (digit_char d) s ∧ (0 < d < 10)%N.
Proof.
  revert n acc. induction fuel as [|fuel IH]; intros n acc Hn Hpos; [cbn in Hn; lia|]. cbn [print_go].
  pose proof (N.div_mod n 10 ltac:(lia)) as Hdm. pose proof (N.mod_lt n 10 ltac:(lia)) as Hm.
  destruct (N.eqb_spec (n / 10) 0%N) as [Hz|Hz]; [exists (n mod 10)%N, acc; split; [done|lia]|].
  apply IH; [|lia]. rewrite Nat2N.inj_succ, N.pow_succ_r' in Hn. apply N.Div0.div_lt_upper_bound. lia.
Qed.

Lemma print_10_cases n :
  (n = 0%N ∧ print_base 10 n = "0") ∨ ∃ d s, print_base 10 n = String (digit_char d) s ∧ (0 < d < 10)%N.
Proof.
  destruct (N.eq_dec n 0%N) as [->|Hn]; [by left|right].
  apply print_go_lead; [|lia]. apply (print_fuel 10). lia.
Qed.

Lemma small_digit (P : ascii → Prop) d :
  (d < 10)%N → P "0"%char → P "1"%char → P "2"%char → P "3"%char → P "4"%char → P "5"%char → P "6"%char → P "7"%char → P "8"%char →
  P "9"%char → P (digit_char d).
Proof.
  intros Hd. intros. assert (d ∈ (N.of_nat <$> seq 0 10)) as Hin.
  { apply list_elem_of_fmap. exists (N.to_nat d). rewrite N2Nat.id. split; [done|]. apply elem_of_seq. lia. }
  cbn in Hin. by repeat (apply elem_of_cons in Hin as [->|Hin]; [done|]); apply elem_of_nil in Hin.
Qed.

(** Decimal digits at the front: no white space, no sign, no prefix. *)
Definition decimal_front (s : string) : Prop :=
  skip_spaces s = 0 ∧ read_sign s = (false, 0) ∧ hex_prefix s = 0 ∧ tolower s = s.

Lemma tolower_print_go fuel n acc : tolower acc = acc → tolower (print_go 10 fuel n acc) = print_go 10 fuel n acc.
Proof.
  revert n acc. induction fuel as [|fuel IH]; intros n acc Ha; [done|]. cbn [print_go].
  assert (tolower (String (digit_char (n mod 10)) acc) = String (digit_char (n mod 10)) acc) as Hd.
  { cbn [tolower]. rewrite Ha. f_equal. apply (small_digit (λ c, tolower_char c = c)); [|done..]. apply N.mod_lt. lia. }
  destruct (n / 10 =? 0)%N; auto.
Qed.

Lemma hex_prefix_lead d s : (0 < d < 10)%N → hex_prefix (String (digit_char d) s) = 0.
Proof.
  intros [H0 Hd]. assert (digit_char d ≠ "0"%char) as Hne.
  { intros He. assert (char_digit (digit_char d) = Some 0%N) as Hc by (by rewrite He).
    rewrite char_digit_digit_char in Hc by lia. injection Hc. lia. }
  destruct (digit_char d) as [[] [] [] [] [] [] [] []]; done.
Qed.

Lemma print_10_front n : decimal_front (print_base 10 n).
Proof.
  split_and!; [| | |by apply tolower_print_go];
    destruct (print_10_cases n) as [[-> ->]|(d & s & -> & Hd)]; try done; try by apply hex_prefix_lead.
  - cbn [skip_spaces]. apply (small_digit (λ c, (if isspace c then S (skip_spaces s) else 0) = 0)); [lia|done..].
  - apply (small_digit (λ c, read_sign (String c s) = (false, 0))); [lia|done..].
Qed.

(** The base that [std::stoi] finds for a printed number reads it back. *)
Lemma read_printed n :
  read_digits (match print_base 10 n with String "0" _ => 8%N | _ => 10%N end) (print_base 10 n) 0 0 =
    (n, String.length (print_base 10 n)).
Proof.
  destruct (print_10_cases n) as [[-> ->]|(d & s & Hp & H0 & Hd)]; [done|].
  assert (match print_base 10 n with String "0" _ => 8%N | _ => 10%N end = 10%N) as ->.
  { rewrite Hp. assert (digit_char d ≠ "0"%char) as Hne.
    { intros He. assert (char_digit (digit_char d) = Some 0%N) as Hc by (by rewrite He).
      rewrite char_digit_digit_char in Hc by lia. injection Hc. lia. }
    by destruct (digit_char d) as [[] [] [] [] [] [] [] []]. }
  pose proof (read_print 10 ltac:(lia) n "" I) as Hr. by rewrite str_app_nil_r in Hr.
Qed.

Lemma print_10_length n : String.length (print_base 10 n) ≠ 0.
Proof. intros H. apply str_length_nil in H. by apply print_base_nonempty in H. Qed.

(** [std::stoi] reads back what [std::to_string] has printed, if it fits an [int]. *)
Lemma stoi0_printed z :
  stoi0 (int_to_string z) = if ((- 2 ^ 31 <=? z) && (z <? 2 ^ 31))%Z then Some z else None.
Proof.
  unfold stoi0, int_to_string. destruct (Z.ltb_spec z 0) as [Hneg|Hpos].
  - set (n := Z.to_N (- z)). destruct (print_10_front n) as (Hsp & Hsg & Hhex & _).
    assert (skip_spaces ("-" +:+ print_base 10 n) = 0) as -> by done. rewrite sdrop_0.
    assert (read_sign ("-" +:+ print_base 10 n) = (true, 1)) as -> by done.
    assert (sdrop 1 ("-" +:+ print_base 10 n) = print_base 10 n) as -> by apply (sdrop_app "-").
    rewrite Hhex, sdrop_0. cbn [Nat.eqb]. rewrite read_printed.
    rewrite (proj2 (Nat.eqb_neq _ _) (print_10_length n)). cbn [orb]. unfold n. rewrite Z2N.id by lia.
    replace (- - z)%Z with z by lia.
    destruct (Z.leb_spec (- 2 ^ 31) z), (Z.ltb_spec z (2 ^ 31)), (Z.ltb_spec z (- 2 ^ 31)), (Z.leb_spec (2 ^ 31) z); try lia; done.
  - set (n := Z.to_N z). destruct (print_10_front n) as (Hsp & Hsg & Hhex & _).
    rewrite Hsp, sdrop_0, Hsg, sdrop_0, Hhex, sdrop_0. cbn [Nat.eqb]. rewrite read_printed.
    rewrite (proj2 (Nat.eqb_neq _ _) (print_10_length n)). cbn [orb]. unfold n. rewrite Z2N.id by lia.
    destruct (Z.leb_spec (- 2 ^ 31) z), (Z.ltb_spec z (2 ^ 31)), (Z.ltb_spec z (- 2 ^ 31)), (Z.leb_spec (2 ^ 31) z); try lia; done.
Qed.

Lemma tolower_int z : tolower (int_to_string z) = int_to_string z.
Proof.
  unfold int_to_string. destruct (z <? 0)%Z; [|apply print_10_front].
  destruct (print_10_front (Z.to_N (- z))) as (_ & _ & _ & Ht).
  change (tolower ("-" +:+ ?s)) with ("-" +:+ tolower s). by rewrite Ht.
Qed.

(** ** Types as words and numbers *)

Lemma int_to_string_word z s : (s = NONE_LITERAL ∨ s = BUCKET_LITERAL) → int_to_string z ≠ s.
Proof.
  intros Hs Heq. assert (∃ c s', s = String c s' ∧ char_digit c ≠ Some 0%N ∧ c ≠ "-"%char ∧ (c = "n"%char ∨ c = "b"%char)) as (c & s' & -> & _ & Hm & Hc).
  { destruct Hs as [-> | ->]; eexists _, _; (split; [reflexivity|]); split_and!; by auto. }
  unfold int_to_string in Heq. destruct (z <? 0)%Z; [by injection Heq as <- _|].
  destruct (print_10_cases (Z.to_N z)) as [[_ Hp]|(d & s & Hp & _ & Hd)]; rewrite Hp in Heq; injection Heq as Hh _.
  - by destruct Hc as [-> | ->].
  - revert Hh. apply (small_digit (λ x, x = c → False)); [done|..]; intros <-; by destruct Hc.
Qed.

Lemma translate_number descs z :
  Forall (λ d, d.2 ≠ int_to_string z) descs →
  translate descs (int_to_string z) =
    if ((- 2 ^ 31 <=? z) && (z <? 2 ^ 31))%Z then Ret (as_PolicyType z) else Throw PolicyParsingException.
Proof.
  intros Hd. unfold translate. rewrite tolower_int, (proj2 (list_find_None _ _)) by done.
  rewrite !bool_decide_eq_false_2 by (apply int_to_string_word; auto). unfold stoi_PolicyType. rewrite stoi0_printed.
  by destruct (_ && _).
Qed.

Lemma translate_cases descs s : (∃ type, translate descs s = Ret type) ∨ translate descs s = Throw PolicyParsingException.
Proof.
  unfold translate, stoi_PolicyType. destruct (list_find _ _) as [[i it]|]; [by eauto|]. do 2 (case_bool_decide; [by eauto|]).
  destruct (stoi0 _); eauto.
Qed.

Lemma as_PolicyType_u16 z : is_u16 z → as_PolicyType z = z.
Proof. intros Hz. apply Z.mod_small. exact Hz. Qed.

Lemma u16_int z : is_u16 z → ((- 2 ^ 31 <=? z) && (z <? 2 ^ 31))%Z = true.
Proof. unfold is_u16. intros Hz. apply andb_true_iff. split; [apply Z.leb_le|apply Z.ltb_lt]; lia. Qed.

(** Descriptions whose names can be told apart: each once, in lower case, no number, and the
    two fixed words only for their types. *)
Definition names_ok (descs : list (Z * string)) : Prop :=
  NoDup descs.*2 ∧
  Forall (λ d, is_u16 d.1 ∧ tolower d.2 = d.2 ∧ lacks fieldSeparator d.2 ∧ lacks recordSeparator d.2 ∧
    stoi0 d.2 = None ∧ (d.2 = NONE_LITERAL → d.1 = CYNARA_ADMIN_NONE) ∧ (d.2 = BUCKET_LITERAL → d.1 = CYNARA_ADMIN_BUCKET)) descs.
#[global] Instance names_ok_dec descs : Decision (names_ok descs).
Proof. unfold names_ok, lacks. apply _. Defined.

Lemma names_not_number descs z : names_ok descs → is_u16 z → Forall (λ d, d.2 ≠ int_to_string z) descs.
Proof.
  intros [_ Hall] Hz. eapply Forall_impl; [exact Hall|]. cbn. intros d (_ & _ & _ & _ & Hn & _) Heq.
  by rewrite Heq, stoi0_printed, u16_int in Hn.
Qed.

(** What [humanize] writes, [translate] reads. *)
Lemma translate_humanize descs z : names_ok descs → is_u16 z → translate descs (humanize descs z) = Ret z.
Proof.
  intros Hok Hz. pose proof Hok as [Hnd Hall]. rewrite Forall_forall in Hall. unfold humanize.
  destruct (list_find _ descs) as [[i it]|] eqn:Hf.
  - apply list_find_Some in Hf as (Hi & Hit & _). destruct (Hall it) as (_ & Hlow & _); [by apply list_elem_of_lookup_2 in Hi|].
    unfold translate. rewrite Hlow. destruct (list_find (λ x, x.2 = it.2) descs) as [[j it']|] eqn:Hj.
    + apply list_find_Some in Hj as (Hj & Hn & _). assert (i = j) as ->.
      { eapply (NoDup_lookup _ _ _ it.2 Hnd); rewrite list_lookup_fmap; [by rewrite Hi|by rewrite Hj, <-Hn]. }
      rewrite Hi in Hj. injection Hj as <-. by rewrite Hit, as_PolicyType_u16.
    + apply list_find_None in Hj. rewrite Forall_forall in Hj. by destruct (Hj it); [by apply list_elem_of_lookup_2 in Hi|].
  - apply list_find_None in Hf. rewrite Forall_forall in Hf.
    destruct (Z.eqb_spec z CYNARA_ADMIN_NONE) as [->|Hnone]; [|destruct (Z.eqb_spec z CYNARA_ADMIN_BUCKET) as [->|Hbucket]].
    + unfold translate. rewrite (proj2 (list_find_None _ _)); [done|]. apply Forall_forall. intros d Hd Hn.
      destruct (Hall d Hd) as (_ & _ & _ & _ & _ & Hw & _). by apply (Hf d Hd), Hw.
    + unfold translate. rewrite (proj2 (list_find_None _ _)); [done|]. apply Forall_forall. intros d Hd Hn.
      destruct (Hall d Hd) as (_ & _ & _ & _ & _ & _ & Hw). by apply (Hf d Hd), Hw.
    + rewrite translate_number by (by apply names_not_number). by rewrite u16_int, as_PolicyType_u16.
Qed.

Lemma translate_printed humanReadable descs z :
  names_ok descs → is_u16 z → translate descs (policyTypeString humanReadable descs z) = Ret z.
Proof.
  intros Hok Hz. destruct humanReadable; [by apply translate_humanize|]. cbn.
  rewrite translate_number by (by apply names_not_number). by rewrite u16_int, as_PolicyType_u16.
Qed.

Lemma int_to_string_lacks c z : is_u16 z → char_digit c = None → lacks c (int_to_string z).
Proof.
  intros Hz Hc. unfold int_to_string, is_u16 in *. destruct (Z.ltb_spec z 0); [lia|]. apply print_base_lacks; [lia|done].
Qed.

Lemma printed_lacks humanReadable descs z c :
  names_ok descs → is_u16 z → c = fieldSeparator ∨ c = recordSeparator → lacks c (policyTypeString humanReadable descs z).
Proof.
  intros [_ Hall] Hz Hc. assert (lacks c (int_to_string z)) as Hnum by (apply int_to_string_lacks; [done|by destruct Hc as [-> | ->]]).
  destruct humanReadable; cbn; [|done]. unfold humanize. destruct (list_find _ descs) as [[i it]|] eqn:Hf.
  - apply list_find_Some in Hf as (Hi & _ & _). rewrite Forall_forall in Hall.
    destruct (Hall it) as (_ & _ & Hs & Hr & _); [by apply list_elem_of_lookup_2 in Hi|]. by destruct Hc as [-> | ->].
  - destruct (z =? CYNARA_ADMIN_NONE)%Z; [by destruct Hc as [-> | ->]|].
    destruct (z =? CYNARA_ADMIN_BUCKET)%Z; [by destruct Hc as [-> | ->]|done].
Qed.

(** ** Listing and bulk *)

(** A text that can be a field of a line. *)
Definition plain (s : string) : Prop := lacks fieldSeparator s ∧ lacks recordSeparator s ∧ lacks "000" s.
Definition listable (p : Policy) : Prop :=
  plain (value (client (key p))) ∧ plain (value (user (key p))) ∧ plain (value (privilege (key p))) ∧
  is_u16 (policyType (result p)) ∧ lacks recordSeparator (metadata (result p)) ∧ lacks "000" (metadata (result p)).
#[global] Instance listable_dec p : Decision (listable p).
Proof. unfold listable, plain, lacks. apply _. Defined.

Lemma lastToken_app p m : lastToken (p +:+ m) (String.length p) = m.
Proof.
  unfold lastToken. rewrite str_length_app, sdrop_app.
  destruct (Nat.ltb_spec (String.length p) (String.length p + String.length m)) as [|Hm]; [done|].
  assert (String.length m = 0) as Hm0 by lia. by apply str_length_nil in Hm0.
Qed.

Lemma parse_line_fields tr b c u p t m :
  lacks fieldSeparator b → lacks fieldSeparator c → lacks fieldSeparator u → lacks fieldSeparator p → lacks fieldSeparator t →
  parse_line tr (joinFields [b; c; u; p; t; m]) = (ty ← tr t; Ret (b, mkPolicyResult ty m, PolicyKey_of c u p)).
Proof.
  intros Hb Hc Hu Hp Ht. unfold parse_line, nextToken, parseKey. cbn [parseFeatures].
  set (sep := fieldSeparator) in *.
  assert (joinFields [b; c; u; p; t; m] = "" +:+ b +:+ String sep (c +:+ String sep (u +:+ String sep (p +:+ String sep (t +:+ String sep m)))))
    as -> by reflexivity.
  change 0 with (String.length "") at 1. rewrite parseToken_app by done. cbn [mbind outcome_bind].
  set (p1 := "" +:+ b +:+ String sep "").
  assert (∀ r, "" +:+ b +:+ String sep r = p1 +:+ r) as E1 by (intros r; unfold p1; by autorewrite with str).
  rewrite E1, parseToken_app by done. cbn [mbind outcome_bind].
  set (p2 := p1 +:+ c +:+ String sep "").
  assert (∀ r, p1 +:+ c +:+ String sep r = p2 +:+ r) as E2 by (intros r; unfold p2; by autorewrite with str).
  rewrite E2, parseToken_app by done. cbn [mbind outcome_bind].
  set (p3 := p2 +:+ u +:+ String sep "").
  assert (∀ r, p2 +:+ u +:+ String sep r = p3 +:+ r) as E3 by (intros r; unfold p3; by autorewrite with str).
  rewrite E3, parseToken_app by done. cbn [mbind outcome_bind nth].
  set (p4 := p3 +:+ p +:+ String sep "").
  assert (∀ r, p3 +:+ p +:+ String sep r = p4 +:+ r) as E4 by (intros r; unfold p4; by autorewrite with str).
  rewrite E4, parseToken_app by done. cbn [mbind outcome_bind].
  set (p5 := p4 +:+ t +:+ String sep "").
  assert (∀ r, p4 +:+ t +:+ String sep r = p5 +:+ r) as E5 by (intros r; unfold p5; by autorewrite with str).
  rewrite E5. destruct (tr t) as [ty| |]; cbn [mbind outcome_bind]; [|done|done]. do 4 f_equal.
  exact (lastToken_app p5 m).
Qed.

(** The line of a policy as its fields. *)
Definition listed_line (humanReadable : bool) (descs : list (Z * string)) (bucket : string) (p : Policy) : string :=
  joinFields [bucket; value (client (key p)); value (user (key p)); value (privilege (key p));
              policyTypeString humanReadable descs (policyType (result p)); metadata (result p)].

Lemma policy_line_listed humanReadable descs bucket p :
  listable p → policy_line humanReadable descs (copyPolicy bucket p) = listed_line humanReadable descs bucket p +:+ String recordSeparator "".
Proof.
  intros ((_ & _ & Hc) & (_ & _ & Hu) & (_ & _ & Hp) & _ & _ & Hm). unfold policy_line, copyPolicy, result_extra_of.
  cbn [ap_bucket ap_client ap_user ap_privilege ap_result ap_result_extra default]. rewrite !c_str_id by done.
  unfold listed_line. change (joinFields [?b; ?c; ?u; ?v; ?t; ?m]) with
    (b +:+ String fieldSeparator (c +:+ String fieldSeparator (u +:+ String fieldSeparator (v +:+ String fieldSeparator (t +:+ String fieldSeparator m))))).
  destruct (bool_decide_reflect (metadata (result p) = "")) as [->|]; cbn [default]; rewrite ?c_str_id by done;
    by autorewrite with str.
Qed.

Lemma add_listed bucket p ps :
  m_sealed ps = false → plain bucket → listable p →
  add bucket (result p) (key p) ps = Ret (mkCynaraAdminPolicies (m_policies ps ++ [Some (copyPolicy bucket p)]) false).
Proof.
  intros Hs (_ & _ & Hb) ((_ & _ & Hc) & (_ & _ & Hu) & (_ & _ & Hp) & _ & _ & Hm). unfold add. rewrite Hs.
  unfold copyPolicy, result_extra_of, duplicateString. by rewrite !c_str_id.
Qed.

Lemma parse_from_listed humanReadable descs bucket policies n ps :
  names_ok descs → plain bucket → Forall listable policies → m_sealed ps = false →
  parse_from (translate descs) (listed_line humanReadable descs bucket <$> policies) n ps =
    Ret (mkCynaraAdminPolicies (m_policies ps ++ ((Some ∘ copyPolicy bucket) <$> policies)) false).
Proof.
  intros Hok Hb Hall. revert n ps. induction Hall as [|p policies Hp Hall IH]; intros n ps Hs.
  { cbn. rewrite app_nil_r. destruct ps. cbn in *. by subst. }
  cbn [fmap list_fmap parse_from].
  assert (parse_line (translate descs) (listed_line humanReadable descs bucket p) = Ret (bucket, result p, key p)) as Hparse.
  { destruct Hp as ((Hc & _) & (Hu & _) & (Hv & _) & Ht & _ & _). unfold listed_line.
    rewrite parse_line_fields; [|by apply Hb|done|done|done|by apply printed_lacks; [| |left]].
    rewrite translate_printed by done. cbn. by destruct p as [[[c] [u] [v]] [ty md]]. }
  destruct (listed_line humanReadable descs bucket p) as [|c line] eqn:E; [by apply joinFields_nonempty in E|].
  rewrite Hparse. cbn [mbind outcome_bind]. rewrite add_listed by done. cbn [withLineNumber mbind outcome_bind].
  rewrite IH by done. cbn [m_policies]. by rewrite <-app_assoc.
Qed.

(** The text that is listed, read back. *)
Definition listing (humanReadable : bool) (descs : list (Z * string)) (policies : list cynara_admin_policy) : string :=
  foldr (λ p text, policy_line humanReadable descs p +:+ text) "" policies.

Lemma parse_listing humanReadable descs bucket policies :
  names_ok descs → plain bucket → Forall listable policies →
  parse (translate descs) (listing humanReadable descs (copyPolicy bucket <$> policies)) =
    Ret (mkCynaraAdminPolicies ((Some <$> (copyPolicy bucket <$> policies)) ++ [None]) true).
Proof.
  intros Hok Hb Hall. unfold parse.
  assert (∀ l, listing humanReadable descs (copyPolicy bucket <$> l) =
    foldr (λ p text, policy_line humanReadable descs (copyPolicy bucket p) +:+ text) "" l) as ->.
  { intros l. induction l as [|p l IH]; [done|]. cbn. by rewrite <-IH. }
  rewrite (getlines_foldr _ (listed_line humanReadable descs bucket)).
  - rewrite parse_from_listed by done. cbn. by rewrite <-list_fmap_compose.
  - intros p Hp. rewrite Forall_forall in Hall. pose proof (Hall p Hp) as Hl. split; [by apply policy_line_listed|].
    destruct Hl as ((_ & Hc & _) & (_ & Hu & _) & (_ & Hv & _) & Ht & Hm & _). unfold listed_line. apply lacks_joinFields; [done|].
    repeat constructor; try done; [by apply Hb|by apply printed_lacks; [| |right]].
Qed.

(** ** The dispatcher *)

Section dispatcher.
Context {A W : Type} `{API : !BaseAdminApiWrapper A W} `{IO : !BaseDispatcherIO W}.
Implicit Types d : CommandsDispatcher (A:=A) (W:=W).

(** The dispatcher after a call of the library. *)
Definition asked (a : A) (w : W) d : CommandsDispatcher :=
  mkCommandsDispatcher a (m_policyTranslator d) w (dispatcher_cout d) (dispatcher_cerr d).
Definition written (out err : string) d : CommandsDispatcher :=
  mkCommandsDispatcher (m_cynaraAdmin d) (m_policyTranslator d) (dispatcherSystem d) (dispatcher_cout d +:+ out) (dispatcher_cerr d +:+ err).

Lemma onApi_eq {R} (m : SE (A * W) R) d r a w : m (m_cynaraAdmin d, dispatcherSystem d) = (r, (a, w)) → onApi m d = (r, asked a w d).
Proof. intros Hm. unfold onApi. by rewrite Hm. Qed.

Lemma written_nil d : written "" "" d = d.
Proof. unfold written. rewrite !str_app_nil_r. by destruct d. Qed.

Lemma cout_eq s d : cout s d = (Ret tt, written s "" d).
Proof. unfold cout, modify, written. by rewrite str_app_nil_r. Qed.
Lemma cerr_eq s d : cerr s d = (Ret tt, written "" s d).
Proof. unfold cerr, modify, written. by rewrite str_app_nil_r. Qed.
Lemma written_written o1 e1 o2 e2 d : written o2 e2 (written o1 e1 d) = written (o1 +:+ o2) (e1 +:+ e2) d.
Proof. unfold written. cbn. by rewrite !str_app_assoc. Qed.

Lemma listed_printed humanReadable policies d :
  forEach policies (λ p, line ← onTranslator (λ descs, Ret (policy_line humanReadable descs p)); cout line) d =
    (Ret tt, written (listing humanReadable (m_policyTranslator d) policies) "" d).
Proof.
  revert d. induction policies as [|p policies IH]; intros d; [by rewrite written_nil|]. cbn [forEach]. rewrite SE_bind_eq, SE_bind_eq.
  unfold onTranslator at 1, reads. rewrite cout_eq, IH, written_written. cbn. done.
Qed.

(** What is printed for a code. *)
Definition error_text (errnum : Z) : string := if (errnum =? CYNARA_API_SUCCESS)%Z then "" else initialize_error errnum.

Lemma strerror_cases errnum :
  cynara_strerror errnum true 256 = (CYNARA_API_INVALID_PARAM, None) ∨ cynara_strerror errnum true 256 = (CYNARA_API_BUFFER_TOO_SHORT, None) ∨
  ∃ message, cynara_strerror errnum true 256 = (CYNARA_API_SUCCESS, Some message).
Proof. unfold cynara_strerror. cbn [negb]. destruct (error_message errnum); [destruct (256 <? _)|]; eauto. Qed.

Lemma printAdminApiError_eq errnum d : printAdminApiError errnum d = (Ret tt, written "" (initialize_error errnum) d).
Proof.
  unfold printAdminApiError, initialize_error.
  destruct (strerror_cases errnum) as [-> |[-> |[message ->]]]; cbn [Z.eqb]; rewrite SE_bind_eq, cerr_eq;
    match goal with |- context [if ?b then _ else _] => let b' := eval vm_compute in b in change b with b' | _ => idtac end;
    cbn -[cerr written String.append]; rewrite cerr_eq, written_written; by rewrite ?str_app_nil_r, !str_app_assoc.
Qed.

Lemma report_eq ret d : report ret d = (Ret ret, written "" (error_text ret) d).
Proof.
  unfold report, error_text. rewrite SE_bind_eq. destruct (ret =? CYNARA_API_SUCCESS)%Z; cbn [negb]; [by rewrite written_nil|].
  by rewrite printAdminApiError_eq.
Qed.

(** C40: What the tool lists it can read back: when the library lists the policies of a
    bucket, [--list-policies] prints them as a text, with numbers or with words for the
    types, and [--set-policy --bulk] with that text asks the library to set exactly those
    policies again, and ends with its code.  The name of the bucket and the fields have to be
    free of separators and line breaks ([plain], [listable]), which the library does not
    ensure, and the names of the types have to be told apart ([names_ok]). *)
Theorem listing_bulk_roundtrip humanReadable bucket key policies d a w :
  names_ok (m_policyTranslator d) → plain bucket → Forall listable policies →
  api_list_policies (Some bucket) (c_client key) (c_user key) (c_privilege key) (m_cynaraAdmin d, dispatcherSystem d) =
    (Ret (inr (copyPolicy bucket <$> policies)), (a, w)) →
  ∃ text, execute_listPolicies bucket key humanReadable d = (Ret CYNARA_API_SUCCESS, written text "" (asked a w d)) ∧
    ∀ filename d' w' code a1 w1,
      m_policyTranslator d' = m_policyTranslator d → openFile filename d' = (Ret text, asked (m_cynaraAdmin d') w' d') →
      api_set_policies ((Some <$> (copyPolicy bucket <$> policies)) ++ [None]) (m_cynaraAdmin d', w') = (Ret code, (a1, w1)) →
      execute_setPolicyBulk filename d' = (Ret code, written "" (error_text code) (asked a1 w1 d')).
Proof.
  intros Hok Hb Hall Hlist. exists (listing humanReadable (m_policyTranslator d) (copyPolicy bucket <$> policies)). split.
  - unfold execute_listPolicies. rewrite c_str_id by apply Hb. rewrite SE_bind_eq, (onApi_eq _ _ _ _ _ Hlist).
    rewrite SE_bind_eq, listed_printed. done.
  - intros filename d' w' code a1 w1 Htr Hopen Hset. unfold execute_setPolicyBulk. rewrite SE_bind_eq, Hopen.
    unfold tryCatch. rewrite SE_bind_eq. unfold onTranslator, reads. cbn [m_policyTranslator asked]. rewrite Htr, parse_listing by done.
    rewrite SE_bind_eq. cbn [data m_sealed m_policies]. rewrite SE_bind_eq.
    rewrite (onApi_eq _ (asked (m_cynaraAdmin d') w' d') (Ret code) a1 w1 Hset), report_eq. done.
Qed.
End dispatcher.

(** ** Numbers for types *)

Section numbers.
Context {A W : Type} `{API : !BaseAdminApiWrapper A W} `{IO : !BaseDispatcherIO W}.
Implicit Types d : CommandsDispatcher (A:=A) (W:=W).

(** What the library is handed for one policy. *)
Definition asked_policy (bucket : string) (type : Z) (metadata : string) (key : PolicyKey) : cynara_admin_policy :=
  mkAdminPolicy (Some (c_str bucket)) (Some (c_str (value (client key)))) (Some (c_str (value (user key))))
    (Some (c_str (value (privilege key)))) type (if bool_decide (metadata = "") then None else Some (c_str metadata)).

Definition invalid_policy_text : string := "Invalid policy" +:+ endl.

Lemma invalid_policy_eq d : invalid_policy d = (Ret CYNARA_API_INVALID_COMMANDLINE_PARAM, written "" invalid_policy_text d).
Proof. unfold invalid_policy. by rewrite SE_bind_eq, cerr_eq. Qed.

Lemma setPolicy_refused bucket raw key d :
  translate (m_policyTranslator d) (raw_type raw) = Throw PolicyParsingException →
  execute_setPolicy bucket raw key d = (Ret CYNARA_API_INVALID_COMMANDLINE_PARAM, written "" invalid_policy_text d).
Proof.
  intros Htr. unfold execute_setPolicy. rewrite SE_bind_eq. unfold tryCatch. rewrite SE_bind_eq. unfold onTranslator, reads.
  rewrite Htr. cbn. apply invalid_policy_eq.
Qed.

Lemma setPolicy_asks bucket raw key d type :
  translate (m_policyTranslator d) (raw_type raw) = Ret type →
  execute_setPolicy bucket raw key d =
    (ret ← onApi (api_set_policies [Some (asked_policy bucket type (raw_metadata raw) key); None]); report ret) d.
Proof.
  intros Htr. unfold execute_setPolicy. rewrite SE_bind_eq. unfold tryCatch. rewrite SE_bind_eq. unfold onTranslator, reads at 1.
  rewrite Htr. done.
Qed.

Lemma setPolicy_result bucket raw key d type code a w :
  translate (m_policyTranslator d) (raw_type raw) = Ret type →
  api_set_policies [Some (asked_policy bucket type (raw_metadata raw) key); None] (m_cynaraAdmin d, dispatcherSystem d) = (Ret code, (a, w)) →
  execute_setPolicy bucket raw key d = (Ret code, written "" (error_text code) (asked a w d)).
Proof.
  intros Htr Hset. rewrite (setPolicy_asks _ _ _ _ _ Htr), SE_bind_eq, (onApi_eq _ d (Ret code) a w Hset). apply report_eq.
Qed.

(** A number for a type wraps around.  Unless it is the name of a type, a number that a
    user gives with [--set-policy] is taken modulo 65536 if it fits an [int], so that -1 is
    the type 65535, and the library can not notice that it was out of range; a number that
    does not fit an [int] is refused and the library is not asked. *)
Theorem type_number_wraps z bucket metadata key d :
  Forall (λ it, it.2 ≠ int_to_string z) (m_policyTranslator d) →
  ((- 2 ^ 31 <= z < 2 ^ 31)%Z →
   (∀ code a w,
     api_set_policies [Some (asked_policy bucket (z mod 65536) metadata key); None] (m_cynaraAdmin d, dispatcherSystem d) = (Ret code, (a, w)) →
     execute_setPolicy bucket (mkRawPolicyResult (int_to_string z) metadata) key d = (Ret code, written "" (error_text code) (asked a w d)))) ∧
  (¬ (- 2 ^ 31 <= z < 2 ^ 31)%Z →
   execute_setPolicy bucket (mkRawPolicyResult (int_to_string z) metadata) key d =
     (Ret CYNARA_API_INVALID_COMMANDLINE_PARAM, written "" invalid_policy_text d)).
Proof.
  intros Hd. pose proof (translate_number _ _ Hd) as Htr. split; intros Hz.
  - rewrite (proj2 (andb_true_iff _ _)) in Htr by (split; [apply Z.leb_le|apply Z.ltb_lt]; lia).
    intros code a w. exact (setPolicy_result bucket (mkRawPolicyResult _ metadata) key d _ code a w Htr).
  - rewrite (proj2 (andb_false_iff _ _)) in Htr.
    + exact (setPolicy_refused bucket (mkRawPolicyResult _ metadata) key d Htr).
    + destruct (Z.leb_spec (- 2 ^ 31) z), (Z.ltb_spec z (2 ^ 31)); auto. lia.
Qed.
End numbers.

(** ** A command line that sets a policy *)

Section command_line.
Context {A W : Type} `{API : !BaseAdminApiWrapper A W} `{IO : !BaseDispatcherIO W}.
Context {G : Type} (getopt_long : list (string * OptHasArg * ascii) → string → G → Getopt * G).
Implicit Types d : CommandsDispatcher (A:=A) (W:=W).

(** From [g], [getopt_long] finds the options [os] with their arguments, and the end. *)
Fixpoint delivers (opts : list CmdlineOpt) (os : list (CmdlineOpt * string)) (g : G) : Prop :=
  let '(o, g') := getopt_long (makeLongOptions opts) (makeShortOptions opts) g in
  match os with
  | [] => o = GetoptEnd
  | (opt, arg) :: os' => (∃ optopt, o = GetoptOption (opt_char opt) (Some arg) optopt) ∧ delivers opts os' g'
  end.

(** The argument of the last [o]. *)
Definition given (o : CmdlineOpt) (otherwise : string) (os : list (CmdlineOpt * string)) : string :=
  foldl (λ v oa, if bool_decide (oa.1 = o) then oa.2 else v) otherwise os.

Definition setPolicy_options : list CmdlineOpt := [OptClient; OptUser; OptPrivilege; OptBucket; OptType; OptMetadata; OptBulk].
Definition setPolicy_values : list CmdlineOpt := [OptClient; OptUser; OptPrivilege; OptType].

(** The variables of the loop hold what was given last. *)
Definition holds (v : gmap ascii string * string * string) (c u p t b m : string) : Prop :=
  v = (list_to_map [("c"%char, c); ("u"%char, u); ("p"%char, p); ("t"%char, t)], b, m).

Lemma switch_given o arg c u p t b m v :
  o ≠ OptBulk → o ∈ setPolicy_options → holds v c u p t b m →
  ∃ v', setPolicy_switch (opt_char o) (Some arg) v = Ret (inl v') ∧
    holds v' (if bool_decide (o = OptClient) then arg else c) (if bool_decide (o = OptUser) then arg else u)
      (if bool_decide (o = OptPrivilege) then arg else p) (if bool_decide (o = OptType) then arg else t)
      (if bool_decide (o = OptBucket) then arg else b) (if bool_decide (o = OptMetadata) then arg else m).
Proof.
  intros Hbulk Hin ->. unfold setPolicy_options in Hin.
  repeat (apply elem_of_cons in Hin as [->|Hin]); try done; try (by apply elem_of_nil in Hin);
    (eexists; split; [reflexivity|]); unfold holds; cbn [bool_decide decide decide_rel]; cbn -[insert list_to_map]; try done;
    do 2 f_equal; apply map_eq; intros i; cbn [list_to_map foldr uncurry fst snd];
    destruct (decide (i = "c"%char)) as [->|], (decide (i = "u"%char)) as [->|], (decide (i = "p"%char)) as [->|], (decide (i = "t"%char)) as [->|];
    try done; by simplify_map_eq.
Qed.

Lemma loop_given os fuel g c u p t b m v :
  length os < fuel → Forall (λ oa, oa.1 ≠ OptBulk ∧ oa.1 ∈ setPolicy_options) os → delivers setPolicy_options os g → holds v c u p t b m →
  ∃ v' g', option_loop getopt_long fuel setPolicy_options setPolicy_switch v g = (Ret (inl v'), g') ∧
    holds v' (given OptClient c os) (given OptUser u os) (given OptPrivilege p os) (given OptType t os) (given OptBucket b os)
      (given OptMetadata m os).
Proof.
  revert fuel g c u p t b m v. induction os as [|[o arg] os IH]; intros fuel g c u p t b m v Hf Hall Hdel Hv;
    (destruct fuel as [|fuel]; [cbn in Hf; lia|]); cbn [option_loop]; rewrite SE_bind_eq; unfold next_option at 1; cbn [delivers] in Hdel;
    destruct (getopt_long _ _ g) as [r g'].
  - rewrite Hdel. by exists v, g'.
  - destruct Hdel as [[optopt ->] Hdel]. apply Forall_cons in Hall as [[Hb Hin] Hall]. rewrite SE_bind_eq.
    destruct (switch_given o arg c u p t b m v Hb Hin Hv) as (v' & Hsw & Hv'). unfold reads. rewrite Hsw.
    destruct (IH fuel g' _ _ _ _ _ _ v' ltac:(cbn in Hf; lia) Hall Hdel Hv') as (v'' & g'' & Hloop & Hv''). eauto.
Qed.

Lemma values_missing_spec c u p t :
  values_missing (list_to_map [("c"%char, c); ("u"%char, u); ("p"%char, p); ("t"%char, t)] : gmap ascii string) = bool_decide ("" ∈ [c; u; p; t]).
Proof.
  apply eq_true_iff_eq. rewrite bool_decide_eq_true. unfold values_missing. rewrite existsb_exists. setoid_rewrite bool_decide_eq_true. split.
  - intros [[k v] [Hin Hv]]. cbn in Hv. subst v. apply list_elem_of_In, elem_of_map_to_list in Hin.
    apply elem_of_list_to_map_2 in Hin. set_solver.
  - intros Hin. assert (∃ k, (list_to_map [("c"%char, c); ("u"%char, u); ("p"%char, p); ("t"%char, t)] : gmap ascii string) !! k = Some "") as [k Hk].
    { repeat (apply elem_of_cons in Hin as [<-|Hin]); try (by apply elem_of_nil in Hin);
        [exists "c"%char|exists "u"%char|exists "p"%char|exists "t"%char]; by simplify_map_eq. }
    exists (k, ""). split; [|done]. by apply list_elem_of_In, elem_of_map_to_list.
Qed.
Definition main_options : list CmdlineOpt :=
  [OptHelp; OptSetBucket; OptDeleteBucket; OptSetPolicy; OptErase; OptCheck; OptListPolicies; OptListPoliciesDesc].

(** The command line is [--set-policy] and the options [os]. *)
Definition set_policy_line (os : list (CmdlineOpt * string)) (g : G) : Prop :=
  Forall (λ oa, oa.1 ≠ OptBulk ∧ oa.1 ∈ setPolicy_options) os ∧
  ∃ optopt g', getopt_long (makeLongOptions main_options) (makeShortOptions main_options) g = (GetoptOption (opt_char OptSetPolicy) None optopt, g') ∧
    delivers setPolicy_options os g'.

(** The command such a command line stands for. *)
Definition set_policy_meant (os : list (CmdlineOpt * string)) : CyadCommand :=
  if bool_decide ("" ∈ (λ o, given o "" os) <$> setPolicy_values) then ErrorCyadCommand (optionMissing OptSetPolicy)
  else SetPolicyCyadCommand (given OptBucket defaultPolicyBucketId os) (mkRawPolicyResult (given OptType "" os) (given OptMetadata "" os))
         (PolicyKey_of (given OptClient "" os) (given OptUser "" os) (given OptPrivilege "" os)).

Lemma parse_set_policy os fuel g :
  length os < fuel → set_policy_line os g → ∃ g', parseMain getopt_long fuel g = (Ret (set_policy_meant os), g').
Proof.
  intros Hf [Hall (optopt & g1 & Hmain & Hdel)]. assert (∀ r, (∃ g', parseSetPolicy getopt_long fuel g1 = (Ret r, g')) → ∃ g', (parseMain getopt_long fuel g) = (Ret r, g')) as Hm.
  { intros r [g' Hr]. exists g'. rewrite <-Hr. unfold parseMain. rewrite SE_bind_eq. unfold next_option. fold main_options. by rewrite Hmain. }
  apply Hm. unfold parseSetPolicy.
  fold setPolicy_options. fold setPolicy_values. rewrite SE_bind_eq.
  destruct (loop_given os fuel g1 "" "" "" "" defaultPolicyBucketId "" (values_empty setPolicy_values, defaultPolicyBucketId, "") Hf Hall Hdel eq_refl)
    as (v & g2 & Hloop & Hv).
  rewrite Hloop. unfold holds in Hv. rewrite Hv, values_missing_spec. exists g2. unfold set_policy_meant.
  cbn [fmap list_fmap setPolicy_values]. by case_bool_decide.
Qed.

(** C39: A command line sets exactly the policy that is written on it.  When the arguments of
    [--set-policy] are there (the last one of each option counts, the bucket is the default
    one when not given) and the type is known, the library is asked for this policy and
    nothing else, and the tool ends with its code, which is printed if it is an error;
    when an argument is missing or empty, or the type is not known, the tool ends with an
    error and the library is not asked. *)
Theorem set_policy_command os fuel g d :
  length os < fuel → set_policy_line os g →
  if bool_decide ("" ∈ (λ o, given o "" os) <$> setPolicy_values)
  then cyad_run getopt_long fuel g d =
    (Ret CYNARA_API_INVALID_COMMANDLINE_PARAM,
     written "" ("There was an error in command-line options:" +:+ endl +:+ "One or more option missing in --set-policy (-s)" +:+
                 ", use '-h' or '--help' to print help message" +:+ endl) d)
  else match translate (m_policyTranslator d) (given OptType "" os) with
       | Ret type => ∀ code a w,
           api_set_policies
             [Some (asked_policy (given OptBucket "" os) type (given OptMetadata "" os)
                      (PolicyKey_of (given OptClient "" os) (given OptUser "" os) (given OptPrivilege "" os))); None]
             (m_cynaraAdmin d, dispatcherSystem d) = (Ret code, (a, w)) →
           cyad_run getopt_long fuel g d = (Ret code, written "" (error_text code) (asked a w d))
       | _ => cyad_run getopt_long fuel g d = (Ret CYNARA_API_INVALID_COMMANDLINE_PARAM, written "" invalid_policy_text d)
       end.
Proof.
  intros Hf Hline. destruct (parse_set_policy os fuel g Hf Hline) as [g' Hparse].
  assert (∀ r d', (∀ e, r ≠ Throw e) → execute (set_policy_meant os) d = (r, d') → cyad_run getopt_long fuel g d = (r, d')) as Hrun.
  { intros r d' Hr Hex. unfold cyad_run, tryCatch. rewrite SE_bind_eq. unfold reads at 1. rewrite Hparse. cbn [fst]. rewrite Hex. destruct r; try done. by destruct (Hr e). }
  unfold set_policy_meant in Hrun. case_bool_decide as Hmiss.
  - apply Hrun; [done|]. cbn [execute]. unfold execute_error. rewrite SE_bind_eq, cerr_eq. rewrite SE_bind_eq, cerr_eq, written_written. done.
  - destruct (translate_cases (m_policyTranslator d) (given OptType "" os)) as [[type Htr]|Htr]; rewrite Htr.
    + intros code a w Hset. apply Hrun; [done|]. exact (setPolicy_result _ (mkRawPolicyResult _ _) _ d type code a w Htr Hset).
    + apply Hrun; [done|]. by apply setPolicy_refused.
Qed.
End command_line.

(** ** The tool at work

    An administration library that only keeps what it is asked to set, and a [getopt_long]
    that reads a list of options: the theorems on the tool at concrete command lines. *)

(** The system is the text of the only file. *)
Definition demo_descr (d : Z * string) : cynara_admin_policy_descr := mkAdminPolicyDescr d.1 (Some d.2).

#[local] Instance demo_api : BaseAdminApiWrapper (list cynara_admin_policy) string := {|
  api_initialize := λ w, (Ret (inr []), w);
  api_finish := mret CYNARA_API_SUCCESS;
  api_set_policies := λ policies '(_, w), (Ret CYNARA_API_SUCCESS, (until_null policies, w));
  api_set_bucket := λ _ _ _, mret CYNARA_API_SUCCESS;
  api_check := λ _ _ _ _ _, mret (inl CYNARA_API_OPERATION_FAILED);
  api_list_policies := λ _ _ _ _ '(a, w), (Ret (inr a), (a, w));
  api_erase := λ _ _ _ _ _, mret CYNARA_API_BUCKET_NOT_FOUND;
  api_list_policies_descriptions := mret (inr (demo_descr <$> [(0%Z, "Deny"); (65535%Z, "Allow")]));
|}.
#[local] Instance demo_io : BaseDispatcherIO string := {|
  io_stdin := λ w, (w, w);
  io_file := λ name w, (if bool_decide (name = "policies") then Some w else None, w);
|}.

Definition demo_getopt (_ : list (string * OptHasArg * ascii)) (_ : string) (g : list (CmdlineOpt * option string)) :
    Getopt * list (CmdlineOpt * option string) :=
  match g with [] => (GetoptEnd, []) | (o, arg) :: g' => (GetoptOption (opt_char o) arg "0", g') end.

Definition demo_descs : list (Z * string) := [(0%Z, "deny"); (65535%Z, "allow")].
Definition demo_dispatcher (policies : list cynara_admin_policy) (file : string) : CommandsDispatcher :=
  mkCommandsDispatcher policies demo_descs file "" "".

(** A whole run of the tool: initialisation, the command, the destructor. *)
Example demo_run :
  Cyad demo_getopt 10 [(OptListPoliciesDesc, None)] "" =
    mkCyadExit (Ret CYNARA_API_SUCCESS) "" ("0;deny" +:+ endl +:+ "65535;allow" +:+ endl) "".
Proof. vm_compute. reflexivity. Qed.

Example demo_erase :
  Cyad demo_getopt 10 [(OptErase, Some ""); (OptRecursive, Some "Yes"); (OptClient, Some "c"); (OptUser, Some "u"); (OptPrivilege, Some "p")] "" =
    mkCyadExit (Ret CYNARA_API_BUCKET_NOT_FOUND) "" "" ("Cynara: [-9] Bucket not found" +:+ endl).
Proof. vm_compute. reflexivity. Qed.

Definition demo_line : list (CmdlineOpt * string) :=
  [(OptClient, "app"); (OptUser, "1"); (OptPrivilege, "camera"); (OptType, "DENY"); (OptUser, "5001"); (OptType, "ALLOW")].

Lemma set_policy_command_witness :
  cyad_run demo_getopt 10 ((OptSetPolicy, None) :: (prod_map id Some <$> demo_line)) (demo_dispatcher [] "") =
    (Ret CYNARA_API_SUCCESS, demo_dispatcher [mkAdminPolicy (Some "") (Some "app") (Some "5001") (Some "camera") 65535 None] "").
Proof.
  exact (set_policy_command demo_getopt demo_line 10 ((OptSetPolicy, None) :: (prod_map id Some <$> demo_line)) (demo_dispatcher [] "") ltac:(cbn; lia)
    ltac:(split; [apply (bool_decide_unpack _); vm_compute; exact I|]; eexists _, _; split; [reflexivity|]; cbn; repeat (split; [by eexists|]); reflexivity)
    CYNARA_API_SUCCESS [mkAdminPolicy (Some "") (Some "app") (Some "5001") (Some "camera") 65535 None] "" eq_refl).
Defined.

Lemma type_number_wraps_witness :
  execute_setPolicy "" (mkRawPolicyResult "-1" "") (PolicyKey_of "app" "5001" "camera") (demo_dispatcher [] "") =
    (Ret CYNARA_API_SUCCESS, demo_dispatcher [mkAdminPolicy (Some "") (Some "app") (Some "5001") (Some "camera") 65535 None] "") ∧
  execute_setPolicy "" (mkRawPolicyResult "2147483648" "") (PolicyKey_of "app" "5001" "camera") (demo_dispatcher [] "") =
    (Ret CYNARA_API_INVALID_COMMANDLINE_PARAM, written "" ("Invalid policy" +:+ endl) (demo_dispatcher [] "")).
Proof.
  split.
  - exact (proj1 (type_number_wraps (-1) "" "" (PolicyKey_of "app" "5001" "camera") (demo_dispatcher [] "") ltac:(repeat constructor; done))
      ltac:(lia) CYNARA_API_SUCCESS [mkAdminPolicy (Some "") (Some "app") (Some "5001") (Some "camera") 65535 None] "" eq_refl).
  - exact (proj2 (type_number_wraps 2147483648 "" "" (PolicyKey_of "app" "5001" "camera") (demo_dispatcher [] "") ltac:(repeat constructor; done))
      ltac:(lia)).
Defined.

Definition demo_policies : list Policy :=
  [mkPolicy (PolicyKey_of "app" "5001" "camera") (mkPolicyResult 65535 ""); mkPolicy (PolicyKey_of "*" "*" "net") (mkPolicyResult 10 "a;b")].
Definition demo_copies : list cynara_admin_policy := copyPolicy "pk" <$> demo_policies.

Lemma listing_bulk_roundtrip_witness :
  ∃ text, execute_listPolicies "pk" (PolicyKey_of "#" "#" "#") true (demo_dispatcher demo_copies "") =
      (Ret CYNARA_API_SUCCESS, written text "" (demo_dispatcher demo_copies "")) ∧
    execute_setPolicyBulk "policies" (demo_dispatcher [] text) = (Ret CYNARA_API_SUCCESS, demo_dispatcher demo_copies text).
Proof.
  destruct (listing_bulk_roundtrip true "pk" (PolicyKey_of "#" "#" "#") demo_policies (demo_dispatcher demo_copies "") demo_copies ""
    ltac:(apply (bool_decide_unpack _); vm_compute; exact I) ltac:(split_and!; apply (bool_decide_unpack _); vm_compute; exact I)
    ltac:(apply (bool_decide_unpack _); vm_compute; exact I) eq_refl) as (text & Hlist & Hbulk).
  exists text. split; [exact Hlist|].
  exact (Hbulk "policies" (demo_dispatcher [] text) text CYNARA_API_SUCCESS demo_copies text eq_refl eq_refl eq_refl).
Defined.
