(* ===== verification/Chsgen.v ===== *)
(** * The check sum generator ([chsgen])

    A tool that prints, for a file of the database, the line that the file of check sums has
    for it.  [getopt], [crypt] and the file system are arguments; [exeName] is the first word of
    the command line.  [W] is the system and [G] where [getopt] stands in the command line. *)
From S2P Require Import Prelude Text Types FileSystem Api Md5 Bucket StorageBackend Storage StorageSerialization InMemoryStorageBackend Persistence.
From S2P Require Import CyadOptions CyadParser.

(** [CommandLineExtraParameter]: what [getopt] returns for a word that is no option. *)
Definition CommandLineExtraParameter : ascii := "001".
Definition chs_Algorithm : ascii := "a".
Definition chs_Help : ascii := "h".

Definition OPTION_MD5 : string := "md5".
Definition OPTION_CRYPT : string := "crypt".
Definition ENOSYS : Z := 38.

Section chsgen.
Context {W G : Type}.
(** The contents of a file that can be opened; the digest or the error of [crypt]. *)
Context (file_contents : string → W → option string) (crypt : string → string → string + Z) (strerror : Z → string).
Context (getopt : string → G → Getopt * G) (exeName : string).

Record ChecksumGenerator := mkChecksumGenerator {
  m_pathname : string;
  m_algorithm : string;
  m_copyStream : string;
  m_inputStream : option string;
  help_printed : bool;
  chs_cout : string;
  chs_cerr : string;
}.
Definition setPathname (p : string) (c : ChecksumGenerator) : ChecksumGenerator :=
  mkChecksumGenerator p (m_algorithm c) (m_copyStream c) (m_inputStream c) (help_printed c) (chs_cout c) (chs_cerr c).
Definition setAlgorithm (a : string) (c : ChecksumGenerator) : ChecksumGenerator :=
  mkChecksumGenerator (m_pathname c) a (m_copyStream c) (m_inputStream c) (help_printed c) (chs_cout c) (chs_cerr c).
Definition setCopyStream (s : string) (c : ChecksumGenerator) : ChecksumGenerator :=
  mkChecksumGenerator (m_pathname c) (m_algorithm c) s (m_inputStream c) (help_printed c) (chs_cout c) (chs_cerr c).
Definition setInputStream (s : option string) (c : ChecksumGenerator) : ChecksumGenerator :=
  mkChecksumGenerator (m_pathname c) (m_algorithm c) (m_copyStream c) s (help_printed c) (chs_cout c) (chs_cerr c).
Definition chs_out (s : string) (c : ChecksumGenerator) : ChecksumGenerator :=
  mkChecksumGenerator (m_pathname c) (m_algorithm c) (m_copyStream c) (m_inputStream c) (help_printed c) (chs_cout c +:+ s) (chs_cerr c).
Definition chs_err (s : string) (c : ChecksumGenerator) : ChecksumGenerator :=
  mkChecksumGenerator (m_pathname c) (m_algorithm c) (m_copyStream c) (m_inputStream c) (help_printed c) (chs_cout c) (chs_cerr c +:+ s).

Definition help_text : string :=
  "Usage: " +:+ exeName +:+ " FILE [OPTION]" +:+ endl +:+ endl +:+ "Options:" +:+ endl +:+
  String "009" ("-" +:+ String chs_Algorithm " ALGORITHM   use selected algorith to count hash. Currently this ") +:+
  "tool supports 'crypt' and 'md5'. 'crypt' is used as the default value " +:+ "for backward compatibility." +:+ endl +:+
  String "009" ("-" +:+ String chs_Help "             print this help") +:+ endl.

Definition chs_printHelp : SE ChecksumGenerator unit := λ c,
  if help_printed c then (Ret tt, c)
  else
    let c' := chs_out help_text c in
    (Ret tt, mkChecksumGenerator (m_pathname c') (m_algorithm c') (m_copyStream c') (m_inputStream c') true (chs_cout c') (chs_cerr c')).

(** The options ["-ha:"]: the leading minus asks for the words that are no options. *)
Definition chs_shortOptions : string := "-" +:+ String chs_Help (String chs_Algorithm ":").

Definition unknown_option_text : string := "Unknown option. Please read help for list of supported options.".

(** The loop of the constructor. *)
Fixpoint chs_options (fuel : nat) (g : G) : SE ChecksumGenerator unit :=
  match fuel with
  | 0 => λ c, (OutOfFuel, c)
  | S fuel' =>
      let '(option, g') := getopt chs_shortOptions g in
      match option with
      | GetoptEnd => mret tt
      | GetoptOption opt optarg _ =>
          (if bool_decide (opt = CommandLineExtraParameter) then pathname ← reads (λ _, from_optarg optarg); modify (setPathname pathname)
           else if bool_decide (opt = chs_Algorithm) then algorithm ← reads (λ _, from_optarg optarg); modify (setAlgorithm algorithm)
           else if bool_decide (opt = chs_Help) then chs_printHelp
           else throw (RuntimeError unknown_option_text)) ;;
          chs_options fuel' g'
      end
  end.

Definition ChecksumGenerator_new : ChecksumGenerator := mkChecksumGenerator "" OPTION_CRYPT "" None false "" "".

Definition generateCrypt (data : string) : SE ChecksumGenerator string :=
  match crypt (c_str data) "$1$" with
  | inl checksum => mret checksum
  | inr err =>
      modify (chs_err (if (err =? ENOSYS)%Z
        then "'crypt' function was not implemented; error [" +:+ int_to_string err +:+ "] : <" +:+ strerror err +:+ ">" +:+ endl
        else "'crypt' function error [" +:+ int_to_string err +:+ "] : <" +:+ strerror err +:+ ">" +:+ endl)) ;;
      throw (RuntimeError (strerror err))
  end.

Definition generate (data : string) : SE ChecksumGenerator string :=
  c ← get;
  if bool_decide (m_algorithm c = OPTION_CRYPT) then generateCrypt data
  else if bool_decide (m_algorithm c = OPTION_MD5) then mret (generateMD5 data)
  else throw (RuntimeError "Unknown option value.").

Definition openFileStream (w : W) : SE ChecksumGenerator unit :=
  c ← get;
  modify (setInputStream (file_contents (c_str (m_pathname c)) w)) ;;
  match file_contents (c_str (m_pathname c)) w with
  | Some _ => mret tt
  | None => throw (RuntimeError ("File not found: " +:+ m_pathname c))
  end.

Definition copyFileStream : SE ChecksumGenerator unit :=
  c ← get; modify (setCopyStream (m_copyStream c +:+ default "" (m_inputStream c))).

(** The same text as in [ChecksumValidator::compare]. *)
Definition removeBackupSuffix (filename : string) : string := strip_suffix filename.

(** The name is written before or after the check sum is generated ([name_first]): C++ leaves
    the order open, and it matters when there is none. *)
Definition printRecord (name_first : bool) : SE ChecksumGenerator unit :=
  c ← get;
  let name := removeBackupSuffix (basename (c_str (m_pathname c))) +:+ String fieldSeparator "" in
  (if name_first then modify (chs_out name) else mret tt) ;;
  checksum ← generate (m_copyStream c);
  (if name_first then mret tt else modify (chs_out name)) ;;
  modify (chs_out (checksum +:+ String recordSeparator "")).

Definition what (e : exn) : string := match e with RuntimeError s => s | _ => "" end.

Definition chs_run (name_first : bool) (w : W) : SE ChecksumGenerator Z :=
  tryCatch (openFileStream w ;; copyFileStream ;; printRecord name_first ;; mret CYNARA_API_SUCCESS)
    (λ e, match e with
          | UndefinedBehaviour => throw e
          | _ => modify (chs_err (what e +:+ endl)) ;; mret CYNARA_API_UNKNOWN_ERROR
          end).

(** [main] *)
Definition chs_main (name_first : bool) (fuel : nat) (g : G) (w : W) : SE ChecksumGenerator Z :=
  tryCatch (chs_options fuel g ;; chs_run name_first w)
    (λ e, match e with
          | UndefinedBehaviour => throw e
          | NoMemoryException => modify (chs_err ("Chsgen could not allocate memory" +:+ endl)) ;; mret CYNARA_API_OUT_OF_MEMORY
          | RuntimeError s => modify (chs_err (s +:+ endl)) ;; mret CYNARA_API_UNKNOWN_ERROR
          | _ => modify (chs_err ("Unknown exception, this is a bug in application" +:+ endl)) ;; mret CYNARA_API_UNKNOWN_ERROR
          end).

Definition chsgen (name_first : bool) (fuel : nat) (g : G) (w : W) : outcome Z * ChecksumGenerator :=
  chs_main name_first fuel g w ChecksumGenerator_new.
End chsgen.
