(* ===== verification/ChsgenTheorems.v ===== *)
(** * Theorems on the check sum generator

    What the tool prints against what the service accepts. *)
From S2P Require Import Prelude Text Types FileSystem Api Md5 Bucket StorageBackend Storage StorageSerialization InMemoryStorageBackend Persistence.
From S2P Require Import CyadOptions CyadParser Chsgen.

(** The name under which the file is listed. *)
Definition listed_name (path : string) : string := removeBackupSuffix (basename path).

(** A path of a file that can have a line in the file of check sums. *)
Definition listable_path (path : string) : Prop :=
  lacks "000" path ∧ listed_name path ≠ "" ∧ lacks fieldSeparator (listed_name path) ∧ lacks recordSeparator (listed_name path).
#[global] Instance listable_path_dec path : Decision (listable_path path).
Proof. unfold listable_path, lacks. apply _. Defined.

Lemma not_hex_dollar : ¬ is_hex "$".
Proof.
  intros (d & Hd & H). unfold hex_digit in H. apply (f_equal N_of_ascii) in H.
  destruct (N.ltb_spec d 10); rewrite N_ascii_embedding in H by lia; change (N_of_ascii "$") with 36%N in H; lia.
Qed.

Section chsgen.
Context {W G : Type}.
Context (file_contents : string → W → option string) (crypt : string → string → string + Z) (strerror : Z → string).
Context (getopt : string → G → Getopt * G) (exeName : string).

(** From [g], [getopt] finds the words [os], each with its argument, and the end. *)
Fixpoint chs_delivers (os : list (ascii * string)) (g : G) : Prop :=
  let '(o, g') := getopt chs_shortOptions g in
  match os with
  | [] => o = GetoptEnd
  | (opt, arg) :: os' => (∃ optopt, o = GetoptOption opt (Some arg) optopt) ∧ chs_delivers os' g'
  end.

(** The argument of the last [o]. *)
Definition chosen (o : ascii) (otherwise : string) (os : list (ascii * string)) : string :=
  foldl (λ v oa, if bool_decide (oa.1 = o) then oa.2 else v) otherwise os.

(** The command line names a file and an algorithm. *)
Definition chs_line (path algorithm : string) (fuel : nat) (g : G) : Prop :=
  ∃ os, chs_delivers os g ∧ length os < fuel ∧ Forall (λ oa, oa.1 = CommandLineExtraParameter ∨ oa.1 = chs_Algorithm) os ∧
    chosen CommandLineExtraParameter "" os = path ∧ chosen chs_Algorithm OPTION_CRYPT os = algorithm.

Lemma chs_options_chosen os fuel g c :
  length os < fuel → Forall (λ oa, oa.1 = CommandLineExtraParameter ∨ oa.1 = chs_Algorithm) os → chs_delivers os g →
  chs_options getopt exeName fuel g c =
    (Ret tt, setPathname (chosen CommandLineExtraParameter (m_pathname c) os) (setAlgorithm (chosen chs_Algorithm (m_algorithm c) os) c)).
Proof.
  revert fuel g c. induction os as [|[o arg] os IH]; intros fuel g c Hf Hall Hd; (destruct fuel as [|fuel]; [cbn in Hf; lia|]);
    cbn [chs_options chs_delivers] in *; destruct (getopt chs_shortOptions g) as [r g'].
  - rewrite Hd. by destruct c.
  - destruct Hd as [[optopt ->] Hd]. apply Forall_cons in Hall as [[Ho|Ho] Hall]; cbn in Ho; subst o; rewrite SE_bind_eq.
    + change (bool_decide (CommandLineExtraParameter = CommandLineExtraParameter)) with true. cbv iota. rewrite SE_bind_eq. cbn [reads from_optarg].
      cbn [modify]. rewrite IH; [|cbn in Hf; lia|done|done]. done.
    + change (bool_decide (chs_Algorithm = CommandLineExtraParameter)) with false. change (bool_decide (chs_Algorithm = chs_Algorithm)) with true.
      cbv iota. rewrite SE_bind_eq. cbn [reads from_optarg]. cbn [modify]. rewrite IH; [|cbn in Hf; lia|done|done]. done.
Qed.

Lemma openFileStream_found w data c :
  lacks "000" (m_pathname c) → file_contents (m_pathname c) w = Some data →
  openFileStream file_contents w c = (Ret tt, setInputStream (Some data) c).
Proof. intros Hn Hf. unfold openFileStream. rewrite SE_bind_eq. cbn [get]. rewrite c_str_id, Hf by done. done. Qed.

Lemma printRecord_prints sum nf c :
  lacks "000" (m_pathname c) → (∀ c', m_algorithm c' = m_algorithm c → generate crypt strerror (m_copyStream c) c' = (Ret sum, c')) →
  printRecord crypt strerror nf c = (Ret tt, chs_out (listed_name (m_pathname c) +:+ String fieldSeparator (sum +:+ String recordSeparator "")) c).
Proof.
  intros Hn Hg. unfold printRecord. rewrite SE_bind_eq. cbn [get]. rewrite c_str_id by done. fold (listed_name (m_pathname c)).
  destruct nf; rewrite SE_bind_eq; cbn [modify mret SE_ret]; rewrite SE_bind_eq, Hg by done; rewrite SE_bind_eq; unfold modify, chs_out; cbn -[String.append listed_name]; do 2 f_equal; by autorewrite with str.
Qed.

(** What a run prints for a file that is there, when the digest can be made. *)
Lemma chsgen_prints path algorithm fuel g w data sum nf :
  chs_line path algorithm fuel g → lacks "000" path → file_contents path w = Some data →
  (∀ c, m_algorithm c = algorithm → generate crypt strerror data c = (Ret sum, c)) →
  ∃ c, chsgen file_contents crypt strerror getopt exeName nf fuel g w = (Ret CYNARA_API_SUCCESS, c) ∧
    chs_cout c = listed_name path +:+ String fieldSeparator (sum +:+ String recordSeparator "") ∧ chs_cerr c = "".
Proof.
  intros (os & Hd & Hf & Hall & Hpath & Halg) Hnul Hfile Hgen.
  set (c1 := setPathname path (setAlgorithm algorithm ChecksumGenerator_new)).
  set (c2 := setCopyStream data (setInputStream (Some data) c1)).
  assert (chs_run file_contents crypt strerror nf w c1 =
    (Ret CYNARA_API_SUCCESS, chs_out (listed_name path +:+ String fieldSeparator (sum +:+ String recordSeparator "")) c2)) as Hrun.
  { unfold chs_run, tryCatch. rewrite (SE_bind_Ret _ _ _ _ _ (openFileStream_found w data c1 Hnul Hfile)).
    rewrite (SE_bind_Ret _ _ _ tt c2) by done.
    by rewrite (SE_bind_Ret _ _ _ _ _ (printRecord_prints sum nf c2 Hnul (λ c', Hgen c'))). }
  eexists. split; [|split].
  - unfold chsgen, chs_main, tryCatch. rewrite (SE_bind_Ret _ _ _ _ _ (chs_options_chosen os fuel g _ Hf Hall Hd)).
    cbn [m_pathname m_algorithm ChecksumGenerator_new]. rewrite Hpath, Halg. fold c1. by rewrite Hrun.
  - done.
  - done.
Qed.

Lemma generate_md5 data c : m_algorithm c = OPTION_MD5 → generate crypt strerror data c = (Ret (generateMD5 data), c).
Proof. intros Hc. unfold generate. rewrite SE_bind_eq. cbn [get]. by rewrite Hc. Qed.

Lemma generate_crypt data sum c :
  crypt (c_str data) "$1$" = inl sum → m_algorithm c = OPTION_CRYPT → generate crypt strerror data c = (Ret sum, c).
Proof. intros Hs Hc. unfold generate, generateCrypt. rewrite SE_bind_eq. cbn [get]. by rewrite Hc, Hs. Qed.

Lemma parse_sum_line n sum :
  n ≠ "" → lacks fieldSeparator n → sum ≠ "" → parse_checksum_line (n +:+ String fieldSeparator sum) = Ret (n, sum).
Proof.
  intros Hne Hn Hsum. unfold parse_checksum_line, parseFilename.
  pose proof (find_from_app fieldSeparator "" n sum Hn) as Hf. change ("" +:+ ?x) with x in Hf. change (String.length "") with 0 in Hf. rewrite Hf.
  destruct (Nat.eqb_spec (0 + String.length n) 0) as [Hz|_]; [by apply str_length_nil in Hz|].
  cbn [mbind outcome_bind]. unfold parseChecksum, substr. replace (0 + String.length n - 0) with (String.length n) by lia.
  rewrite sdrop_0, stake_app, str_length_app. cbn [String.length].
  destruct (Nat.leb_spec (String.length n + S (String.length sum)) (0 + String.length n + 1)) as [Hle|_].
  { assert (String.length sum = 0) as Hz by lia. by apply str_length_nil in Hz. }
  cbn [mbind outcome_bind]. do 2 f_equal. replace (0 + String.length n + 1) with (String.length n + 1) by lia.
  by rewrite <-sdrop_sdrop, sdrop_app.
Qed.

(** C30: What the generator prints with [-a md5] is what the service accepts.  Run it on some
    files, in any order: each run succeeds and prints one line; the file of these lines loads
    as check sums, and with them the service accepts each of the files (as backups, if the
    names end in the suffix of backups). *)
Theorem chsgen_checksums_accepted nf fuel w files gs m_dbPath isBackupValid :
  Forall2 (λ f g, chs_line f.1 OPTION_MD5 fuel g ∧ file_contents f.1 w = Some f.2) files gs →
  Forall (λ f, listable_path f.1 ∧ (isBackupValid = false → listed_name f.1 = basename f.1)) files →
  NoDup ((λ f, listed_name f.1) <$> files) →
  ∃ texts sums,
    Forall2 (λ g text, ∃ c, chsgen file_contents crypt strerror getopt exeName nf fuel g w = (Ret CYNARA_API_SUCCESS, c) ∧
      chs_cout c = text ∧ chs_cerr c = "") gs texts ∧
    loadChecksums (foldr String.append "" texts) = Ret sums ∧
    Forall (λ f, compare m_dbPath sums f.2 f.1 isBackupValid = Ret tt) files.
Proof.
  intros Hruns Hfiles Hnd. set (es := (λ f, (listed_name f.1, f.2)) <$> files).
  exists ((λ nd, checksum_line nd.1 nd.2) <$> es).
  assert (es.*1 = (λ f, listed_name f.1) <$> files) as Hes by (unfold es; rewrite <-list_fmap_compose; done).
  destruct (loadChecksums_from_records es 1 ∅) as (sums & Hsums & Hsum & _).
  { by rewrite Hes. }
  { intros n d Hin. apply list_elem_of_fmap in Hin as (f & [= -> ->] & Hf). rewrite Forall_forall in Hfiles.
    destruct (Hfiles f Hf) as [(_ & ? & ? & _) _]. split_and!; [done..|apply lookup_empty]. }
  exists sums. split; [|split].
  - clear Hnd Hes Hsums Hsum. subst es. revert Hfiles. induction Hruns as [|f g files gs [Hline Hfile] Hruns IH]; intros Hfiles; [constructor|].
    apply Forall_cons in Hfiles as [[(Hnul & _) _] Hfiles]. cbn [fmap list_fmap]. constructor; [|by apply IH].
    destruct (chsgen_prints _ _ _ _ w _ _ nf Hline Hnul Hfile (generate_md5 f.2)) as (c & Hc & Hout & Herr). eauto.
  - unfold loadChecksums. rewrite foldr_fmap. rewrite (getlines_foldr (λ nd, checksum_line nd.1 nd.2) checksum_record); [done|].
    intros [n d] Hin. split; [apply checksum_line_record|]. apply list_elem_of_fmap in Hin as (f & [= -> ->] & Hf).
    rewrite Forall_forall in Hfiles. destruct (Hfiles f Hf) as [(_ & _ & _ & Hn) _]. unfold checksum_record. rewrite lacks_app, lacks_cons.
    split; [done|]. split; [done|]. apply generateMD5_lacks, not_hex_newline.
  - apply Forall_forall. intros f Hf. rewrite Forall_forall in Hfiles. destruct (Hfiles f Hf) as [(Hnul & _) Hflag]. unfold compare.
    destruct (isChecksumIndex _ _); [done|]. rewrite c_str_id by done.
    assert ((if isBackupValid then strip_suffix (basename f.1) else basename f.1) = listed_name f.1) as -> by (by destruct isBackupValid; [|rewrite Hflag]).
    rewrite (Hsum (listed_name f.1) f.2); [by rewrite bool_decide_eq_false_2; [|cbn; auto]|]. unfold es. apply list_elem_of_fmap. by exists f.
Qed.

(** What the generator prints without [-a] the service refuses.  The default algorithm is
    [crypt]; its sums start with a dollar sign, and whatever the file, the service takes
    the line, compares the sum with an MD5 sum, and reports a corrupted record. *)
Theorem default_checksum_refused nf fuel w g path data m_dbPath isBackupValid :
  (∀ text, ∃ sum, crypt text "$1$" = inl (String "$" sum) ∧ lacks recordSeparator sum) →
  chs_line path OPTION_CRYPT fuel g → file_contents path w = Some data →
  listable_path path → (isBackupValid = false → listed_name path = basename path) → isChecksumIndex m_dbPath path = false →
  ∃ c sums sum, chsgen file_contents crypt strerror getopt exeName nf fuel g w = (Ret CYNARA_API_SUCCESS, c) ∧
    loadChecksums (chs_cout c) = Ret sums ∧
    compare m_dbPath sums data path isBackupValid = Throw (ChecksumRecordCorruptedException sum 0).
Proof.
  intros Hcrypt Hline Hfile (Hnul & Hne & Hsep & Hrec) Hflag Hidx. destruct (Hcrypt (c_str data)) as (sum & Hsum & Hlack).
  destruct (chsgen_prints path OPTION_CRYPT fuel g w data (String "$" sum) nf Hline Hnul Hfile) as (c & Hc & Hout & _).
  { intros c Hc. by apply generate_crypt. }
  exists c, {[listed_name path := String "$" sum]}, (String "$" sum). split; [done|]. split.
  - rewrite Hout. unfold loadChecksums.
    pose proof (getlines_foldr (λ _ : unit, listed_name path +:+ String fieldSeparator (String "$" sum +:+ String recordSeparator ""))
      (λ _, listed_name path +:+ String fieldSeparator (String "$" sum)) [tt]) as Hl. cbn [foldr fmap list_fmap] in Hl. rewrite str_app_nil_r in Hl.
    rewrite Hl.
    + cbn [loadChecksums_from]. rewrite parse_sum_line by done. done.
    + intros _ _. split; [by autorewrite with str|]. rewrite lacks_app, !lacks_cons. done.
  - unfold compare. rewrite Hidx, c_str_id by done.
    assert ((if isBackupValid then strip_suffix (basename path) else basename path) = listed_name path) as -> by (by destruct isBackupValid; [|rewrite Hflag]).
    rewrite lookup_singleton_eq. cbn [default]. rewrite bool_decide_eq_true_2; [done|]. intros Heq.
    pose proof (generateMD5_lacks "$" data not_hex_dollar) as Hm. change (String "$" sum = generateMD5 data) in Heq. rewrite <-Heq, lacks_cons in Hm. by destruct Hm.
Qed.
End chsgen.

(** ** A small database *)

Definition demo_files : list (string * string) := [("/var/cynara/db/buckets", ";0x0;" +:+ endl); ("/var/cynara/db/_", "")].
Definition demo_contents (path : string) (w : list (string * string)) : option string := (λ it, it.2.2) <$> list_find (λ f, f.1 = path) w.
Definition demo_words (_ : string) (g : list (ascii * string)) : Getopt * list (ascii * string) :=
  match g with [] => (GetoptEnd, []) | (o, arg) :: g' => (GetoptOption o (Some arg) "0", g') end.
Definition demo_strerror (_ : Z) : string := "Function not implemented".
(** The sum of the empty text. *)
Definition demo_crypt (_ _ : string) : string + Z := inl "$1$$qRPK7m23GJusamGpoGLby/".

Definition demo_md5_run (f : string * string) : list (ascii * string) := [(CommandLineExtraParameter, f.1); (chs_Algorithm, OPTION_MD5)].

Lemma demo_md5_line f : chs_line demo_words f.1 OPTION_MD5 5 (demo_md5_run f).
Proof.
  exists (demo_md5_run f). split; [cbn; repeat (split; [by eexists|]); reflexivity|]. split; [cbn; lia|]. split; [decide_by_compute|done].
Qed.

Example demo_chsgen :
  chs_cout (chsgen demo_contents demo_crypt demo_strerror demo_words "chsgen" true 5 (demo_md5_run ("/var/cynara/db/_~", "")) [("/var/cynara/db/_~", "")]).2 =
    "_;d41d8cd98f00b204e9800998ecf8427e" +:+ endl.
Proof. vm_compute. reflexivity. Qed.

Lemma chsgen_checksums_accepted_witness :
  ∃ texts sums,
    Forall2 (λ g text, ∃ c, chsgen demo_contents demo_crypt demo_strerror demo_words "chsgen" true 5 g demo_files = (Ret CYNARA_API_SUCCESS, c) ∧
      chs_cout c = text ∧ chs_cerr c = "") (demo_md5_run <$> demo_files) texts ∧
    loadChecksums (foldr String.append "" texts) = Ret sums ∧
    Forall (λ f, compare "/var/cynara/db/" sums f.2 f.1 false = Ret tt) demo_files.
Proof.
  apply (chsgen_checksums_accepted demo_contents demo_crypt demo_strerror demo_words "chsgen" true 5 demo_files demo_files (demo_md5_run <$> demo_files)).
  - constructor; [split; [apply demo_md5_line|reflexivity]|]. constructor; [split; [apply demo_md5_line|reflexivity]|constructor].
  - repeat constructor; decide_by_compute.
  - decide_by_compute.
Defined.

Lemma default_checksum_refused_witness :
  ∃ c sums sum, chsgen demo_contents demo_crypt demo_strerror demo_words "chsgen" false 5 [(CommandLineExtraParameter, "/var/cynara/db/_")] demo_files =
      (Ret CYNARA_API_SUCCESS, c) ∧
    loadChecksums (chs_cout c) = Ret sums ∧ compare "/var/cynara/db/" sums "" "/var/cynara/db/_" false = Throw (ChecksumRecordCorruptedException sum 0).
Proof.
  apply (default_checksum_refused demo_contents demo_crypt demo_strerror demo_words "chsgen" false 5 demo_files
    [(CommandLineExtraParameter, "/var/cynara/db/_")] "/var/cynara/db/_" "" "/var/cynara/db/" false).
  - intros text. exists "1$$qRPK7m23GJusamGpoGLby/". split; reflexivity.
  - exists [(CommandLineExtraParameter, "/var/cynara/db/_")]. split; [cbn; split; [by eexists|reflexivity]|]. split; [cbn; lia|].
    split; [decide_by_compute|]. split; reflexivity.
  - reflexivity.
  - decide_by_compute.
  - intros _. reflexivity.
  - reflexivity.
Defined.
