(* ===== verification/ServiceMain.v ===== *)
(** * The process of the service ([service/main])

    The command line, the change into a daemon, the order in which the process gives up its
    rights, and the life of the object [Cynara].  The system calls of the start are a class,
    [ProcessSystem], over the system [W], on which the database and the sockets are, too. *)
From S2P Require Import Prelude Text Types Logging Api Bucket StorageBackend Storage.
From S2P Require Import BinaryQueue Serialization Frame Messages ProtocolClient ProtocolAgent Protocols SocketManager SocketInit.
From S2P Require Import EntriesQueue Monitor PluginManager Agents Service FileLock CyadOptions CyadParser.

(** ** [CmdlineParser] *)

Inductive ServiceOpt := OptServiceHelp | OptVersion | OptDaemon | OptMask | OptServiceUser | OptGroup.

Definition service_opt_char (opt : ServiceOpt) : ascii :=
  match opt with
  | OptServiceHelp => "h" | OptVersion => "V" | OptDaemon => "d" | OptMask => "m" | OptServiceUser => "u" | OptGroup => "g"
  end%char.

(** [mode_t], [uid_t] and [gid_t] are 32 bits wide; -1 stands for none. *)
Definition NO_ID : Z := 2 ^ 32 - 1.
Definition as_id (z : Z) : Z := z mod 2 ^ 32.

Record CmdLineOptions := mkCmdLineOptions {
  m_error : bool;
  m_exit : bool;
  m_daemon : bool;
  m_mask : Z;
  m_uid : Z;
  m_gid : Z;
}.

(** [std::stoi(s)], base 10: what follows the digits does not matter. *)
Definition stoi10 (s : string) : option Z :=
  let s1 := sdrop (skip_spaces s) s in
  let '(neg, sg) := read_sign s1 in
  let '(v, cnt) := read_digits 10 (sdrop sg s1) 0 0 in
  let z := if neg then (- Z.of_N v)%Z else Z.of_N v in
  if (cnt =? 0) || (z <? - 2 ^ 31)%Z || (2 ^ 31 <=? z)%Z then None else Some z.

Definition getMask (mask : option string) : Z :=
  match mask with
  | None => NO_ID
  | Some mask => match stoi0 mask with Some z => as_id z | None => NO_ID end
  end.

(** [getpwnam] and [getgrnam] are asked only when there is no number. *)
Definition getUid (getpwnam : string → option Z) (user : option string) : Z :=
  match user with
  | None => NO_ID
  | Some user => match stoi10 user with Some z => as_id z | None => default NO_ID (getpwnam user) end
  end.
Definition getGid (getgrnam : string → option Z) (group : option string) : Z :=
  match group with
  | None => NO_ID
  | Some group => match stoi10 group with Some z => as_id z | None => default NO_ID (getgrnam group) end
  end.

Section cmdline.
Context {G : Type}.
(** [optind - 1] is where the word is that [getopt_long] has just looked at. *)
Context (getopt_long : list (string * OptHasArg * ascii) → string → G → Getopt * G) (last_word : G → string).
Context (getpwnam getgrnam : string → option Z) (execName CYNARA_VERSION : string).

Definition service_help : string :=
  help_lines ["Usage: " +:+ execName +:+ " [OPTIONS]"; "";
    "Information mode options [program exits after printing information]:";
    "  -V, --version                print version of " +:+ execName +:+ " and exit";
    "  -h, --help                   print this help message and exit";
    "Normal work mode options:";
    "  -d, --daemon                 daemonize [by default " +:+ execName +:+ " does not daemonize]";
    "  -m, --mask=MASK              set umask to MASK [by default no umask is set]";
    "  -u, --user=USER              change user to USER [by default uid is not changed]";
    "  -g, --group=GROUP            change group to GROUP [by default gid is not changed]"].

Definition printUnknownOption (option : string) : string := "Unknown option: " +:+ option +:+ endl.
Definition printInvalidParam (param : string) : string := "Invalid param: " +:+ param +:+ endl.
Definition printMissingArgument (option : string) : string := "Missing argument for option: " +:+ option +:+ endl.

Definition service_longOptions : list (string * OptHasArg * ascii) :=
  [("help", NoArgument, service_opt_char OptServiceHelp); ("version", NoArgument, service_opt_char OptVersion);
   ("daemon", NoArgument, service_opt_char OptDaemon); ("mask", RequiredArgument, service_opt_char OptMask);
   ("user", RequiredArgument, service_opt_char OptServiceUser); ("group", RequiredArgument, service_opt_char OptGroup)].
Definition service_shortOptions : string := ":hVdm:u:g:".

(** Options with the two texts that are written. *)
Record Cmdline := mkCmdline { cl_options : CmdLineOptions; cl_out : string; cl_err : string }.

Definition CmdLineOptions_new : CmdLineOptions := mkCmdLineOptions false false false NO_ID NO_ID NO_ID.
Definition leave (error : bool) (o : CmdLineOptions) : CmdLineOptions :=
  mkCmdLineOptions error true (m_daemon o) (m_mask o) (m_uid o) (m_gid o).
Definition setDaemon (o : CmdLineOptions) : CmdLineOptions := mkCmdLineOptions (m_error o) (m_exit o) true (m_mask o) (m_uid o) (m_gid o).
Definition setMask (x : Z) (o : CmdLineOptions) : CmdLineOptions := mkCmdLineOptions (m_error o) (m_exit o) (m_daemon o) x (m_uid o) (m_gid o).
Definition setUid (x : Z) (o : CmdLineOptions) : CmdLineOptions := mkCmdLineOptions (m_error o) (m_exit o) (m_daemon o) (m_mask o) x (m_gid o).
Definition setGid (x : Z) (o : CmdLineOptions) : CmdLineOptions := mkCmdLineOptions (m_error o) (m_exit o) (m_daemon o) (m_mask o) (m_uid o) x.

Definition invalid_param (optarg : option string) (o : CmdLineOptions) : outcome Cmdline :=
  param ← from_optarg optarg; Ret (mkCmdline (leave true o) service_help (printInvalidParam param)).

(** The loop: [ret] are the options so far. *)
Fixpoint cmdline_loop (fuel : nat) (ret : CmdLineOptions) (g : G) : outcome Cmdline :=
  match fuel with
  | 0 => OutOfFuel
  | S fuel' =>
      let selects opt o := bool_decide (opt = service_opt_char o) in
      match getopt_long service_longOptions service_shortOptions g with
      | (GetoptEnd, _) => Ret (mkCmdline ret "" "")
      | (GetoptOption opt optarg optopt, g') =>
          if selects opt OptServiceHelp then Ret (mkCmdline (leave false ret) service_help "")
          else if selects opt OptVersion then Ret (mkCmdline (leave false ret) (CYNARA_VERSION +:+ endl) "")
          else if selects opt OptDaemon then cmdline_loop fuel' (setDaemon ret) g'
          else if selects opt OptMask then
            let ret := setMask (getMask optarg) ret in
            if (m_mask ret =? NO_ID)%Z then invalid_param optarg ret else cmdline_loop fuel' ret g'
          else if selects opt OptServiceUser then
            let ret := setUid (getUid getpwnam optarg) ret in
            if (m_uid ret =? NO_ID)%Z then invalid_param optarg ret else cmdline_loop fuel' ret g'
          else if selects opt OptGroup then
            let ret := setGid (getGid getgrnam optarg) ret in
            if (m_gid ret =? NO_ID)%Z then invalid_param optarg ret else cmdline_loop fuel' ret g'
          else if bool_decide (opt = ":"%char) && (selects optopt OptMask || selects optopt OptServiceUser || selects optopt OptGroup) then
            Ret (mkCmdline (leave true ret) service_help (printMissingArgument (last_word g')))
          else Ret (mkCmdline (leave true ret) service_help (printUnknownOption (last_word g')))
      end
  end.

Definition handleCmdlineOptions (fuel : nat) (g : G) : outcome Cmdline := cmdline_loop fuel CmdLineOptions_new g.
End cmdline.

(** ** The process *)

Definition EXIT_SUCCESS : Z := 0.
Definition EXIT_FAILURE : Z := 1.

(** The result of [fork] decides which process the model follows: 0 is the child. *)
Class ProcessSystem (W : Type) := {
  sys_fork : W → Z * W;
  sys_setsid : W → bool * W;
  sys_chdir_root : W → bool * W;
  sys_open_null : W → Z * W;
  sys_dup2 : Z → Z → W → Z * W;
  sys_close_null : Z → W → W;
  proc_umask : Z → W → W;
  sys_setuid : Z → W → bool * W;
  sys_setgid : Z → W → bool * W;
}.

Section process.
Context {W : Type} `{PS : !ProcessSystem W}.

(** A part of the program that may end the process ([exit]), with the exit code. *)
Definition Exits (A : Type) : Type := W → (A + Z) * W.
Definition exits_bind {A B} (m : Exits A) (f : A → Exits B) : Exits B := λ w,
  match m w with (inl a, w') => f a w' | (inr code, w') => (inr code, w') end.
Definition exit {A} (code : Z) : Exits A := λ w, (inr code, w).
Definition go_on : Exits unit := λ w, (inl tt, w).
Definition ask {A} (f : W → A * W) : Exits A := λ w, let '(a, w') := f w in (inl a, w').

Definition daemonize_fork : Exits unit :=
  exits_bind (ask sys_fork) (λ pid,
    if (pid =? -1)%Z then exit EXIT_FAILURE else if (pid =? 0)%Z then go_on else exit EXIT_SUCCESS).

Definition or_fail (ok : bool) : Exits unit := if ok then go_on else exit EXIT_FAILURE.

Fixpoint dup_std (fd : Z) (stdFds : list Z) : Exits unit :=
  match stdFds with
  | [] => go_on
  | stdFd :: stdFds' => exits_bind (ask (sys_dup2 fd stdFd)) (λ r, exits_bind (or_fail (r =? stdFd)%Z) (λ _, dup_std fd stdFds'))
  end.

Definition daemonize : Exits unit :=
  exits_bind daemonize_fork (λ _,
  exits_bind (ask sys_setsid) (λ ok, exits_bind (or_fail ok) (λ _,
  exits_bind daemonize_fork (λ _,
  exits_bind (ask sys_chdir_root) (λ ok, exits_bind (or_fail ok) (λ _,
  exits_bind (ask sys_open_null) (λ fd, exits_bind (or_fail (negb (fd <? 0)%Z)) (λ _,
  exits_bind (dup_std fd [0; 1; 2]%Z) (λ _,
  if bool_decide (fd ∈ [0; 1; 2]%Z) then go_on else λ w, (inl tt, sys_close_null fd w)))))))))).

(** The rights of the process: the mask, then the user, then the group. *)
Definition setRights (options : CmdLineOptions) : Exits unit :=
  exits_bind (if (m_mask options =? NO_ID)%Z then go_on else λ w, (inl tt, proc_umask (m_mask options) w)) (λ _,
  exits_bind (if (m_uid options =? NO_ID)%Z then go_on else exits_bind (ask (sys_setuid (m_uid options))) or_fail) (λ _,
  if (m_gid options =? NO_ID)%Z then go_on else exits_bind (ask (sys_setgid (m_gid options))) or_fail)).

(** [main]; [service] is the life of the object [Cynara] ([cynara_lives] below).  What is
    logged is not modelled. *)
Definition service_main (cmdline : outcome Cmdline) (service : SE W unit) (w : W) : outcome Z * W :=
  match cmdline with
  | Ret c =>
      let options := cl_options c in
      if m_error options then (Ret EXIT_FAILURE, w)
      else if m_exit options then (Ret EXIT_SUCCESS, w)
      else
        match exits_bind (if m_daemon options then daemonize else go_on) (λ _, setRights options) w with
        | (inr code, w') => (Ret code, w')
        | (inl _, w') =>
            match service w' with
            | (Ret _, w'') => (Ret EXIT_SUCCESS, w'')
            | (Throw UndefinedBehaviour, w'') => (Throw UndefinedBehaviour, w'')
            | (Throw _, w'') => (Ret EXIT_FAILURE, w'')
            | (OutOfFuel, w'') => (OutOfFuel, w'')
            end
        end
  | Throw UndefinedBehaviour => (Throw UndefinedBehaviour, w)
  | Throw _ => (Ret EXIT_FAILURE, w)
  | OutOfFuel => (OutOfFuel, w)
  end.
End process.

(** ** [Cynara] *)

Section cynara.
Context `{HO : HashOrder} {B D Plugin P : Type} `{SB : StorageBackend B} `{H : !Host B D Plugin P} `{SS : !SocketSystem D}.
Context (depth : nat) (empty : B) (level : AuditLevel) (libraries : list (option Plugin)) (plugins : P).
Context (lockFile clientPath : string) (with_systemd : bool).
Context (sys_open : string → D → (nat + Z) * D) (sys_flock : nat → FlockOperation → D → option Z * D) (sys_close_lock : nat → D → D).
Context (sys_read : nat → SE (SocketManager * Service Plugin P B D) ReadResult)
  (sys_write : nat → string → SE (SocketManager * Service Plugin P B D) WriteResult)
  (sys_accept : nat → SE (SocketManager * Service Plugin P B D) (option nat))
  (sys_close : nat → SE (SocketManager * Service Plugin P B D) unit).
Context (rounds steps fuel : nat).

(** The system calls, on the system behind the service. *)
Definition on_disk {A} (f : D → A * D) (s : Service Plugin P B D) : A * Service Plugin P B D :=
  let '(a, d) := f (disk s) in (a, setDisk d s).
#[local] Instance service_sockets : SocketSystem (Service Plugin P B D) := {|
  sys_socket := on_disk sys_socket;
  sys_fcntl_getfl fd := on_disk (sys_fcntl_getfl fd);
  sys_fcntl_setfl fd flags := on_disk (sys_fcntl_setfl fd flags);
  sys_unlink path s := setDisk (sys_unlink path (disk s)) s;
  sys_umask mask := on_disk (sys_umask mask);
  sys_bind fd path := on_disk (sys_bind fd path);
  sys_listen fd := on_disk (sys_listen fd);
  sys_close_fd fd s := setDisk (sys_close_fd fd (disk s)) s;
  sd_listen_fds := on_disk sd_listen_fds;
  sd_is_socket_unix fd path := on_disk (sd_is_socket_unix fd path);
  sys_sigprocmask_term := on_disk sys_sigprocmask_term;
  sys_signalfd_term := on_disk sys_signalfd_term;
  sys_select n rs ws := on_disk (sys_select n rs ws);
|}.

(** [init]: the objects are made and bound to each other, the lock on the database is waited
    for, the database and the plugins are loaded. *)
Definition cynara_init (m_databaseLock : Lockable) : SE (SocketManager * Service Plugin P B D) unit :=
  (λ '(sm, s), let '(r, d) := lock sys_flock m_databaseLock (disk s) in (r, (sm, setDisk d s))) ;;
  Cynara_init libraries.

(** [run] *)
Definition cynara_run : SE (SocketManager * Service Plugin P B D) unit :=
  manager_run with_systemd clientPath (Logic_execute depth) (contextClosed (B := B) (D := D)) sys_read sys_write sys_accept sys_close rounds steps fuel.

(** The constructor, [init], [run], [finalize] and the destructor: whatever happens after the
    constructor, the lock is given back and its file is closed. *)
Definition cynara_lives : SE D unit := λ d,
  match Lockable_new sys_open lockFile d with
  | (Ret lockable, d1) =>
      let '(r, (_, s)) := (cynara_init lockable ;; cynara_run) (SocketManager_new, Service_new empty level plugins d1) in
      (r, sys_close_lock (m_lockFd lockable) (unlock sys_flock lockable (disk s)))
  | (Throw e, d1) => (Throw e, d1)
  | (OutOfFuel, d1) => (OutOfFuel, d1)
  end.
End cynara.
