(* ===== verification/ServiceMainTheorems.v ===== *)
(** * Theorems on the process of the service

    The signal to terminate ends the main loop; the group can not be changed after the user.
    At the end small systems on which these and the theorems on the sockets apply. *)
From S2P Require Import Prelude Text Types Api Bucket StorageBackend Storage InMemoryStorageBackend.
From S2P Require Import BinaryQueue Serialization Frame Messages ProtocolClient ProtocolAgent Protocols SocketManager SocketInit ConnectionTheorems SocketInitTheorems.
From S2P Require Import EntriesQueue Monitor PluginManager Agents Service ServiceDemo FileLock CyadOptions CyadParser ServiceMain.

(** ** The main loop *)

Section loop.
Context {W : Type} `{SY : !SocketSystem W}.
Context (execute : nat → Request → SE (SocketManager * W) unit) (contextClosed : nat → SE (SocketManager * W) unit)
  (sys_read : nat → SE (SocketManager * W) ReadResult) (sys_write : nat → string → SE (SocketManager * W) WriteResult)
  (sys_accept : nat → SE (SocketManager * W) (option nat)) (sys_close : nat → SE (SocketManager * W) unit).

Abbreviation serve := (serveReady execute contextClosed sys_read sys_write sys_accept sys_close) (only parsing).
Abbreviation ready := (readyForRead execute contextClosed sys_read sys_accept sys_close) (only parsing).

(** A descriptor for signals with nothing in its buffer. *)
Definition for_signals (m : SocketManager) (fd : nat) : Prop :=
  ∃ h, speaks m fd PSignal h ∧ queue_ok (m_frameHeaderContent h) ∧ bytes (m_frameHeaderContent h) = "" ∧
    (∀ d, m_fds m !! fd = Some d → m_listen d = false).

(** A signal that is read is executed, once. *)
Lemma signal_read fuel fd info (m m' : SocketManager) (w w' w'' : W) :
  2 ≤ fuel → for_signals m fd → String.length info = siginfo_size →
  sys_read fd (m, w) = (Ret (ReadData info), (m, w')) →
  (∀ m1, (∃ h, m1 = with_header m fd h) → execute fd (SignalRequest info) (m1, w') = (Ret tt, (setWorking false m1, w''))) →
  ∃ m', ready fuel fd (m, w) = (Ret tt, (m', w'')) ∧ m_working m' = false ∧ m_maxDesc m' = m_maxDesc m ∧ (slots_ok m → slots_ok m').
Proof.
  intros Hf (h & Hs & Hok & Hb & Hl) Hinfo Hread Hexec. destruct fuel as [|[|fuel]]; [lia..|].
  pose proof Hs as (d & Hd & Hp & Hh).
  destruct (appendUnmanaged_ok info _ Hok) as (q & Hq & Hokq & Hbq). rewrite Hb in Hbq. change ("" +:+ info) with info in Hbq.
  destruct (flattenConsume_ok siginfo_size q Hokq) as (q2 & Hq2 & Hok2 & Hb2); [rewrite Hbq; lia|]. rewrite Hbq in Hq2, Hb2.
  rewrite <-Hinfo in Hq2 at 2. rewrite stake_all in Hq2 by done.
  set (h1 := setHeaderContent q h). set (h2 := setHeaderContent q2 h1).
  assert (onContent (appendCopy info) h = (Ret tt, h1)) as Ha by (unfold onContent, appendCopy; by rewrite Hq).
  assert (extractRequestFromBuffer PSignal h1 = (Ret (Some (SignalRequest info)), h2)) as He1.
  { cbn [extractRequestFromBuffer]. unfold onContent, signal_extractRequestFromBuffer. rewrite SE_bind_eq. cbn [get]. unfold queue_size.
    change (m_frameHeaderContent h1) with q. rewrite (proj2 Hokq), Hbq, Hinfo, Nat.leb_refl. rewrite SE_bind_eq, Hq2. done. }
  assert (extractRequestFromBuffer PSignal h2 = (Ret None, h2)) as He2.
  { cbn [extractRequestFromBuffer]. unfold onContent, signal_extractRequestFromBuffer. rewrite SE_bind_eq. cbn [get]. unfold queue_size.
    change (m_frameHeaderContent h2) with q2. rewrite (proj2 Hok2), Hb2, str_length_sdrop, Hinfo. by rewrite Nat.sub_diag. }
  set (m2 := with_header m fd h2). assert (speaks m2 fd PSignal h2) as Hs2 by (by eapply speaks_with_header).
  exists (setWorking false m2). split; [|split; [done|]].
  - unfold readyForRead. rewrite SE_bind_eq. cbn [desc]. rewrite Hd, (Hl d Hd). rewrite SE_bind_eq, Hread. rewrite SE_bind_eq.
    unfold handleRead, pushReadBuffer. rewrite SE_bind_eq, (onDesc_header m w' fd PSignal h _ _ _ Hs Ha).
    pose proof (speaks_with_header m fd PSignal h h1 Hs) as Hs1. unfold tryCatch. rewrite SE_bind_eq. cbn [handleReadLoop]. rewrite SE_bind_eq.
    rewrite (extractRequest_header _ w' fd PSignal h1 _ _ Hs1 He1), with_header_twice. fold m2. rewrite SE_bind_eq, Hexec by (by eexists).
    rewrite SE_bind_eq. assert (speaks (setWorking false m2) fd PSignal h2) as Hs3 by exact Hs2.
    rewrite (extractRequest_header _ w'' fd PSignal h2 _ _ Hs3 He2). rewrite (with_header_same _ _ _ _ Hs3). done.
  - unfold m2, with_header. rewrite Hd. split; [done|]. intros [Hmax Hfree]. split; cbn [setWorking setFds m_maxDesc m_fds]; [by rewrite length_insert|].
    intros fd' d' Hd' Hu. destruct (decide (fd = fd')) as [<-|Hne]; [|rewrite list_lookup_insert_ne in Hd' by done; by eapply Hfree].
    rewrite list_lookup_insert_eq in Hd' by (by eapply lookup_lt_Some). injection Hd' as <-. cbn in Hu. 
    rewrite (Hfree _ _ Hd Hu) in Hp. done.
Qed.
End loop.

Section sigterm.
Context `{HO : HashOrder} {B D Plugin P : Type} `{SB : StorageBackend B} `{H : !Host B D Plugin P}.
Abbreviation S := (Service Plugin P B D) (only parsing).
Context `{SY : !SocketSystem S}.
Context (contextClosed : nat → SE (SocketManager * S) unit) (sys_read : nat → SE (SocketManager * S) ReadResult)
  (sys_write : nat → string → SE (SocketManager * S) WriteResult) (sys_accept : nat → SE (SocketManager * S) (option nat))
  (sys_close : nat → SE (SocketManager * S) unit).

(** C29: The signal to terminate ends the main loop.  When [select] reports the descriptor for
    signals and a SIGTERM is read there, this turn is the last one: the loop ends normally,
    with nothing else done, however many turns it may still have taken. *)
Theorem sigterm_stops depth rounds steps fuel fd info (sm : SocketManager) (s s1 s2 : S) :
  m_working sm = true → slots_ok sm → (m_maxDesc sm < Z.of_nat FD_SETSIZE)%Z →
  for_signals sm fd → (Z.of_nat fd <= m_maxDesc sm)%Z → fd < steps → 2 ≤ fuel →
  String.length info = siginfo_size → signalNumber info = SIGTERM →
  sys_select (m_maxDesc sm + 1) (m_readSet sm) (m_writeSet sm) s = (SelectReady {[fd]} ∅, s1) →
  sys_read fd (sm, s1) = (Ret (ReadData info), (sm, s2)) →
  ∃ sm', mainLoop_from (Logic_execute depth) contextClosed sys_read sys_write sys_accept sys_close (Datatypes.S rounds) steps fuel (sm, s) =
    (Ret tt, (sm', s2)) ∧ m_working sm' = false.
Proof.
  intros Hw Hok Hmax Hsig Hfd Hsteps Hfuel Hinfo Hterm Hselect Hread.
  destruct (signal_read (Logic_execute depth) contextClosed sys_read sys_accept sys_close fuel fd info sm sm s1 s2 s2 Hfuel Hsig Hinfo Hread)
    as (sm1 & H1 & Hw1 & Hmax1 & Hok1).
  { intros m1 _. unfold Logic_execute. rewrite SE_bind_eq. cbn [service gets]. by rewrite Hterm. }
  destruct (armWriters_arms sm1 s2) as (ws & H2 & _); [by apply Hok1|by rewrite Hmax1|].
  exists (setWriteSet ws sm1). split; [|exact Hw1]. cbn [mainLoop_from fst]. rewrite Hw, SE_bind_eq. unfold call at 1. rewrite Hselect.
  rewrite size_singleton, size_empty. cbn [Nat.add Nat.eqb]. rewrite SE_bind_eq. unfold mainLoopTurn. rewrite size_singleton, size_empty. cbn [Nat.add].
  rewrite SE_bind_eq. rewrite (serve_reader _ _ _ _ _ _ fuel fd steps 0 (sm, s1) (sm1, s2)); [|lia|lia|done|done].
  rewrite H2. destruct rounds; cbn [mainLoop_from fst]; cbn [m_working setWriteSet]; by rewrite Hw1.
Qed.
End sigterm.

(** ** User and group *)

Section rights.
Context {W G : Type} `{PS : !ProcessSystem W}.
Context (getopt_long : list (string * OptHasArg * ascii) → string → G → Getopt * G) (last_word : G → string).
Context (getpwnam getgrnam : string → option Z) (execName CYNARA_VERSION : string).

(** From [g], [getopt_long] finds the options [os] with their arguments, and the end. *)
Fixpoint service_delivers (os : list (ServiceOpt * string)) (g : G) : Prop :=
  let '(o, g') := getopt_long service_longOptions service_shortOptions g in
  match os with
  | [] => o = GetoptEnd
  | (opt, arg) :: os' => (∃ optopt, o = GetoptOption (service_opt_char opt) (Some arg) optopt) ∧ service_delivers os' g'
  end.

(** An option with its argument: its value, and the options with it. *)
Definition option_value (oa : ServiceOpt * string) : Z :=
  match oa.1 with
  | OptMask => getMask (Some oa.2)
  | OptServiceUser => getUid getpwnam (Some oa.2)
  | OptGroup => getGid getgrnam (Some oa.2)
  | _ => NO_ID
  end.
Definition applied (o : CmdLineOptions) (oa : ServiceOpt * string) : CmdLineOptions :=
  match oa.1 with
  | OptMask => setMask (option_value oa) o
  | OptServiceUser => setUid (option_value oa) o
  | OptGroup => setGid (option_value oa) o
  | _ => o
  end.

Lemma cmdline_applied os fuel ret g :
  length os < fuel → service_delivers os g → Forall (λ oa, option_value oa ≠ NO_ID) os →
  cmdline_loop getopt_long last_word getpwnam getgrnam execName CYNARA_VERSION fuel ret g = Ret (mkCmdline (foldl applied ret os) "" "").
Proof.
  revert fuel ret g. induction os as [|[o arg] os IH]; intros fuel ret g Hf Hd Hall; (destruct fuel as [|fuel]; [cbn in Hf; lia|]);
    cbn [cmdline_loop service_delivers foldl] in *; destruct (getopt_long _ _ g) as [r g'].
  - by rewrite Hd.
  - destruct Hd as [[optopt ->] Hd]. apply Forall_cons in Hall as [Hv Hall]. cbn in Hf.
    destruct o; try done; cbn [service_opt_char] in *;
      repeat match goal with |- context [bool_decide (?a = ?b)] => change (bool_decide (a = b)) with false || change (bool_decide (a = b)) with true end; cbv iota;
      unfold option_value in Hv; cbn [fst snd] in Hv; cbn [setMask setUid setGid m_mask m_uid m_gid];
      rewrite (proj2 (Z.eqb_neq _ _) Hv), IH by (done || lia); done.
Qed.

Lemma applied_flags os ret : m_error (foldl applied ret os) = m_error ret ∧ m_exit (foldl applied ret os) = m_exit ret ∧ m_daemon (foldl applied ret os) = m_daemon ret.
Proof. revert ret. induction os as [|[o arg] os IH]; intros ret; [done|]. cbn [foldl]. destruct (IH (applied ret (o, arg))) as (-> & -> & ->). by destruct o. Qed.

(** C37: Changing user and group does not work together.  The process changes its user first,
    whatever the order of the options; a system where only the superuser may take a group
    that is not its own then refuses the group, and the service ends with an error before
    it has started.  The user is not the superuser, the group is not one of the process's
    own, and the options are those for the mask, the user and the group, with values that
    are told apart from "not set"; [--daemon] is not among them. *)
Theorem group_after_user own_group os fuel g w :
  (∀ uid gid w w', uid ≠ 0%Z → sys_setuid uid w = (true, w') → ¬ own_group w gid → (sys_setgid gid w').1 = false) →
  length os < fuel → service_delivers os g → Forall (λ oa, option_value oa ≠ NO_ID) os →
  let options := foldl applied CmdLineOptions_new os in
  m_uid options ≠ NO_ID → m_uid options ≠ 0%Z → m_gid options ≠ NO_ID →
  (∀ mask, ¬ own_group w (m_gid options) ∧ ¬ own_group (proc_umask mask w) (m_gid options)) →
  ∃ w', ∀ service : SE W unit,
    service_main (handleCmdlineOptions getopt_long last_word getpwnam getgrnam execName CYNARA_VERSION fuel g) service w = (Ret EXIT_FAILURE, w').
Proof.
  intros Hlaw Hf Hd Hall options Huid Hroot Hgid Hown. unfold handleCmdlineOptions. rewrite (cmdline_applied os) by done. fold options.
  destruct (applied_flags os CmdLineOptions_new) as (He & Hx & Hdm). fold options in He, Hx, Hdm.
  set (w1 := if (m_mask options =? NO_ID)%Z then w else proc_umask (m_mask options) w).
  assert (¬ own_group w1 (m_gid options)) as Hown1 by (unfold w1; destruct (_ =? _)%Z; [exact (proj1 (Hown 0%Z))|apply Hown]).
  assert (∃ w', setRights options w = (inr EXIT_FAILURE, w')) as [w' Hrights].
  { unfold setRights, exits_bind. assert ((if (m_mask options =? NO_ID)%Z then go_on else λ w, (inl tt, proc_umask (m_mask options) w)) w = (inl tt, w1)) as ->.
    { unfold w1. by destruct (_ =? _)%Z. }
    rewrite (proj2 (Z.eqb_neq _ _) Huid). unfold ask. destruct (sys_setuid (m_uid options) w1) as [ok w2] eqn:E. destruct ok; cbn [or_fail]; [|by eexists].
    cbn [go_on]. rewrite (proj2 (Z.eqb_neq _ _) Hgid). pose proof (Hlaw _ _ _ _ Hroot E Hown1) as Hg.
    destruct (sys_setgid (m_gid options) w2) as [ok w3]. cbn in Hg. subst ok. by eexists. }
  exists w'. intros service. unfold service_main. cbn [cl_options]. rewrite He, Hx, Hdm. cbn [CmdLineOptions_new m_error m_exit m_daemon].
  unfold exits_bind at 1. cbn [go_on]. by rewrite Hrights.
Qed.
End rights.

(** ** Small systems: sockets *)

(** The mask, how many descriptors are open, the paths of those that are sockets, how many
    systemd has handed over, and what is bound.  There are no more descriptors than a set can
    hold. *)
Record DemoNet := mkDemoNet {
  net_mask : Z; net_open : nat; net_names : gmap nat string; net_handed : nat; net_bound : list (nat * string * Z) }.
Definition net_fresh (w : DemoNet) : option nat * DemoNet :=
  if net_open w <? FD_SETSIZE
  then (Some (net_open w), mkDemoNet (net_mask w) (S (net_open w)) (net_names w) (net_handed w) (net_bound w)) else (None, w).

#[local] Instance net_system : SocketSystem DemoNet := {|
  sys_socket := net_fresh;
  sys_fcntl_getfl _ w := (Some 2%Z, w);
  sys_fcntl_setfl _ _ w := (true, w);
  sys_unlink _ w := w;
  sys_umask mask w := (net_mask w, mkDemoNet mask (net_open w) (net_names w) (net_handed w) (net_bound w));
  sys_bind fd path w :=
    (true, mkDemoNet (net_mask w) (net_open w) (<[fd := path]> (net_names w)) (net_handed w) (net_bound w ++ [(fd, path, net_mask w)]));
  sys_listen _ w := (true, w);
  sys_close_fd _ w := w;
  sd_listen_fds w := (Z.of_nat (net_handed w), w);
  sd_is_socket_unix fd path w := (if decide (net_names w !! fd = Some path) then 1%Z else 0%Z, w);
  sys_sigprocmask_term w := (true, w);
  sys_signalfd_term := net_fresh;
  sys_select _ _ _ w := (SelectInterrupted, w);
|}.

#[local] Instance net_laws : SocketSystemLaws DemoNet.
Proof.
  set (op := λ w : DemoNet, set_seq 0 (net_open w) : gset nat).
  assert (∀ w, net_mask (net_fresh w).2 = net_mask w ∧ net_names (net_fresh w).2 = net_names w ∧ net_bound (net_fresh w).2 = net_bound w ∧
    match (net_fresh w).1 with
    | Some fd => (fd ∉ op w) ∧ (∀ n, n < fd → n ∈ op w) ∧ op (net_fresh w).2 = {[fd]} ∪ op w
    | None => op (net_fresh w).2 = op w
    end) as Hfresh.
  { intros w. unfold net_fresh. destruct (_ <? _); [|done]. unfold op; cbn. split_and!; try done.
    - rewrite elem_of_set_seq. lia.
    - intros n Hn. apply elem_of_set_seq. lia.
    - exact (set_seq_S_end_union_L (C:=gset nat) 0 (net_open w)). }
  refine {| mask_of := net_mask; opened := op; named := net_names; bound := net_bound |}; try (intros; done); try exact Hfresh.
  intros fd path w. split; [done|]. cbn. by case_decide.
Defined.

(** Three descriptors are open, and a fourth if systemd has handed over the socket of the
    administrators. *)
Definition demo_net : DemoNet := mkDemoNet 18 3 ∅ 0 [].
Definition demo_net_handed : DemoNet := mkDemoNet 18 4 {[3 := "/run/cynara/cynara-admin.socket"]} 1 [].

Lemma demo_net_started : started 5 demo_net ∧ started 5 demo_net_handed.
Proof.
  assert (∀ w fd, fd ∈ opened w → fd < net_open w) as Hop by (intros w fd Hfd; change (fd ∈ (set_seq 0 (net_open w) : gset nat)) in Hfd; by apply elem_of_set_seq in Hfd as [_ ?]).
  split; split.
  - set_solver.
  - intros fd Hfd%Hop. cbn in Hfd. unfold FD_SETSIZE. lia.
  - apply Nat.leb_le. by vm_compute.
  - intros fd. cbn. rewrite dom_singleton, elem_of_singleton. intros ->. change (3 ∈ (set_seq 0 4 : gset nat)). apply elem_of_set_seq. lia.
  - intros fd Hfd%Hop. cbn in Hfd. unfold FD_SETSIZE. lia.
  - apply Nat.leb_le. by vm_compute.
Qed.

(** Both builds; with systemd, the socket of the administrators is the one handed over, and only
    the three others are bound. *)
Lemma sockets_protected_witness :
  (∃ r m w', manager_init false "/run/cynara/" (SocketManager_new, demo_net) = (r, (m, w')) ∧
    (r = Throw InitException ∧ ¬ granted DemoNet ∨
     r = Ret tt ∧ net_mask w' = 18%Z ∧
     ∃ c a g e, NoDup [c; a; g; e] ∧
       net_bound w' = listeners "/run/cynara/" c a g e ≫= (λ l, bound_here (l_fd l) (l_path l) (l_mask l) demo_net) ∧
       ∀ l, l ∈ listeners "/run/cynara/" c a g e → protected false demo_net m w' l)) ∧
  (∃ r m w', manager_init true "/run/cynara/" (SocketManager_new, demo_net_handed) = (r, (m, w')) ∧
    (r = Throw InitException ∧ ¬ granted DemoNet ∨
     r = Ret tt ∧ net_mask w' = 18%Z ∧
     ∃ c a g e, NoDup [c; a; g; e] ∧
       net_bound w' = listeners "/run/cynara/" c a g e ≫= (λ l, bound_here (l_fd l) (l_path l) (l_mask l) demo_net_handed) ∧
       ∀ l, l ∈ listeners "/run/cynara/" c a g e → protected true demo_net_handed m w' l)).
Proof.
  destruct demo_net_started as [Hs1 Hs2]. split.
  - destruct (manager_init false "/run/cynara/" (SocketManager_new, demo_net)) as [r [m w']] eqn:E. exists r, m, w'. split; [reflexivity|].
    exact (sockets_protected false "/run/cynara/" m demo_net r w' ltac:(cbn; lia) Hs1 E).
  - destruct (manager_init true "/run/cynara/" (SocketManager_new, demo_net_handed)) as [r [m w']] eqn:E. exists r, m, w'. split; [reflexivity|].
    exact (sockets_protected true "/run/cynara/" m demo_net_handed r w' ltac:(cbn; lia) Hs2 E).
Defined.

Example demo_net_start :
  (manager_init false "/run/cynara/" (SocketManager_new, demo_net)).1 = Ret tt ∧
  net_bound (manager_init false "/run/cynara/" (SocketManager_new, demo_net)).2.2 =
    [(3, "/run/cynara/cynara.socket", 0%Z); (4, "/run/cynara/cynara-admin.socket", 63%Z);
     (5, "/run/cynara/cynara-agent.socket", 0%Z); (6, "/run/cynara/cynara-monitor-get.socket", 0%Z)].
Proof. by vm_compute. Qed.
Example demo_net_systemd_start :
  (manager_init true "/run/cynara/" (SocketManager_new, demo_net_handed)).1 = Ret tt ∧
  net_bound (manager_init true "/run/cynara/" (SocketManager_new, demo_net_handed)).2.2 =
    [(4, "/run/cynara/cynara.socket", 0%Z); (5, "/run/cynara/cynara-agent.socket", 0%Z);
     (6, "/run/cynara/cynara-monitor-get.socket", 0%Z)].
Proof. by vm_compute. Qed.

(** ** The signal *)

(** A [signalfd_siginfo] of a SIGTERM. *)
Definition sigterm_info : string := String.append (String "015" "") (String.string_of_list_ascii (replicate 127 "000"%char)).

Definition demo_signal_sockets : SocketManager :=
  mkSocketManager true 4 (m_fds demo_sockets ++ [slot_for false false PSignal]) {[1; 2; 3; 4]} ∅.

#[local] Instance select_signal : SocketSystem DemoService := {|
  sys_socket w := (None, w);
  sys_fcntl_getfl _ w := (None, w);
  sys_fcntl_setfl _ _ w := (false, w);
  sys_unlink _ w := w;
  sys_umask _ w := (0%Z, w);
  sys_bind _ _ w := (false, w);
  sys_listen _ w := (false, w);
  sys_close_fd _ w := w;
  sd_listen_fds w := (0%Z, w);
  sd_is_socket_unix _ _ w := (0%Z, w);
  sys_sigprocmask_term w := (false, w);
  sys_signalfd_term w := (None, w);
  sys_select _ _ _ w := (SelectReady {[4]} ∅, w);
|}.

Lemma sigterm_stops_witness :
  ∃ sm', mainLoop_from (Logic_execute 5) (λ _, mret tt) (λ _, mret (ReadData sigterm_info)) (λ _ _, mret WriteAgain) (λ _, mret None) (λ _, mret tt)
      7 5 3 (demo_signal_sockets, demo_service) = (Ret tt, (sm', demo_service)) ∧ m_working sm' = false.
Proof.
  apply (sigterm_stops (λ _, mret tt) (λ _, mret (ReadData sigterm_info)) (λ _ _, mret WriteAgain) (λ _, mret None) (λ _, mret tt)
    5 6 5 3 4 sigterm_info demo_signal_sockets demo_service demo_service demo_service); try reflexivity.
  - split; [cbn; lia|]. intros fd d Hd Hu.
    do 5 (destruct fd as [|fd]; [injection Hd as <-; (done || reflexivity)|]). done.
  - exists (ProtocolFrameHeader_new BinaryQueue_new). split_and!.
    + eexists. split; [reflexivity|]. split; reflexivity.
    + apply queue_ok_new.
    + reflexivity.
    + intros d Hd. injection Hd as <-. reflexivity.
  - cbn. lia.
  - lia.
Defined.

(** ** User and group *)

(** A process with a user and a group, of which only the superuser may change to others. *)
#[local] Instance demo_process : ProcessSystem (Z * Z) := {|
  sys_fork w := (0%Z, w);
  sys_setsid w := (true, w);
  sys_chdir_root w := (true, w);
  sys_open_null w := (3%Z, w);
  sys_dup2 _ n w := (n, w);
  sys_close_null _ w := w;
  proc_umask _ w := w;
  sys_setuid uid w := if (w.1 =? 0)%Z || (w.1 =? uid)%Z then (true, (uid, w.2)) else (false, w);
  sys_setgid gid w := if (w.1 =? 0)%Z || (w.2 =? gid)%Z then (true, (w.1, gid)) else (false, w);
|}.

Definition service_words (_ : list (string * OptHasArg * ascii)) (_ : string) (g : list (ServiceOpt * string)) : Getopt * list (ServiceOpt * string) :=
  match g with [] => (GetoptEnd, []) | (o, arg) :: g' => (GetoptOption (service_opt_char o) (Some arg) "0", g') end.
Definition demo_passwd (name : string) : option Z := if bool_decide (name = "cynara") then Some 201%Z else None.

Definition demo_main (g : list (ServiceOpt * string)) (service : SE (Z * Z) unit) : outcome Z * (Z * Z) :=
  service_main (handleCmdlineOptions service_words (λ _, "") demo_passwd demo_passwd "cynara" "1.0" 9 g) service (0%Z, 0%Z).

Lemma group_after_user_witness :
  ∃ w', ∀ service, demo_main [(OptGroup, "cynara"); (OptServiceUser, "cynara")] service = (Ret EXIT_FAILURE, w').
Proof.
  apply (group_after_user service_words (λ _, "") demo_passwd demo_passwd "cynara" "1.0" (λ w gid, w.2 = gid)
    [(OptGroup, "cynara"); (OptServiceUser, "cynara")] 9 _ (0%Z, 0%Z)); try done.
  - intros uid gid [u g0] w' Huid Hset Hown. cbn in *. destruct (_ || _); [|done]. injection Hset as <-. cbn.
    rewrite (proj2 (Z.eqb_neq _ _) Huid), (proj2 (Z.eqb_neq _ _) Hown). done.
  - cbn. lia.
  - cbn. repeat (split; [by eexists|]). reflexivity.
  - repeat constructor; vm_compute; discriminate.
Defined.

(** Either option alone does what it says, and a user is taken by the number its name starts with. *)
Example demo_user : demo_main [(OptServiceUser, "cynara")] (mret tt) = (Ret EXIT_SUCCESS, (201%Z, 0%Z)).
Proof. vm_compute. reflexivity. Qed.
Example demo_group : demo_main [(OptGroup, "201")] (mret tt) = (Ret EXIT_SUCCESS, (0%Z, 201%Z)).
Proof. vm_compute. reflexivity. Qed.
Example demo_number : demo_main [(OptServiceUser, "7zip")] (mret tt) = (Ret EXIT_SUCCESS, (7%Z, 0%Z)).
Proof. vm_compute. reflexivity. Qed.
