(* ===== verification/Creds.v ===== *)
(** * Credentials of a client and its session ([helpers])

    Services ask these libraries for the names under which a process is known to Cynara:
    over a socket, about itself, or over D-Bus.  Which name is meant is configured.  The
    system calls, [libdbus] and GLib are arguments. *)
From S2P Require Import Prelude Text FileSystem Types Api Bucket StorageBackend Storage StorageSerialization CyadOptions.

(** ** [creds-commons] *)

Definition CLIENT_METHOD_SMACK : Z := 0.
Definition CLIENT_METHOD_PID : Z := 1.
Definition CLIENT_METHOD_DEFAULT : Z := 65535.
Definition USER_METHOD_UID : Z := 0.
Definition USER_METHOD_GID : Z := 1.
Definition USER_METHOD_DEFAULT : Z := 65535.

(** Text is in the C locale. *)
Definition ltrim (s : string) : string := sdrop (skip_spaces s) s.
Fixpoint rtrim (s : string) : string :=
  match s with
  | "" => ""
  | String c s' => match rtrim s' with "" => if isspace c then "" else String c "" | r => String c r end
  end.
Definition normalizeString (s : string) : string := tolower (ltrim (rtrim s)).

(** What is before the first [#]; an empty line gives nothing. *)
Definition uncommented (rawLine : string) : option string :=
  if bool_decide (rawLine = "") then None
  else Some (match find_char "#" rawLine with Some n => stake n rawLine | None => rawLine end).

(** [f] are the lines that are left. *)
Fixpoint getKeyAndValue (f : list string) : option (string * string * list string) :=
  match f with
  | [] => None
  | rawLine :: f' =>
      match uncommented rawLine with
      | None => getKeyAndValue f'
      | Some uncommentedLine =>
          match find_char "=" uncommentedLine with
          | None => getKeyAndValue f'
          | Some found =>
              let tempKey := stake found uncommentedLine in
              let tempValue := sdrop (found + 1) uncommentedLine in
              if bool_decide (tempKey = "") then getKeyAndValue f'
              else Some (normalizeString tempKey, normalizeString tempValue, f')
          end
      end
  end.

(** A [std::map] from the words to the methods. *)
Abbreviation CredentialsMap := (gmap string Z) (only parsing).

(** Whether the value is right, the method, and [occurred]. *)
Definition interpretValue (methodCodeMap : CredentialsMap) (method : Z) (value : string) (occurred : bool) : bool * Z * bool :=
  if occurred then (false, method, occurred)
  else match methodCodeMap !! value with
       | None => (false, method, true)
       | Some m => (true, m, true)
       end.

(** The [while] loop; [lines] bounds it: every turn takes a line. *)
Fixpoint method_loop (lines : nat) (f : list string) (methodCodeMap : CredentialsMap) (methodName : string) (tmpMethod : Z) (occurred : bool) :
    Z + Z :=
  match lines with
  | 0 => if occurred then inr tmpMethod else inl CYNARA_API_CONFIGURATION_ERROR
  | S lines' =>
      match getKeyAndValue f with
      | None => if occurred then inr tmpMethod else inl CYNARA_API_CONFIGURATION_ERROR
      | Some (key, value, f') =>
          if bool_decide (key = methodName) then
            let '(ok, tmpMethod, occurred) := interpretValue methodCodeMap tmpMethod value occurred in
            if ok : bool then method_loop lines' f' methodCodeMap methodName tmpMethod occurred else inl CYNARA_API_CONFIGURATION_ERROR
          else method_loop lines' f' methodCodeMap methodName tmpMethod occurred
      end
  end.

(** The method or an error; [f] is the text of the stream, [garbage] what is in the variable
    before it is set. *)
Definition getMethodFromConfigurationFile (f : string) (methodCodeMap : CredentialsMap) (methodName : string) (garbage : Z) : Z + Z :=
  method_loop (length (getlines "010" f)) (getlines "010" f) methodCodeMap methodName garbage false.

Definition clientCredsMap : CredentialsMap := {[ "smack" := CLIENT_METHOD_SMACK; "pid" := CLIENT_METHOD_PID ]}.
Definition userCredsMap : CredentialsMap := {[ "uid" := USER_METHOD_UID; "gid" := USER_METHOD_GID ]}.

(** The system, with the static variables of the library. *)
Record CredsState (W : Type) := mkCredsState { cachedClient : Z; cachedUser : Z; credsSystem : W }.
Arguments mkCredsState {W} _ _ _.
Arguments cachedClient {W} _.
Arguments cachedUser {W} _.
Arguments credsSystem {W} _.

Section creds.
Context {W : Type}.
(** The text of [confPath + "/creds.conf"], if it can be opened. *)
Context (creds_conf : W → option string).

Abbreviation Creds := (CredsState W).

(** An error code, or a value. *)
Definition Api (A : Type) : Type := Creds → (Z + A) * Creds.
Definition api_bind {A B} (m : Api A) (f : A → Api B) : Api B := λ s,
  match m s with (inl code, s') => (inl code, s') | (inr a, s') => f a s' end.
Definition api_ret {A} (a : A) : Api A := λ s, (inr a, s).
Definition api_error {A} (code : Z) : Api A := λ s, (inl code, s).
Definition api_system {A} (f : W → (Z + A) * W) : Api A := λ s,
  let '(r, w) := f (credsSystem s) in (r, mkCredsState (cachedClient s) (cachedUser s) w).

(** A value of -1 is none. *)
Definition cynara_creds_get_default_client_method : Api Z := λ s,
  if (cachedClient s =? -1)%Z then
    match creds_conf (credsSystem s) with
    | None => (inl CYNARA_API_CONFIGURATION_ERROR, s)
    | Some f =>
        match getMethodFromConfigurationFile f clientCredsMap "client_default" 0 with
        | inl code => (inl code, s)
        | inr method => (inr method, mkCredsState method (cachedUser s) (credsSystem s))
        end
    end
  else (inr (cachedClient s), s).

Definition cynara_creds_get_default_user_method : Api Z := λ s,
  if (cachedUser s =? -1)%Z then
    match creds_conf (credsSystem s) with
    | None => (inl CYNARA_API_CONFIGURATION_ERROR, s)
    | Some f =>
        match getMethodFromConfigurationFile f userCredsMap "user_default" 0 with
        | inl code => (inl code, s)
        | inr method => (inr method, mkCredsState (cachedClient s) method (credsSystem s))
        end
    end
  else (inr (cachedUser s), s).

Definition client_method (method : Z) : Api Z :=
  if (method =? CLIENT_METHOD_DEFAULT)%Z then cynara_creds_get_default_client_method else api_ret method.
Definition user_method (method : Z) : Api Z :=
  if (method =? USER_METHOD_DEFAULT)%Z then cynara_creds_get_default_user_method else api_ret method.

(** ** [creds-socket] *)

Record ucred := mkUcred { cred_pid : Z; cred_uid : Z; cred_gid : Z }.
Definition ERANGE : Z := 34.
Definition EBADF : Z := 9.
Definition ENOTSOCK : Z := 88.

Section socket.
(** [getsockopt(SO_PEERSEC)] with a buffer of [n] bytes: an error or what is written, and the new
    length; [getsockopt(SO_PEERCRED)]. *)
Context (sys_peersec : Z → nat → W → (Z + string) * nat * W) (sys_peercred : Z → W → (Z + ucred) * W).

Definition getClientSmackLabel (socketFd : Z) : Api string := api_system (λ w,
  match sys_peersec socketFd 1 w with
  | (ret, length, w1) =>
      if (match ret with inl errno => negb (errno =? ERANGE)%Z | inr _ => false end) then (inl CYNARA_API_INVALID_PARAM, w1)
      else
        match sys_peersec socketFd length w1 with
        | (inl _, _, w2) => (inl CYNARA_API_INVALID_PARAM, w2)
        | (inr result, _, w2) => (inr (c_str result), w2)
        end
  end).

Definition getCredentials (socketFd : Z) : Api ucred := api_system (λ w,
  match sys_peercred socketFd w with
  | (inl errno, w') =>
      (inl (if (errno =? EBADF)%Z || (errno =? ENOTSOCK)%Z then CYNARA_API_INVALID_PARAM else CYNARA_API_UNKNOWN_ERROR), w')
  | (inr credentials, w') => (inr credentials, w')
  end).

(** [GET_CRED] *)
Definition get_cred (cred : ucred → Z) (socketFd : Z) : Api string :=
  api_bind (getCredentials socketFd) (λ credentials, api_ret (int_to_string (cred credentials))).

Definition cynara_creds_socket_get_client (socket_fd method : Z) (has_client : bool) : Api string :=
  if negb has_client then api_error CYNARA_API_INVALID_PARAM
  else
    api_bind (client_method method) (λ method,
      if (method =? CLIENT_METHOD_SMACK)%Z then getClientSmackLabel socket_fd
      else if (method =? CLIENT_METHOD_PID)%Z then get_cred cred_pid socket_fd
      else api_error CYNARA_API_METHOD_NOT_SUPPORTED).

Definition cynara_creds_socket_get_user (socket_fd method : Z) (has_user : bool) : Api string :=
  if negb has_user then api_error CYNARA_API_INVALID_PARAM
  else
    api_bind (user_method method) (λ method,
      if (method =? USER_METHOD_UID)%Z then get_cred cred_uid socket_fd
      else if (method =? USER_METHOD_GID)%Z then get_cred cred_gid socket_fd
      else api_error CYNARA_API_METHOD_NOT_SUPPORTED).

Definition cynara_creds_socket_get_pid (socket_fd : Z) : Api Z :=
  api_bind (getCredentials socket_fd) (λ credentials, api_ret (cred_pid credentials)).
End socket.

(** ** [creds-self] *)

Section self.
(** [/proc/self/attr/current], if it can be opened, and the numbers of the process. *)
Context (proc_attr : W → option string) (getpid getuid getgid : W → Z).

(** [current >> label] *)
Fixpoint word (s : string) : string :=
  match s with String c s' => if isspace c then "" else String c (word s') | "" => "" end.

Definition getSelfSmackLabel : Api string := api_system (λ w,
  match proc_attr w with
  | None => (inl CYNARA_API_UNKNOWN_ERROR, w)
  | Some current =>
      let label := word (ltrim current) in
      if bool_decide (label = "") then (inl CYNARA_API_UNKNOWN_ERROR, w) else (inr (c_str label), w)
  end).
Definition self_number (number : W → Z) : Api string := api_system (λ w, (inr (int_to_string (number w)), w)).

Definition cynara_creds_self_get_client (method : Z) (has_client : bool) : Api string :=
  if negb has_client then api_error CYNARA_API_INVALID_PARAM
  else
    api_bind (client_method method) (λ method,
      if (method =? CLIENT_METHOD_SMACK)%Z then getSelfSmackLabel
      else if (method =? CLIENT_METHOD_PID)%Z then self_number getpid
      else api_error CYNARA_API_METHOD_NOT_SUPPORTED).

Definition cynara_creds_self_get_user (method : Z) (has_user : bool) : Api string :=
  if negb has_user then api_error CYNARA_API_INVALID_PARAM
  else
    api_bind (user_method method) (λ method,
      if (method =? USER_METHOD_UID)%Z then self_number getuid
      else if (method =? USER_METHOD_GID)%Z then self_number getgid
      else api_error CYNARA_API_METHOD_NOT_SUPPORTED).
End self.

(** ** [creds-dbus] and [creds-gdbus] *)

Record Credentials := mkCredentials { m_pid : option Z; m_credUid : option Z; m_securityLabel : option string }.
Definition Credentials_new : Credentials := mkCredentials None None None.
Definition setPid (x : Z) (c : Credentials) : Credentials := mkCredentials (Some x) (m_credUid c) (m_securityLabel c).
Definition setCredUid (x : Z) (c : Credentials) : Credentials := mkCredentials (m_pid c) (Some x) (m_securityLabel c).
Definition setSecurityLabel (x : string) (c : Credentials) : Credentials := mkCredentials (m_pid c) (m_credUid c) (Some x).

(** What the two libraries make of the credentials that [init] gets: the first and the last of
    these functions are written alike in both. *)
Section bus.
Context (init : string → Api Credentials).

Definition need {A} (x : option A) : Api A :=
  match x with Some a => api_ret a | None => api_error CYNARA_API_UNKNOWN_ERROR end.

Definition cynara_creds_dbus_get_client (has_connection : bool) (uniqueName : option string) (method : Z) (has_client : bool) : Api string :=
  match has_connection, uniqueName, has_client with
  | true, Some uniqueName, true =>
      api_bind (client_method method) (λ method,
      api_bind (init uniqueName) (λ credentials,
      if (method =? CLIENT_METHOD_SMACK)%Z then api_bind (need (m_securityLabel credentials)) (λ label, api_ret (c_str label))
      else if (method =? CLIENT_METHOD_PID)%Z then api_bind (need (m_pid credentials)) (λ pid, api_ret (int_to_string pid))
      else api_error CYNARA_API_METHOD_NOT_SUPPORTED))
  | _, _, _ => api_error CYNARA_API_INVALID_PARAM
  end.

Definition cynara_creds_dbus_get_user (has_connection : bool) (uniqueName : option string) (method : Z) (has_user : bool) : Api string :=
  match has_connection, uniqueName, has_user with
  | true, Some uniqueName, true =>
      api_bind (user_method method) (λ method,
      api_bind (init uniqueName) (λ credentials,
      if (method =? USER_METHOD_UID)%Z then api_bind (need (m_credUid credentials)) (λ uid, api_ret (int_to_string uid))
      else api_error CYNARA_API_METHOD_NOT_SUPPORTED))
  | _, _, _ => api_error CYNARA_API_INVALID_PARAM
  end.

(** As the last, but the method is looked at before the bus is asked. *)
Definition cynara_creds_gdbus_get_user (has_connection : bool) (uniqueName : option string) (method : Z) (has_user : bool) : Api string :=
  match has_connection, uniqueName, has_user with
  | true, Some uniqueName, true =>
      api_bind (user_method method) (λ method,
      if negb (method =? USER_METHOD_UID)%Z then api_error CYNARA_API_METHOD_NOT_SUPPORTED
      else api_bind (init uniqueName) (λ credentials, api_bind (need (m_credUid credentials)) (λ uid, api_ret (int_to_string uid))))
  | _, _, _ => api_error CYNARA_API_INVALID_PARAM
  end.

(** [pid_t] is signed. *)
Definition as_pid (z : Z) : Z := if (z <? 2 ^ 31)%Z then z else (z - 2 ^ 32)%Z.
Definition cynara_creds_dbus_get_pid (has_connection : bool) (uniqueName : option string) (has_pid : bool) : Api Z :=
  match has_connection, uniqueName, has_pid with
  | true, Some uniqueName, true =>
      api_bind (init uniqueName) (λ credentials, api_bind (need (m_pid credentials)) (λ pid, api_ret (as_pid pid)))
  | _, _, _ => api_error CYNARA_API_INVALID_PARAM
  end.
End bus.

(** [libdbus]: the call of the bus and the iterators [I] over its answer. *)
Definition DBUS_TYPE_INVALID : ascii := "000".
Definition DBUS_TYPE_BYTE : ascii := "y".
Definition DBUS_TYPE_UINT32 : ascii := "u".
Definition DBUS_TYPE_STRING : ascii := "s".
Definition DBUS_TYPE_ARRAY : ascii := "a".
Definition DBUS_TYPE_VARIANT : ascii := "v".
Definition DBUS_TYPE_DICT_ENTRY : ascii := "e".

Class LibDBus (I : Type) := {
  (** Whether the message can be made, whether the id can be appended, and the reply with an
      iterator over its arguments, if it has any. *)
  dbus_message_new_method_call : W → bool;
  dbus_message_append_args : string → W → bool;
  dbus_connection_send : string → W → option (option I) * W;
  dbus_message_iter_get_arg_type : I → ascii;
  dbus_message_iter_get_element_type : I → ascii;
  dbus_message_iter_recurse : I → I;
  dbus_message_iter_next : I → I;
  dbus_get_string : I → string;
  dbus_get_uint32 : I → Z;
  dbus_get_fixed_array : I → option string;
}.

Section dbus.
Context {I : Type} `{DB : !LibDBus I}.

(** One entry of the dictionary. *)
Definition dbus_entry (arr_iter : I) (c : Credentials) : Z + Credentials :=
  let pair_iter := dbus_message_iter_recurse arr_iter in
  if negb (bool_decide (dbus_message_iter_get_arg_type pair_iter = DBUS_TYPE_STRING)) then inl CYNARA_API_UNKNOWN_ERROR
  else
    let key := c_str (dbus_get_string pair_iter) in
    let pair_iter := dbus_message_iter_next pair_iter in
    if negb (bool_decide (dbus_message_iter_get_arg_type pair_iter = DBUS_TYPE_VARIANT)) then inl CYNARA_API_UNKNOWN_ERROR
    else
      let var_iter := dbus_message_iter_recurse pair_iter in
      if bool_decide (key = "ProcessID") then
        if negb (bool_decide (dbus_message_iter_get_arg_type var_iter = DBUS_TYPE_UINT32)) then inl CYNARA_API_UNKNOWN_ERROR
        else inr (setPid (dbus_get_uint32 var_iter) c)
      else if bool_decide (key = "UnixUserID") then
        if negb (bool_decide (dbus_message_iter_get_arg_type var_iter = DBUS_TYPE_UINT32)) then inl CYNARA_API_UNKNOWN_ERROR
        else inr (setCredUid (dbus_get_uint32 var_iter) c)
      else if bool_decide (key = "LinuxSecurityLabel") then
        if negb (bool_decide (dbus_message_iter_get_arg_type var_iter = DBUS_TYPE_ARRAY)) then inl CYNARA_API_UNKNOWN_ERROR
        else
          let ay_iter := dbus_message_iter_recurse var_iter in
          if negb (bool_decide (dbus_message_iter_get_arg_type ay_iter = DBUS_TYPE_BYTE)) then inl CYNARA_API_UNKNOWN_ERROR
          else match dbus_get_fixed_array ay_iter with
               | Some label => inr (setSecurityLabel (c_str label) c)
               | None => inr c
               end
      else inr c.

(** The [while]; [fuel] bounds the entries. *)
Fixpoint dbus_entries (fuel : nat) (arr_iter : I) (c : Credentials) : option (Z + Credentials) :=
  match fuel with
  | 0 => None
  | S fuel' =>
      if bool_decide (dbus_message_iter_get_arg_type arr_iter = DBUS_TYPE_INVALID) then Some (inr c)
      else match dbus_entry arr_iter c with
           | inl code => Some (inl code)
           | inr c' => dbus_entries fuel' (dbus_message_iter_next arr_iter) c'
           end
  end.

(** [Credentials::init] of [creds-dbus.cpp] for a reply; [None] is out of fuel. *)
Definition dbus_credentials (fuel : nat) (reply : option I) : option (Z + Credentials) :=
  match reply with
  | None => Some (inl CYNARA_API_UNKNOWN_ERROR)
  | Some args_iter =>
      if negb (bool_decide (dbus_message_iter_get_arg_type args_iter = DBUS_TYPE_ARRAY)) ||
         negb (bool_decide (dbus_message_iter_get_element_type args_iter = DBUS_TYPE_DICT_ENTRY))
      then Some (inl CYNARA_API_UNKNOWN_ERROR)
      else dbus_entries fuel (dbus_message_iter_recurse args_iter) Credentials_new
  end.

(** An answer that is longer than [fuel] counts as an unknown error here; see
    [dbus_libraries_agree] for how much is enough. *)
Definition dbus_init (fuel : nat) (uniqueId : string) : Api Credentials := api_system (λ w,
  if negb (dbus_message_new_method_call w) then (inl CYNARA_API_OUT_OF_MEMORY, w)
  else if negb (dbus_message_append_args uniqueId w) then (inl CYNARA_API_UNKNOWN_ERROR, w)
  else
    match dbus_connection_send uniqueId w with
    | (None, w') => (inl CYNARA_API_UNKNOWN_ERROR, w')
    | (Some reply, w') => (default (inl CYNARA_API_UNKNOWN_ERROR) (dbus_credentials fuel reply), w')
    end).
End dbus.

(** GLib: the answer as pairs of a key and a variant, and the variants read. *)
Section gdbus.
Context {V : Type} (call_sync : string → W → option (list (string * V)) * W) (get_uint32 : V → Z) (get_bytes : V → option string).

Definition gdbus_entry (c : Credentials) (kv : string * V) : Credentials :=
  let '(key, value) := kv in
  if bool_decide (key = "ProcessID") then setPid (get_uint32 value) c
  else if bool_decide (key = "UnixUserID") then setCredUid (get_uint32 value) c
  else if bool_decide (key = "LinuxSecurityLabel") then
    match get_bytes value with Some label => setSecurityLabel (c_str label) c | None => c end
  else c.

Definition gdbus_init (uniqueId : string) : Api Credentials := api_system (λ w,
  match call_sync uniqueId w with
  | (None, w') => (inl CYNARA_API_UNKNOWN_ERROR, w')
  | (Some reply, w') => (inr (foldl gdbus_entry Credentials_new reply), w')
  end).
End gdbus.

(** ** [session] *)

(** The time of the last change of the status of a file, if there is one. *)
Definition cynara_session_from_pid (ctime : string → W → option Z) (client_pid : Z) (w : W) : option string :=
  let path := "/proc/" +:+ int_to_string client_pid in
  match ctime path w with
  | None => None
  | Some tv_sec => Some (int_to_string tv_sec +:+ path)
  end.
End creds.
