(* ===== verification/CredsTheorems.v ===== *)
(** * Theorems on the credentials

    The configured method against a reading of the file without loops; the two libraries for
    D-Bus make the same of the same answer. *)
From S2P Require Import Prelude Text FileSystem Types Api Bucket StorageBackend Storage StorageSerialization CyadOptions Creds.

(** ** The configuration file *)

(** What a line says, on its own. *)
Definition conf_entry (rawLine : string) : option (string * string) :=
  line ← uncommented rawLine;
  found ← find_char "=" line;
  if bool_decide (stake found line = "") then None
  else Some (normalizeString (stake found line), normalizeString (sdrop (found + 1) line)).

(** The values that the lines of a file give to a name. *)
Definition conf_values (name : string) (lines : list string) : list string :=
  snd <$> filter (λ kv, kv.1 = name) (omap conf_entry lines).

Lemma getKeyAndValue_cons line f :
  getKeyAndValue (line :: f) = match conf_entry line with Some (k, v) => Some (k, v, f) | None => getKeyAndValue f end.
Proof.
  cbn [getKeyAndValue]. unfold conf_entry. destruct (uncommented line) as [l|]; [|done]. cbn [mbind option_bind].
  destruct (find_char "=" l) as [found|]; [|done]. cbn -[normalizeString stake sdrop]. by destruct (bool_decide (stake found l = "")) eqn:E; rewrite ?E.
Qed.

Lemma getKeyAndValue_entries f :
  match getKeyAndValue f with
  | Some (key, value, f') => omap conf_entry f = (key, value) :: omap conf_entry f' ∧ length f' < length f
  | None => omap conf_entry f = []
  end.
Proof.
  induction f as [|line f IH]; [done|]. rewrite getKeyAndValue_cons.
  assert (omap conf_entry (line :: f) = match conf_entry line with Some y => y :: omap conf_entry f | None => omap conf_entry f end) as -> by done.
  destruct (conf_entry line) as [[k v]|]; [split; [done|cbn; lia]|]. destruct (getKeyAndValue f) as [[[k v] f']|]; [|done]. cbn [length]. split; [apply IH|lia].
Qed.

Lemma method_loop_values lines f m name tmp occurred :
  length f ≤ lines →
  method_loop lines f m name tmp occurred =
    match conf_values name f with
    | [] => if occurred then inr tmp else inl CYNARA_API_CONFIGURATION_ERROR
    | [v] => if occurred then inl CYNARA_API_CONFIGURATION_ERROR else match m !! v with Some x => inr x | None => inl CYNARA_API_CONFIGURATION_ERROR end
    | _ => inl CYNARA_API_CONFIGURATION_ERROR
    end.
Proof.
  revert f tmp occurred. induction lines as [|lines IH]; intros f tmp occurred Hl; cbn [method_loop].
  { destruct f; [done|cbn in Hl; lia]. }
  pose proof (getKeyAndValue_entries f) as Hf. destruct (getKeyAndValue f) as [[[key value] f']|].
  2: { unfold conf_values. by rewrite Hf. }
  destruct Hf as [Hf Hlt]. unfold conf_values. rewrite Hf. rewrite filter_cons. cbn [fst].
  case_bool_decide as Hk; [rewrite decide_True by done|rewrite decide_False by done; apply IH; lia]. cbn [fmap list_fmap snd].
  fold (conf_values name f'). unfold interpretValue. destruct occurred; [by destruct (conf_values name f')|].
  destruct (m !! value) as [x|]; [|by destruct (conf_values name f')]. rewrite IH by lia. destruct (conf_values name f') as [|v [|v' l]]; done.
Qed.

(** What the configuration means. *)
Definition configured (m : gmap string Z) (name : string) (text : string) : Z + Z :=
  match conf_values name (getlines "010" text) with
  | [v] => match m !! v with Some x => inr x | None => inl CYNARA_API_CONFIGURATION_ERROR end
  | _ => inl CYNARA_API_CONFIGURATION_ERROR
  end.

Lemma getMethod_configured f m name garbage : getMethodFromConfigurationFile f m name garbage = configured m name f.
Proof.
  unfold getMethodFromConfigurationFile, configured. rewrite method_loop_values by done. by destruct (conf_values name (getlines "010" f)) as [|v [|v' l]].
Qed.

(** *** Lines *)

Fixpoint all_spaces (s : string) : bool := match s with "" => true | String c s' => isspace c && all_spaces s' end.
(** A word as it may be written: not empty, without white space at the ends. *)
Definition solid (s : string) : Prop := ltrim s = s ∧ rtrim s = s ∧ s ≠ "".
#[global] Instance solid_dec s : Decision (solid s).
Proof. unfold solid. apply _. Defined.

Lemma ltrim_spaces a s : all_spaces a = true → ltrim (a +:+ s) = ltrim s.
Proof.
  unfold ltrim. induction a as [|c a IH]; [done|]. cbn [all_spaces]. intros [Hc Ha]%andb_true_iff. rewrite str_app_cons. cbn [skip_spaces].
  rewrite Hc. cbn [sdrop]. by apply IH.
Qed.
Lemma rtrim_nil a : all_spaces a = true → rtrim a = "".
Proof. induction a as [|c a IH]; [done|]. cbn [all_spaces rtrim]. intros [Hc Ha]%andb_true_iff. by rewrite IH, Hc. Qed.
Lemma rtrim_spaces s a : all_spaces a = true → rtrim (s +:+ a) = rtrim s.
Proof. intros Ha. induction s as [|c s IH]; [by apply rtrim_nil|]. rewrite str_app_cons. cbn [rtrim]. by rewrite IH. Qed.
Lemma rtrim_solid a s : rtrim s = s → s ≠ "" → rtrim (a +:+ s) = a +:+ s.
Proof.
  intros Hs Hne. induction a as [|c a IH]; [done|]. rewrite str_app_cons. cbn [rtrim]. rewrite IH.
  destruct (a +:+ s) eqn:E; [|done]. by destruct a; [destruct s|].
Qed.

Lemma normalize_padded a s b : all_spaces a = true → all_spaces b = true → solid s → normalizeString (a +:+ s +:+ b) = tolower s.
Proof.
  intros Ha Hb (Hl & Hr & Hne). unfold normalizeString. rewrite <-str_app_assoc, rtrim_spaces by done. by rewrite rtrim_solid, ltrim_spaces, Hl.
Qed.

(** A line with an entry: white space around name and value, any case, a comment behind. *)
Definition conf_line (a name b c value d : string) (comment : option string) : string :=
  (a +:+ name +:+ b) +:+ String "=" ((c +:+ value +:+ d) +:+ match comment with Some t => String "#" t | None => "" end).

Lemma conf_entry_line a name b c value d comment :
  all_spaces a = true → all_spaces b = true → all_spaces c = true → all_spaces d = true → solid name → solid value →
  lacks "#" (a +:+ name +:+ b) → lacks "=" (a +:+ name +:+ b) → lacks "#" (c +:+ value +:+ d) →
  conf_entry (conf_line a name b c value d comment) = Some (tolower name, tolower value).
Proof.
  intros Ha Hb Hc Hd Hn Hv Hh1 He1 Hh2. unfold conf_line. pose proof (normalize_padded a name b Ha Hb Hn) as Hname.
  pose proof (normalize_padded c value d Hc Hd Hv) as Hvalue.
  assert (a +:+ name +:+ b ≠ "") as Hne by (destruct Hn as (_ & _ & Hn); destruct a; [by destruct name|done]).
  set (L := a +:+ name +:+ b) in *. set (R := c +:+ value +:+ d) in *.
  assert (uncommented (L +:+ String "=" (R +:+ match comment with Some t => String "#" t | None => "" end)) = Some (L +:+ String "=" R)) as Hun.
  { unfold uncommented. rewrite bool_decide_eq_false_2 by (by destruct L). f_equal. destruct comment as [t|].
    - assert (L +:+ String "=" (R +:+ String "#" t) = (L +:+ String "=" R) +:+ String "#" t) as -> by (by autorewrite with str).
      rewrite find_char_app by (rewrite lacks_app, lacks_cons; done). by rewrite stake_app.
    - rewrite str_app_nil_r. assert (find_char "#" (L +:+ String "=" R) = None) as -> by (change (lacks "#" (L +:+ String "=" R)); rewrite lacks_app, lacks_cons; done). done. }
  unfold conf_entry. rewrite Hun. cbn [mbind option_bind]. rewrite find_char_app by done. cbn [mbind option_bind]. rewrite stake_app, bool_decide_eq_false_2 by done.
  rewrite <-sdrop_sdrop, sdrop_app. cbn [sdrop]. by rewrite Hname, Hvalue.
Qed.

(** A line that says nothing: empty, a comment, or without an equals sign. *)
Lemma conf_entry_none line : line = "" ∨ (∃ t, line = String "#" t) ∨ lacks "=" line → conf_entry line = None.
Proof.
  intros [->|[[t ->]|He]]; [done|done|]. unfold conf_entry, uncommented. case_bool_decide; [done|]. cbn [mbind option_bind].
  assert (∀ n, lacks "=" (stake n line)) as Hs.
  { intros n. clear H. revert n. induction line as [|c line IH]; intros [|n]; try done. cbn [stake]. rewrite lacks_cons in *. split; [tauto|]. apply IH. tauto. }
  destruct (find_char "#" line) as [n|]; [by rewrite (Hs n)|by rewrite He].
Qed.

Section methods.
Context {W : Type} (creds_conf : W → option string).

(** The default method is the one that is configured.  The first call that succeeds takes
    the value that the file gives to [client_default], which has to be there exactly once and
    to be one of the known words; whatever becomes of the file, later calls give the same.
    A line counts for this as a name and a value in any case, with white space around
    them and a comment behind. *)
Theorem default_method_configured (s : CredsState W) :
  cachedClient s = (-1)%Z →
  (∀ text, creds_conf (credsSystem s) = Some text →
    (cynara_creds_get_default_client_method creds_conf s).1 = configured clientCredsMap "client_default" text) ∧
  (∀ method s', cynara_creds_get_default_client_method creds_conf s = (inr method, s') →
    (method = CLIENT_METHOD_SMACK ∨ method = CLIENT_METHOD_PID) ∧
    ∀ w, cynara_creds_get_default_client_method creds_conf (mkCredsState (cachedClient s') (cachedUser s') w) =
      (inr method, mkCredsState (cachedClient s') (cachedUser s') w)) ∧
  (∀ a b c d comment before after name value,
    all_spaces a = true → all_spaces b = true → all_spaces c = true → all_spaces d = true → solid name → solid value →
    lacks "#" (a +:+ name +:+ b) → lacks "=" (a +:+ name +:+ b) → lacks "#" (c +:+ value +:+ d) →
    conf_values (tolower name) (before ++ conf_line a name b c value d comment :: after) =
      conf_values (tolower name) before ++ tolower value :: conf_values (tolower name) after).
Proof.
  intros Hnew. split; [|split].
  - intros text Htext. unfold cynara_creds_get_default_client_method. rewrite Hnew, Htext. cbn [Z.eqb]. rewrite getMethod_configured.
    by destruct (configured clientCredsMap "client_default" text).
  - intros method s'. unfold cynara_creds_get_default_client_method. rewrite Hnew. cbn [Z.eqb]. destruct (creds_conf (credsSystem s)) as [text|]; [|done].
    rewrite getMethod_configured. destruct (configured clientCredsMap "client_default" text) as [code|m] eqn:E; [done|]. intros [= <- <-].
    assert (m = CLIENT_METHOD_SMACK ∨ m = CLIENT_METHOD_PID) as Hm.
    { unfold configured in E. destruct (conf_values _ _) as [|v [|v' l]]; try done. destruct (clientCredsMap !! v) as [x|] eqn:Hx; [|done]. injection E as <-.
      unfold clientCredsMap in Hx. apply lookup_insert_Some in Hx as [[_ <-]|[_ Hx]]; [by left|]. apply lookup_singleton_Some in Hx as [_ <-]. by right. }
    split; [done|]. intros w. cbn [cachedClient cachedUser credsSystem]. by destruct Hm as [-> | ->].
  - intros a b c d comment before after name value Ha Hb Hc Hd Hn Hv H1 H2 H3. unfold conf_values. rewrite omap_app, filter_app, fmap_app. f_equal.
    assert (omap conf_entry (conf_line a name b c value d comment :: after) = (tolower name, tolower value) :: omap conf_entry after) as ->.
    { assert (∀ l, omap conf_entry (l :: after) = match conf_entry l with Some y => y :: omap conf_entry after | None => omap conf_entry after end) as -> by done.
      by rewrite conf_entry_line. }
    rewrite filter_cons, decide_True by done. done.
Qed.
End methods.

Lemma default_method_configured_witness :
  let conf := "# defaults" +:+ endl +:+ " Client_Default = PID   # not the label" +:+ endl +:+ "user_default=uid" in
  let s := mkCredsState (-1) (-1) conf in
  (cynara_creds_get_default_client_method Some s).1 = inr CLIENT_METHOD_PID ∧
  (cynara_creds_get_default_client_method Some s).1 = configured clientCredsMap "client_default" conf.
Proof.
  intros conf s. split; [vm_compute; reflexivity|]. exact (proj1 (default_method_configured Some s eq_refl) conf eq_refl).
Defined.

(** ** D-Bus *)

(** What an entry of the dictionary may hold, and how GLib reads it. *)
Inductive DBusValue := DUint32 (n : Z) | DBytes (b : string) | DOther.
Definition glib_uint32 (v : DBusValue) : Z := match v with DUint32 n => n | _ => 0 end.
Definition glib_bytes (v : DBusValue) : option string := match v with DBytes b => Some b | _ => None end.

(** The value has the type that its key asks for. *)
Definition typed (kv : string * DBusValue) : bool :=
  if bool_decide (kv.1 = "ProcessID") || bool_decide (kv.1 = "UnixUserID") then match kv.2 with DUint32 _ => true | _ => false end
  else if bool_decide (kv.1 = "LinuxSecurityLabel") then match kv.2 with DBytes _ => true | _ => false end
  else true.

Section dbus.
Context {W I : Type} `{DB : !LibDBus (W:=W) I}.
Abbreviation arg_type := (dbus_message_iter_get_arg_type (W:=W)).
Abbreviation recurse := (dbus_message_iter_recurse (W:=W)).
Abbreviation next := (dbus_message_iter_next (W:=W)).

Definition value_at (it : I) (v : DBusValue) : Prop :=
  match v with
  | DUint32 n => arg_type it = DBUS_TYPE_UINT32 ∧ dbus_get_uint32 (W:=W) it = n
  | DBytes b => arg_type it = DBUS_TYPE_ARRAY ∧ arg_type (recurse it) = DBUS_TYPE_BYTE ∧ dbus_get_fixed_array (W:=W) (recurse it) = Some b
  | DOther => arg_type it ≠ DBUS_TYPE_UINT32 ∧ arg_type it ≠ DBUS_TYPE_ARRAY
  end.

(** The iterator stands before the entries of a dictionary. *)
Inductive dictionary : I → list (string * DBusValue) → Prop :=
| dictionary_end it : arg_type it = DBUS_TYPE_INVALID → dictionary it []
| dictionary_entry it v l :
    arg_type it ≠ DBUS_TYPE_INVALID → arg_type (recurse it) = DBUS_TYPE_STRING → lacks "000" (dbus_get_string (W:=W) (recurse it)) →
    arg_type (next (recurse it)) = DBUS_TYPE_VARIANT → value_at (recurse (next (recurse it))) v → dictionary (next it) l →
    dictionary it ((dbus_get_string (W:=W) (recurse it), v) :: l).

Lemma dictionary_cons it key v l :
  dbus_get_string (W:=W) (recurse it) = key → arg_type it ≠ DBUS_TYPE_INVALID → arg_type (recurse it) = DBUS_TYPE_STRING → lacks "000" key →
  arg_type (next (recurse it)) = DBUS_TYPE_VARIANT → value_at (recurse (next (recurse it))) v → dictionary (next it) l →
  dictionary it ((key, v) :: l).
Proof. intros <-. by apply dictionary_entry. Qed.

Lemma dbus_entry_agrees it key v l c :
  dictionary it ((key, v) :: l) →
  dbus_entry (W:=W) it c = if typed (key, v) then inr (gdbus_entry glib_uint32 glib_bytes c (key, v)) else inl CYNARA_API_UNKNOWN_ERROR.
Proof.
  inversion_clear 1 as [|? ? ? _ Hs Hn Hv Hval _]. unfold dbus_entry, gdbus_entry, typed. cbn [fst snd].
  rewrite Hs, Hv, c_str_id by done. set (key' := dbus_get_string _). rewrite (bool_decide_eq_true_2 (DBUS_TYPE_STRING = _)), (bool_decide_eq_true_2 (DBUS_TYPE_VARIANT = _)) by done.
  cbn [negb]. clearbody key'.
  destruct (bool_decide (key' = "ProcessID")) eqn:E1; cbn [orb]; [|destruct (bool_decide (key' = "UnixUserID")) eqn:E2; [|destruct (bool_decide (key' = "LinuxSecurityLabel")) eqn:E3]; [| |done]];
    destruct v; cbn [value_at] in Hval; destruct_and?; simplify_eq;
    repeat match goal with
    | H : dbus_message_iter_get_arg_type ?x = _ |- context [dbus_message_iter_get_arg_type ?x] => rewrite H
    | H : dbus_get_fixed_array ?x = _ |- context [dbus_get_fixed_array ?x] => rewrite H
    end; try done; by rewrite bool_decide_eq_false_2.
Qed.

(** The two libraries agree.  From a dictionary that ends, [creds-dbus] reads what
    [creds-gdbus] reads (the last entry of a name counts), if the values have the right types;
    if one has not, it reports an error. *)
Theorem dbus_libraries_agree fuel args l :
  arg_type args = DBUS_TYPE_ARRAY → dbus_message_iter_get_element_type (W:=W) args = DBUS_TYPE_DICT_ENTRY → dictionary (recurse args) l →
  length l < fuel →
  dbus_credentials (W:=W) fuel (Some args) =
    Some (if forallb typed l then inr (foldl (gdbus_entry glib_uint32 glib_bytes) Credentials_new l) else inl CYNARA_API_UNKNOWN_ERROR).
Proof.
  intros Ha He Hd Hf. unfold dbus_credentials. rewrite Ha, He, !bool_decide_eq_true_2 by done. cbn [negb orb].
  generalize Credentials_new. revert Hd fuel Hf. generalize (recurse args) as it. clear args Ha He.
  induction l as [|[k v] l IH]; intros it Hd fuel Hf c; (destruct fuel as [|fuel]; [cbn in Hf; lia|]); cbn [dbus_entries].
  - inversion_clear Hd as [? Hi|]. by rewrite bool_decide_eq_true_2.
  - rewrite (dbus_entry_agrees it k v l c Hd). inversion_clear Hd as [|? ? ? Hi _ _ _ _ Hd']. rewrite bool_decide_eq_false_2 by done.
    cbn [forallb foldl]. match goal with |- context [typed ?kv] => destruct (typed kv) end; [|done]. cbn [andb]. apply IH; [done|]. cbn in Hf. lia.
Qed.
End dbus.

(** A message as a tree; an iterator is what is left of a list of nodes. *)
Inductive DNode := mkDNode (type element : ascii) (text : string) (number : Z) (children : list DNode).
Definition node_type (n : DNode) : ascii := let '(mkDNode t _ _ _ _) := n in t.
Definition node_children (n : DNode) : list DNode := let '(mkDNode _ _ _ _ l) := n in l.
Definition at_node {A} (f : DNode → A) (otherwise : A) (it : list DNode) : A := match it with n :: _ => f n | [] => otherwise end.

#[local] Instance tree_dbus : LibDBus (W:=unit) (list DNode) := {|
  dbus_message_new_method_call _ := true;
  dbus_message_append_args _ _ := true;
  dbus_connection_send _ w := (None, w);
  dbus_message_iter_get_arg_type := at_node node_type DBUS_TYPE_INVALID;
  dbus_message_iter_get_element_type := at_node (λ '(mkDNode _ e _ _ _), e) DBUS_TYPE_INVALID;
  dbus_message_iter_recurse := at_node node_children [];
  dbus_message_iter_next := tail;
  dbus_get_string := at_node (λ '(mkDNode _ _ s _ _), s) "";
  dbus_get_uint32 := at_node (λ '(mkDNode _ _ _ n _), n) 0%Z;
  dbus_get_fixed_array := at_node (λ '(mkDNode _ _ s _ _), Some s) None;
|}.

Definition tree_entry (key : string) (value : DNode) : DNode :=
  mkDNode DBUS_TYPE_DICT_ENTRY "0" "" 0
    [mkDNode DBUS_TYPE_STRING "0" key 0 []; mkDNode DBUS_TYPE_VARIANT "0" "" 0 [value]].
Definition tree_reply : list DNode :=
  [mkDNode DBUS_TYPE_ARRAY DBUS_TYPE_DICT_ENTRY "" 0
     [tree_entry "UnixUserID" (mkDNode DBUS_TYPE_UINT32 "0" "" 5001 []); tree_entry "ProcessID" (mkDNode DBUS_TYPE_UINT32 "0" "" 77 []);
      tree_entry "LinuxSecurityLabel" (mkDNode DBUS_TYPE_ARRAY DBUS_TYPE_BYTE "" 0 [mkDNode DBUS_TYPE_BYTE "0" "User::App" 0 []])]].

Lemma dbus_libraries_agree_witness :
  dbus_credentials (W:=unit) 4 (Some tree_reply) = Some (inr (mkCredentials (Some 77%Z) (Some 5001%Z) (Some "User::App"))).
Proof.
  exact (dbus_libraries_agree 4 tree_reply [("UnixUserID", DUint32 5001); ("ProcessID", DUint32 77); ("LinuxSecurityLabel", DBytes "User::App")]
    eq_refl eq_refl
    ltac:(do 3 (apply dictionary_cons; [reflexivity|discriminate|reflexivity|reflexivity|reflexivity|repeat split; reflexivity|]); by apply dictionary_end) ltac:(cbn; lia)).
Defined.
