(* ===== verification/Deployment.v ===== *)
(** * A client and the service at work together

    The client library on a system in which the service runs: what the client sends waits until
    the service reads it, what the service writes waits until the client reads it, and in
    between the main loop of the service has its turns.  When who reads how much is a
    list of [Turn]s, and the theorems hold for every fair one.  Through [poll] the client sees that the
    service has closed the connection; connecting is accepting in the service. *)
From S2P Require Import Prelude Text Types Api Bucket StorageBackend Storage BinaryQueue Serialization Frame Messages.
From S2P Require Import ProtocolClient Protocols SocketManager SocketClient ConnectionTheorems ClientTheorems.
From S2P Require Import EntriesQueue Monitor PluginManager Agents InMemoryStorageBackend Service ServiceDemo ServiceTheorems PolicyChange.
From S2P Require Import CapacityCache CacheTheorems ClientLogic ClientLogicTheorems.

(** What happens next: the service reads or writes at most [n] bytes, or the client is woken and
    reads at most [n] bytes. *)
Inductive Turn := ServiceReads (n : nat) | ServiceWrites (n : nat) | ClientReads (n : nat).

(** The service, the connection that the client has now, the bytes on the way to the service and
    to the client, and the coming turns. *)
Record Net (Plugin P B D : Type) := mkNet {
  net_service : SocketManager * Service Plugin P B D;
  net_link : LinkId;
  net_inbox : string;
  net_outbox : string;
  net_turns : list Turn;
}.
Arguments mkNet {Plugin P B D} _ _ _ _ _.
Arguments net_service {Plugin P B D} _.
Arguments net_link {Plugin P B D} _.
Arguments net_inbox {Plugin P B D} _.
Arguments net_outbox {Plugin P B D} _.
Arguments net_turns {Plugin P B D} _.

Section net.
Context `{HO : HashOrder} {B D Plugin P : Type} `{SB : StorageBackend B} `{H : !Host B D Plugin P}.
(** [depth], [steps] and [fuel] bound the service's recursion and loops; [accepts] is how much
    one [send] takes; [listening] is the service's socket for clients, [next] the descriptor that
    the next connection gets. *)
Context (depth steps fuel accepts listening next : nat).
Abbreviation NetState := (Net Plugin P B D) (only parsing).

Definition setNetService (x : SocketManager * Service Plugin P B D) (w : NetState) : NetState :=
  mkNet x (net_link w) (net_inbox w) (net_outbox w) (net_turns w).
Definition setInbox (x : string) (w : NetState) : NetState :=
  mkNet (net_service w) (net_link w) x (net_outbox w) (net_turns w).
Definition setOutbox (x : string) (w : NetState) : NetState :=
  mkNet (net_service w) (net_link w) (net_inbox w) x (net_turns w).
Definition setTurns (x : list Turn) (w : NetState) : NetState :=
  mkNet (net_service w) (net_link w) (net_inbox w) (net_outbox w) x.

(** The service has not closed the connection. *)
Definition net_alive (w : NetState) : Prop := linkOf (net_service w).2 (net_link w).1 = net_link w.
#[global] Instance net_alive_dec w : Decision (net_alive w).
Proof. unfold net_alive. apply _. Defined.

(** A turn of the main loop, with what the system calls give in it. *)
Definition service_turn (read : ReadResult) (takes : nat) (accepted : option nat) (readSet writeSet : gset nat) :
    SE (SocketManager * Service Plugin P B D) unit :=
  mainLoopTurn (Logic_execute depth) contextClosed (λ _, mret read) (λ _ buffer, mret (Written (takes `min` String.length buffer)))
    (λ _, mret accepted) sys_closed steps fuel readSet writeSet.

Definition net_reads (n : nat) (w : NetState) : NetState :=
  let piece := stake n (net_inbox w) in
  if bool_decide (piece = "") || negb (bool_decide (net_alive w)) then w
  else
    setInbox (sdrop n (net_inbox w))
      (setNetService (service_turn (ReadData piece) 0 None {[(net_link w).1]} ∅ (net_service w)).2 w).

(** The service writes what [readyForWrite] prepares, when it watches the connection for that. *)
Definition net_writes (n : nat) (w : NetState) : NetState :=
  let fd := (net_link w).1 in
  if negb (bool_decide (fd ∈ m_writeSet (net_service w).1)) || negb (bool_decide (net_alive w)) then w
  else
    match onDesc fd prepareWriteBuffer (net_service w) with
    | (Ret buffer, _) =>
        setOutbox (net_outbox w +:+ stake n buffer)
          (setNetService (service_turn ReadAgain n None ∅ {[fd]} (net_service w)).2 w)
    | _ => w
    end.

Definition nothing_there (w : NetState) : RecvResult := if bool_decide (net_alive w) then RecvAgain else RecvEof.

(** One turn; what it gives to the client, when it is the client's. *)
Definition net_turn (t : Turn) (w : NetState) : NetState * option RecvResult :=
  match t with
  | ServiceReads n => (net_reads n w, None)
  | ServiceWrites n => (net_writes n w, None)
  | ClientReads n =>
      let piece := stake n (net_outbox w) in
      if bool_decide (piece = "") then (w, Some (nothing_there w))
      else (setOutbox (sdrop n (net_outbox w)) w, Some (Received piece))
  end.

(** The turns up to the client's next one. *)
Fixpoint recv_turns (ts : list Turn) (w : NetState) : RecvResult * NetState :=
  match ts with
  | [] => (nothing_there w, setTurns [] w)
  | t :: ts =>
      match net_turn t w with
      | (w', Some r) => (r, setTurns ts w')
      | (w', None) => recv_turns ts w'
      end
  end.

(** ** The calls of the client's system *)

(** The client is woken for data, and can always write. *)
Definition net_poll (event : PollEvent) : SE NetState PollResult := λ w,
  (Ret (match event with
        | POLLHUP => if bool_decide (net_alive w) then PollTimeout else PollReady
        | _ => PollReady
        end), w).
Definition net_getsockopt : SE NetState (Z + Z) := mret (inl 0%Z).
Definition net_socket : SE NetState (unit + Z) := mret (inl tt).
Definition net_send (data : string) : SE NetState SendResult := λ w,
  if bool_decide (net_alive w)
  then (Ret (Sent (accepts `min` String.length data)), setInbox (net_inbox w +:+ stake accepts data) w)
  else (Ret SendPipe, w).
Definition net_recv : SE NetState RecvResult := λ w, let '(r, w') := recv_turns (net_turns w) w in (Ret r, w').
Definition net_connect : SE NetState ConnectResult := λ w,
  let st := (service_turn ReadAgain 0 (Some next) {[listening]} ∅ (net_service w)).2 in
  (Ret ConnectOk, mkNet st (linkOf st.2 next) "" "" (net_turns w)).
End net.

(** ** One turn of the service *)

Section turns.
Context `{HO : HashOrder} {B D Plugin P : Type} `{SB : StorageBackend B} `{H : !Host B D Plugin P}.
Context (depth steps fuel : nat).
Implicit Types (sm : SocketManager) (s : Service Plugin P B D) (d : Descriptor).
Abbreviation turn := (service_turn (B:=B) (D:=D) (Plugin:=Plugin) (P:=P) depth steps fuel) (only parsing).

(** The tables in which a turn works. *)
Definition table_ok sm (fd : nat) : Prop :=
  slots_ok sm ∧ (m_maxDesc sm < Z.of_nat FD_SETSIZE)%Z ∧ (Z.of_nat fd <= m_maxDesc sm)%Z ∧ fd < steps.

(** Whoever has something to send is watched. *)
Definition armed sm (fd : nat) d : Prop := outgoing d ≠ "" → fd ∈ m_writeSet sm.

Lemma hasDataToWrite_outgoing d : queue_ok (m_writeQueue d) → outgoing d ≠ "" → hasDataToWrite d = true.
Proof.
  intros Hq Hout. unfold hasDataToWrite, queue_empty. apply negb_true_iff, andb_false_iff. unfold queue_size. rewrite (proj2 Hq).
  destruct (Nat.eqb_spec (String.length (bytes (m_writeQueue d))) 0) as [Hz|]; [right|by left].
  apply bool_decide_eq_false_2. intros Hb. apply Hout. unfold outgoing. rewrite Hb. by destruct (bytes _).
Qed.

(** After the ready descriptor was served, the writers are armed. *)
Lemma turn_armed sm1 s1 fd d :
  slots_ok sm1 → (m_maxDesc sm1 < Z.of_nat FD_SETSIZE)%Z → (Z.of_nat fd <= m_maxDesc sm1)%Z →
  m_fds sm1 !! fd = Some d → m_used d = true → queue_ok (m_writeQueue d) →
  ∃ ws, armWriters (sm1, s1) = (Ret tt, (setWriteSet ws sm1, s1)) ∧ armed (setWriteSet ws sm1) fd d.
Proof.
  intros Hok Hmax Hfd Hd Hu Hq. destruct (armWriters_arms sm1 s1 Hok Hmax) as (ws & H1 & _ & Hin). exists ws. split; [done|].
  intros Hout. cbn. apply (Hin fd d); [done|done|]. rewrite Hu. by apply hasDataToWrite_outgoing.
Qed.

Lemma turn_reads piece sm s fd sm1 s1 d d1 :
  table_ok sm fd → m_fds sm !! fd = Some d → m_listen d = false →
  handleRead (Logic_execute depth) fuel fd piece (sm, s) = (Ret true, (sm1, s1)) →
  slots_ok sm1 → m_maxDesc sm1 = m_maxDesc sm → m_fds sm1 !! fd = Some d1 → m_used d1 = true → queue_ok (m_writeQueue d1) →
  ∃ ws, turn (ReadData piece) 0 None {[fd]} ∅ (sm, s) = (Ret tt, (setWriteSet ws sm1, s1)) ∧ armed (setWriteSet ws sm1) fd d1.
Proof.
  intros (Hok & Hmax & Hfd & Hsteps) Hd Hl Hread Hok1 Hmax1 Hd1 Hu1 Hq1. unfold service_turn, mainLoopTurn. rewrite size_singleton, size_empty.
  rewrite SE_bind_eq, (serve_reader _ _ _ _ _ _ fuel fd steps 0 (sm, s) (sm1, s1)); [|lia|lia|done|].
  - apply (turn_armed sm1 s1 fd d1); [done|by rewrite Hmax1|by rewrite Hmax1|done..].
  - unfold readyForRead. rewrite SE_bind_eq. cbn [desc]. rewrite Hd, Hl, SE_bind_eq. cbn [mret SE_ret]. by rewrite SE_bind_eq, Hread.
Qed.

Lemma prepare_outgoing sm s fd d : m_fds sm !! fd = Some d → queue_ok (m_writeQueue d) →
  ∃ st, onDesc fd prepareWriteBuffer (sm, s) = (Ret (outgoing d), st).
Proof.
  intros Hd Hq. unfold onDesc, prepareWriteBuffer. rewrite Hd.
  destruct (flattenConsume_ok (queue_size (m_writeQueue d)) _ Hq) as (q & -> & _); [unfold queue_size; by rewrite (proj2 Hq)|].
  unfold queue_size. rewrite (proj2 Hq), stake_all. by eexists.
Qed.

(** Another state of the slot, for what a turn writes. *)
Lemma slots_ok_insert sm fd d d' : slots_ok sm → m_fds sm !! fd = Some d → m_used d' = true →
  slots_ok (setFds (<[fd := d']> (m_fds sm)) sm).
Proof.
  intros [Hmax Hfree] Hd Hu. split; cbn [m_maxDesc m_fds setFds]; [by rewrite length_insert|]. intros i d0 Hi Hun.
  destruct (decide (fd = i)) as [->|Hne].
  - rewrite list_lookup_insert_eq in Hi by (by eapply lookup_lt_Some). congruence.
  - rewrite list_lookup_insert_ne in Hi by done. by eapply Hfree.
Qed.

Lemma turn_writes n sm s fd d :
  table_ok sm fd → m_fds sm !! fd = Some d → m_used d = true → queue_ok (m_writeQueue d) →
  ∃ q ws, let d' := setWriteBuffer (sdrop n (outgoing d)) (setWriteQueue q d) in
    let sm' := setWriteSet ws (setFds (<[fd := d']> (m_fds sm)) sm) in
    turn ReadAgain n None ∅ {[fd]} (sm, s) = (Ret tt, (sm', s)) ∧ queue_ok q ∧ bytes q = "" ∧ armed sm' fd d'.
Proof.
  intros (Hok & Hmax & Hfd & Hsteps) Hd Hu Hq. unfold service_turn, mainLoopTurn. rewrite size_singleton, size_empty.
  assert (fd < FD_SETSIZE) as Hfs by lia.
  destruct (readyForWrite_takes (W:=Service Plugin P B D) contextClosed (λ _ buffer, mret (Written (n `min` String.length buffer))) sys_closed
    (λ _ s, s) n sm s fd d) as (q & ws & H1 & Hokq & Hbq & _); [done..|].
  set (d' := setWriteBuffer _ _) in *.
  destruct (turn_armed (setWriteSet ws (setFds (<[fd := d']> (m_fds sm)) sm)) s fd d') as (ws' & H2 & Harmed); try done.
  - by apply slots_ok_insert with (d := d).
  - cbn. by apply list_lookup_insert_eq, (lookup_lt_Some _ _ d).
  - exists q, ws'. split; [|done]. rewrite SE_bind_eq.
    rewrite (serve_writer _ _ _ _ _ _ fuel fd steps 0 (sm, s) (setWriteSet ws (setFds (<[fd := d']> (m_fds sm)) sm), s));
      [exact H2|lia|lia|done|exact H1].
Qed.

(** The connection of a client on [fd]: [pre] has arrived and is not a whole request yet, [out] is
    what is still to be written. *)
Definition serving sm (fd : nat) (pre out : string) : Prop :=
  table_ok sm fd ∧ ∃ d, m_fds sm !! fd = Some d ∧ m_listen d = false ∧ m_used d = true ∧ m_client d = true ∧ m_protocol d = Some PClient ∧
    awaits (m_readHeader d) pre ∧ queue_ok (m_writeQueue d) ∧ outgoing d = out ∧ armed sm fd d.

(** Serving changed the slot [fd] only. *)
Lemma serving_after sm fd ws d' pre : table_ok sm fd → is_Some (m_fds sm !! fd) →
  m_listen d' = false → m_used d' = true → m_client d' = true → m_protocol d' = Some PClient → awaits (m_readHeader d') pre → queue_ok (m_writeQueue d') →
  armed (setWriteSet ws (setFds (<[fd := d']> (m_fds sm)) sm)) fd d' →
  serving (setWriteSet ws (setFds (<[fd := d']> (m_fds sm)) sm)) fd pre (outgoing d').
Proof.
  intros (Hok & Hmax & Hfd & Hsteps) [d Hd] Hl Hu Hc Hp Haw Hq Harmed. split.
  - split; [|done]. by apply slots_ok_insert with (d := d).
  - exists d'. split_and!; try done. cbn. by apply list_lookup_insert_eq, (lookup_lt_Some _ _ d).
Qed.

(** A piece of a request arrives. *)
Lemma serving_piece sm s fd pre out piece rest request :
  0 < fuel → serving sm fd pre out → request_ok PClient request → pre +:+ piece +:+ rest = request_frame PClient request → rest ≠ "" →
  ∃ sm', turn (ReadData piece) 0 None {[fd]} ∅ (sm, s) = (Ret tt, (sm', s)) ∧ serving sm' fd (pre +:+ piece) out.
Proof.
  intros Hfuel (Htab & d & Hd & Hl & Hu & Hc & Hp & Haw & Hq & <- & _) Hreq Hpiece Hrest. destruct fuel as [|n] eqn:Hn; [lia|]. rewrite <-Hn.
  destruct (awaits_append _ pre piece Haw) as (q & Happ & Haw1).
  assert (speaks sm fd PClient (m_readHeader d)) as Hs by (by exists d).
  pose proof (speaks_with_header sm fd PClient _ (setHeaderContent q (m_readHeader d)) Hs) as Hs1.
  destruct (message_fits (ProtocolLaws:=request_laws PClient) _ Hreq) as [Hfit Hseq]. rewrite <-str_app_assoc in Hpiece.
  destruct (extractFrame_partial (requestSwitch PClient) _ _ _ _ rest Hseq Hfit Haw1 Hpiece Hrest) as (h2 & H2 & Haw2).
  assert (handleRead (Logic_execute depth) fuel fd piece (sm, s) = (Ret true, (with_header sm fd h2, s))) as Hread.
  { unfold handleRead, pushReadBuffer. rewrite SE_bind_eq.
    rewrite (onDesc_header sm s fd PClient _ (onContent (appendCopy piece)) (Ret tt) (setHeaderContent q (m_readHeader d)) Hs)
      by (unfold onContent; by rewrite Happ).
    unfold tryCatch. rewrite SE_bind_eq, Hn. cbn [handleReadLoop].
    rewrite SE_bind_eq, (extractRequest_header _ s fd PClient _ (Ret None) h2 Hs1) by done. by rewrite with_header_twice. }
  unfold with_header in Hread. rewrite Hd in Hread.
  assert (fd < length (m_fds sm)) as Hlen by (by eapply lookup_lt_Some).
  destruct (turn_reads piece sm s fd _ s d (setReadHeader h2 d) Htab Hd Hl Hread) as (ws & Hrun & Harmed); try done.
  - by apply slots_ok_insert with (d := d); [apply Htab|..].
  - by apply list_lookup_insert_eq.
  - eexists. split; [exact Hrun|]. change (outgoing d) with (outgoing (setReadHeader h2 d)). apply serving_after; try done; by exists d.
Qed.

(** The last piece of a check request arrives. *)
Lemma serving_last sm s fd pre out piece key seq result :
  1 < fuel → serving sm fd pre out → request_ok PClient (CheckRequest key seq) →
  pre +:+ piece = request_frame PClient (CheckRequest key seq) →
  decision depth s key result → getContext (m_checkRequestManager s) (linkOf s fd) seq = None → response_ok PClient (CheckResponse result seq) →
  ∃ sm', turn (ReadData piece) 0 None {[fd]} ∅ (sm, s) = (Ret tt, (sm', audited_state s key result)) ∧
    serving sm' fd "" (out +:+ response_frame PClient (CheckResponse result seq)).
Proof.
  intros Hfuel (Htab & d & Hd & Hl & Hu & Hc & Hp & Haw & Hq & <- & _) Hreq Hpiece Hdec Hnew Hres.
  destruct (check_handled depth sm s fd d pre piece key seq result fuel Hd Hp Hq Haw Hreq Hpiece Hdec Hnew Hres Hfuel)
    as (h' & q & Hread & Haw' & Hokq & Hbq). set (d' := setWriteQueue q (setReadHeader h' d)) in *.
  destruct (turn_reads piece sm s fd _ (audited_state s key result) d d' Htab Hd Hl Hread) as (ws & Hrun & Harmed); try done.
  - by apply slots_ok_insert with (d := d); [apply Htab|..].
  - by apply list_lookup_insert_eq, (lookup_lt_Some _ _ d).
  - eexists. split; [exact Hrun|].
    replace (outgoing d +:+ _) with (outgoing d') by (unfold outgoing; cbn; by rewrite Hbq, str_app_assoc).
    apply serving_after; try done; by exists d.
Qed.

(** The service writes. *)
Lemma serving_written n sm s fd pre out : serving sm fd pre out →
  (out ≠ "" → fd ∈ m_writeSet sm) ∧ (∃ st, onDesc fd prepareWriteBuffer (sm, s) = (Ret out, st)) ∧
  ∃ sm', turn ReadAgain n None ∅ {[fd]} (sm, s) = (Ret tt, (sm', s)) ∧ serving sm' fd pre (sdrop n out).
Proof.
  intros (Htab & d & Hd & Hl & Hu & Hc & Hp & Haw & Hq & <- & Harmed). split; [done|]. split; [by eapply prepare_outgoing|].
  destruct (turn_writes n sm s fd d Htab Hd Hu Hq) as (q & ws & Hrun & Hokq & Hbq & Harmed').
  eexists. split; [exact Hrun|].
  set (d' := setWriteBuffer (sdrop n (outgoing d)) (setWriteQueue q d)) in *.
  assert (outgoing d' = sdrop n (outgoing d)) as <- by (unfold outgoing at 1; cbn; by rewrite Hbq, str_app_nil_r).
  by apply serving_after.
Qed.

(** A connection is accepted. *)
Lemma serving_accepted listening next sm s l :
  table_ok sm listening → m_fds sm !! listening = Some l → m_listen l = true → m_used l = true → m_client l = true → m_protocol l = Some PClient →
  (∀ d, m_fds sm !! next = Some d → m_used d = false) → next < FD_SETSIZE → next < steps →
  ∃ sm', turn ReadAgain 0 (Some next) {[listening]} ∅ (sm, s) = (Ret tt, (sm', s)) ∧ serving sm' next "" "".
Proof.
  intros (Hok & Hmax & Hfd & Hsteps) Hl Hlis Hu Hc Hp Hfree Hnext Hsn.
  destruct (proj2 (accepted_connection_fresh sm s listening l PClient next Hok Hl Hp Hu Hfree) Hnext)
    as (sm1 & Hacc & Hok1 & Hd1 & _ & _ & Hm1 & _). cbv zeta in Hacc.
  assert (m_maxDesc sm1 < Z.of_nat FD_SETSIZE)%Z as Hmax1 by lia.
  destruct (turn_armed sm1 s next _ Hok1 Hmax1 ltac:(lia) Hd1) as (ws & Harm & Harmed); [done|apply queue_ok_new|].
  exists (setWriteSet ws sm1). split.
  - unfold service_turn, mainLoopTurn. rewrite size_singleton, size_empty, SE_bind_eq.
    rewrite (serve_reader _ _ _ _ _ _ fuel listening steps 0 (sm, s) (sm1, s)); [exact Harm|lia|lia|done|].
    unfold readyForRead. rewrite SE_bind_eq. cbn [desc]. by rewrite Hl, Hlis.
  - split; [split; [done|]; cbn [m_maxDesc setWriteSet]; lia|]. eexists. split; [exact Hd1|]. by split_and!.
Qed.
End turns.

(** ** Fair turns *)

Definition reads_some (t : Turn) : bool := match t with ServiceReads (S _) => true | _ => false end.
Definition writes_some (t : Turn) : bool := match t with ServiceWrites (S _) => true | _ => false end.
Definition takes_some (t : Turn) : bool := match t with ClientReads (S _) => true | _ => false end.
Definition turns_of (f : Turn → bool) (ts : list Turn) : nat := length (filter f ts).

(** The service has turns enough to read the request, then to write the response, and the client
    then to read it, even one byte at a time; whatever else happens in between. *)
Definition fair (request response : string) (ts : list Turn) : Prop :=
  ∃ t1 t2 t3, ts = t1 ++ t2 ++ t3 ∧ String.length request ≤ turns_of reads_some t1 ∧
    String.length response ≤ turns_of writes_some t2 ∧ String.length response ≤ turns_of takes_some t3.

(** The bytes that calls of [recv] gave. *)
Definition got (r : RecvResult) : string := match r with Received piece => piece | _ => "" end.
Definition gots (l : list RecvResult) : string := fields (map got l).
(** A connection that is not closed gives bytes or nothing yet. *)
Definition open_result (r : RecvResult) : Prop := r = RecvAgain ∨ ∃ piece, r = Received piece.

Lemma turns_of_cons f t ts : turns_of f (t :: ts) = (if f t then 1 else 0) + turns_of f ts.
Proof. unfold turns_of. rewrite filter_cons. by destruct (f t). Qed.

Lemma gots_app l1 l2 : gots (l1 ++ l2) = gots l1 +:+ gots l2.
Proof. unfold gots. by rewrite map_app, fields_app. Qed.

Lemma gots_arrivals rounds : gots (arrivals rounds) = fields (concat rounds).
Proof.
  induction rounds as [|pieces rounds IH]; [done|]. rewrite arrivals_cons, !gots_app, IH. cbn [concat]. rewrite fields_app. f_equal.
  transitivity (gots (map Received pieces)); [by apply str_app_nil_r|]. unfold gots. rewrite map_map. cbn. by rewrite map_id.
Qed.

(** Results that end with nothing for now are wake-ups. *)
Lemma arrivals_of l : Forall open_result l → ∃ rounds, l ++ [RecvAgain] = arrivals rounds ∧ rounds ≠ [] ∧
  length rounds ≤ S (length l) ∧ Forall (λ pieces, length pieces ≤ length l) rounds.
Proof.
  induction 1 as [|r l Hr _ (rounds & Hl & Hne & Hlen & Hpieces)]; [by exists [[]]; repeat constructor|].
  assert (Forall (λ pieces, length pieces ≤ S (length l)) rounds) as Hp' by (eapply Forall_impl; [done|]; cbn; lia).
  destruct Hr as [->|[piece ->]].
  - exists ([] :: rounds). cbn [app length]. rewrite Hl, arrivals_cons. split_and!; [done..|lia|]. constructor; [cbn; lia|done].
  - destruct rounds as [|pieces rounds]; [done|]. exists ((piece :: pieces) :: rounds). cbn [app length]. rewrite Hl, !arrivals_cons.
    split_and!; [done..|cbn in *; lia|]. apply Forall_cons in Hp' as [_ Hp']. apply Forall_cons in Hpieces as [Hp _].
    constructor; [cbn; lia|done].
Qed.

Section exchange.
Context `{HO : HashOrder} {B D Plugin P : Type} `{SB : StorageBackend B} `{H : !Host B D Plugin P}.
Context (depth steps fuel : nat).
Abbreviation NetState := (Net Plugin P B D) (only parsing).
Implicit Types (w : NetState) (sm : SocketManager).
Abbreviation turnOf := (net_turn (B:=B) (D:=D) (Plugin:=Plugin) (P:=P) depth steps fuel) (only parsing).
Abbreviation recv := (net_recv (B:=B) (D:=D) (Plugin:=Plugin) (P:=P) depth steps fuel) (only parsing).

(** All turns, with the results for the client. *)
Fixpoint all_turns (ts : list Turn) w : list RecvResult * NetState :=
  match ts with
  | [] => ([], w)
  | t :: ts =>
      let '(w1, o) := turnOf t w in
      let '(l, w2) := all_turns ts w1 in ((match o with Some r => [r] | None => [] end) ++ l, w2)
  end.

Lemma all_turns_app t1 t2 w :
  all_turns (t1 ++ t2) w = let '(l1, w1) := all_turns t1 w in let '(l2, w2) := all_turns t2 w1 in (l1 ++ l2, w2).
Proof.
  revert w. induction t1 as [|t t1 IH]; intros w; cbn [app all_turns]; [by destruct (all_turns t2 w)|].
  destruct (turnOf t w) as [w1 o]. rewrite IH. destruct (all_turns t1 w1) as [l1 w2], (all_turns t2 w2) as [l2 w3]. by rewrite app_assoc.
Qed.

(** A turn does not look at the coming ones. *)
Lemma net_turn_turns t ts w : turnOf t (setTurns ts w) = (setTurns ts (turnOf t w).1, (turnOf t w).2).
Proof.
  destruct w as [st link inbox outbox ts0], t as [n|n|n]; cbn.
  - unfold net_reads, net_alive. cbn. by destruct (_ || _).
  - unfold net_writes, net_alive. cbn. destruct (_ || _); [done|]. by destruct (onDesc _ _ _) as [[?|?|] ?].
  - by case_bool_decide.
Qed.

Lemma recv_turns_turns ts x w : recv_turns depth steps fuel ts (setTurns x w) = recv_turns depth steps fuel ts w.
Proof.
  revert w x. induction ts as [|t ts IH]; intros w x; cbn [recv_turns]; [done|].
  rewrite net_turn_turns. destruct (turnOf t w) as [w1 [r|]]; [done|]. cbn. by rewrite IH.
Qed.

Lemma all_turns_delivers ts w w0 : (recv w0 = let '(r, w') := recv_turns depth steps fuel ts w in (Ret r, w')) →
  delivers recv w0 ((all_turns ts w).1 ++ [nothing_there (all_turns ts w).2]) (setTurns [] (all_turns ts w).2).
Proof.
  revert w w0. induction ts as [|t ts IH]; intros w w0 H0; cbn [recv_turns all_turns] in *; [econstructor; [done|constructor]|].
  destruct (turnOf t w) as [w1 [r|]]; cbn [app].
  - specialize (IH w1 (setTurns ts w1)). destruct (all_turns ts w1) as [l w2]. econstructor; [exact H0|]. apply IH.
    unfold net_recv. cbn [net_turns setTurns]. by rewrite recv_turns_turns.
  - specialize (IH w1 w0 H0). by destruct (all_turns ts w1).
Qed.

(** ** One request and its response *)

(** Nothing is on the way, and the service has nothing to write. *)
Definition quiet_net w : Prop :=
  net_alive w ∧ serving steps (net_service w).1 (net_link w).1 "" "" ∧ net_inbox w = "" ∧ net_outbox w = "".

Context (link : LinkId) (s0 : Service Plugin P B D) (key : PolicyKey) (seq : Z) (result : PolicyResult).
Let request : string := request_frame PClient (CheckRequest key seq).
Let response : string := response_frame PClient (CheckResponse result seq).

(** The client has sent a check and [received] some of the response. *)
Definition exchanging (received : string) w : Prop :=
  net_link w = link ∧ linkOf s0 link.1 = link ∧
  ((∃ sm pre, net_service w = (sm, s0) ∧ serving steps sm link.1 pre "" ∧ pre +:+ net_inbox w = request ∧
      net_inbox w ≠ "" ∧ net_outbox w = "" ∧ received = "") ∨
   (∃ sm out, net_service w = (sm, audited_state s0 key result) ∧ serving steps sm link.1 "" out ∧ net_inbox w = "" ∧
      received +:+ net_outbox w +:+ out = response)).

(** What the service has still to read, to write and the client to receive. *)
Definition to_read w : nat := String.length (net_inbox w).
Definition to_write (received : string) w : nat :=
  String.length response - (String.length received + String.length (net_outbox w)).
Definition to_receive (received : string) : nat := String.length response - String.length received.

Lemma exchanging_alive received w : exchanging received w → net_alive w.
Proof.
  unfold net_alive. intros (-> & Hl & [(sm & pre & -> & _)|(sm & out & -> & _)]); [done|]. cbn [snd]. by rewrite linkOf_audited.
Qed.

Lemma nothing_yet received w : exchanging received w → nothing_there w = RecvAgain.
Proof. intros Hx%exchanging_alive. unfold nothing_there. by rewrite bool_decide_eq_true_2. Qed.

Lemma stake_nil n s : stake n s = "" → n = 0 ∨ s = "".
Proof. destruct n; [by left|]. destruct s; [by right|done]. Qed.

(** The exchange is over. *)
Lemma exchanged_quiet w : exchanging response w → quiet_net w ∧ net_link w = link ∧ (net_service w).2 = audited_state s0 key result.
Proof.
  intros Hx. pose proof (exchanging_alive _ _ Hx) as Halive. destruct Hx as (Hlink & _ & [(sm & pre & _ & _ & _ & _ & _ & Hnil)|(sm & out & Hst & Hserv & Hin & Hout)]).
  { exfalso. apply (f_equal String.length) in Hnil. unfold response, response_frame, frame_bytes in Hnil.
    rewrite str_length_app, frame_header_length in Hnil. cbn in Hnil. lia. }
  assert (net_outbox w = "" ∧ out = "") as [Ho ->].
  { apply (f_equal String.length) in Hout. rewrite !str_length_app in Hout.
    split; apply str_length_nil; lia. }
  rewrite Hst, Hlink. unfold quiet_net. by rewrite Hst, Hlink.
Qed.

Context (Hfuel : 1 < fuel) (Hdec : decision depth s0 key result) (Hreq : request_ok PClient (CheckRequest key seq)).
Context (Hres : response_ok PClient (CheckResponse result seq)).
Context (Hnew : getContext (m_checkRequestManager s0) (linkOf s0 link.1) seq = None).

Lemma reads_exchange n received w : exchanging received w →
  let w' := net_reads depth steps fuel n w in
  exchanging received w' ∧ to_write received w' = to_write received w ∧
  to_read w' ≤ to_read w - (if reads_some (ServiceReads n) then 1 else 0).
Proof.
  intros Hx. pose proof (exchanging_alive received w Hx) as Halive. unfold net_reads. rewrite (bool_decide_eq_true_2 _ Halive), orb_false_r.
  assert (to_read w = 0 → to_read w ≤ to_read w - (if reads_some (ServiceReads n) then 1 else 0)) as Hzero by (intros ->; lia).
  case_bool_decide as Hp.
  - split; [done|]. split; [done|]. unfold to_read in *. destruct (stake_nil _ _ Hp) as [-> | ->]; [cbn; lia|done].
  - destruct Hx as (Hlink & Hl & [(sm & pre & Hst & Hserv & Hin & Hne & Hout & ->)|(sm & out & Hst & Hserv & Hin & _)]).
    2: { exfalso. apply Hp. rewrite Hin. by destruct n. }
    destruct w as [st link' inbox outbox ts]. cbn in *. subst st link' outbox.
    split; [|split; [done|]].
    2: { unfold to_read. cbn. rewrite str_length_sdrop. destruct n; lia. }
    split; [done|]. split; [done|]. destruct (decide (sdrop n inbox = "")) as [Hd|Hd].
    + right. pose proof (stake_sdrop n inbox) as Hcut. rewrite Hd, str_app_nil_r in Hcut.
      destruct (serving_last depth steps fuel sm s0 link.1 pre "" (stake n inbox) key seq result) as (sm' & Hrun & Hserv'); try done.
      { by rewrite Hcut. }
      rewrite Hrun. by exists sm', response.
    + left. destruct (serving_piece depth steps fuel sm s0 link.1 pre "" (stake n inbox) (sdrop n inbox) (CheckRequest key seq))
        as (sm' & Hrun & Hserv'); try done; [lia|by rewrite stake_sdrop|].
      rewrite Hrun. exists sm', (pre +:+ stake n inbox). by rewrite str_app_assoc, stake_sdrop.
Qed.

Lemma writes_exchange n received w : exchanging received w →
  let w' := net_writes depth steps fuel n w in
  exchanging received w' ∧ to_read w' = to_read w ∧
  (to_read w = 0 → to_write received w' ≤ to_write received w - (if writes_some (ServiceWrites n) then 1 else 0)) ∧
  to_write received w' ≤ to_write received w.
Proof.
  intros Hx. pose proof (exchanging_alive received w Hx) as Halive. unfold net_writes. rewrite (bool_decide_eq_true_2 _ Halive), orb_false_r.
  destruct Hx as (Hlink & Hl & [(sm & pre & Hst & Hserv & Hin & Hne & Hout & ->)|(sm & out & Hst & Hserv & Hin & Hout)]);
    destruct w as [st link' inbox outbox ts]; cbn in *; subst st link'; cbn [fst].
  - destruct (serving_written depth steps fuel n sm s0 link.1 pre "" Hserv) as (_ & (st' & Hprep) & sm' & Hrun & Hserv').
    assert (to_read (mkNet (sm, s0) link inbox outbox ts) = 0 → False) as Hread.
    { unfold to_read. cbn. intros Hz. by apply str_length_nil in Hz. }
    case_bool_decide as Hw; cbn [negb].
    + rewrite Hprep, Hrun. subst outbox. unfold to_write. cbn [net_outbox setOutbox setNetService].
      replace (stake n "") with "" by (by destruct n). replace (sdrop n "") with "" in Hserv' by (by destruct n).
      split; [|split_and!; [done| |done]; by intros ?%Hread].
      split; [done|]. split; [done|]. left. by exists sm', pre.
    + split; [|split_and!; [done| |done]; by intros ?%Hread].
      split; [done|]. split; [done|]. left. by exists sm, pre.
  - destruct (serving_written depth steps fuel n sm (audited_state s0 key result) link.1 "" out Hserv)
      as (Harmed & (st' & Hprep) & sm' & Hrun & Hserv').
    assert (to_write received (mkNet (sm, audited_state s0 key result) link inbox outbox ts) = String.length out) as Hlen.
    { unfold to_write. cbn. rewrite <-Hout, !str_length_app. lia. }
    case_bool_decide as Hw; cbn [negb].
    + rewrite Hprep, Hrun. set (w' := setOutbox _ _).
      assert (to_write received w' = String.length out - n) as Hlen'.
      { unfold to_write, w'. cbn. rewrite <-Hout, !str_length_app, str_length_stake. lia. }
      split; [|split_and!; [done| |]; rewrite ?Hlen, ?Hlen'; [destruct n; cbn; lia|lia]].
      split; [done|]. split; [done|]. right. exists sm', (sdrop n out). split_and!; try done. unfold w'. cbn.
      by rewrite str_app_assoc, stake_sdrop.
    + assert (out = "") as -> by (by destruct (decide (out = "")) as [|?%Harmed]). rewrite Hlen.
      split; [|split_and!; [done|cbn; lia|done]]. split; [done|]. split; [done|]. right. by exists sm, "".
Qed.

(** What a turn gives to the client. *)
Definition given (o : option RecvResult) : string := match o with Some r => got r | None => "" end.

Lemma turn_exchange t received w w' o : turnOf t w = (w', o) → exchanging received w →
  exchanging (received +:+ given o) w' ∧ (∀ r, o = Some r → open_result r) ∧
  to_read w' ≤ to_read w - (if reads_some t then 1 else 0) ∧
  to_write (received +:+ given o) w' ≤ to_write received w - (if decide (to_read w = 0) then if writes_some t then 1 else 0 else 0) ∧
  to_receive (received +:+ given o) ≤
    to_receive received - (if decide (to_read w = 0 ∧ to_write received w = 0) then if takes_some t then 1 else 0 else 0).
Proof.
  intros Ht Hx. destruct t as [n|n|n]; cbn [net_turn] in Ht.
  - injection Ht as <- <-. cbn [given]. rewrite str_app_nil_r. destruct (reads_exchange n received w Hx) as (Hx' & Hw & Hr).
    split_and!; [done|done|done| |]; cbn; repeat case_decide; lia.
  - injection Ht as <- <-. cbn [given]. rewrite str_app_nil_r. destruct (writes_exchange n received w Hx) as (Hx' & Hr & Hw & Hle).
    split_and!; [done|done|cbn; lia| |]; repeat case_decide; try specialize (Hw ltac:(tauto)); cbn in *; lia.
  - case_bool_decide as Hp; injection Ht as <- <-.
    + rewrite (nothing_yet received w Hx). cbn [given got reads_some writes_some takes_some]. rewrite str_app_nil_r.
      split_and!; [done|by intros r [= <-]; left|lia|case_decide; lia|]. case_decide as Hdone; [|lia]. destruct n as [|n]; [lia|].
      destruct (stake_nil _ _ Hp) as [|Hout]; [done|]. unfold to_write, to_receive in *. rewrite Hout in Hdone. cbn in Hdone. lia.
    + cbn [given got]. assert (String.length (net_outbox w) = String.length (stake n (net_outbox w)) + String.length (sdrop n (net_outbox w))) as Hlen.
      { by rewrite <-str_length_app, stake_sdrop. }
      assert (String.length (stake n (net_outbox w)) ≠ 0) as Hpos by (by intros Hz%str_length_nil).
      split_and!; [|intros r [= <-]; right; by eexists|unfold to_read; cbn; lia| |].
      * destruct Hx as (Hlink & Hl & [(sm & pre & _ & _ & _ & _ & Hout & _)|(sm & out & Hst & Hserv & Hin & Hout)]).
        { exfalso. apply Hp. rewrite Hout. by destruct n. }
        split; [done|]. split; [done|]. right. exists sm, out. split_and!; try done. cbn.
        by rewrite str_app_assoc, <-(str_app_assoc (stake _ _)), stake_sdrop.
      * unfold to_write. cbn [net_outbox setOutbox writes_some]. rewrite str_length_app. case_decide; lia.
      * unfold to_receive, to_write. rewrite str_length_app. case_decide as Hdone; [|lia]. destruct Hx as (_ & _ & [Hx|(sm & out & _ & _ & _ & Hout)]).
        { exfalso. destruct Hx as (sm & pre & _ & _ & _ & _ & Hout & _). apply Hp. rewrite Hout. by destruct n. }
        apply (f_equal String.length) in Hout. rewrite !str_length_app in Hout. destruct n; cbn [takes_some]; lia.
Qed.

Lemma all_turns_exchange ts received w l w' : all_turns ts w = (l, w') → exchanging received w →
  exchanging (received +:+ gots l) w' ∧ Forall open_result l ∧ length l ≤ length ts ∧
  to_read w' ≤ to_read w - turns_of reads_some ts ∧
  to_write (received +:+ gots l) w' ≤ to_write received w - (if decide (to_read w = 0) then turns_of writes_some ts else 0) ∧
  to_receive (received +:+ gots l) ≤
    to_receive received - (if decide (to_read w = 0 ∧ to_write received w = 0) then turns_of takes_some ts else 0).
Proof.
  revert received w l. induction ts as [|t ts IH]; intros received w l; cbn [all_turns].
  - intros [= <- <-] Hx. unfold gots. cbn [map]. change (fields []) with "". rewrite str_app_nil_r. cbn. repeat case_decide; split_and!; try done; lia.
  - destruct (turnOf t w) as [w1 o] eqn:Ht. destruct (all_turns ts w1) as [l1 w2] eqn:Hts. intros [= <- <-] Hx.
    destruct (turn_exchange t received w w1 o Ht Hx) as (Hx1 & Ho & Hr & Hw & Hc).
    destruct (IH _ _ _ Hts Hx1) as (Hx2 & Hl & Hlen & Hr2 & Hw2 & Hc2).
    assert (gots ((match o with Some r => [r] | None => [] end) ++ l1) = given o +:+ gots l1) as ->.
    { rewrite gots_app. f_equal. destruct o as [r|]; [|done]. apply fields_one. }
    rewrite <-str_app_assoc. split; [done|]. split; [destruct o as [r|]; [constructor; [by apply Ho|done]|done]|].
    rewrite !turns_of_cons. split; [destruct o; cbn; lia|].
    clear IH. generalize dependent (turns_of reads_some ts). generalize dependent (turns_of writes_some ts). generalize dependent (turns_of takes_some ts).
    intros nt Hc2 nw Hw2 nr Hr2. split_and!; repeat case_decide; lia.
Qed.

(** A call of [recv] keeps the exchange going. *)
Lemma recv_turns_exchange ts received w r w' : recv_turns depth steps fuel ts w = (r, w') → exchanging received w →
  exchanging (received +:+ got r) w'.
Proof.
  revert w. induction ts as [|t ts IH]; intros w; cbn [recv_turns].
  - intros [= <- <-] Hx. rewrite (nothing_yet received w Hx). cbn [got]. by rewrite str_app_nil_r.
  - destruct (turnOf t w) as [w1 o] eqn:Ht. intros Hrun Hx. destruct (turn_exchange t received w w1 o Ht Hx) as (Hx1 & _).
    destruct o as [r1|]; [injection Hrun as <- <-; exact Hx1|]. cbn [given] in Hx1. rewrite str_app_nil_r in Hx1. by apply (IH w1).
Qed.

Lemma delivers_exchange received w l w' : delivers recv w l w' → exchanging received w → exchanging (received +:+ gots l) w'.
Proof.
  intros Hd. revert received. induction Hd as [w|w r w1 l w2 Hr _ IH]; intros received Hx.
  - unfold gots. cbn. by rewrite str_app_nil_r.
  - change (gots (r :: l)) with (got r +:+ gots l). rewrite <-str_app_assoc. apply IH. unfold net_recv in Hr.
    destruct (recv_turns depth steps fuel (net_turns w) w) as [r' w'] eqn:Hrun. injection Hr as -> ->.
    exact (recv_turns_exchange _ _ _ _ _ Hrun Hx).
Qed.

(** With fair turns the whole response comes. *)
Lemma fair_exchange ts w l w' : fair request response ts → all_turns ts w = (l, w') → exchanging "" w →
  gots l = response ∧ exchanging response w' ∧ Forall open_result l ∧ length l ≤ length ts.
Proof.
  intros (t1 & t2 & t3 & -> & Hr & Hw & Hc). rewrite all_turns_app. destruct (all_turns t1 w) as [l1 w1] eqn:H1.
  rewrite all_turns_app. destruct (all_turns t2 w1) as [l2 w2] eqn:H2, (all_turns t3 w2) as [l3 w3] eqn:H3.
  intros [= <- <-] Hx. destruct (all_turns_exchange t1 "" w l1 w1 H1 Hx) as (Hx1 & Hl1 & Hlen1 & Hr1 & _ & _).
  assert (to_read w ≤ String.length request) as Hall.
  { destruct Hx as (_ & _ & [(sm & pre & _ & _ & <- & _)|(sm & out & _ & _ & Hin & _)]); unfold to_read; [rewrite str_length_app; lia|].
    rewrite Hin. cbn. lia. }
  destruct (all_turns_exchange t2 _ w1 l2 w2 H2 Hx1) as (Hx2 & Hl2 & Hlen2 & Hr2 & Hw2 & _). rewrite decide_True in Hw2 by lia.
  destruct (all_turns_exchange t3 _ w2 l3 w3 H3 Hx2) as (Hx3 & Hl3 & Hlen3 & _ & _ & Hc3). unfold to_write, to_receive in *.
  rewrite decide_True in Hc3 by lia. rewrite !gots_app, <-str_app_assoc. cbn [String.append] in *. change ("" +:+ gots l1) with (gots l1) in *.
  assert (gots l1 +:+ gots l2 +:+ gots l3 = response) as Hall3.
  { destruct Hx3 as (_ & _ & [(sm & pre & _ & _ & _ & _ & _ & Hnil)|(sm & out & _ & _ & _ & Hout)]).
    - rewrite Hnil in Hc3. exfalso. assert (String.length response = 0) as Hz by (cbn in Hc3; lia).
      unfold response, response_frame, frame_bytes in Hz. rewrite str_length_app, frame_header_length in Hz. unfold frameHeaderLength in Hz. lia.
    - pose proof (f_equal String.length Hout) as Hlen. rewrite !str_length_app in Hlen. rewrite str_length_app in Hc3.
      assert (net_outbox w3 +:+ out = "") as Hnil by (apply str_length_nil; rewrite str_length_app in *; lia).
      by rewrite Hnil, str_app_nil_r, str_app_assoc in Hout. }
  rewrite !str_app_assoc in *. rewrite Hall3 in Hx3. split_and!; [done|done|by repeat apply Forall_app_2|rewrite !length_app; lia].
Qed.
End exchange.

(** ** The cache of the client *)

Section cache.
Context {E CP : Type} `{CPs : !ClientPlugins E CP}.
Implicit Types c : CapacityCache E CP.

(** The plugins of a cache stay. *)
Definition plugins_are (ps : gmap PolicyType (ClientPlugin E)) c : Prop := m_clientPlugins c = ps.

Lemma plugins_kept ps session key result :
  keeps (plugins_are ps) (cache_get session key) ∧ keeps (plugins_are ps) (cache_update session key result) ∧
  keeps (plugins_are ps) cache_clear.
Proof.
  assert (∀ A (f : CP → A * CP), keeps (plugins_are ps) (onPlugins f)) as Hon.
  { intros A f c Hc. unfold onPlugins. by destruct (f _). }
  assert (∀ it, keeps (plugins_are ps) (spliceFront it)) as Hs by (intros it c Hc; unfold spliceFront; by destruct (filter _ _)).
  assert (∀ it, keeps (plugins_are ps) (eraseUsage it)) as Hu by (intros it c Hc; unfold eraseUsage; by destruct (filter _ _)).
  assert (keeps (plugins_are ps) evict) as He.
  { intros c Hc. unfold evict. destruct (last _) as [[? ?]|]; [|done]. by destruct (m_keyValue _ !! _). }
  assert (∀ t, keeps (plugins_are ps) (findPlugin t)) as Hf.
  { intros t c Hc. unfold findPlugin. destruct (m_clientPlugins c !! t); [done|]. by destruct (getPlugin _ _). }
  assert (keeps (plugins_are ps) (λ c, let '(r, p) := invalidateAll client_invalidate (m_clientPluginManager c) (clientPluginState c) in
    (r, setClientPluginState p c))) as Hi by (intros c Hc; by destruct (invalidateAll _ _ _)).
  split_and!; unfold cache_get, cache_update, cache_clear, store, eraseKey, setValue, pushFront; keep; try done;
    by (apply keeps_modify; intros c Hc).
Qed.

Lemma plugins_after_clear c : m_clientPlugins (cache_clear c).2 = m_clientPlugins c.
Proof. by apply (plugins_kept (m_clientPlugins c) "" (PolicyKey_of "" "" "") PolicyResult_default). Qed.

Lemma cache_get_absent c session key : m_keyValue c !! keyToString key = None → cache_get session key c = (Ret CYNARA_API_CACHE_MISS, c).
Proof. intros Hk. unfold cache_get. rewrite SE_bind_eq. cbn [get]. by rewrite Hk. Qed.

(** The plugin that the client has for a type. *)
Lemma plugin_for_own c t : m_clientPlugins c !! t = Some NaiveInterpreter → plugin_for c t = Some NaiveInterpreter.
Proof. intros Hp. unfold plugin_for. by rewrite Hp. Qed.

(** A new result is stored in front. *)
Lemma cache_stores c session key r : cache_ok c → lru_find (keyToString key) (lru c) = None →
  m_clientPlugins c !! policyType r = Some NaiveInterpreter →
  ∃ c', cache_update session key r c = (Ret (naive_toResult r), c') ∧ cache_ok c' ∧ m_clientPlugins c' = m_clientPlugins c ∧
    (0 < m_capacity c → ∃ l, lru c' = (keyToString key, (r, session)) :: l).
Proof.
  intros Hok Hnone Hp. pose proof (cache_update_lru c session key r Hok) as Hup.
  pose proof (proj1 (proj2 (plugins_kept (m_clientPlugins c) session key r)) c eq_refl) as Hps.
  unfold lru_update, lru_store in Hup. rewrite (plugin_for_own c _ Hp) in Hup. cbn [isCacheable toResult fst] in Hup. rewrite Hnone in Hup.
  destruct (Nat.eqb_spec (m_capacity c) 0) as [Hz|Hz]; cbn [fmap option_fmap option_map] in Hup; destruct Hup as (c' & Hrun & Hok' & Hl);
    rewrite Hrun in Hps; exists c'; (split; [exact Hrun|]; split; [done|]; split; [exact Hps|]); [lia|].
  intros _. eexists. exact Hl.
Qed.

(** The result in front answers. *)
Lemma cache_answers c session prev key r l : cache_ok c → lru c = (keyToString key, (r, prev)) :: l →
  m_clientPlugins c !! policyType r = Some NaiveInterpreter →
  ∃ c', cache_get session key c = (Ret (naive_toResult r), c').
Proof.
  intros Hok Hl Hp. destruct (cache_get_lru c session key Hok) as (c' & Hrun & _). exists c'. rewrite Hrun. f_equal. f_equal.
  unfold lru_get, lru_find. rewrite Hl, filter_cons_True by done. cbn [head fmap option_fmap option_map snd].
  by rewrite (plugin_for_own c _ Hp).
Qed.
End cache.

(** ** The client over this system *)

Section client.
Context `{HO : HashOrder} {B D Plugin P : Type} `{SB : StorageBackend B} `{H : !Host B D Plugin P}.
Context {E CP : Type} `{CPs : !ClientPlugins E CP}.
Context (depth steps fuel accepts listening next : nat) (tries rounds cfuel : nat).
Abbreviation NetState := (Net Plugin P B D) (only parsing).
Context (sys_clock : SE NetState (option timespec)).
Implicit Types (st : ClientState E CP NetState) (w : NetState).

Let netConnect := net_connect (B:=B) (D:=D) (Plugin:=Plugin) (P:=P) depth steps fuel listening next.
Let netRecv := net_recv (B:=B) (D:=D) (Plugin:=Plugin) (P:=P) depth steps fuel.
Let netSend := net_send (B:=B) (D:=D) (Plugin:=Plugin) (P:=P) accepts.

Definition net_check : string → string → string → string → SE (ClientState E CP NetState) Z :=
  check net_poll net_getsockopt net_socket netConnect netSend netRecv sys_clock false tries rounds cfuel.
Let connectedL := isConnected (E:=E) (P:=CP) (W:=NetState) net_poll net_getsockopt.
Let ensureL := ensureConnection (E:=E) (P:=CP) (W:=NetState) net_poll net_getsockopt net_socket netConnect.

Definition withSystem w st : ClientState E CP NetState :=
  mkClientState (m_socketClient st) (m_cache st) (m_monitorCache st) (sequenceNumber st) w.

(** The client has a connection, and no request on the way. *)
Definition attached st : Prop :=
  client_ready (m_socketClient st) PClient "" ∧ m_open (m_socket (m_socketClient st)) = true ∧
  m_connectionInProgress (m_socket (m_socketClient st)) = false ∧ quiet_net steps (system_ st).

(** The service can answer a check for [key] with [result]. *)
Definition answers (s : Service Plugin P B D) (fd : nat) (key : PolicyKey) (seq : Z) (result : PolicyResult) : Prop :=
  decision depth s key result ∧ getContext (m_checkRequestManager s) (linkOf s fd) seq = None ∧
  request_ok PClient (CheckRequest key seq) ∧ response_ok PClient (CheckResponse result seq).

(** Turns and bounds that are enough for a check. *)
Definition enough (key : PolicyKey) (seq : Z) (result : PolicyResult) (ts : list Turn) : Prop :=
  fair (request_frame PClient (CheckRequest key seq)) (response_frame PClient (CheckResponse result seq)) ts ∧
  0 < accepts ∧ 1 < fuel ∧ 0 < tries ∧ length ts < rounds ∧ length ts < cfuel ∧
  String.length (request_frame PClient (CheckRequest key seq)) < cfuel.

Lemma net_sends : 0 < accepts →
  sends_in_pieces net_poll netSend net_alive (λ s w, setInbox (net_inbox w +:+ s) w) accepts.
Proof.
  intros Ha. split; try done.
  - intros data w Hw. unfold netSend, net_send. by rewrite bool_decide_eq_true_2.
  - intros [? ? ? ? ?]. cbn. by rewrite str_app_nil_r.
  - intros s t [? ? ? ? ?]. cbn. by rewrite str_app_assoc.
Qed.

(** A request of a connected client is answered. *)
Lemma net_ask st s key seq result :
  attached st → (net_service (system_ st)).2 = s → answers s (net_link (system_ st)).1 key seq result →
  enough key seq result (net_turns (system_ st)) →
  ∃ c w, ask net_poll netSend netRecv rounds cfuel (CheckRequest key seq) st =
      (Ret (Some (CheckResponse result seq)), mkClientState c (m_cache st) (m_monitorCache st) (sequenceNumber st) w) ∧
    attached (mkClientState c (m_cache st) (m_monitorCache st) (sequenceNumber st) w) ∧
    net_link w = net_link (system_ st) ∧ (net_service w).2 = audited_state s key result.
Proof.
  intros (Hready & Hopen & Hprog & Halive & Hserv & Hin & Hout) Hs (Hdec & Hnew & Hreq & Hres) (Hfair & Ha & Hf & _ & Hr & Hcf & Hlen).
  set (w0 := system_ st) in *. set (w1 := setInbox (net_inbox w0 +:+ request_frame PClient (CheckRequest key seq)) w0).
  destruct (all_turns depth steps fuel (net_turns w0) w1) as [l w2] eqn:Hall.
  assert (exchanging steps (net_link w0) s key seq result "" w1) as Hx.
  { split; [done|]. split; [by rewrite <-Hs|]. left. exists (net_service w0).1, "". split_and!; try done.
    - cbn. by rewrite <-Hs, <-surjective_pairing.
    - cbn. by rewrite Hin.
    - cbn. rewrite Hin, str_app_nil_l. by destruct (request_frame _ _) eqn:Hz. }
  destruct (fair_exchange depth steps fuel (net_link w0) s key seq result Hf Hdec Hreq Hres Hnew _ _ _ _ Hfair Hall Hx) as (Hgot & Hx2 & Hopens & Hll).
  destruct (arrivals_of l Hopens) as (wakes & Hwakes & Hne & Hlw & Hpieces).
  pose proof (all_turns_delivers depth steps fuel (net_turns w0) w1 w1 eq_refl) as Hdel. rewrite Hall in Hdel. cbn [fst snd] in Hdel.
  rewrite (nothing_yet _ _ _ _ _ _ _ _ Hx2), Hwakes in Hdel.
  assert (fields (concat wakes) = response_frame PClient (CheckResponse result seq)) as Hfields.
  { rewrite <-gots_arrivals, <-Hwakes, gots_app, Hgot. apply str_app_nil_r. }
  destruct (ask_delivers net_poll netSend netRecv net_alive _ accepts (net_sends Ha) ltac:(done) PClient (CheckRequest key seq) wakes
    (CheckResponse result seq) "" cfuel rounds (m_socketClient st) w0 "" (setTurns [] w2) Halive Hreq Hres Hready Hne) as
    (c & w3 & used & rest & s' & Hask & Hready' & Ho & Hp & Hnil & _ & Hsplit & Hused & _); [| exact Hdel| |lia|done|].
  { by rewrite Hfields, str_app_nil_r. }
  { eapply Forall_impl; [exact Hpieces|]. cbn. lia. }
  exists c, w3. unfold ask, onSocketClient. fold w0. rewrite Hask. split; [done|].
  assert (s' = "" ∧ fields (concat rest) = "") as [-> Hrest].
  { apply (f_equal String.length) in Hnil. rewrite str_length_app in Hnil. cbn in Hnil. split; apply str_length_nil; lia. }
  pose proof (delivers_exchange depth steps fuel (net_link w0) s key seq result Hf Hdec Hreq Hres Hnew "" _ _ _ Hused Hx) as Hx3.
  rewrite gots_arrivals in Hx3. rewrite Hsplit, concat_app, fields_app, Hrest, str_app_nil_r in Hfields. rewrite Hfields in Hx3.
  destruct (exchanged_quiet _ _ _ _ _ _ _ Hx3) as (Hquiet & Hl & Hsv). split; [|done].
  split_and!; cbn; try done; by rewrite ?Ho, ?Hp.
Qed.

(** The client sees whether the service has closed the connection. *)
Lemma net_isConnected (sk : Socket) w : m_open sk = true → m_connectionInProgress sk = false →
  Socket_isConnected net_poll net_getsockopt (sk, w) = (Ret (bool_decide (net_alive w)), (sk, w)).
Proof.
  intros Ho Hp. unfold Socket_isConnected. rewrite SE_bind_eq. unfold socket_, gets. cbn [fst]. rewrite Hp, Ho. cbn [negb].
  rewrite SE_bind_eq. unfold getSocketError. rewrite SE_bind_eq. unfold system, net_getsockopt. cbn [mret SE_ret].
  change (negb (0 =? 0)%Z) with false. cbn iota. rewrite SE_bind_eq. unfold waitForSocket. rewrite SE_bind_eq. unfold system, net_poll.
  by case_bool_decide.
Qed.

Lemma isConnected_net st : m_open (m_socket (m_socketClient st)) = true → m_connectionInProgress (m_socket (m_socketClient st)) = false →
  connectedL st = (Ret (bool_decide (net_alive (system_ st))), st).
Proof.
  intros Ho Hp. unfold connectedL, isConnected, onSocketClient, SocketClient_isConnected, withSocket. rewrite net_isConnected by done.
  by destruct st as [[? ? ? ?] ? ? ? ?].
Qed.

Lemma attached_ensured st : attached st → ensureL st = (Ret true, st).
Proof.
  intros (_ & Ho & Hp & Halive & _). apply ensureConnection_ok. left.
  transitivity (@Ret bool (bool_decide (net_alive (system_ st))), st); [by apply isConnected_net|by rewrite bool_decide_eq_true_2].
Qed.

(** Connecting is accepting in the service. *)
Lemma net_connects st sm s l :
  client_ready (m_socketClient st) PClient "" → m_connectionInProgress (m_socket (m_socketClient st)) = false →
  net_service (system_ st) = (sm, s) →
  table_ok steps sm listening → m_fds sm !! listening = Some l → m_listen l = true → m_used l = true → m_client l = true →
  m_protocol l = Some PClient → (∀ d, m_fds sm !! next = Some d → m_used d = false) → next < FD_SETSIZE → next < steps →
  ∃ c w, connect (E:=E) (P:=CP) net_poll net_getsockopt net_socket netConnect st =
      (Ret true, mkClientState c (m_cache st) (m_monitorCache st) (sequenceNumber st) w) ∧
    attached (mkClientState c (m_cache st) (m_monitorCache st) (sequenceNumber st) w) ∧
    net_link w = linkOf s next ∧ (net_service w).2 = s ∧ net_turns w = net_turns (system_ st).
Proof.
  intros Hready Hp Hst Htab Hl Hlis Hu Hc Hpr Hfree Hn Hns.
  destruct (serving_accepted depth steps fuel listening next sm s l Htab Hl Hlis Hu Hc Hpr Hfree Hn Hns) as (sm' & Hrun & Hserv).
  destruct st as [[sk p h q] cache mc n w]. cbn in *. set (w' := mkNet (sm', s) (linkOf s next) "" "" (net_turns w)).
  assert (netConnect w = (Ret ConnectOk, w')) as Hcon by (unfold netConnect, net_connect; by rewrite Hst, Hrun).
  assert (net_alive w') as Halive by done.
  exists (mkSocketClient (setOpen true (Socket_close sk)) p h q), w'. split; [|split; [|done]].
  - unfold connect, onSocketClient, SocketClient_connect. cbn [m_socketClient system_]. rewrite SE_bind_eq. unfold withSocket.
    assert (Socket_connect net_poll net_getsockopt net_socket netConnect (sk, w) =
      (Ret CONNECTION_SUCCEEDED, (setOpen true (Socket_close sk), w'))) as Hsc.
    { unfold Socket_connect, createSocket, connectSocket. rewrite SE_bind_eq. unfold onSocket, modify. rewrite SE_bind_eq, SE_bind_eq.
      unfold system, net_socket. cbn [mret SE_ret]. rewrite SE_bind_eq, SE_bind_eq. cbn [modify]. rewrite Hcon. cbn [mret SE_ret].
      rewrite bool_decide_eq_true_2 by done. cbn [negb]. by rewrite SE_bind_eq, net_isConnected, bool_decide_eq_true_2. }
    cbn [m_socket m_clientProtocol m_clientHeader m_clientWriteQueue]. by rewrite Hsc.
  - destruct Hready as (Hpc & _ & Hqw & Hbw & Haw). split; [|by split_and!].
    split; [done|]. split; [|done]. split; [done|]. by split; [apply queue_ok_new|].
Qed.

(** The service is asked over a connection that is there. *)
Lemma net_result st s key result :
  let seq := ((sequenceNumber st + 1) mod 2 ^ 16)%Z in
  attached st → (net_service (system_ st)).2 = s → answers s (net_link (system_ st)).1 key seq result →
  enough key seq result (net_turns (system_ st)) →
  ∃ c w, requestResult net_poll net_getsockopt net_socket netConnect netSend netRecv tries rounds cfuel key st =
      (Ret (inr result), mkClientState c (m_cache st) (m_monitorCache st) seq w) ∧
    attached (mkClientState c (m_cache st) (m_monitorCache st) seq w) ∧
    net_link w = net_link (system_ st) ∧ (net_service w).2 = audited_state s key result.
Proof.
  intros seq Hatt Hs Hans Hen. set (st1 := mkClientState (m_socketClient st) (m_cache st) (m_monitorCache st) seq (system_ st)).
  destruct (net_ask st1 s key seq result Hatt Hs Hans Hen) as (c & w & Hask & Hatt' & Hl & Hs'). exists c, w. split; [|done].
  unfold requestResult, requestResponse, generateSequenceNumber. rewrite SE_bind_eq, SE_bind_eq, SE_bind_eq. cbn [modify gets]. fold seq st1.
  cbn [sequenceNumber st1]. destruct tries as [|tries'] eqn:Ht; [destruct Hen as (_ & _ & _ & ? & _); lia|].
  cbn [askAgain]. by rewrite SE_bind_eq, Hask.
Qed.

(** A check that the cache does not answer. *)
Lemma net_check_miss st st1 s session client_ user_ privilege_ result :
  let key := PolicyKey_of client_ user_ privilege_ in
  let seq := ((sequenceNumber st1 + 1) mod 2 ^ 16)%Z in
  ensureL st = (Ret true, st1) → attached st1 → cache_ok (m_cache st1) → lru_find (keyToString key) (lru (m_cache st1)) = None →
  (net_service (system_ st1)).2 = s → answers s (net_link (system_ st1)).1 key seq result →
  m_clientPlugins (m_cache st1) !! policyType result = Some NaiveInterpreter → enough key seq result (net_turns (system_ st1)) →
  ∃ st', net_check client_ session user_ privilege_ st = (Ret (naive_toResult result), st') ∧
    attached st' ∧ cache_ok (m_cache st') ∧ m_clientPlugins (m_cache st') = m_clientPlugins (m_cache st1) ∧
    net_link (system_ st') = net_link (system_ st1) ∧ (net_service (system_ st')).2 = audited_state s key result ∧
    (0 < m_capacity (m_cache st1) → ∃ l, lru (m_cache st') = (keyToString key, (result, session)) :: l).
Proof.
  intros key seq Hens Hatt Hok Hnone Hs Hans Hp Hen.
  destruct (net_result st1 s key result Hatt Hs Hans Hen) as (c & w & Hreq & Hatt' & Hl & Hs').
  destruct (cache_stores (m_cache st1) session key result Hok Hnone Hp) as (cache' & Hup & Hok' & Hps & Hlru).
  exists (withCache cache' (mkClientState c (m_cache st1) (m_monitorCache st1) seq w)). split; [|by split_and!].
  assert (m_keyValue (m_cache st1) !! keyToString key = None) as Habs.
  { rewrite lru_find_lookup in Hnone by done. by destruct (m_keyValue _ !! _). }
  unfold net_check, check. unfold ensureL in Hens. rewrite SE_bind_eq, Hens. cbn [negb]. rewrite SE_bind_eq, onCache_eq. fold key.
  rewrite (cache_get_absent _ session key Habs). cbn [fst snd]. rewrite Z.eqb_refl. cbn [negb].
  assert (withCache (m_cache st1) st1 = st1) as -> by (by destruct st1).
  rewrite SE_bind_eq, Hreq, SE_bind_eq. cbn [updateMonitor negb mret SE_ret]. rewrite onCache_eq. cbn [m_cache]. by rewrite Hup.
Qed.

(** A check that the cache answers: nothing is sent. *)
Lemma net_check_hit st session prev client_ user_ privilege_ result l :
  let key := PolicyKey_of client_ user_ privilege_ in
  attached st → cache_ok (m_cache st) → lru (m_cache st) = (keyToString key, (result, prev)) :: l →
  m_clientPlugins (m_cache st) !! policyType result = Some NaiveInterpreter →
  ∃ c, net_check client_ session user_ privilege_ st = (Ret (naive_toResult result), withCache c st).
Proof.
  intros key Hatt Hok Hl Hplug. destruct (cache_answers (m_cache st) session prev key result l Hok Hl Hplug) as (c & Hget).
  pose proof (attached_ensured st Hatt) as Hens. unfold ensureL in Hens.
  exists c. unfold net_check, check. rewrite SE_bind_eq, Hens. cbn [negb]. rewrite SE_bind_eq, onCache_eq. fold key. rewrite Hget. cbn [fst snd].
  assert (naive_toResult result ≠ CYNARA_API_CACHE_MISS) as Hm by (unfold naive_toResult; by case_match).
  apply Z.eqb_neq in Hm. rewrite Hm. cbn [negb]. by rewrite SE_bind_eq.
Qed.

(** C4: A check through client, network and service: a client that has a connection and no cached
    result asks, and whatever the pieces in which the bytes travel and whatever the order of the
    turns, as long as they are fair, the check returns the decision of the service's storage, and
    client and service are ready for the next one.  After that the cache answers the same check
    in any session, and the service is sent nothing. *)
Theorem check_end_to_end st s session client_ user_ privilege_ result :
  let key := PolicyKey_of client_ user_ privilege_ in
  let seq := ((sequenceNumber st + 1) mod 2 ^ 16)%Z in
  attached st → (net_service (system_ st)).2 = s → cache_ok (m_cache st) → lru_find (keyToString key) (lru (m_cache st)) = None →
  answers s (net_link (system_ st)).1 key seq result → m_clientPlugins (m_cache st) !! policyType result = Some NaiveInterpreter →
  enough key seq result (net_turns (system_ st)) →
  ∃ st', net_check client_ session user_ privilege_ st = (Ret (naive_toResult result), st') ∧
    attached st' ∧ cache_ok (m_cache st') ∧ (net_service (system_ st')).2 = audited_state s key result ∧
    (0 < m_capacity (m_cache st) →
     ∀ session', ∃ c, net_check client_ session' user_ privilege_ st' = (Ret (naive_toResult result), withCache c st')).
Proof.
  intros key seq Hatt Hs Hok Hnone Hans Hp Hen.
  pose proof (attached_ensured st Hatt) as Hens.
  destruct (net_check_miss st st s session client_ user_ privilege_ result Hens Hatt Hok Hnone Hs Hans Hp Hen)
    as (st' & Hrun & Hatt' & Hok' & Hps & _ & Hs' & Hlru).
  exists st'. split_and!; try done. intros [l Hl]%Hlru session'. eapply net_check_hit; [done..|]. by rewrite Hps.
Qed.

(** Closing the connections of the clients closes the one that an attached client has. *)
Lemma attached_closed st sm s sm' s' : attached st → net_service (system_ st) = (sm, s) →
  onPoliciesChanged (sm, s) = (Ret tt, (sm', s')) → ~ net_alive (setNetService (sm', s') (system_ st)).
Proof.
  intros (_ & _ & _ & Halive & ((_ & _ & Hle & _) & d & Hd & Hdl & Hdu & Hdc & _) & _) Hst Hchange.
  unfold net_alive in *. cbn. rewrite Hst in *. cbn [fst snd] in *.
  destruct (proj2 (proj2 (policies_changed_slot sm s sm' s' Hchange)) _ d Hle Hd) as (d' & _ & _ & Hc).
  assert (client_slot (shape d) = true) as Hct by (unfold client_slot, shape; by rewrite Hdl, Hdu, Hdc). rewrite Hct in Hc.
  intros Halive'. rewrite <-Halive in Halive' at 2. rewrite (linkOf_closed_at sm'), (linkOf_closed_at sm), Hc in Halive'.
  injection Halive' as Hn. lia.
Qed.

(** C14: A change of the policies reaches the client: after [onPoliciesChanged] the next check of an
    idle client finds its connection closed, drops every cached result, connects again and
    returns the decision of the new storage, whatever the cache held before. *)
Theorem revocation_reaches_client st sm s sm' s' l session client_ user_ privilege_ result :
  let key := PolicyKey_of client_ user_ privilege_ in
  let seq := ((sequenceNumber st + 1) mod 2 ^ 16)%Z in
  attached st → net_service (system_ st) = (sm, s) → (cache_clear (m_cache st)).1 = Ret tt →
  onPoliciesChanged (sm, s) = (Ret tt, (sm', s')) →
  table_ok steps sm' listening → (Z.of_nat listening ≤ m_maxDesc sm)%Z → m_fds sm !! listening = Some l →
  m_listen l = true → m_used l = true → m_client l = true → m_protocol l = Some PClient →
  (∀ d, m_fds sm' !! next = Some d → m_used d = false) → next < FD_SETSIZE → next < steps →
  answers s' next key seq result → m_clientPlugins (m_cache st) !! policyType result = Some NaiveInterpreter →
  enough key seq result (net_turns (system_ st)) →
  ∃ st', net_check client_ session user_ privilege_ (withSystem (setNetService (sm', s') (system_ st)) st) =
      (Ret (naive_toResult result), st') ∧
    attached st' ∧ cache_ok (m_cache st') ∧ net_link (system_ st') = linkOf s' next ∧
    (net_service (system_ st')).2 = audited_state s' key result.
Proof.
  intros key seq Hatt Hst Hclear Hchange Htab Hlm Hl Hll Hlu Hlc Hlp Hfree Hn Hns Hans Hplug Hen.
  destruct (proj2 (proj2 (policies_changed_slot sm s sm' s' Hchange)) listening l Hlm Hl) as (l' & Hl' & Hshape & _).
  assert (client_slot (shape l) = false) as Hc by (unfold client_slot, shape; by rewrite Hll, andb_false_r).
  unfold closed_slot in Hshape. rewrite Hc in Hshape. injection Hshape as Hl1 Hl2 Hl3 Hl4.
  set (w1 := setNetService (sm', s') (system_ st)). set (st1 := withSystem w1 st).
  pose proof (attached_closed st sm s sm' s' Hatt Hst Hchange) as Hdead. destruct Hatt as (Hready & Ho & Hpr & _).
  set (c2 := (cache_clear (m_cache st)).2). set (st2 := withCache c2 st1).
  destruct (net_connects st2 sm' s' l') as (c & w & Hcon & Hatt3 & Hlink & Hs & Hts); [done..|congruence|congruence|congruence|congruence|done|done|done|].
  set (st3 := mkClientState c (m_cache st2) (m_monitorCache st2) (sequenceNumber st2) w) in *.
  assert (ensureL st1 = (Ret true, st3)) as Hens.
  { apply ensureConnection_ok. right. exists st1, st2. split_and!; [|unfold onDisconnected; rewrite onCache_eq; by rewrite <-Hclear|exact Hcon].
    transitivity (@Ret bool (bool_decide (net_alive (system_ st1))), st1); [by apply isConnected_net|by rewrite bool_decide_eq_false_2]. }
  destruct (cache_clear_entries (m_cache st)) as [Hok Hlru].
  destruct (net_check_miss st1 st3 s' session client_ user_ privilege_ result Hens Hatt3 Hok) as (st' & Hrun & Hatt' & Hok' & _ & Hlk & Hs' & _); try done.
  - change (m_cache st3) with (cache_clear (m_cache st)).2. unfold lru_find. by rewrite Hlru.
  - cbn. by rewrite Hlink.
  - cbn. unfold c2. by rewrite plugins_after_clear.
  - cbn. by rewrite Hts.
  - exists st'. split_and!; try done. by rewrite Hlk.
Qed.
End client.

(** ** Runs *)

(** The sockets of ServiceDemo.v, with a socket for clients in the first slot. *)
Definition demo_listening : Descriptor :=
  mkDescriptor true true true (Some PClient) (ProtocolFrameHeader_new BinaryQueue_new) BinaryQueue_new "".
Definition deployed_sockets : SocketManager :=
  mkSocketManager true 3 [demo_listening; demo_connection PClient; demo_connection PAgent; demo_connection PAdmin] {[0; 1; 2; 3]} ∅.
(** Pieces of seven bytes to the service, of five from it, of three to the client; then the same again. *)
Definition demo_turns : list Turn :=
  replicate 60 (ServiceReads 7) ++ replicate 60 (ServiceWrites 5) ++ replicate 60 (ClientReads 3).

Abbreviation DemoNet := (Net unit unit InMemoryStorageBackend (option InMemoryStorageBackend)) (only parsing).
Definition demo_net (s : DemoService) : DemoNet := mkNet (deployed_sockets, s) (linkOf s 1) "" "" demo_turns.
Definition demo_client (cache : CapacityCache Empty_set unit) (w : DemoNet) : ClientState Empty_set unit DemoNet :=
  mkClientState example_client cache MonitorCache_new 0 w.
Definition demo_clock : SE DemoNet (option timespec) := mret None.
Definition empty_cache : CapacityCache Empty_set unit := m_cache (Logic_new (E:=Empty_set) 10 [] tt tt).
Definition demo_check := net_check (E:=Empty_set) (CP:=unit) 5 10 5 4 0 1 2 200 200 demo_clock "app" "session" "user" "camera".

Lemma deployed_table : table_ok 10 deployed_sockets 1.
Proof.
  split; [split; [done|]|unfold FD_SETSIZE; cbn; lia]. intros [|[|[|[|fd]]]] d Hd Hu; cbn in Hd; simplify_eq; done.
Qed.

Lemma demo_attached cache s : attached 10 (demo_client cache (demo_net s)).
Proof.
  split; [apply example_client_ready|]. split; [done|]. split; [done|]. split; [done|].
  split; [|done]. split; [apply deployed_table|].
  exists (demo_connection PClient). split_and!; try done. by intros [].
Qed.

Lemma demo_enough result : String.length (response_frame PClient (CheckResponse result 1)) ≤ 60 →
  enough 5 4 2 200 200 camera_key 1 result demo_turns.
Proof.
  intros Hr. split; [|split_and!; try lia; vm_compute; lia].
  eexists _, _, _. split; [reflexivity|]. split_and!; [vm_compute; lia|etransitivity; [exact Hr|vm_compute; lia]..].
Qed.

Lemma check_end_to_end_witness : ∃ st',
  demo_check (demo_client empty_cache (demo_net demo_service)) = (Ret CYNARA_API_ACCESS_ALLOWED, st') ∧
  ∃ c, demo_check st' = (Ret CYNARA_API_ACCESS_ALLOWED, withCache c st').
Proof.
  destruct (check_end_to_end (E:=Empty_set) (CP:=unit) 5 10 5 4 0 1 2 200 200 demo_clock (demo_client empty_cache (demo_net demo_service))
    demo_service "session" "app" "user" "camera" (PolicyResult_of ALLOW)) as (st' & Hrun & _ & _ & _ & Hagain).
  - apply demo_attached.
  - reflexivity.
  - apply (cache_clear_entries empty_cache).
  - vm_compute. reflexivity.
  - split_and!; [split; [vm_compute; reflexivity|by left]|vm_compute; reflexivity|decide_by_compute|decide_by_compute].
  - vm_compute. reflexivity.
  - apply demo_enough. vm_compute. lia.
  - exists st'. split; [exact Hrun|]. apply Hagain. vm_compute. lia.
Defined.

(** The client remembers that the camera was allowed; now it is denied. *)
Definition allowed_cache : CapacityCache Empty_set unit := (cache_update "session" camera_key (PolicyResult_of ALLOW) empty_cache).2.
Definition denying_service : DemoService :=
  setStorage (insertPolicies [("", [simpleWithKey (PolicyKey_of "app" "*" "camera") DENY])] demo_service_base).2 demo_service.
Definition revoked : SocketManager * DemoService := (onPoliciesChanged (deployed_sockets, denying_service)).2.

Lemma revoked_slots : m_fds revoked.1 = [demo_listening; Descriptor_new; demo_connection PAgent; demo_connection PAdmin].
Proof. vm_compute. reflexivity. Qed.

Lemma revoked_table : table_ok 10 revoked.1 0.
Proof.
  assert (m_maxDesc revoked.1 = 3%Z) as Hmax by (vm_compute; reflexivity).
  split; [split; rewrite revoked_slots, ?Hmax; [done|]|rewrite Hmax; unfold FD_SETSIZE; cbn; lia].
  intros [|[|[|[|fd]]]] d Hd Hu; cbn in Hd; simplify_eq; done.
Qed.

Lemma revocation_reaches_client_witness :
  (demo_check (demo_client allowed_cache (demo_net denying_service))).1 = Ret CYNARA_API_ACCESS_ALLOWED ∧
  ∃ st', demo_check (withSystem (setNetService (revoked.1, revoked.2) (demo_net denying_service)) (demo_client allowed_cache (demo_net denying_service))) =
    (Ret CYNARA_API_ACCESS_DENIED, st').
Proof.
  split; [vm_compute; reflexivity|].
  destruct (revocation_reaches_client (E:=Empty_set) (CP:=unit) 5 10 5 4 0 1 2 200 200 demo_clock
    (demo_client allowed_cache (demo_net denying_service)) deployed_sockets denying_service revoked.1 revoked.2 demo_listening "session"
    "app" "user" "camera" (PolicyResult_of DENY)) as (st' & Hrun & _).
  - apply demo_attached.
  - reflexivity.
  - vm_compute. reflexivity.
  - rewrite <-!surjective_pairing. unfold revoked. vm_compute. reflexivity.
  - apply revoked_table.
  - cbn. lia.
  - reflexivity.
  - reflexivity.
  - reflexivity.
  - reflexivity.
  - reflexivity.
  - rewrite revoked_slots. intros d [= <-]. reflexivity.
  - unfold FD_SETSIZE. lia.
  - lia.
  - split_and!; [split; [vm_compute; reflexivity|by right]|vm_compute; reflexivity|decide_by_compute|decide_by_compute].
  - vm_compute. reflexivity.
  - apply demo_enough. vm_compute. lia.
  - exists st'. exact Hrun.
Defined.
